(* ===== verification/_CoqProject ===== *)
-Q . S2P
Prelude.v
GoLib.v
GoUtf8.v
GoRand.v
GoTime.v
GoCrypto.v
Config.v
Heap.v
HeapSpec.v
Validate.v
ValidateSpec.v
Engine.v
EngineSpec.v
Decode.v
DecodeSpec.v
Load.v
LoadSpec.v
NetSpec.v
NormalSpec.v
RoundTrip.v
Control.v
ControlSpec.v
Recorder.v
RecorderSpec.v
Store.v
StoreSpec.v
Admin.v
AdminSpec.v
Remote.v
RemoteSpec.v
RestartSpec.v
Grpc.v
GoIO.v
TlsConf.v
Listeners.v
ListenersSpec.v
TlsSpec.v
Main.v
MainSpec.v
ServeLoop.v
Fault.v
FaultSpec.v
BodyClose.v
Adapter.v
Samples.v
Http.v
HttpSpec.v
HttpLife.v
PgWire.v
PgSession.v
PgSpec.v
PgServe.v
MysqlWire.v
MysqlSession.v
MysqlSpec.v
MysqlServe.v
Pump.v
PumpSpec.v
SessionBytes.v
Tcp.v
TcpSpec.v
Payment.v
Unary.v
Witnesses.v
LoadWitnesses.v
RemoteWitnesses.v
RestartWitnesses.v
HttpWitnesses.v
SystemWitnesses.v
