(* ===== verification/Prelude.v ===== *)
(** * Faultline: a verification library

    Faultline is a fault-injecting proxy written in Go. A YAML configuration
    names proxies (HTTP/1, HTTP/2, gRPC, PostgreSQL, MySQL, TCP) and, for each,
    rules: which traffic is eligible, which attempts are selected, which fault is
    applied. The parts, and how they meet:

    - [internal/config] decodes strict YAML from a root file and its includes,
      validates it into an immutable Document, and encodes it again;
    - [internal/engine] turns a Document into counters and seeded generators and
      answers Decide;
    - [internal/control] publishes the active document and engine as snapshots,
      and changes them atomically at run time; [control/admin] serves that over a
      Unix socket, [control/remote] over HTTPS with accounts, sessions, an audit
      trail and a data directory that survives crashes;
    - [internal/proxy/...], one adapter per protocol, listens, takes a snapshot per
      flow, asks it for a decision, applies the fault and forwards the rest;
    - [internal/fault] executes HTTP faults and shapes bodies;
    - [internal/recorder] counts and writes the events of every flow;
    - [cmd/faultline] starts and stops all of these.

    ** Files

    A file [X] holds data and operations, [XSpec] its theorems.

    - Prelude (this file): the error monad [res] with its notations, tactics,
      hints, generic lemmas on bytes, lists and machine integers.
    - GoLib, GoUtf8, GoRand, GoTime, GoCrypto, GoIO: the parts of the Go library
      the program computes with: string and byte functions, strconv, host/port
      splitting; UTF-8 decoding and Unicode white space; SHA-256, PCG and float64;
      ParseDuration; HMAC, PBKDF2 and hex; errors, contexts, the io.Reader contract
      as a class ([Reader]) whose laws are what the documentation of io.Reader
      says, ReadFull and short writes. They are executable and checked on examples.
    - Config, Validate (config.go, capabilities.go, validate.go, tls.go): the
      structs as records, pointers as options; every validator as a function to
      [res FieldError], with a validator that writes through its pointer returning
      the new value. Files, URLs, IP addresses and certificates are the record
      [Env]. ValidateSpec states the accepted rows as inductive tables. A map that
      may be nil (the headers of a match) is an option of a map; lists stand for
      slices, since validation leaves none of those that are compared or encoded nil.
    - Heap (config.go again, with pointers): cloneConfig, the Clone methods,
      newDocument and Document.Config on a store of cells, slices and maps. HeapSpec
      proves what they share and what they do not, and that they compute the values
      of Config.
    - Decode, Load (parse.go, load.go, encode.go): decodeNode by recursion on the
      node over a universe of Go types ([GoType]) that stands for reflection; Load
      with its includes and error attribution; Parse; Encode. The YAML library is
      the class [Yaml], the file system the record [Files]. NetSpec and NormalSpec
      show that validating a validated configuration changes nothing; RoundTrip
      composes decoding, validation and encoding over whole documents.
    - Engine (engine.go): per-rule state, Decide, matching; the schedule a selector
      prescribes, as a pure function.
    - Control (service.go): a heap of revisions that snapshots point into, so that
      a decision through an old snapshot updates the engine that snapshot shares;
      operations as labels of a step function.
    - Recorder (recorder.go): Record, the writer goroutine and Close as atomic
      steps, composed in any order.
    - Store (remote/store.go, auth.go): the data directory as live and crash states
      of its files, atomicFile, save with poisoning, Open, Configure, accounts.
      JSON is the class [Json], system calls answer through records. RestartSpec
      composes it with Encode and Parse.
    - Admin (admin/server.go, status.go), Remote (remote/server.go): the request
      handlers. RemoteSpec has the abstract specification of a managed instance,
      a [Ledger] of revision, fingerprint, injection state and audit trail with its
      step relation [lstep], and the simulation relation [represents].
    - TlsConf (proxy/http/tls.go, transport.go, prepare of the database servers)
      and Listeners (Start, accept, track, Shutdown and Close of the four servers,
      with the slots of the HTTP handler): one labelled step function for the four
      packages. TlsSpec composes them with loading.
    - Main (cmd/faultline, admin/client.go): run, the commands, and the life of a
      serving process as a trace. ServeLoop: the serving goroutines, the error
      channel and Close of the two control servers, as atomic steps.
    - Grpc (proxy/grpc/protocol.go): request classification, deadlines.
    - Fault (fault/executor.go, builtin.go, body.go): Execute over the class
      [Capabilities]; truncated and throttled bodies over [Reader]. BodyClose:
      any number of Reads and a Close of one body, over its mutex and its context, with
      reads of the source that overlap its Close.
    - Adapter: the interface between an adapter and runtime control (the classes
      [Decisions] and [DecisionsOk], with a rely relation for what other goroutines
      may do), its instance for the control service, the events adapters build and
      the grammar of their records.
    - Http (proxy/http/handler.go): ServeHTTP with its closures, deferred calls and
      events; the flow is an instance of [Capabilities]. What net/http, the reverse
      proxy and the network do is the record [Exchange]; other goroutines may act on
      the service between the snapshot and the decision. HttpLife: the deadline of
      the connection, the callback of the request's context, the goroutine that
      discards a withheld upload and the deferred functions, as atomic steps.
    - PgWire, PgSession, PgServe (proxy/postgresql/wire.go, session.go, the
      cancel-key registry of server.go); MysqlWire, MysqlSession, MysqlServe
      (proxy/mysql/wire.go, auth.go, session.go): framing, authentication relays,
      command loops, and whole connections composed of them. The PostgreSQL loop
      consumes a sequence of inputs in any order; the MySQL loop is a state and
      error monad over a connection. Pump: the goroutines that read frames into a
      channel of one, the loop that receives from it and the deferred function that
      cancels, closes both connections and waits for the pumps (both packages); PumpSpec and
      SessionBytes compose them with the loops, down to the bytes of the sockets.
    - Tcp (proxy/tcp/server.go): the fault controller, both pumps at the
      granularity of their shared accesses (the write, the count and the activation
      are steps of their own), timers, and the records of serve.
    - Payment, Unary (examples/http/paymentdemo, examples/grpc/unary): the payment
      service with its idempotency keys and the demonstration run against it; the
      gRPC echo service and its method handler.
    - Samples and the files named Witnesses: concrete documents, services,
      sessions and runs at which the hypotheses of the theorems hold.

    ** What the theorems show

    - Configuration: [validateFault] and [validateTCPRule] accept exactly the
      tables, acceptance does not depend on map order, and an accepted
      configuration is well formed; Load never panics, what it returns is valid
      with unique IDs over all files, errors name the right file and field,
      decoding is strict, and parsing what Encode wrote gives a document of UTF-8
      strings back, but for the nil headers of a TCP match, which come back as an
      empty map. A
      document shares no memory with what callers hold, and the clones compute
      the value the functional model does.
    - Engine: matching meets its specification, no call panics on a validated
      document, and the decisions of a rule are exactly its replayable schedule,
      whatever other rules do.
    - Control: a failed apply changes nothing, a successful one was against the
      expected revision and persisted first, two applies against one revision
      conflict, snapshots keep their document, the counters count the changes,
      restart-only settings never change.
    - Managed instances: the server and its directory refine the ledger under
      every sequence of requests and failing saves; only an authorised editor
      changes the service, with an audit entry already durable; a crash leaves
      the old or the new state, reopening finds it, and a restart serves the
      configuration that was saved; sessions, audit and logins stay bounded;
      accounts verify the password they were given.
    - Admin control: the handler changes the service only as asked, and the
      client's commands are carried out.
    - Recorder: no event is lost uncounted, the sink sees recording order, memory
      is bounded, Close is clean and terminates.
    - Faults: execution order and durations, truncation at exactly the configured
      byte, throttling that loses nothing, a Close that joins the Read it
      interrupts and returns.
    - HTTP and gRPC: every request is served to an end with a complete, consistent
      record; an admitted request that no rule selects is transparent, a failed RPC
      being reported as such, a respond fault answers by itself, a
      fault on the response loses it wholly, overload is refused before any
      decision; a request leaves neither a deadline on the connection nor a
      goroutine, and its handler is never stuck.
    - PostgreSQL and MySQL: the loops never panic against any service that meets
      the interface, they forward unchanged, their records are well bracketed,
      decisions are made on confirmed commits only, and an applied close or hold
      withholds exactly the acknowledgement of the commit; whole connections
      exchange frames only after a complete admission; cancel requests stay
      within their listener; frames decode exactly; under every interleaving of
      the pumps the bytes of the two sockets are those of the frames the loops
      took and sent, and the loop returns only when both pumps have, within a bounded
      number of steps of its own and theirs.
    - TCP: bytes are a counted prefix in order under every interleaving, the
      fault applies at most once, and a byte trigger activates at exactly its byte,
      in the steps of the pump that sent it.
    - gRPC: classification is exact and deadlines survive the header.
    - Servers: what Load accepts starts, but for obstacles outside it that the theorem
      lists (a bind, the system's certificates, a CA file that certificate loading
      reads otherwise than validation did); starts are all or nothing; flows stay
      within their limits, error reports never block, a shutdown is silent, Close
      returns and leaves nothing behind, for listeners and control servers alike.
    - Examples: a retry with the same idempotency key pays once, and the
      demonstration counts what it says.
    - Process: no command panics, ready is recorded only while every server, and in
      managed mode the API, listens, and whatever fails, what was opened is closed
      and nothing is recorded after the recorder is closed.

    ** Conventions

    Integers are [Z] with [u64], [i64] and the like where the code's width
    matters; strings are byte strings; a Go panic (nil dereference, slice out of
    range, division by zero) is [None] of the enclosing option (the constructor
    [Panic] of [failure] in the loader), and theorems that a call returns exclude
    it. Time is a number of nanoseconds. Nondeterminism (scheduling, network and
    system call results, random flow IDs, the clock) is input: labels, input lists
    or answer records, over which the theorems quantify. A write of a frame that
    fails ends its session, and is taken to deliver nothing of the frame.

    Fuel appears where a loop is not structural: [GoIO.read_full] (the bytes
    wanted and the source's patience for empty reads, proved enough),
    [Engine.path_loop] and the PEM loops [Validate.ca_loop] and
    [TlsConf.append_certs] (the length of the remaining text, each turn consuming
    some), [MysqlSession.result_rows] (the packets still queued; one more than
    their number), [GoUtf8.decode_fuel], [GoTime]'s duration loop and
    [Grpc.format_digits] (the length of the input, the number of digits).

    ** Not modelled

    Third-party and library code is a parameter with its documented laws: the YAML
    parser and emitter, JSON, x509 and PEM, url.Parse, the flag package, net/http's
    server, transport and reverse proxy, gRPC, the database drivers, the operating
    system. The timeouts of http.Server appear through their effects: a context that
    ends, a failed read or write. Left out are the embedded UI files, messages on
    standard error, and the command lines of the example programs, which only parse
    flags, start a server or call a driver. *)

From coqutil Require Export Byte.
From coqutil Require Import Word.LittleEndianList.
From stdpp Require Export base strings list pretty numbers gmap.

#[global] Set Default Proof Using "Type".
#[global] Open Scope string_scope.
#[global] Open Scope list_scope.
#[global] Open Scope Z_scope.

(** ** Results: Go's [(value, error)] returns where the value is unused on error *)

Inductive res (E A : Type) : Type :=
| Ok (a : A)
| Err (e : E).
Arguments Ok {E A} a.
Arguments Err {E A} e.

#[export] Instance res_ret {E} : MRet (res E) := λ A a, Ok a.
#[export] Instance res_bind {E} : MBind (res E) := λ A B f m,
  match m with Ok a => f a | Err e => Err e end.
#[export] Instance res_fmap {E} : FMap (res E) := λ A B f m,
  match m with Ok a => Ok (f a) | Err e => Err e end.

Definition is_ok {E A} (r : res E A) : bool :=
  match r with Ok _ => true | Err _ => false end.

(** [guard_err b e]: the early return [if b { return e }]. *)
Definition guard_err {E} (b : bool) (e : E) : res E unit :=
  if b then Err e else Ok tt.

Declare Scope go_scope.
Delimit Scope go_scope with go.
Notation "'fail_if' b 'with' e ;; k" :=
  (mbind (M := res _) (λ _ : unit, k) (guard_err b e))
  (at level 100, b at level 99, e at level 99, right associativity,
   format "'fail_if'  b  'with'  e  ;;  '/' k") : go_scope.

Lemma res_bind_Ok {E A B} (m : res E A) (f : A → res E B) b :
  (m ≫= f) = Ok b ↔ ∃ a, m = Ok a ∧ f a = Ok b.
Proof. destruct m; simpl; split; [intros ?; eauto|intros (?&?&?)|done|intros (?&?&?)]; congruence. Qed.

Lemma guard_err_Ok {E} b (e : E) u : guard_err b e = Ok u ↔ b = false.
Proof. by destruct b, u. Qed.

Lemma guard_bind_Ok {E B} b (e : E) (f : unit → res E B) x :
  (guard_err b e ≫= f) = Ok x ↔ b = false ∧ f tt = Ok x.
Proof. destruct b; simpl; split; [done|intros [??]|done|intros [??]]; done. Qed.

(** ** Machine integers: a w-bit integer is a [Z] with its wrap-around written out *)

Definition wrap (w z : Z) : Z := z mod 2 ^ w.
Definition u8 (z : Z) : Z := wrap 8 z.
Definition u16 (z : Z) : Z := wrap 16 z.
Definition u32 (z : Z) : Z := wrap 32 z.
Definition u64 (z : Z) : Z := wrap 64 z.
(** Two's complement: the [int64] with the same low 64 bits. *)
Definition i64 (z : Z) : Z := (z + 2 ^ 63) mod 2 ^ 64 - 2 ^ 63.
Definition max_i64 : Z := 2 ^ 63 - 1.

Lemma wrap_range w z : 0 ≤ w → 0 ≤ wrap w z < 2 ^ w.
Proof. intros. apply Z.mod_pos_bound, Z.pow_pos_nonneg; lia. Qed.
Lemma wrap_small w z : 0 ≤ z < 2 ^ w → wrap w z = z.
Proof. apply Z.mod_small. Qed.
Lemma u64_small z : 0 ≤ z < 2 ^ 64 → u64 z = z.
Proof. apply wrap_small. Qed.
Lemma u64_range z : 0 ≤ u64 z < 2 ^ 64.
Proof. by apply wrap_range. Qed.
Lemma u32_small z : 0 ≤ z < 2 ^ 32 → u32 z = z.
Proof. apply wrap_small. Qed.
Lemma u64_add_l a b : u64 (u64 a + b) = u64 (a + b).
Proof. apply Z.add_mod_idemp_l. lia. Qed.
Lemma u64_sub_l a b : u64 (u64 a - b) = u64 (a - b).
Proof. apply Zminus_mod_idemp_l. Qed.
Lemma u64_shift a b k : u64 a = u64 b → u64 (a + k) = u64 (b + k).
Proof. intros H. by rewrite <- (u64_add_l a), H, u64_add_l. Qed.
Lemma u64_idem a : u64 (u64 a) = u64 a.
Proof. apply Z.mod_mod. lia. Qed.
Lemma u64_add_r a b : u64 (a + u64 b) = u64 (a + b).
Proof. apply Z.add_mod_idemp_r. lia. Qed.
Lemma u64_sum3 a b c : u64 (u64 a + u64 b + u64 c) = u64 (a + b + c).
Proof.
  rewrite u64_add_r, <- u64_add_l, u64_add_r, u64_add_l, <- Z.add_assoc, u64_add_l. by rewrite Z.add_assoc.
Qed.
Lemma u64_succ_ne x : u64 (x + 1) ≠ x.
Proof.
  intros E. pose proof (u64_range (x + 1)) as Hr. rewrite E in Hr.
  destruct (Z.eq_dec x (2 ^ 64 - 1)) as [->|].
  - vm_compute in E. done.
  - rewrite u64_small in E by lia. lia.
Qed.
Lemma i64_small z : - 2 ^ 63 ≤ z < 2 ^ 63 → i64 z = z.
Proof. intros. unfold i64. rewrite Z.mod_small; lia. Qed.
Lemma i64_range z : - 2 ^ 63 ≤ i64 z < 2 ^ 63.
Proof.
  unfold i64. pose proof (Z.mod_pos_bound (z + 2 ^ 63) (2 ^ 64) ltac:(lia)). lia.
Qed.

(** ** Byte order (encoding/binary) *)

Definition bytes := list Init.Byte.byte.

Definition le_uint (bs : bytes) : Z := le_combine bs.
Definition be_uint (bs : bytes) : Z := le_combine (rev bs).
Definition le_bytes (n : nat) (z : Z) : bytes := le_split n z.
Definition be_bytes (n : nat) (z : Z) : bytes := rev (le_split n z).

Lemma length_le_bytes n z : length (le_bytes n z) = n.
Proof. apply length_le_split. Qed.
Lemma length_be_bytes n z : length (be_bytes n z) = n.
Proof. unfold be_bytes. rewrite length_rev. apply length_le_split. Qed.
Lemma le_uint_bytes n z : le_uint (le_bytes n z) = wrap (Z.of_nat n * 8) z.
Proof. apply le_combine_split. Qed.
Lemma be_uint_bytes n z : be_uint (be_bytes n z) = wrap (Z.of_nat n * 8) z.
Proof. unfold be_uint, be_bytes. rewrite rev_involutive. apply le_combine_split. Qed.
Lemma le_bytes_uint bs : le_bytes (length bs) (le_uint bs) = bs.
Proof. apply split_le_combine. Qed.
Lemma be_bytes_uint bs : be_bytes (length bs) (be_uint bs) = bs.
Proof.
  unfold be_uint, be_bytes. rewrite <- length_rev, split_le_combine.
  apply rev_involutive.
Qed.
Lemma le_uint_range bs : 0 ≤ le_uint bs < 2 ^ (8 * Z.of_nat (length bs)).
Proof. apply le_combine_bound. Qed.
Lemma be_uint_range bs : 0 ≤ be_uint bs < 2 ^ (8 * Z.of_nat (length bs)).
Proof. unfold be_uint. rewrite <- length_rev. apply le_combine_bound. Qed.

(** A Go string used as bytes and back. *)
Definition of_string (s : string) : bytes := String.list_byte_of_string s.
Definition to_string (b : bytes) : string := String.string_of_list_byte b.

Lemma to_of_string s : to_string (of_string s) = s.
Proof. apply String.string_of_list_byte_of_string. Qed.
Lemma of_to_string b : of_string (to_string b) = b.
Proof. apply String.list_byte_of_string_of_list_byte. Qed.

(** String comparison as in Go's [==], kept folded by [simpl]. *)
Definition str_eq (a b : string) : bool := String.eqb a b.
Arguments str_eq : simpl never.
Notation "a =s b" := (str_eq a b) (at level 70, no associativity) : go_scope.

Lemma str_eq_true a b : str_eq a b = true ↔ a = b.
Proof. apply String.eqb_eq. Qed.
Lemma str_eq_false a b : str_eq a b = false ↔ a ≠ b.
Proof. apply String.eqb_neq. Qed.
Lemma str_eq_refl a : str_eq a a = true.
Proof. apply String.eqb_refl. Qed.

#[export] Instance byte_eq_dec : EqDecision Init.Byte.byte := Byte.byte_eq_dec.

(** ** Automation shared by the components *)

Create HintDb faultline.
#[export] Hint Resolve u64_range : faultline.
#[export] Hint Rewrite @res_bind_Ok @guard_bind_Ok @guard_err_Ok : res_ok.

(** Split every [match]/[if] of the goal and of the hypotheses. *)
Ltac split_matches := repeat (case_match; simplify_eq/=; try done).

(** Open a successful result computed with [fail_if] and binds. *)
Ltac open_ok H :=
  repeat first
    [ rewrite guard_bind_Ok in H; let H' := fresh "Hg" in destruct H as [H' H]
    | let x := fresh "x" in let H' := fresh "Hb" in
      rewrite res_bind_Ok in H; destruct H as (x & H' & H) ].

Ltac bool_hyps :=
  repeat match goal with
  | H : negb _ = true |- _ => apply negb_true_iff in H
  | H : negb _ = false |- _ => apply negb_false_iff in H
  | H : (_ && _)%bool = true |- _ => apply andb_true_iff in H; destruct H
  | H : (_ || _)%bool = false |- _ => apply orb_false_iff in H; destruct H
  | H : bool_decide _ = true |- _ => apply bool_decide_eq_true in H
  | H : bool_decide _ = false |- _ => apply bool_decide_eq_false in H
  | H : (_ <=? _) = true |- _ => apply Z.leb_le in H
  | H : (_ <=? _) = false |- _ => apply Z.leb_gt in H
  | H : (_ <? _) = true |- _ => apply Z.ltb_lt in H
  | H : (_ <? _) = false |- _ => apply Z.ltb_ge in H
  | H : (_ =? _)%Z = true |- _ => apply Z.eqb_eq in H
  | H : (_ =? _)%Z = false |- _ => apply Z.eqb_neq in H
  | H : str_eq _ _ = true |- _ => apply str_eq_true in H
  | H : str_eq _ _ = false |- _ => apply str_eq_false in H
  end.

(** ** Iteration *)

Lemma Niter_succ {A} (f : A → A) n x : Nat.iter (S n) f x = f (Nat.iter n f x).
Proof. reflexivity. Qed.

(** Reachability of deterministic steppers: [fold_left] preserves an invariant. *)
Lemma fold_left_invariant {S A} (I : S → Prop) (f : S → A → S) l s :
  I s → (∀ s a, a ∈ l → I s → I (f s a)) → I (fold_left f l s).
Proof.
  revert s. induction l as [|a l IH]; intros s Hs Hf; simpl; [done|].
  apply IH; [by apply Hf; [left|]|]. intros s' a' Ha'. apply Hf. by right.
Qed.

(** ** Indexed loops that stop at the first error *)

Section mapi_res.
Context {E A B : Type}.

Fixpoint mapi_res (f : nat → A → res E B) (i : nat) (l : list A) : res E (list B) :=
  match l with
  | [] => Ok []
  | x :: l' => y ← f i x; ys ← mapi_res f (S i) l'; Ok (y :: ys)
  end.

Lemma mapi_res_Ok f i l l' :
  mapi_res f i l = Ok l' →
  length l' = length l ∧
  ∀ j x, l !! j = Some x → ∃ y, l' !! j = Some y ∧ f (i + j)%nat x = Ok y.
Proof.
  revert i l'. induction l as [|a l IH]; intros i l' H; simpl in H.
  { simplify_eq. done. }
  open_ok H. simplify_eq. destruct (IH _ _ Hb0) as [Hlen Hl].
  split; [simpl; lia|]. intros [|j] x' Hx; simpl in *; simplify_eq.
  - exists x. by rewrite Nat.add_0_r.
  - destruct (Hl j x' Hx) as (y & Hy & Hf). exists y.
    by replace (i + S j)%nat with (S i + j)%nat by lia.
Qed.

(** Every element of the result comes from an element that passed. *)
Lemma mapi_res_elem f i l l' y :
  mapi_res f i l = Ok l' → y ∈ l' → ∃ j x, x ∈ l ∧ f j x = Ok y.
Proof.
  revert i l'. induction l as [|a l IH]; intros i l' H Hy; simpl in H.
  { simplify_eq. by apply not_elem_of_nil in Hy. }
  open_ok H. simplify_eq. apply elem_of_cons in Hy as [->|Hy].
  - exists i, a. split; [left|done].
  - destruct (IH _ _ Hb0 Hy) as (j & x' & Hx & Hf). exists j, x'. split; [by right|done].
Qed.

(** A projection every step keeps. *)
Lemma mapi_res_fmap {C} (ga : A → C) (gb : B → C) f i l l' :
  (∀ j x y, f j x = Ok y → gb y = ga x) → mapi_res f i l = Ok l' → gb <$> l' = ga <$> l.
Proof.
  intros Hf. revert i l'. induction l as [|a l IH]; intros i l' H; simpl in H; [by simplify_eq|].
  open_ok H. simplify_eq. rewrite !fmap_cons. f_equal; eauto.
Qed.
End mapi_res.

(** The same loop with a state threaded through. *)
Section mapi_state.
Context {E A B S' : Type}.

Fixpoint mapi_state (f : nat → A → S' → res E (B * S')) (i : nat) (l : list A) (s : S') :
    res E (list B * S') :=
  match l with
  | [] => Ok ([], s)
  | x :: l' =>
      '(y, s) ← f i x s;
      '(ys, s) ← mapi_state f (S i) l' s;
      Ok (y :: ys, s)
  end.

(** An invariant of the state and a postcondition of every element. *)
Lemma mapi_state_Ok (I : S' → Prop) (Q : B → Prop) f i l s l' s' :
  I s → (∀ i x s y s', I s → f i x s = Ok (y, s') → I s' ∧ Q y) →
  mapi_state f i l s = Ok (l', s') → I s' ∧ Forall Q l' ∧ length l' = length l.
Proof.
  intros Hs Hf. revert i s l' Hs. induction l as [|a l IH]; intros i s l' Hs H; simpl in H.
  { by simplify_eq. }
  open_ok H. destruct x as [y s1]. open_ok H. destruct x as [ys s2]. simplify_eq.
  destruct (Hf _ _ _ _ _ Hs Hb) as [Hs1 Hy].
  destruct (IH _ _ _ Hs1 Hb0) as (? & ? & ?).
  split_and!; [done|by constructor|simpl; lia].
Qed.

Lemma mapi_state_fmap {C} (ga : A → C) (gb : B → C) f i l s l' s' :
  (∀ j x s y s', f j x s = Ok (y, s') → gb y = ga x) →
  mapi_state f i l s = Ok (l', s') → gb <$> l' = ga <$> l.
Proof.
  intros Hf. revert i s l'. induction l as [|a l IH]; intros i s l' H; simpl in H; [by simplify_eq|].
  open_ok H. destruct x as [y s1]. open_ok H. destruct x as [ys s2]. simplify_eq.
  rewrite !fmap_cons. f_equal; eauto.
Qed.
End mapi_state.
