(* ===== verification/GoLib.v ===== *)
(** * The parts of Go's standard library the program computes with

    Byte-string functions of package strings and bytes, strconv.Atoi/ParseUint,
    net.SplitHostPort/JoinHostPort and UTF-8 decoding. A Go string is a
    [string] of bytes; a [[]byte] is a [list byte]. Separators are single bytes,
    as in every call of the program. *)

From Stdlib Require Import Ascii.
From S2P Require Import Prelude.

(** ** strings *)

Definition is_lower (c : ascii) : bool := bool_decide (97 ≤ N_of_ascii c ≤ 122)%N.
Definition is_upper (c : ascii) : bool := bool_decide (65 ≤ N_of_ascii c ≤ 90)%N.
Definition is_digit (c : ascii) : bool := bool_decide (48 ≤ N_of_ascii c ≤ 57)%N.
Definition is_alnum (c : ascii) : bool := is_lower c || is_upper c || is_digit c.

Fixpoint all_chars (P : ascii → bool) (s : string) : bool :=
  match s with
  | EmptyString => true
  | String c s' => P c && all_chars P s'
  end.

Definition ContainsByte (s : string) (c : ascii) : bool :=
  negb (all_chars (λ d, negb (Ascii.eqb d c)) s).

(** strings.ContainsAny with an ASCII set. *)
Definition ContainsAny (s chars : string) : bool :=
  negb (all_chars (λ c, negb (ContainsByte chars c)) s).

Definition HasPrefix (s prefix : string) : bool := String.prefix prefix s.

Fixpoint drop_str (n : nat) (s : string) : string :=
  match n, s with
  | O, _ => s
  | S n', EmptyString => EmptyString
  | S n', String _ s' => drop_str n' s'
  end.

Fixpoint take_str (n : nat) (s : string) : string :=
  match n, s with
  | O, _ => EmptyString
  | S n', EmptyString => EmptyString
  | S n', String c s' => String c (take_str n' s')
  end.

Definition TrimPrefix (s prefix : string) : string :=
  if HasPrefix s prefix then drop_str (String.length prefix) s else s.

Definition HasSuffix (s suffix : string) : bool :=
  bool_decide (String.length suffix ≤ String.length s)%nat &&
  String.eqb (drop_str (String.length s - String.length suffix) s) suffix.

Definition TrimSuffix (s suffix : string) : string :=
  if HasSuffix s suffix
  then take_str (String.length s - String.length suffix) s else s.

(** strings.Cut(s, sep) for a one-byte separator: before, after, found. *)
Fixpoint Cut (sep : ascii) (s : string) : string * string * bool :=
  match s with
  | EmptyString => (EmptyString, EmptyString, false)
  | String c s' =>
      if Ascii.eqb c sep then (EmptyString, s', true)
      else let '(before, after, found) := Cut sep s' in (String c before, after, found)
  end.

(** strings.Split(s, sep) for a one-byte separator. *)
Fixpoint Split (sep : ascii) (s : string) : list string :=
  match s with
  | EmptyString => [EmptyString]
  | String c s' =>
      if Ascii.eqb c sep then EmptyString :: Split sep s'
      else match Split sep s' with
           | x :: xs => String c x :: xs
           | [] => [String c EmptyString]
           end
  end.

Fixpoint IndexByte (s : string) (c : ascii) : option nat :=
  match s with
  | EmptyString => None
  | String d s' => if Ascii.eqb d c then Some O else S <$> IndexByte s' c
  end.

Fixpoint LastIndexByte (s : string) (c : ascii) : option nat :=
  match s with
  | EmptyString => None
  | String d s' =>
      match LastIndexByte s' c with
      | Some i => Some (S i)
      | None => if Ascii.eqb d c then Some O else None
      end
  end.

(** Case mapping. The program lower-cases host names and header names that were
    already restricted to ASCII, so only the ASCII letters move. *)
Definition lower_ascii (c : ascii) : ascii :=
  if is_upper c then ascii_of_N (N_of_ascii c + 32) else c.

Fixpoint ToLower (s : string) : string :=
  match s with
  | EmptyString => EmptyString
  | String c s' => String (lower_ascii c) (ToLower s')
  end.

(** strings.EqualFold on header field names, which net/http and the
    configuration restrict to ASCII tokens. *)
Definition EqualFold (a b : string) : bool := String.eqb (ToLower a) (ToLower b).

(** ** strconv *)

Definition digit_val (c : ascii) : Z := Z.of_N (N_of_ascii c) - 48.

Fixpoint digits_val (acc : Z) (s : string) : Z :=
  match s with
  | EmptyString => acc
  | String c s' => digits_val (10 * acc + digit_val c) s'
  end.

Definition all_digits (s : string) : bool := negb (String.eqb s "") && all_chars is_digit s.

(** strconv.ParseUint(s, 10, bits). *)
Definition ParseUint (bits : Z) (s : string) : option Z :=
  if all_digits s
  then let v := digits_val 0 s in if v <? 2 ^ bits then Some v else None
  else None.

(** strconv.Atoi on a 64-bit platform. *)
Definition Atoi (s : string) : option Z :=
  let '(neg, digits) := match s with
    | String c s' => if Ascii.eqb c "-" then (true, s')
                     else if Ascii.eqb c "+" then (false, s') else (false, s)
    | EmptyString => (false, s)
    end in
  if all_digits digits
  then let v := digits_val 0 digits in
       let v := if (neg : bool) then - v else v in
       if (- 2 ^ 63 <=? v) && (v <? 2 ^ 63) then Some v else None
  else None.

Definition Itoa (z : Z) : string := pretty z.

(** ** net *)

Definition SplitHostPort (hostport : string) : option (string * string) :=
  match LastIndexByte hostport ":" with
  | None => None
  | Some i =>
      let port := drop_str (S i) hostport in
      if HasPrefix hostport "[" then
        match IndexByte hostport "]" with
        | None => None
        | Some close =>
            if bool_decide (S close = i) then
              if ContainsByte (drop_str 1 hostport) "[" ||
                 ContainsByte (drop_str (S close) hostport) "]" then None
              else Some (take_str (close - 1) (drop_str 1 hostport), port)
            else None
        end
      else
        let host := take_str i hostport in
        if ContainsByte host ":" || ContainsByte hostport "[" || ContainsByte hostport "]"
        then None else Some (host, port)
  end.

Definition JoinHostPort (host port : string) : string :=
  if ContainsByte host ":" then "[" +:+ host +:+ "]:" +:+ port
  else host +:+ ":" +:+ port.

(** ** bytes *)

Fixpoint bytes_HasPrefix (b prefix : bytes) : bool :=
  match prefix, b with
  | [], _ => true
  | p :: prefix', x :: b' => bool_decide (x = p) && bytes_HasPrefix b' prefix'
  | _ :: _, [] => false
  end.

Definition bytes_HasSuffix (b suffix : bytes) : bool :=
  bytes_HasPrefix (rev b) (rev suffix).

Fixpoint bytes_Contains (b sub : bytes) : bool :=
  bytes_HasPrefix b sub ||
  match b with [] => false | _ :: b' => bytes_Contains b' sub end.

Fixpoint bytes_IndexByte (b : bytes) (c : Init.Byte.byte) : option nat :=
  match b with
  | [] => None
  | x :: b' => if bool_decide (x = c) then Some O else S <$> bytes_IndexByte b' c
  end.

(** bytes.Cut with a one-byte separator. *)
Fixpoint bytes_Cut (sep : Init.Byte.byte) (b : bytes) : bytes * bytes * bool :=
  match b with
  | [] => ([], [], false)
  | x :: b' =>
      if bool_decide (x = sep) then ([], b', true)
      else let '(before, after, found) := bytes_Cut sep b' in (x :: before, after, found)
  end.

(** bytes.Split with a one-byte separator. *)
Fixpoint bytes_Split (sep : Init.Byte.byte) (b : bytes) : list bytes :=
  match b with
  | [] => [[]]
  | x :: b' =>
      if bool_decide (x = sep) then [] :: bytes_Split sep b'
      else match bytes_Split sep b' with
           | f :: fs => (x :: f) :: fs
           | [] => [[x]]
           end
  end.

(** ** Lemmas on cutting and splitting *)

Lemma Split_nonempty sep s : Split sep s ≠ [].
Proof. destruct s; simpl; repeat case_match; done. Qed.

(** Splitting peels one segment off at the first separator. *)
Lemma Split_Cut sep s :
  Split sep s = let '(before, after, found) := Cut sep s in
                if found then before :: Split sep after else [before].
Proof.
  induction s as [|c s IH]; simpl; [done|].
  destruct (Ascii.eqb c sep); [done|].
  rewrite IH. destruct (Cut sep s) as [[before after] []]; done.
Qed.

Lemma Cut_length sep s before after :
  Cut sep s = (before, after, true) → (String.length after < String.length s)%nat.
Proof.
  revert before after. induction s as [|c s IH]; intros before after; simpl; [done|].
  destruct (Ascii.eqb c sep); [intros [= <- <-]; lia|].
  destruct (Cut sep s) as [[b a] f] eqn:E. intros [= <- <- ->].
  specialize (IH _ _ eq_refl). lia.
Qed.

Lemma all_chars_spec P s :
  all_chars P s = true ↔ Forall (λ c, P c = true) (String.list_ascii_of_string s).
Proof.
  induction s as [|c s IH]; simpl; [by split|].
  rewrite andb_true_iff, IH, List.Forall_cons_iff. done.
Qed.

Lemma lower_ascii_idem c : lower_ascii (lower_ascii c) = lower_ascii c.
Proof. destruct c as [[] [] [] [] [] [] [] []]; vm_compute; reflexivity. Qed.

Lemma ToLower_idem s : ToLower (ToLower s) = ToLower s.
Proof. induction s as [|c s IH]; simpl; [done|]. by rewrite lower_ascii_idem, IH. Qed.

Lemma EqualFold_refl s : EqualFold s s = true.
Proof. apply String.eqb_refl. Qed.

Lemma EqualFold_ToLower a b : EqualFold (ToLower a) b = EqualFold a b.
Proof. unfold EqualFold. by rewrite ToLower_idem. Qed.

Lemma HasPrefix_app p s : HasPrefix (p +:+ s) p = true.
Proof.
  unfold HasPrefix. induction p as [|c p IH]; simpl; [by destruct s|].
  destruct (Ascii.ascii_dec c c); done.
Qed.

Lemma digits_val_app acc s1 s2 :
  digits_val acc (s1 +:+ s2) = digits_val (digits_val acc s1) s2.
Proof. revert acc. induction s1 as [|c s1 IH]; intros acc; simpl; [done|apply IH]. Qed.

Lemma all_chars_app P s1 s2 :
  all_chars P (s1 +:+ s2) = all_chars P s1 && all_chars P s2.
Proof. induction s1 as [|c s1 IH]; simpl; [done|]. by rewrite IH, andb_assoc. Qed.

Lemma bytes_HasPrefix_app p b : bytes_HasPrefix (p ++ b) p = true.
Proof. induction p as [|x p IH]; simpl; [by destruct b|]. by rewrite bool_decide_true. Qed.

(** ** Prefixes and suffixes *)

Lemma length_append s1 s2 : String.length (s1 +:+ s2) = (String.length s1 + String.length s2)%nat.
Proof. induction s1 as [|c s1 IH]; simpl; [done|]. by rewrite IH. Qed.

Lemma append_nil s : s +:+ "" = s.
Proof. induction s as [|c s IH]; [done|]. change (String c (s +:+ "") = String c s). by rewrite IH. Qed.
Lemma append_assoc a b c : a +:+ b +:+ c = (a +:+ b) +:+ c.
Proof. induction a as [|x a IH]; [done|]. change (String x (a +:+ b +:+ c) = String x ((a +:+ b) +:+ c)). by rewrite IH. Qed.

Lemma take_str_app s1 s2 : take_str (String.length s1) (s1 +:+ s2) = s1.
Proof. induction s1 as [|c s1 IH]; simpl; [by destruct s2|]. by rewrite IH. Qed.

Lemma drop_str_app a b : drop_str (String.length a) (a +:+ b) = b.
Proof. induction a as [|c a IH]; [by destruct b|done]. Qed.

Lemma length_of_string s : length (of_string s) = String.length s.
Proof.
  unfold of_string, String.list_byte_of_string. rewrite length_map. induction s as [|c s IH]; cbn; [done|]. by rewrite IH.
Qed.

Lemma append_sub a b : (String.length (a +:+ b) - String.length b = String.length a)%nat.
Proof. rewrite length_append. lia. Qed.

Lemma TrimSuffix_app a b : TrimSuffix (a +:+ b) b = a.
Proof.
  unfold TrimSuffix, HasSuffix. rewrite append_sub, drop_str_app, take_str_app, String.eqb_refl, bool_decide_true; [done|].
  rewrite length_append. lia.
Qed.

Lemma TrimSuffix_none a b : HasSuffix a b = false → TrimSuffix a b = a.
Proof. unfold TrimSuffix. by intros ->. Qed.

(** A string without the separator is its own only segment. *)
Lemma Split_single sep s : ContainsByte s sep = false ↔ Split sep s = [s].
Proof.
  unfold ContainsByte. rewrite negb_false_iff. induction s as [|c s IH]; simpl; [done|].
  rewrite andb_true_iff, negb_true_iff, IH. destruct (Ascii.eqb c sep).
  - split; [by intros []|done].
  - destruct (Split sep s) as [|x xs] eqn:E; [by apply Split_nonempty in E|].
    split; [by intros [_ [= -> ->]]|]. intros [= -> ->]. done.
Qed.

(** A byte read as a character constant and back. *)
Definition to_char (b : Init.Byte.byte) : ascii := ascii_of_byte b.
Definition of_char (c : ascii) : Init.Byte.byte := byte_of_ascii c.

Lemma of_to_char b : of_char (to_char b) = b.
Proof. apply byte_of_ascii_of_byte. Qed.
Lemma to_of_char c : to_char (of_char c) = c.
Proof. apply ascii_of_byte_of_ascii. Qed.
