(* ===== verification/GoUtf8.v ===== *)
(** * UTF-8 text: unicode/utf8 decoding, unicode.IsSpace, TrimSpace and Fields

    [for range] over a string, TrimSpace, Fields and ToUpper work on runes. A
    rune is a [Z]; an invalid byte decodes to U+FFFD with width one. *)

From S2P Require Import Prelude GoLib.

Definition RuneError : Z := 0xFFFD.

Definition cont (lo hi : Z) (b : Init.Byte.byte) : bool :=
  (lo <=? byte.unsigned b) && (byte.unsigned b <=? hi).

(** utf8.DecodeRune on a nonempty slice: rune and width. *)
Definition DecodeRune (b : bytes) : Z * nat :=
  match b with
  | [] => (RuneError, O)
  | b0 :: rest =>
      let x0 := byte.unsigned b0 in
      if x0 <? 0x80 then (x0, 1%nat)
      else if (0xC2 <=? x0) && (x0 <=? 0xDF) then
        match rest with
        | b1 :: _ =>
            if cont 0x80 0xBF b1
            then (Z.land x0 0x1F * 64 + Z.land (byte.unsigned b1) 0x3F, 2%nat)
            else (RuneError, 1%nat)
        | _ => (RuneError, 1%nat)
        end
      else if (0xE0 <=? x0) && (x0 <=? 0xEF) then
        match rest with
        | b1 :: b2 :: _ =>
            let lo := if x0 =? 0xE0 then 0xA0 else 0x80 in
            let hi := if x0 =? 0xED then 0x9F else 0xBF in
            if cont lo hi b1 && cont 0x80 0xBF b2
            then (Z.land x0 0x0F * 4096 + Z.land (byte.unsigned b1) 0x3F * 64 +
                  Z.land (byte.unsigned b2) 0x3F, 3%nat)
            else (RuneError, 1%nat)
        | _ => (RuneError, 1%nat)
        end
      else if (0xF0 <=? x0) && (x0 <=? 0xF4) then
        match rest with
        | b1 :: b2 :: b3 :: _ =>
            let lo := if x0 =? 0xF0 then 0x90 else 0x80 in
            let hi := if x0 =? 0xF4 then 0x8F else 0xBF in
            if cont lo hi b1 && cont 0x80 0xBF b2 && cont 0x80 0xBF b3
            then (Z.land x0 0x07 * 262144 + Z.land (byte.unsigned b1) 0x3F * 4096 +
                  Z.land (byte.unsigned b2) 0x3F * 64 + Z.land (byte.unsigned b3) 0x3F, 4%nat)
            else (RuneError, 1%nat)
        | _ => (RuneError, 1%nat)
        end
      else (RuneError, 1%nat)
  end.

(** The runes of a slice, each with its encoding. [fuel] is the length: every
    rune takes at least one byte. *)
Fixpoint decode_fuel (fuel : nat) (b : bytes) : list (Z * bytes) :=
  match fuel, b with
  | O, _ => []
  | _, [] => []
  | S fuel', _ =>
      let '(r, w) := DecodeRune b in (r, take w b) :: decode_fuel fuel' (drop w b)
  end.

Definition runes (b : bytes) : list (Z * bytes) := decode_fuel (length b) b.

(** utf8.Valid: no byte decodes to U+FFFD with width one. *)
Definition utf8_Valid (b : bytes) : bool :=
  forallb (λ p : Z * bytes, negb ((p.1 =? RuneError) && (length p.2 =? 1)%nat)) (runes b).

(** unicode.IsSpace: the White_Space property. *)
Definition IsSpace (r : Z) : bool :=
  ((9 <=? r) && (r <=? 13)) || (r =? 0x20) || (r =? 0x85) || (r =? 0xA0) || (r =? 0x1680) ||
  ((0x2000 <=? r) && (r <=? 0x200a)) || (r =? 0x2028) || (r =? 0x2029) || (r =? 0x202f) ||
  (r =? 0x205f) || (r =? 0x3000).

Fixpoint drop_space (l : list (Z * bytes)) : list (Z * bytes) :=
  match l with
  | (r, e) :: l' => if IsSpace r then drop_space l' else l
  | [] => []
  end.

Definition trim_runes (l : list (Z * bytes)) : list (Z * bytes) :=
  rev (drop_space (rev (drop_space l))).

(** bytes.TrimSpace. *)
Definition TrimSpace (b : bytes) : bytes := flat_map snd (trim_runes (runes b)).

(** ** Decoding loses nothing *)

Lemma DecodeRune_width b : b ≠ [] → (1 ≤ (DecodeRune b).2 ≤ length b)%nat.
Proof.
  destruct b as [|b0 rest]; [done|intros _]. cbv beta iota delta [DecodeRune].
  cbv zeta. repeat (case_match; try (subst; cbn [length snd]; lia)).
Qed.

Lemma decode_fuel_app fuel b :
  (length b ≤ fuel)%nat → flat_map snd (decode_fuel fuel b) = b.
Proof.
  revert b. induction fuel as [|fuel IH]; intros [|b0 rest] Hlen; [done|simpl in Hlen; lia|done|].
  pose proof (DecodeRune_width (b0 :: rest) ltac:(done)) as [Hw ?].
  cbn [decode_fuel]. destruct (DecodeRune (b0 :: rest)) as [r w]; simpl in Hw.
  cbn [flat_map snd]. rewrite IH by (rewrite length_drop; simpl in *; lia).
  apply take_drop.
Qed.

Lemma runes_app b : flat_map snd (runes b) = b.
Proof. by apply decode_fuel_app. Qed.

Lemma drop_space_suffix l : ∃ k, l = k ++ drop_space l.
Proof.
  induction l as [|[r e] l [k IH]]; simpl; [by exists []|].
  destruct (IsSpace r); [|by exists []]. exists ((r, e) :: k). simpl. by f_equal.
Qed.

Lemma flat_map_length_app {A} (f : A → bytes) l1 l2 :
  length (flat_map f (l1 ++ l2)) = (length (flat_map f l1) + length (flat_map f l2))%nat.
Proof. by rewrite flat_map_app, length_app. Qed.

Lemma TrimSpace_length b : (length (TrimSpace b) ≤ length b)%nat.
Proof.
  rewrite <- (runes_app b) at 2. unfold TrimSpace, trim_runes.
  destruct (drop_space_suffix (runes b)) as [k1 H1].
  destruct (drop_space_suffix (rev (drop_space (runes b)))) as [k2 H2].
  apply (f_equal (@rev _)) in H2. rewrite rev_involutive, rev_app_distr in H2.
  rewrite H1 at 2. rewrite H2 at 2. rewrite !flat_map_length_app. lia.
Qed.
