(* ===== verification/GoRand.v ===== *)
(** * Seeded randomness: crypto/sha256, math/rand/v2 PCG and Float64

    The engine derives each rule's generator from a SHA-256 digest and draws
    float64 values from a PCG-DXSM generator. Both are standard-library
    algorithms; they are written out here so that seeded decisions evaluate. A
    float64 is a [spec_float] (the IEEE-754 datum of the Standard Library). *)

From Stdlib Require Export Floats.SpecFloat.
From S2P Require Import Prelude.

(** ** SHA-256 (FIPS 180-4) *)

Module Sha256.

(** The standard's constants: the first 32 bits of the fractional parts of the
    cube roots of the first 64 primes, and of the square roots of the first 8. *)
Definition prime (p : nat) : bool :=
  bool_decide (2 ≤ p)%nat && forallb (λ d, negb (p mod d =? 0)%nat) (seq 2 (p - 2)).
Definition primes : list Z := Eval vm_compute in Z.of_nat <$> List.filter prime (seq 0 312).

Fixpoint cube_root (bits : nat) (n root : Z) : Z :=
  match bits with
  | O => root
  | S bits' =>
      let next := root + 2 ^ Z.of_nat bits' in
      cube_root bits' n (if next ^ 3 <=? n then next else root)
  end.

Definition K : list Z := Eval vm_compute in (λ p, u32 (cube_root 36 (p * 2 ^ 96) 0)) <$> primes.

Record digest := Digest { ha : Z; hb : Z; hc : Z; hd : Z; he : Z; hf : Z; hg : Z; hh : Z }.

Definition init : digest := Eval vm_compute in
  let h i := u32 (Z.sqrt (nth i primes 0 * 2 ^ 64)) in
  Digest (h 0%nat) (h 1%nat) (h 2%nat) (h 3%nat) (h 4%nat) (h 5%nat) (h 6%nat) (h 7%nat).

Definition rotr (x n : Z) : Z := Z.lor (Z.shiftr x n) (u32 (Z.shiftl x (32 - n))).
Definition Ch (x y z : Z) : Z := Z.lxor (Z.land x y) (Z.land (u32 (Z.lnot x)) z).
Definition Maj (x y z : Z) : Z := Z.lxor (Z.lxor (Z.land x y) (Z.land x z)) (Z.land y z).
Definition Sigma0 (x : Z) : Z := Z.lxor (Z.lxor (rotr x 2) (rotr x 13)) (rotr x 22).
Definition Sigma1 (x : Z) : Z := Z.lxor (Z.lxor (rotr x 6) (rotr x 11)) (rotr x 25).
Definition sigma0 (x : Z) : Z := Z.lxor (Z.lxor (rotr x 7) (rotr x 18)) (Z.shiftr x 3).
Definition sigma1 (x : Z) : Z := Z.lxor (Z.lxor (rotr x 17) (rotr x 19)) (Z.shiftr x 10).

(** The message schedule, newest word first. *)
Fixpoint extend (n : nat) (w : list Z) : list Z :=
  match n with
  | O => w
  | S n' => extend n' (u32 (sigma1 (nth 1 w 0) + nth 6 w 0 + sigma0 (nth 14 w 0) + nth 15 w 0) :: w)
  end.

Fixpoint words (n : nat) (b : bytes) : list Z :=
  match n with
  | O => []
  | S n' => be_uint (take 4 b) :: words n' (drop 4 b)
  end.

Definition round (s : digest) (kw : Z * Z) : digest :=
  let '(k, w) := kw in
  let t1 := hh s + Sigma1 (he s) + Ch (he s) (hf s) (hg s) + k + w in
  let t2 := Sigma0 (ha s) + Maj (ha s) (hb s) (hc s) in
  Digest (u32 (t1 + t2)) (ha s) (hb s) (hc s) (u32 (hd s + t1)) (he s) (hf s) (hg s).

Definition block (s : digest) (b : bytes) : digest :=
  let w := rev (extend 48 (rev (words 16 b))) in
  let r := fold_left round (zip K w) s in
  Digest (u32 (ha s + ha r)) (u32 (hb s + hb r)) (u32 (hc s + hc r)) (u32 (hd s + hd r))
         (u32 (he s + he r)) (u32 (hf s + hf r)) (u32 (hg s + hg r)) (u32 (hh s + hh r)).

Definition pad (b : bytes) : bytes :=
  let len := Z.of_nat (length b) in
  b ++ [byte.of_Z 0x80]
    ++ replicate (Z.to_nat ((55 - len) mod 64)) (byte.of_Z 0)
    ++ be_bytes 8 (8 * len).

Fixpoint blocks (n : nat) (s : digest) (b : bytes) : digest :=
  match n with
  | O => s
  | S n' => blocks n' (block s (take 64 b)) (drop 64 b)
  end.

(** sha256.Sum256. *)
Definition Sum256 (b : bytes) : bytes :=
  let p := pad b in
  let s := blocks (length p / 64) init p in
  flat_map (be_bytes 4) [ha s; hb s; hc s; hd s; he s; hf s; hg s; hh s].

Lemma length_Sum256 b : length (Sum256 b) = 32%nat.
Proof. unfold Sum256. cbn [flat_map]. by rewrite !length_app, !length_be_bytes. Qed.

Example Sum256_abc : be_uint (Sum256 (of_string "abc")) =
  0xba7816bf8f01cfea414140de5dae2223b00361a396177a9cb410ff61f20015ad.
Proof. vm_compute. reflexivity. Qed.

Example Sum256_empty : be_uint (Sum256 []) =
  0xe3b0c44298fc1c149afbf4c8996fb92427ae41e4649b934ca495991b7852b855.
Proof. vm_compute. reflexivity. Qed.

End Sha256.

(** ** math/rand/v2.PCG: 128-bit LCG state with the DXSM output function *)

Record PCG := NewPCG { pcg_hi : Z; pcg_lo : Z }.

#[export] Instance PCG_eq_dec : EqDecision PCG.
Proof. solve_decision. Defined.

Definition pcg_next (p : PCG) : PCG :=
  let s := u64 (pcg_hi p) * 2 ^ 64 + u64 (pcg_lo p) in
  let mul := 2549297995355413924 * 2 ^ 64 + 4865540595714422341 in
  let inc := 6364136223846793005 * 2 ^ 64 + 1442695040888963407 in
  let s' := wrap 128 (s * mul + inc) in
  NewPCG (Z.shiftr s' 64) (u64 s').

Definition pcg_out (p : PCG) : Z :=
  let hi := pcg_hi p in
  let hi := Z.lxor hi (Z.shiftr hi 32) in
  let hi := u64 (hi * 0xda942042e4dd58b5) in
  let hi := Z.lxor hi (Z.shiftr hi 48) in
  u64 (hi * Z.lor (pcg_lo p) 1).

(** PCG.Uint64: advance, then scramble. *)
Definition Uint64 (p : PCG) : Z * PCG := let p' := pcg_next p in (pcg_out p', p').

Example pcg_1_2 :
  let '(a, p) := Uint64 (NewPCG 1 2) in
  let '(b, p) := Uint64 p in
  let '(c, _) := Uint64 p in
  (a, b, c) = (0xc4f5a58656eef510, 0x9dcec3ad077dec6c, 0xc8d04605312f8088).
Proof. vm_compute. reflexivity. Qed.

(** Rand.Float64: float64(Uint64()<<11>>11) / (1<<53), exact in binary64. *)
Definition float64_of_ratio53 (m : Z) : spec_float := binary_normalize 53 1024 m (-53) false.

Definition Float64 (p : PCG) : spec_float * PCG :=
  let '(u, p') := Uint64 p in
  (float64_of_ratio53 (Z.shiftr (u64 (Z.shiftl u 11)) 11), p').

(** ** float64 values the program tests *)

#[export] Instance spec_float_eq_dec : EqDecision spec_float.
Proof. solve_decision. Defined.

Definition f_zero : spec_float := S754_zero false.
Definition f_one : spec_float := S754_finite false 4503599627370496 (-52).

Definition f_eqb (x y : spec_float) : bool := SFeqb x y.
Definition f_ltb (x y : spec_float) : bool := SFltb x y.
Definition f_IsNaN (x : spec_float) : bool :=
  match x with S754_nan => true | _ => false end.
(** math.IsInf(x, 0): either sign. *)
Definition f_IsInf (x : spec_float) : bool :=
  match x with S754_infinity _ => true | _ => false end.

Definition float64_of_int (z : Z) : spec_float := binary_normalize 53 1024 z 0 false.

(** Conversion of a finite non-negative float64 to an integer type: truncation. *)
Definition int_of_float64 (x : spec_float) : Z :=
  match x with
  | S754_finite false m e => if 0 <=? e then Zpos m * 2 ^ e else Zpos m / 2 ^ (- e)
  | _ => 0
  end.

Lemma Float64_mantissa_range u : 0 ≤ Z.shiftr (u64 (Z.shiftl u 11)) 11 < 2 ^ 53.
Proof.
  pose proof (u64_range (Z.shiftl u 11)) as [??].
  rewrite Z.shiftr_div_pow2 by lia. split; [apply Z.div_pos; lia|].
  apply Z.div_lt_upper_bound; lia.
Qed.
