(* ===== verification/GoTime.v ===== *)
(** * time.ParseDuration

    Durations in a configuration are strings such as "1.5s" or "2h45m". The
    parser of package time, on byte strings, with its overflow checks and the
    float64 arithmetic of its fractions. *)

From Stdlib Require Import Ascii.
From S2P Require Import Prelude GoLib GoRand.
Local Open Scope go_scope.

(** unitMap; the two spellings of the micro sign are U+00B5 and U+03BC in UTF-8. *)
Definition micro_sign : string := to_string (byte.of_Z <$> [0xc2; 0xb5]) +:+ "s".
Definition micro_mu : string := to_string (byte.of_Z <$> [0xce; 0xbc]) +:+ "s".

Definition duration_unit (u : string) : option Z :=
  if u =s "ns" then Some 1
  else if (u =s "us") || (u =s micro_sign) || (u =s micro_mu) then Some 1000
  else if u =s "ms" then Some 1000000
  else if u =s "s" then Some 1000000000
  else if u =s "m" then Some 60000000000
  else if u =s "h" then Some 3600000000000
  else None.

(** leadingInt: the value of the leading digits and the rest; [None] is an
    overflow of 2^63. *)
Fixpoint leadingInt (x : Z) (s : string) : option (Z * string) :=
  match s with
  | String c s' =>
      if is_digit c then
        if 2 ^ 63 / 10 <? x then None
        else
          let x := x * 10 + digit_val c in
          if 2 ^ 63 <? x then None else leadingInt x s'
      else Some (x, s)
  | EmptyString => Some (x, s)
  end.

(** leadingFraction: digits beyond int64 are dropped ([overflow]). *)
Fixpoint leadingFraction (x : Z) (scale : spec_float) (overflow : bool) (s : string) :
    Z * spec_float * string :=
  match s with
  | String c s' =>
      if is_digit c then
        if overflow || ((2 ^ 63 - 1) / 10 <? x) then leadingFraction x scale true s'
        else
          let y := x * 10 + digit_val c in
          if 2 ^ 63 <? y then leadingFraction x scale true s'
          else leadingFraction y (SFmul 53 1024 scale (float64_of_int 10)) false s'
      else (x, scale, s)
  | EmptyString => (x, scale, s)
  end.

(** The unit: everything up to the next digit or period. *)
Fixpoint unit_prefix (s : string) : string * string :=
  match s with
  | String c s' =>
      if Ascii.eqb c "." || is_digit c then (EmptyString, s)
      else let '(u, rest) := unit_prefix s' in (String c u, rest)
  | EmptyString => (EmptyString, EmptyString)
  end.

(** The loop; each turn consumes the first character of [s] at least, so its
    length is enough fuel. *)
Fixpoint duration_loop (fuel : nat) (d : Z) (s : string) : option Z :=
  match fuel, s with
  | _, EmptyString => Some d
  | O, _ => None
  | S fuel', String c _ =>
      if negb (Ascii.eqb c "." || is_digit c) then None
      else
        '(v, s1) ← leadingInt 0 s;
        let pre := negb (s1 =s s) in
        let '(f, scale, s2, post) :=
          match s1 with
          | String c1 s1' =>
              if Ascii.eqb c1 "." then
                let '(f, scale, s2) := leadingFraction 0 f_one false s1' in
                (f, scale, s2, negb (s2 =s s1'))
              else (0, f_one, s1, false)
          | EmptyString => (0, f_one, s1, false)
          end in
        if negb pre && negb post then None
        else
          let '(u, rest) := unit_prefix s2 in
          if u =s "" then None
          else
            unit ← duration_unit u;
            if 2 ^ 63 / unit <? v then None
            else
              let v := v * unit in
              let v := if 0 <? f
                       then v + int_of_float64 (SFmul 53 1024 (float64_of_int f)
                                                  (SFdiv 53 1024 (float64_of_int unit) scale))
                       else v in
              if 2 ^ 63 <? v then None
              else
                let d := d + v in
                if 2 ^ 63 <? d then None else duration_loop fuel' d rest
  end.

Definition ParseDuration (s : string) : option Z :=
  let '(neg, s) := match s with
                   | String c s' => if Ascii.eqb c "-" || Ascii.eqb c "+"
                                    then (Ascii.eqb c "-", s') else (false, s)
                   | EmptyString => (false, s)
                   end in
  if s =s "0" then Some 0
  else if s =s "" then None
  else
    d ← duration_loop (String.length s) 0 s;
    if (neg : bool) then Some (- d) else if max_i64 <? d then None else Some d.

Example duration_1h15m30_918s : ParseDuration "1h15m30.918s" = Some 4530918000000.
Proof. vm_compute. reflexivity. Qed.
Example duration_neg : ParseDuration "-1.5h" = Some (-5400000000000).
Proof. vm_compute. reflexivity. Qed.
Example duration_no_unit : ParseDuration "3" = None.
Proof. vm_compute. reflexivity. Qed.
Example duration_overflow : ParseDuration "9223372036854775808ns" = None.
Proof. vm_compute. reflexivity. Qed.
