(* ===== verification/GoCrypto.v ===== *)
(** * Hexadecimal, HMAC-SHA-256 and PBKDF2

    encoding/hex, crypto/hmac and crypto/pbkdf2 as auth.go uses them: PBKDF2 with
    SHA-256 and a key of one block. *)

From Stdlib Require Import Ascii.
From S2P Require Import Prelude GoLib GoRand.
Local Open Scope go_scope.

(** ** encoding/hex *)

Definition hex_digit (d : Z) : ascii :=
  default "0"%char (String.get (Z.to_nat d) "0123456789abcdef").

Fixpoint hex_EncodeToString (b : bytes) : string :=
  match b with
  | [] => ""
  | x :: rest =>
      let n := byte.unsigned x in
      String (hex_digit (n / 16)) (String (hex_digit (n mod 16)) (hex_EncodeToString rest))
  end.

Definition hex_value (c : ascii) : option Z :=
  let n := Z.of_nat (nat_of_ascii c) in
  if (48 <=? n) && (n <=? 57) then Some (n - 48)
  else if (97 <=? n) && (n <=? 102) then Some (n - 87)
  else if (65 <=? n) && (n <=? 70) then Some (n - 55)
  else None.

Fixpoint hex_DecodeString (s : string) : option bytes :=
  match s with
  | "" => Some []
  | String a (String b rest) =>
      hi ← hex_value a; lo ← hex_value b; bs ← hex_DecodeString rest;
      Some (byte.of_Z (16 * hi + lo) :: bs)
  | String _ "" => None
  end.

Lemma hex_digit_value d : 0 ≤ d < 16 → hex_value (hex_digit d) = Some d.
Proof.
  intros Hd. assert (d ∈ seqZ 0 16) as Hin by (apply elem_of_seqZ; lia). cbn in Hin.
  repeat (apply elem_of_cons in Hin as [->|Hin]; [reflexivity|]). by apply not_elem_of_nil in Hin.
Qed.

Lemma hex_roundtrip b : hex_DecodeString (hex_EncodeToString b) = Some b.
Proof.
  induction b as [|x b IH]; [done|]. cbn [hex_EncodeToString hex_DecodeString].
  pose proof (byte.unsigned_range x).
  assert (0 ≤ byte.unsigned x / 16 < 16) by (split; [apply Z.div_pos|apply Z.div_lt_upper_bound]; lia).
  rewrite !hex_digit_value, IH by (done || (apply Z.mod_pos_bound; lia)). cbn. f_equal. f_equal.
  rewrite <- Z.div_mod by lia. apply byte.of_Z_unsigned.
Qed.

(** ** crypto/hmac *)

Definition xor_bytes (a b : bytes) : bytes :=
  zip_with (λ x y, byte.of_Z (Z.lxor (byte.unsigned x) (byte.unsigned y))) a b.

Definition block_size : nat := 64.

Definition hmac_key (key : bytes) : bytes :=
  let key := if bool_decide (block_size < length key)%nat then Sha256.Sum256 key else key in
  key ++ replicate (block_size - length key) (byte.of_Z 0).

Definition hmac_Sum (key message : bytes) : bytes :=
  let k := hmac_key key in
  let inner := Sha256.Sum256 (xor_bytes k (replicate block_size (byte.of_Z 0x36)) ++ message) in
  Sha256.Sum256 (xor_bytes k (replicate block_size (byte.of_Z 0x5c)) ++ inner).

(** ** crypto/pbkdf2 *)

(** The first block of the derived key: U1 xor ... xor Uc. *)
Definition pbkdf2_Key (password : string) (salt : bytes) (iterations : N) : bytes :=
  let prf := hmac_Sum (of_string password) in
  let u := prf (salt ++ (byte.of_Z <$> [0; 0; 0; 1])) in
  (N.iter (iterations - 1) (λ '(u, t), let u := prf u in (u, xor_bytes t u)) (u, u)).2.

Example hmac_rfc4231 :
  hex_EncodeToString (hmac_Sum (of_string "Jefe") (of_string "what do ya want for nothing?")) =
  "5bdcc146bf60754e6a042426089575c75a003f089d2739839dec58b964ec3843".
Proof. vm_compute. reflexivity. Qed.

Example pbkdf2_two : hex_EncodeToString (pbkdf2_Key "password" (of_string "salt") 2) =
  "ae4d0c95af6b46d32d0adff928f06dd02a303f8ef3c251dfd6e2d85a95474c43".
Proof. vm_compute. reflexivity. Qed.
