(* ===== verification/Config.v ===== *)
(** * Configuration data (internal/config/config.go, capabilities.go)

    The YAML structs as records, a pointer field as an [option], a
    time.Duration or int as a [Z], a map as a [gmap]. [Document] carries the
    validated configuration with the two fingerprints computed by [newDocument]. *)

From S2P Require Import Prelude GoLib GoRand.
Local Open Scope go_scope.

Definition APIVersion : string := "faultline/v1alpha1".
Definition AfterCommit : string := "after_commit".
Definition BeforeUpstreamRequest : string := "before_upstream_request".
Definition AfterUpstreamHeaders : string := "after_upstream_headers".
Definition TCPOnConnect : string := "on_connect".
Definition TCPOnTransfer : string := "on_transfer".

Record Runtime := {
  rt_MaxInflightRequests : Z;
  rt_RequestTimeout : Z
}.

Record ListenerTLS := {
  lt_CertFile : string;
  lt_KeyFile : string;
  lt_ClientCAFile : string
}.

Record UpstreamTLS := {
  ut_CAFile : string;
  ut_CertFile : string;
  ut_KeyFile : string
}.

Record Matcher := {
  m_PathPattern : string;
  m_Method : string;
  m_Service : string;
  m_Path : string;
  m_Headers : option (gmap string string)
}.

Record Selector := {
  s_Probability : option spec_float;
  s_Nth : option Z;
  s_Every : option Z
}.

Record Fault := {
  f_Phase : string;
  f_Action : string;
  f_Duration : option Z;
  f_MaxDuration : option Z;
  f_Status : option Z;
  f_Body : option string;
  f_Direction : string;
  f_Bytes : option Z;
  f_BytesPerSecond : option Z;
  f_AfterBytes : option Z;
  f_AfterDuration : option Z;
  f_TriggerDirection : string
}.

Record Rule := {
  r_ID : string;
  r_Enabled : bool;
  r_Match : Matcher;
  r_Select : Selector;
  r_Fault : Fault
}.

Record Proxy := {
  p_ID : string;
  p_Protocol : string;
  p_UpstreamProtocol : string;
  p_Listen : string;
  p_Upstream : string;
  p_TLS : option ListenerTLS;
  p_UpstreamTLS : option UpstreamTLS;
  p_Rules : list Rule
}.

Record Config := {
  c_APIVersion : string;
  c_Seed : Z;
  c_Runtime : Runtime;
  c_Proxies : list Proxy
}.

#[export] Instance Runtime_eq_dec : EqDecision Runtime. Proof. solve_decision. Defined.
#[export] Instance ListenerTLS_eq_dec : EqDecision ListenerTLS. Proof. solve_decision. Defined.
#[export] Instance UpstreamTLS_eq_dec : EqDecision UpstreamTLS. Proof. solve_decision. Defined.
#[export] Instance Matcher_eq_dec : EqDecision Matcher. Proof. solve_decision. Defined.
#[export] Instance Selector_eq_dec : EqDecision Selector. Proof. solve_decision. Defined.
#[export] Instance Fault_eq_dec : EqDecision Fault. Proof. solve_decision. Defined.
#[export] Instance Rule_eq_dec : EqDecision Rule. Proof. solve_decision. Defined.
#[export] Instance Proxy_eq_dec : EqDecision Proxy. Proof. solve_decision. Defined.
#[export] Instance Config_eq_dec : EqDecision Config. Proof. solve_decision. Defined.

Definition DefaultRuntime : Runtime :=
  {| rt_MaxInflightRequests := 1000; rt_RequestTimeout := 30 * 1000000000 |}.

(** Zero values of the structs. *)
Definition no_selector : Selector := {| s_Probability := None; s_Nth := None; s_Every := None |}.
Definition no_fault : Fault :=
  {| f_Phase := ""; f_Action := ""; f_Duration := None; f_MaxDuration := None; f_Status := None;
     f_Body := None; f_Direction := ""; f_Bytes := None; f_BytesPerSecond := None;
     f_AfterBytes := None; f_AfterDuration := None; f_TriggerDirection := "" |}.
Definition any_match : Matcher :=
  {| m_PathPattern := ""; m_Method := ""; m_Service := ""; m_Path := ""; m_Headers := None |}.

(** What ranging over the headers of a matcher, or taking their number, sees: a nil
    map is like an empty one. *)
Definition header_map (m : Matcher) : gmap string string := default ∅ (m_Headers m).

(** ** Field assignments *)

Definition set_Headers (h : option (gmap string string)) (m : Matcher) : Matcher :=
  {| m_PathPattern := m_PathPattern m; m_Method := m_Method m; m_Service := m_Service m;
     m_Path := m_Path m; m_Headers := h |}.
Definition set_Match (m : Matcher) (r : Rule) : Rule :=
  {| r_ID := r_ID r; r_Enabled := r_Enabled r; r_Match := m; r_Select := r_Select r;
     r_Fault := r_Fault r |}.
Definition set_Select (s : Selector) (r : Rule) : Rule :=
  {| r_ID := r_ID r; r_Enabled := r_Enabled r; r_Match := r_Match r; r_Select := s;
     r_Fault := r_Fault r |}.
Definition set_Fault (f : Fault) (r : Rule) : Rule :=
  {| r_ID := r_ID r; r_Enabled := r_Enabled r; r_Match := r_Match r; r_Select := r_Select r;
     r_Fault := f |}.
Definition set_Phase (ph : string) (f : Fault) : Fault :=
  {| f_Phase := ph; f_Action := f_Action f; f_Duration := f_Duration f;
     f_MaxDuration := f_MaxDuration f; f_Status := f_Status f; f_Body := f_Body f;
     f_Direction := f_Direction f; f_Bytes := f_Bytes f; f_BytesPerSecond := f_BytesPerSecond f;
     f_AfterBytes := f_AfterBytes f; f_AfterDuration := f_AfterDuration f;
     f_TriggerDirection := f_TriggerDirection f |}.
Definition set_Body (b : option string) (f : Fault) : Fault :=
  {| f_Phase := f_Phase f; f_Action := f_Action f; f_Duration := f_Duration f;
     f_MaxDuration := f_MaxDuration f; f_Status := f_Status f; f_Body := b;
     f_Direction := f_Direction f; f_Bytes := f_Bytes f; f_BytesPerSecond := f_BytesPerSecond f;
     f_AfterBytes := f_AfterBytes f; f_AfterDuration := f_AfterDuration f;
     f_TriggerDirection := f_TriggerDirection f |}.
Definition set_Rules (rs : list Rule) (p : Proxy) : Proxy :=
  {| p_ID := p_ID p; p_Protocol := p_Protocol p; p_UpstreamProtocol := p_UpstreamProtocol p;
     p_Listen := p_Listen p; p_Upstream := p_Upstream p; p_TLS := p_TLS p;
     p_UpstreamTLS := p_UpstreamTLS p; p_Rules := rs |}.

(** ** Capabilities *)

Definition Actions (protocol : string) : list string :=
  if (protocol =s "tcp") then ["close_connection"; "hold"; "throttle"; "delay_connect"]
  else if (protocol =s "postgresql") || (protocol =s "mysql")
  then ["delay"; "hold_response"; "close_connection"]
  else
    let actions := ["delay"; "hold_request"; "hold_response"; "truncate"; "throttle"] in
    let actions := if (protocol =s "http1") || (protocol =s "http2")
                   then actions ++ ["respond"] else actions in
    if (protocol =s "http1") then actions ++ ["close_connection"] else actions.

(** ** Documents *)

Record Document := {
  d_config : Config;
  d_valid : bool;
  d_fingerprint : bytes;
  d_restartFingerprint : bytes
}.

(** A [*Document] may be nil. *)
Definition Valid (d : option Document) : bool :=
  match d with Some d => d_valid d | None => false end.

Definition Equal (d other : option Document) : bool :=
  match d, other with
  | Some d, Some o => d_valid d && d_valid o && bool_decide (d_fingerprint d = d_fingerprint o)
  | _, _ => false
  end.

Definition RestartCompatible (d other : option Document) : bool :=
  match d, other with
  | Some d, Some o =>
      d_valid d && d_valid o && bool_decide (d_restartFingerprint d = d_restartFingerprint o)
  | _, _ => false
  end.

(** slices.SortFunc by proxy ID; IDs of a finished configuration are distinct,
    so every sorting algorithm yields this list. *)
Definition id_le (a b : Proxy) : bool := negb (String.ltb (p_ID b) (p_ID a)).

Fixpoint insert_proxy (p : Proxy) (l : list Proxy) : list Proxy :=
  match l with
  | [] => [p]
  | q :: l' => if id_le p q then p :: q :: l' else q :: insert_proxy p l'
  end.

Definition sort_proxies (l : list Proxy) : list Proxy := foldr insert_proxy [] l.

Section newDocument.
(** json.Marshal of the configuration with its TLS digests, then SHA-256; the
    JSON text is an argument. *)
Context (marshal : Config → gmap string bytes → option bytes).

Definition hash_config (c : Config) (tlsDigests : gmap string bytes) : option bytes :=
  Sha256.Sum256 <$> marshal c tlsDigests.

Definition canonical (c : Config) : Config :=
  {| c_APIVersion := c_APIVersion c; c_Seed := c_Seed c; c_Runtime := c_Runtime c;
     c_Proxies := sort_proxies (c_Proxies c) |}.

(** The part of the configuration a reload may not change. *)
Definition restart_view (c : Config) : Config :=
  {| c_APIVersion := c_APIVersion c; c_Seed := 0; c_Runtime := c_Runtime c;
     c_Proxies := set_Rules [] <$> c_Proxies c |}.

Definition newDocument (c : Config) (tlsDigests : gmap string bytes) : option Document :=
  full ← hash_config (canonical c) tlsDigests;
  restart ← hash_config (restart_view (canonical c)) tlsDigests;
  mret {| d_config := c; d_valid := true; d_fingerprint := full;
          d_restartFingerprint := restart |}.
End newDocument.
