(* ===== verification/Heap.v ===== *)
(** * Configuration in memory (internal/config/config.go: Clone, cloneConfig,
    newDocument, Document.Config)

    The rest of the development treats a configuration as a value. In Go it is a
    graph of slices, maps and pointers that assignment shares. Here the graph is
    explicit: a heap of cells, structs that hold locations, and the operations that
    copy them, with the in-place writes of cloneConfig, of the sort and of the
    restart view. HeapSpec shows that the value model is a refinement of this one. *)

From S2P Require Import Prelude GoLib GoRand Config.
Local Open Scope go_scope.

Notation loc := BinNums.positive.

(** Structs of config.go with pointers, slices and maps as locations; nil is [None]. *)
Record hSelector := { hs_Probability : option loc; hs_Nth : option loc; hs_Every : option loc }.

Record hFault := {
  hf_Phase : string;
  hf_Action : string;
  hf_Duration : option loc;
  hf_MaxDuration : option loc;
  hf_Status : option loc;
  hf_Body : option loc;
  hf_Direction : string;
  hf_Bytes : option loc;
  hf_BytesPerSecond : option loc;
  hf_AfterBytes : option loc;
  hf_AfterDuration : option loc;
  hf_TriggerDirection : string
}.

Record hMatcher := {
  hm_PathPattern : string;
  hm_Method : string;
  hm_Service : string;
  hm_Path : string;
  hm_Headers : option loc
}.

Record hRule := { hr_ID : string; hr_Enabled : bool; hr_Match : hMatcher; hr_Select : hSelector; hr_Fault : hFault }.

Record hProxy := {
  hp_ID : string;
  hp_Protocol : string;
  hp_UpstreamProtocol : string;
  hp_Listen : string;
  hp_Upstream : string;
  hp_TLS : option loc;
  hp_UpstreamTLS : option loc;
  hp_Rules : option loc
}.

Record hConfig := { hc_APIVersion : string; hc_Seed : Z; hc_Runtime : Runtime; hc_Proxies : option loc }.

(** A slice is the location of its array, all of which it covers. *)
Inductive cell :=
| CInt (z : Z)
| CFloat (f : spec_float)
| CString (s : string)
| CListenerTLS (t : ListenerTLS)
| CUpstreamTLS (t : UpstreamTLS)
| CHeaders (m : gmap string string)
| CRules (l : list hRule)
| CProxies (l : list hProxy).

Notation heap := (gmap loc cell).

(** ** A monad of operations that may panic *)

Definition H (A : Type) : Type := heap → option (A * heap).
#[export] Instance H_ret : MRet H := λ A a h, Some (a, h).
#[export] Instance H_bind : MBind H := λ A B f m h, '(a, h) ← m h; f a h.

Definition alloc (c : cell) : H loc := λ h, let l := fresh (dom h) in Some (l, <[l := c]> h).
Definition load (l : loc) : H cell := λ h, c ← h !! l; Some (c, h).
Definition store (l : loc) (c : cell) : H unit := λ h, _ ← h !! l; Some (tt, <[l := c]> h).

Definition get_rules (c : cell) : option (list hRule) := match c with CRules l => Some l | _ => None end.
Definition get_proxies (c : cell) : option (list hProxy) := match c with CProxies l => Some l | _ => None end.

(** Lift a cell access that the types of Go make succeed. *)
Definition expect {A} (o : option A) : H A := λ h, a ← o; Some (a, h).

(** ** Copies *)

(** clonePointer, slices.Clone and maps.Clone: nil stays nil, anything else is one
    fresh cell with the same content. *)
Definition clonePointer (p : option loc) : H (option loc) :=
  match p with
  | None => mret None
  | Some l => c ← load l; l' ← alloc c; mret (Some l')
  end.
Definition slices_Clone (p : option loc) : H (option loc) := clonePointer p.
Definition maps_Clone (p : option loc) : H (option loc) := clonePointer p.

Definition Fault_Clone (f : hFault) : H hFault :=
  duration ← clonePointer (hf_Duration f);
  maxDuration ← clonePointer (hf_MaxDuration f);
  status ← clonePointer (hf_Status f);
  body ← clonePointer (hf_Body f);
  byts ← clonePointer (hf_Bytes f);
  bps ← clonePointer (hf_BytesPerSecond f);
  afterBytes ← clonePointer (hf_AfterBytes f);
  afterDuration ← clonePointer (hf_AfterDuration f);
  mret {| hf_Phase := hf_Phase f; hf_Action := hf_Action f; hf_Duration := duration; hf_MaxDuration := maxDuration;
          hf_Status := status; hf_Body := body; hf_Direction := hf_Direction f; hf_Bytes := byts; hf_BytesPerSecond := bps;
          hf_AfterBytes := afterBytes; hf_AfterDuration := afterDuration; hf_TriggerDirection := hf_TriggerDirection f |}.

Definition Selector_Clone (s : hSelector) : H hSelector :=
  probability ← clonePointer (hs_Probability s);
  nth ← clonePointer (hs_Nth s);
  every ← clonePointer (hs_Every s);
  mret {| hs_Probability := probability; hs_Nth := nth; hs_Every := every |}.

Definition set_headers (p : option loc) (m : hMatcher) : hMatcher :=
  {| hm_PathPattern := hm_PathPattern m; hm_Method := hm_Method m; hm_Service := hm_Service m; hm_Path := hm_Path m;
     hm_Headers := p |}.

(** The assignments to the rule at &p.Rules[j]. *)
Definition clone_rule (r : hRule) : H hRule :=
  headers ← maps_Clone (hm_Headers (hr_Match r));
  probability ← clonePointer (hs_Probability (hr_Select r));
  nth ← clonePointer (hs_Nth (hr_Select r));
  every ← clonePointer (hs_Every (hr_Select r));
  fault ← Fault_Clone (hr_Fault r);
  mret {| hr_ID := hr_ID r; hr_Enabled := hr_Enabled r; hr_Match := set_headers headers (hr_Match r);
          hr_Select := {| hs_Probability := probability; hs_Nth := nth; hs_Every := every |}; hr_Fault := fault |}.

(** for j := range p.Rules: element [j] of the array at [l] is replaced in place. *)
Fixpoint clone_rules (l : loc) (j n : nat) : H unit :=
  match n with
  | O => mret tt
  | S n' =>
      c ← load l;
      rs ← expect (get_rules c);
      r ← expect (rs !! j);
      r' ← clone_rule r;
      _ ← store l (CRules (<[j := r']> rs));
      clone_rules l (S j) n'
  end.

Definition clone_rules_of (p : option loc) : H unit :=
  match p with
  | None => mret tt
  | Some l => c ← load l; rs ← expect (get_rules c); clone_rules l 0 (length rs)
  end.

(** The assignments to the proxy at &c.Proxies[i]. *)
Definition clone_proxy (p : hProxy) : H hProxy :=
  tls ← clonePointer (hp_TLS p);
  upstreamTLS ← clonePointer (hp_UpstreamTLS p);
  rules ← slices_Clone (hp_Rules p);
  _ ← clone_rules_of rules;
  mret {| hp_ID := hp_ID p; hp_Protocol := hp_Protocol p; hp_UpstreamProtocol := hp_UpstreamProtocol p; hp_Listen := hp_Listen p;
          hp_Upstream := hp_Upstream p; hp_TLS := tls; hp_UpstreamTLS := upstreamTLS; hp_Rules := rules |}.

Fixpoint clone_proxies (l : loc) (i n : nat) : H unit :=
  match n with
  | O => mret tt
  | S n' =>
      c ← load l;
      ps ← expect (get_proxies c);
      p ← expect (ps !! i);
      p' ← clone_proxy p;
      _ ← store l (CProxies (<[i := p']> ps));
      clone_proxies l (S i) n'
  end.

Definition set_proxies (p : option loc) (c : hConfig) : hConfig :=
  {| hc_APIVersion := hc_APIVersion c; hc_Seed := hc_Seed c; hc_Runtime := hc_Runtime c; hc_Proxies := p |}.

Definition clone_proxies_of (p : option loc) : H unit :=
  match p with
  | None => mret tt
  | Some l => c ← load l; ps ← expect (get_proxies c); clone_proxies l 0 (length ps)
  end.

Definition cloneConfig (c : hConfig) : H hConfig :=
  proxies ← slices_Clone (hc_Proxies c);
  _ ← clone_proxies_of proxies;
  mret (set_proxies proxies c).

(** ** What a struct in memory means *)

Definition get_int (c : cell) : option Z := match c with CInt z => Some z | _ => None end.
Definition get_float (c : cell) : option spec_float := match c with CFloat f => Some f | _ => None end.
Definition get_string (c : cell) : option string := match c with CString s => Some s | _ => None end.
Definition get_ltls (c : cell) : option ListenerTLS := match c with CListenerTLS t => Some t | _ => None end.
Definition get_utls (c : cell) : option UpstreamTLS := match c with CUpstreamTLS t => Some t | _ => None end.
Definition get_headers (c : cell) : option (gmap string string) := match c with CHeaders m => Some m | _ => None end.

(** *p, for a pointer that may be nil. *)
Definition deref {A} (get : cell → option A) (h : heap) (p : option loc) : option (option A) :=
  match p with None => Some None | Some l => Some <$> (h !! l ≫= get) end.

Definition den_selector (h : heap) (s : hSelector) : option Selector :=
  probability ← deref get_float h (hs_Probability s);
  nth ← deref get_int h (hs_Nth s);
  every ← deref get_int h (hs_Every s);
  Some {| s_Probability := probability; s_Nth := nth; s_Every := every |}.

Definition den_fault (h : heap) (f : hFault) : option Fault :=
  duration ← deref get_int h (hf_Duration f);
  maxDuration ← deref get_int h (hf_MaxDuration f);
  status ← deref get_int h (hf_Status f);
  body ← deref get_string h (hf_Body f);
  byts ← deref get_int h (hf_Bytes f);
  bps ← deref get_int h (hf_BytesPerSecond f);
  afterBytes ← deref get_int h (hf_AfterBytes f);
  afterDuration ← deref get_int h (hf_AfterDuration f);
  Some {| f_Phase := hf_Phase f; f_Action := hf_Action f; f_Duration := duration; f_MaxDuration := maxDuration;
          f_Status := status; f_Body := body; f_Direction := hf_Direction f; f_Bytes := byts; f_BytesPerSecond := bps;
          f_AfterBytes := afterBytes; f_AfterDuration := afterDuration; f_TriggerDirection := hf_TriggerDirection f |}.

Definition den_rule (h : heap) (r : hRule) : option Rule :=
  headers ← deref get_headers h (hm_Headers (hr_Match r));
  sel ← den_selector h (hr_Select r);
  fault ← den_fault h (hr_Fault r);
  let m := hr_Match r in
  Some {| r_ID := hr_ID r; r_Enabled := hr_Enabled r;
          r_Match := {| m_PathPattern := hm_PathPattern m; m_Method := hm_Method m; m_Service := hm_Service m;
                        m_Path := hm_Path m; m_Headers := headers |};
          r_Select := sel; r_Fault := fault |}.

Definition den_proxy (h : heap) (p : hProxy) : option Proxy :=
  tls ← deref get_ltls h (hp_TLS p);
  upstreamTLS ← deref get_utls h (hp_UpstreamTLS p);
  rs ← deref get_rules h (hp_Rules p);
  rules ← mapM (den_rule h) (default [] rs);
  Some {| p_ID := hp_ID p; p_Protocol := hp_Protocol p; p_UpstreamProtocol := hp_UpstreamProtocol p;
          p_Listen := hp_Listen p; p_Upstream := hp_Upstream p; p_TLS := tls; p_UpstreamTLS := upstreamTLS; p_Rules := rules |}.

Definition den_config (h : heap) (c : hConfig) : option Config :=
  ps ← deref get_proxies h (hc_Proxies c);
  proxies ← mapM (den_proxy h) (default [] ps);
  Some {| c_APIVersion := hc_APIVersion c; c_Seed := hc_Seed c; c_Runtime := hc_Runtime c; c_Proxies := proxies |}.

(** ** Documents *)

Record hDocument := { hd_config : hConfig; hd_valid : bool; hd_fingerprint : bytes; hd_restartFingerprint : bytes }.

Definition den_document (h : heap) (d : hDocument) : option Document :=
  c ← den_config h (hd_config d);
  Some {| d_config := c; d_valid := hd_valid d; d_fingerprint := hd_fingerprint d;
          d_restartFingerprint := hd_restartFingerprint d |}.

(** Document.Config. *)
Definition Document_Config (d : hDocument) : H hConfig := cloneConfig (hd_config d).

(** slices.SortFunc on the array of proxies, in place. *)
Definition hid_le (a b : hProxy) : bool := negb (String.ltb (hp_ID b) (hp_ID a)).
Fixpoint insert_hproxy (p : hProxy) (l : list hProxy) : list hProxy :=
  match l with
  | [] => [p]
  | q :: l' => if hid_le p q then p :: q :: l' else q :: insert_hproxy p l'
  end.
Definition sort_hproxies (l : list hProxy) : list hProxy := foldr insert_hproxy [] l.

Definition SortFunc (p : option loc) : H unit :=
  match p with
  | None => mret tt
  | Some l => c ← load l; ps ← expect (get_proxies c); store l (CProxies (sort_hproxies ps))
  end.

Definition no_rules (p : hProxy) : hProxy :=
  {| hp_ID := hp_ID p; hp_Protocol := hp_Protocol p; hp_UpstreamProtocol := hp_UpstreamProtocol p; hp_Listen := hp_Listen p;
     hp_Upstream := hp_Upstream p; hp_TLS := hp_TLS p; hp_UpstreamTLS := hp_UpstreamTLS p; hp_Rules := None |}.

(** for i := range canonical.Proxies { canonical.Proxies[i].Rules = nil } *)
Fixpoint clear_rules (l : loc) (i n : nat) : H unit :=
  match n with
  | O => mret tt
  | S n' =>
      c ← load l;
      ps ← expect (get_proxies c);
      p ← expect (ps !! i);
      _ ← store l (CProxies (<[i := no_rules p]> ps));
      clear_rules l (S i) n'
  end.

Definition clear_rules_of (p : option loc) : H unit :=
  match p with
  | None => mret tt
  | Some l => c ← load l; ps ← expect (get_proxies c); clear_rules l 0 (length ps)
  end.

Section newDocument.
Context (marshal : Config → gmap string bytes → option bytes).

(** The closure hash: json.Marshal follows the pointers of its argument. *)
Definition hash (c : hConfig) (tlsDigests : gmap string bytes) : H (option bytes) := λ h,
  v ← den_config h c; Some (Sha256.Sum256 <$> marshal v tlsDigests, h).

(** newDocument; [None] is the error of json.Marshal. *)
Definition newDocument (c : hConfig) (tlsDigests : gmap string bytes) : H (option hDocument) :=
  canonical ← cloneConfig c;
  _ ← SortFunc (hc_Proxies canonical);
  full ← hash canonical tlsDigests;
  match full with
  | None => mret None
  | Some full =>
      let canonical := {| hc_APIVersion := hc_APIVersion canonical; hc_Seed := 0; hc_Runtime := hc_Runtime canonical;
                          hc_Proxies := hc_Proxies canonical |} in
      _ ← clear_rules_of (hc_Proxies canonical);
      restart ← hash canonical tlsDigests;
      match restart with
      | None => mret None
      | Some restart =>
          mret (Some {| hd_config := c; hd_valid := true; hd_fingerprint := full; hd_restartFingerprint := restart |})
      end
  end.
End newDocument.
