(* ===== verification/HeapSpec.v ===== *)
(** * Copies are deep, and values are enough

    cloneConfig returns a configuration that means the same and shares no cell
    with its argument, so whatever a caller writes to its copy, the document is
    unchanged; newDocument, with the writes it makes to its own copy, computes what
    the value model computes and leaves its argument alone. *)

From S2P Require Import Prelude GoLib GoRand Config Heap.

(** ** Reading *)

Lemma mapM_impl {A B} (f g : A → option B) l k :
  (∀ x y, f x = Some y → g x = Some y) → mapM f l = Some k → mapM g l = Some k.
Proof. intros Hfg. rewrite !mapM_Some. intros Hl. eapply Forall2_impl; [exact Hl|]. auto. Qed.

(** A change of the heap, as a relation between what it was and what it is, that a
    reading survives. *)
Class Respects {A V} (R : heap → heap → Prop) (den : heap → A → option V) : Prop :=
  respects h h' a v : R h h' → den h a = Some v → den h' a = Some v.

(** Read the fields of a struct one after the other, then read them in the new heap. *)
Ltac reads H :=
  repeat (let x := fresh "x" in let Hx := fresh "Hx" in apply bind_Some in H as (x & Hx & H)).
Ltac again Hh :=
  repeat match goal with
  | Hx : ?den ?h ?a = Some ?v |- context [?den ?h' ?a] => rewrite (respects h h' a v Hh Hx); cbn [mbind option_bind]
  end.

(** The cells a proxy is made of hold anything but proxies. *)
Class Plain {A} (get : cell → option A) : Prop := plain l : get (CProxies l) = None.
#[export] Instance plain_int : Plain get_int. Proof. done. Qed.
#[export] Instance plain_float : Plain get_float. Proof. done. Qed.
#[export] Instance plain_string : Plain get_string. Proof. done. Qed.
#[export] Instance plain_ltls : Plain get_ltls. Proof. done. Qed.
#[export] Instance plain_utls : Plain get_utls. Proof. done. Qed.
#[export] Instance plain_headers : Plain get_headers. Proof. done. Qed.
#[export] Instance plain_rules : Plain get_rules. Proof. done. Qed.

#[export] Instance mapM_respects {A V} R (den : heap → A → option V) `{!Respects R den} : Respects R (λ h, mapM (den h)).
Proof. intros h h' l v Hh. apply mapM_impl. intros x y. by apply respects. Qed.

Section fields.
Context (R : heap → heap → Prop) {HR : ∀ A (get : cell → option A), Plain get → Respects R (deref get)}.
#[local] Set Default Proof Using "HR".

#[export] Instance selector_respects : Respects R den_selector.
Proof. intros h h' s v Hh Hs. unfold den_selector in *. reads Hs. by again Hh. Qed.

#[export] Instance fault_respects : Respects R den_fault.
Proof. intros h h' f v Hh Hf. unfold den_fault in *. reads Hf. by again Hh. Qed.

#[export] Instance rule_respects : Respects R den_rule.
Proof. intros h h' r v Hh Hr. unfold den_rule in *. reads Hr. by again Hh. Qed.

#[export] Instance proxy_respects : Respects R den_proxy.
Proof.
  intros h h' p v Hh Hp. unfold den_proxy in *. reads Hp. again Hh. by rewrite (mapM_respects R den_rule _ _ _ _ Hh Hx2).
Qed.
End fields.

(** A larger heap means no less. *)
Notation Monotone := (Respects (⊆)).

#[export] Instance deref_mono {A} (get : cell → option A) : Monotone (deref get).
Proof.
  intros h h' [l|] v Hh; unfold deref; [|done]. destruct (h !! l) as [c|] eqn:E; [|done].
  by rewrite (lookup_weaken _ _ _ _ E Hh).
Qed.

#[export] Instance config_mono : Monotone den_config.
Proof. intros h h' c v Hh Hc. unfold den_config in *. reads Hc. again Hh. by rewrite (mapM_respects (⊆) den_proxy _ _ _ _ Hh Hx0). Qed.

(** The array of proxies may change under the proxies themselves. *)
Definition but_proxies (h h' : heap) : Prop := ∀ l c, h !! l = Some c → get_proxies c = None → h' !! l = Some c.

#[export] Instance deref_but {A} (get : cell → option A) : Plain get → Respects but_proxies (deref get).
Proof.
  intros Hp h h' [l|] v Hh; unfold deref; [|done]. destruct (h !! l) as [c|] eqn:E; [|done]. cbn.
  destruct (get c) as [x|] eqn:Eg; [|done]. rewrite (Hh _ _ E); [by cbn; rewrite Eg|]. destruct c; try done. by rewrite Hp in Eg.
Qed.

(** Run the first step of a sequence. *)
Lemma run_bind {A B} (m : H A) (k : A → H B) h a h' : m h = Some (a, h') → (m ≫= k) h = k a h'.
Proof. intros E. unfold mbind, H_bind. by rewrite E. Qed.

(** ** Allocating *)

(** [m] only adds cells to those already allocated, [n], beside the heap [h]; its
    result and the cells of its own satisfy [Q]. *)
Definition adds {A} (h n : heap) (m : H A) (Q : A → heap → Prop) : Prop :=
  ∃ a n', m (h ∪ n) = Some (a, h ∪ n') ∧ n ⊆ n' ∧ n' ##ₘ h ∧ Q a n'.

Lemma adds_ret {A} h n (a : A) (Q : A → heap → Prop) : n ##ₘ h → Q a n → adds h n (mret a) Q.
Proof. intros Hd Hq. by exists a, n. Qed.

Lemma adds_bind {A B} h n (m : H A) (k : A → H B) (P : A → heap → Prop) (Q : B → heap → Prop) :
  adds h n m P → (∀ a n', n ⊆ n' → n' ##ₘ h → P a n' → adds h n' (k a) Q) → adds h n (m ≫= k) Q.
Proof.
  intros (a & n1 & Hm & Hs & Hd & Hp) Hk. destruct (Hk a n1 Hs Hd Hp) as (b & n2 & Hb & Hs2 & Hd2 & Hq).
  exists b, n2. split_and!; [|by etrans|done|done]. unfold mbind, H_bind. rewrite Hm. cbn. exact Hb.
Qed.

(** A copying operation: its result means in the allocated cells what its argument
    means in the heap. *)
Definition copies {A V} (den : heap → A → option V) (f : A → H A) : Prop :=
  ∀ h n a v, n ##ₘ h → den h a = Some v → adds h n (f a) (λ a' n', den n' a' = Some v).

Lemma alloc_adds h n c : n ##ₘ h → adds h n (alloc c) (λ l n', n' !! l = Some c).
Proof.
  intros Hd. set (l := fresh (dom (h ∪ n))). assert ((h ∪ n) !! l = None) as Hl by (apply not_elem_of_dom, is_fresh).
  apply lookup_union_None in Hl as [Hh Hn]. exists l, (<[l := c]> n). split_and!.
  - unfold alloc. fold l. by rewrite insert_union_r.
  - by apply insert_subseteq.
  - by apply map_disjoint_insert_l.
  - apply lookup_insert_eq.
Qed.

Lemma clonePointer_copies {A} (get : cell → option A) : copies (deref get) clonePointer.
Proof.
  intros h n [l|] v Hd Hv; [|by apply adds_ret]. unfold deref in Hv. destruct (h !! l) as [c|] eqn:E; [|done].
  destruct (alloc_adds h n c Hd) as (l' & n' & Ha & Hs & Hd' & Hl). exists (Some l'), n'. split_and!; [|done..|].
  - unfold clonePointer, load, mbind, H_bind. rewrite (lookup_union_Some_l _ _ _ _ E). cbn [mbind option_bind]. by rewrite Ha.
  - unfold deref. by rewrite Hl.
Qed.

(** Run a sequence of copies: every field read from the heap is copied, and what was
    copied before keeps its meaning. *)
Ltac copy_step lem :=
  eapply adds_bind; [eapply lem; eassumption|];
  let a := fresh "a" in let n' := fresh "n'" in let Hs := fresh "Hs" in let Hd := fresh "Hd" in let Ha := fresh "Ha" in
  intros a n' Hs Hd Ha; cbv beta in Ha;
  lazymatch type of Hs with ?n ⊆ _ =>
    repeat match goal with
    | Hx : ?den n ?x = Some ?v |- _ => apply (respects n n' x v Hs) in Hx
    end
  end; clear Hs.

Ltac reads_back := repeat match goal with Hx : ?t = Some _ |- context [?t] => rewrite Hx; cbn [mbind option_bind] end.

Lemma Selector_Clone_copies : copies den_selector Selector_Clone.
Proof.
  intros h n s v Hd Hs. unfold den_selector in Hs. reads Hs. injection Hs as <-. unfold Selector_Clone.
  copy_step (clonePointer_copies get_float). copy_step (clonePointer_copies get_int). copy_step (clonePointer_copies get_int).
  apply adds_ret; [done|]. unfold den_selector. cbn -[deref]. by reads_back.
Qed.

Lemma Fault_Clone_copies : copies den_fault Fault_Clone.
Proof.
  intros h n f v Hd Hf. unfold den_fault in Hf. reads Hf. injection Hf as <-. unfold Fault_Clone.
  do 3 copy_step (clonePointer_copies get_int). copy_step (clonePointer_copies get_string).
  do 4 copy_step (clonePointer_copies get_int).
  apply adds_ret; [done|]. unfold den_fault. cbn -[deref]. by reads_back.
Qed.

Lemma clone_rule_copies : copies den_rule clone_rule.
Proof.
  intros h n r v Hd Hr. unfold den_rule, den_selector in Hr. reads Hr. injection Hr as <-. reads Hx0. injection Hx0 as <-. unfold clone_rule, maps_Clone.
  copy_step (clonePointer_copies get_headers). copy_step (clonePointer_copies get_float). copy_step (clonePointer_copies get_int).
  copy_step (clonePointer_copies get_int). copy_step Fault_Clone_copies.
  apply adds_ret; [done|]. unfold den_rule, den_selector. cbn -[deref den_fault]. by reads_back.
Qed.

(** ** Loops that replace the elements of an array in place *)

Section loops.
Context {A V : Type} (den : heap → A → option V) `{!Monotone den}.
Context (mk : list A → cell) (get : cell → option (list A)) (get_mk : ∀ l, get (mk l) = Some l).
Context (copy : A → H A) (copy_ok : copies den copy).
Context (loop : loc → nat → nat → H unit).
Context (loop_O : ∀ l i, loop l i 0 = mret tt).
Context (loop_S : ∀ l i n, loop l i (S n) =
  (c ← load l; xs ← expect (get c); x ← expect (xs !! i); x' ← copy x; _ ← store l (mk (<[i := x']> xs)); loop l (S i) n)).
#[local] Set Default Proof Using "All".

(** The array is at [l], apart from the old heap [h]; the elements before [i] are
    copies whose cells are [m]. *)
Lemma loop_copies l h m copied rest vd vr :
  h !! l = None → m !! l = None → m ##ₘ h → mapM (den m) copied = Some vd → mapM (den h) rest = Some vr →
  ∃ m' xs, loop l (length copied) (length rest) (<[l := mk (copied ++ rest)]> (h ∪ m)) = Some (tt, <[l := mk xs]> (h ∪ m')) ∧
    m' !! l = None ∧ m' ##ₘ h ∧ mapM (den m') xs = Some (vd ++ vr).
Proof.
  revert m copied vd vr. induction rest as [|x rest IH]; intros m copied vd vr Hl Hm Hd Hc Hr.
  - cbn [length]. rewrite loop_O, app_nil_r. cbn in Hr. injection Hr as <-. exists m, copied. by rewrite app_nil_r.
  - cbn [mapM] in Hr. apply bind_Some in Hr as (v & Hv & (vr' & Hr & [= <-])%bind_Some).
    set (h0 := <[l := mk (copied ++ x :: rest)]> (h ∪ m)).
    assert (h ⊆ h0) as Hsub. { etrans; [apply map_union_subseteq_l|]. apply insert_subseteq, lookup_union_None. done. }
    destruct (copy_ok h0 ∅ x v) as (x' & n & Hx & _ & Hn & Hv'); [apply map_disjoint_empty_l|by eapply respects|].
    rewrite (right_id_L ∅ (∪)) in Hx.
    assert (n !! l = None) as Hnl. { eapply map_disjoint_Some_r; [exact Hn|]. apply lookup_insert_eq. }
    assert (n ##ₘ h ∧ n ##ₘ m) as [Hnh Hnm].
    { apply map_disjoint_insert_r in Hn as [_ Hn]. by apply map_disjoint_union_r in Hn. }
    destruct (IH (m ∪ n) (copied ++ [x']) (vd ++ [v]) vr') as (m' & xs & Hloop & Hm' & Hd' & Hden).
    + done.
    + by apply lookup_union_None.
    + by apply map_disjoint_union_l.
    + apply mapM_Some. apply Forall2_app.
      * apply mapM_Some. eapply (mapM_respects (⊆) den m); [apply map_union_subseteq_l|done].
      * constructor; [|done]. eapply respects; [by apply map_union_subseteq_r|done].
    + done.
    + exists m', xs. split_and!; [|done|done|by rewrite <- app_assoc in Hden].
      rewrite <- Hloop. cbn [length]. rewrite loop_S, length_app, Nat.add_1_r.
      unfold mbind at 1, H_bind at 1, load. unfold h0. rewrite lookup_insert_eq. cbn [mbind option_bind].
      unfold expect. unfold mbind at 1, H_bind at 1. rewrite get_mk. cbn [mbind option_bind].
      unfold mbind at 1, H_bind at 1. rewrite list_lookup_middle by done. cbn [mbind option_bind].
      unfold mbind at 1, H_bind at 1. fold h0. rewrite Hx. cbn [mbind option_bind].
      unfold mbind at 1, H_bind at 1, store. rewrite (lookup_union_Some_l h0 n l (mk (copied ++ x :: rest))) by apply lookup_insert_eq.
      cbn [mbind option_bind]. f_equal. unfold h0. rewrite insert_app_r_alt, Nat.sub_diag by lia. cbn [list_insert].
      rewrite <- insert_union_l, insert_insert_eq, <- (assoc_L (++)). cbn [app]. by rewrite <- (assoc_L (∪)).
Qed.

(** slices.Clone and the loop: the array and its elements are copied. *)
Lemma array_copies {B} (loop_of : option loc → H unit) h n p xs vs (k : option loc → H B) (Q : B → heap → Prop) :
  loop_of None = mret tt → (∀ l, loop_of (Some l) = (c ← load l; xs ← expect (get c); loop l 0 (length xs))) →
  n ##ₘ h → deref get h p = Some xs → mapM (den h) (default [] xs) = Some vs → (∀ c l, get c = Some l → c = mk l) →
  (∀ p' n' xs', n ⊆ n' → n' ##ₘ h → deref get n' p' = Some xs' → mapM (den n') (default [] xs') = Some vs → adds h n' (k p') Q) →
  adds h n (p' ← clonePointer p; _ ← loop_of p'; k p') Q.
Proof.
  intros HN HS Hd Hp Hv Hget Hk. destruct p as [l0|].
  2: { injection Hp as <-. injection Hv as <-. change (adds h n (_ ← loop_of None; k None) Q). rewrite HN.
       by apply (Hk None n None). }
  unfold deref in Hp. destruct (h !! l0) as [c|] eqn:Ec; [|done]. cbn in Hp. destruct (get c) as [ys|] eqn:Ey; [|done]. injection Hp as <-.
  cbn [default from_option id] in Hv. apply Hget in Ey as ->.
  set (l := fresh (dom (h ∪ n))). assert ((h ∪ n) !! l = None) as Hl by (apply not_elem_of_dom, is_fresh).
  pose proof Hl as [Hlh Hln]%lookup_union_None.
  destruct (loop_copies l (h ∪ n) ∅ [] ys [] vs) as (m & zs & Hloop & Hml & Hmd & Hden);
    [done|done|apply map_disjoint_empty_l|done|by eapply (mapM_respects (⊆) den h); [apply map_union_subseteq_l|]|].
  apply map_disjoint_union_r in Hmd as [Hmh Hmn]. rewrite (right_id_L ∅ (∪)) in Hloop. cbn [app length] in Hloop.
  assert (m ⊆ <[l := mk zs]> (n ∪ m)) as Hsm.
  { etrans; [by apply map_union_subseteq_r|]. by apply insert_subseteq, lookup_union_None. }
  destruct (Hk (Some l) (<[l := mk zs]> (n ∪ m)) (Some zs)) as (b & n2 & Hb & Hs2 & Hd2 & Hq).
  - etrans; [apply map_union_subseteq_l|]. by apply insert_subseteq, lookup_union_None.
  - apply map_disjoint_insert_l. split; [done|]. by apply map_disjoint_union_l.
  - unfold deref. rewrite lookup_insert_eq. cbn. by rewrite get_mk.
  - by eapply (mapM_respects (⊆) den m).
  - exists b, n2. split_and!; [|etrans; [|exact Hs2]|done|done].
    + rewrite <- Hb. rewrite (run_bind _ _ _ (Some l) (<[l := mk ys]> (h ∪ n))).
      2: { unfold clonePointer, load, alloc, mbind, H_bind. rewrite (lookup_union_Some_l _ _ _ _ Ec). done. }
      rewrite HS, (run_bind _ _ _ tt (<[l := mk zs]> (h ∪ n ∪ m))).
      2: { rewrite (run_bind _ _ _ (mk ys) (<[l := mk ys]> (h ∪ n))) by (unfold load; by rewrite lookup_insert_eq).
           rewrite (run_bind _ _ _ ys (<[l := mk ys]> (h ∪ n))) by (unfold expect; by rewrite get_mk). exact Hloop. }
      by rewrite <- insert_union_r, (assoc_L (∪)) by done.
    + etrans; [apply map_union_subseteq_l|]. by apply insert_subseteq, lookup_union_None.
Qed.
End loops.

(** ** Proxies and configurations *)

Lemma get_rules_inv c l : get_rules c = Some l → c = CRules l.
Proof. by destruct c; intros [= ->]. Qed.
Lemma get_proxies_inv c l : get_proxies c = Some l → c = CProxies l.
Proof. by destruct c; intros [= ->]. Qed.

Lemma clone_proxy_copies : copies den_proxy clone_proxy.
Proof.
  intros h n p v Hd Hp. unfold den_proxy in Hp. reads Hp. injection Hp as <-. unfold clone_proxy, slices_Clone.
  copy_step (clonePointer_copies get_ltls). copy_step (clonePointer_copies get_utls).
  eapply (array_copies den_rule CRules get_rules ltac:(done) clone_rule clone_rule_copies clone_rules ltac:(done) ltac:(done) clone_rules_of);
    [done|done|done|exact Hx1|exact Hx2|exact get_rules_inv|].
  intros p' n2 xs' Hs Hd2 Hp' Hv'. apply adds_ret; [done|]. unfold den_proxy.
  cbn [hp_ID hp_Protocol hp_UpstreamProtocol hp_Listen hp_Upstream hp_TLS hp_UpstreamTLS hp_Rules].
  rewrite (respects _ _ _ _ Hs Ha), (respects _ _ _ _ Hs Ha0), Hp'. cbn [mbind option_bind]. by rewrite Hv'.
Qed.

Lemma cloneConfig_copies : copies den_config cloneConfig.
Proof.
  intros h n c v Hd Hc. unfold den_config in Hc. reads Hc. injection Hc as <-. unfold cloneConfig, slices_Clone.
  eapply (array_copies den_proxy CProxies get_proxies ltac:(done) clone_proxy clone_proxy_copies clone_proxies ltac:(done) ltac:(done) clone_proxies_of);
    [done|done|done|exact Hx|exact Hx0|exact get_proxies_inv|].
  intros p' n' xs' Hs Hd' Hp' Hv'. apply adds_ret; [done|]. unfold den_config, set_proxies. cbn [hc_Proxies hc_APIVersion hc_Seed hc_Runtime].
  rewrite Hp'. cbn [mbind option_bind]. by rewrite Hv'.
Qed.

(** ** Isolation *)

Lemma agree_subseteq (h h2 : heap) : (∀ l, l ∈ dom h → h2 !! l = h !! l) → h ⊆ h2.
Proof. intros Ha. apply map_subseteq_spec. intros l c Hl. rewrite Ha; [done|]. by eapply elem_of_dom_2. Qed.

(** A copying operation run from a heap: the copy means the same value in cells of
    its own, and the heap is otherwise as it was. *)
Lemma copies_run {A V} (den : heap → A → option V) f h a v :
  copies den f → den h a = Some v →
  ∃ a' n, f a h = Some (a', h ∪ n) ∧ n ##ₘ h ∧ den n a' = Some v.
Proof.
  intros Hf Hv. destruct (Hf h ∅ a v) as (a' & n & Hr & _ & Hd & Hn); [apply map_disjoint_empty_l|done|].
  rewrite (right_id_L ∅ (∪)) in Hr. by exists a', n.
Qed.

(** C19. Document.Config hands out a configuration that means what the document holds
    and lives in cells of its own: whatever a caller does to those cells, and
    whatever else it allocates, the document keeps its meaning; and whatever happens
    to all the other cells, the copy keeps its own. *)
Theorem Config_isolated h d v :
  den_document h d = Some v →
  ∃ c n, Document_Config d h = Some (c, h ∪ n) ∧ n ##ₘ h ∧ den_config (h ∪ n) c = Some (d_config v) ∧
    (∀ h2 : heap, (∀ l, l ∈ dom h → h2 !! l = h !! l) → den_document h2 d = Some v) ∧
    (∀ h2 : heap, (∀ l, l ∈ dom n → h2 !! l = n !! l) → den_config h2 c = Some (d_config v)).
Proof.
  intros Hv. pose proof Hv as (c0 & Hc & [= <-])%bind_Some. cbn [d_config].
  destruct (copies_run den_config cloneConfig h (hd_config d) c0 cloneConfig_copies Hc) as (c & n & Hr & Hd & Hn).
  exists c, n. split_and!; [exact Hr|done| | |].
  - eapply respects; [by apply map_union_subseteq_r|done].
  - intros h2 H2. unfold den_document. by rewrite (respects h h2 _ _ (agree_subseteq _ _ H2) Hc).
  - intros h2 H2. eapply respects; [by apply agree_subseteq|done].
Qed.

(** ** newDocument *)

Lemma den_proxy_ID h p v : den_proxy h p = Some v → p_ID v = hp_ID p.
Proof. unfold den_proxy. intros Hp. reads Hp. by simplify_eq. Qed.

(** Sorting the array sorts the proxies it means. *)
Lemma insert_means h p v qs ws :
  den_proxy h p = Some v → Forall2 (λ q w, den_proxy h q = Some w) qs ws →
  Forall2 (λ q w, den_proxy h q = Some w) (insert_hproxy p qs) (insert_proxy v ws).
Proof.
  intros Hp. induction 1 as [|q w qs ws Hq Hqs IH]; cbn; [by constructor|]. unfold hid_le, id_le.
  rewrite (den_proxy_ID _ _ _ Hp), (den_proxy_ID _ _ _ Hq). destruct (negb _); [by constructor; [|constructor]|by constructor].
Qed.

Lemma sort_means h ps vs : mapM (den_proxy h) ps = Some vs → mapM (den_proxy h) (sort_hproxies ps) = Some (sort_proxies vs).
Proof. rewrite !mapM_Some. induction 1 as [|p v ps vs Hp _ IH]; [constructor|]. by apply insert_means. Qed.

Lemma no_rules_means h (ps : list hProxy) (vs : list Proxy) : mapM (den_proxy h) ps = Some vs → mapM (den_proxy h) (no_rules <$> ps) = Some (set_Rules [] <$> vs).
Proof.
  rewrite !mapM_Some. intros Hps. apply Forall2_fmap. eapply Forall2_impl; [exact Hps|]. intros p v Hp. unfold den_proxy in *.
  reads Hp. injection Hp as <-. cbn [no_rules hp_TLS hp_UpstreamTLS hp_Rules deref mbind option_bind]. by rewrite Hx, Hx0.
Qed.

Lemma clear_rules_run l h before ps :
  clear_rules l (length before) (length ps) (<[l := CProxies (before ++ ps)]> h) = Some (tt, <[l := CProxies (before ++ (no_rules <$> ps))]> h).
Proof.
  revert before. induction ps as [|p ps IH]; intros before; [done|]. cbn [length clear_rules].
  erewrite run_bind by (unfold load; by rewrite lookup_insert_eq). erewrite run_bind by done.
  erewrite run_bind by (unfold expect; by rewrite list_lookup_middle).
  erewrite run_bind by (unfold store; by rewrite lookup_insert_eq). rewrite insert_insert_eq, insert_app_r_alt, Nat.sub_diag by lia.
  cbn [list_insert]. specialize (IH (before ++ [no_rules p])). rewrite length_app, Nat.add_1_r, <- !app_assoc in IH. exact IH.
Qed.

Section documents.
Context (marshal : Config → gmap string bytes → option bytes).

(** The array of proxies of a configuration in cells [n] of its own, replaced. *)
Lemma store_proxies h n l ps ps' vs :
  n ##ₘ h → n !! l = Some (CProxies ps) → mapM (den_proxy n) ps' = Some vs →
  <[l := CProxies ps']> (h ∪ n) = h ∪ <[l := CProxies ps']> n ∧ <[l := CProxies ps']> n ##ₘ h ∧
  mapM (den_proxy (<[l := CProxies ps']> n)) ps' = Some vs.
Proof.
  intros Hd Hl Hps. assert (h !! l = None) as Hh by (by eapply map_disjoint_Some_l). split_and!.
  - by rewrite insert_union_r.
  - by apply map_disjoint_insert_l.
  - eapply (mapM_respects but_proxies den_proxy n); [|exact Hps]. intros l' c Hl' Hc. destruct (decide (l' = l)) as [->|Hne].
    + rewrite Hl in Hl'. by injection Hl' as <-.
    + by rewrite lookup_insert_ne.
Qed.

(** The two loops of newDocument over the array of its copy. *)
Lemma arrays_run h n p v ps :
  n ##ₘ h → deref get_proxies n p = Some ps → mapM (den_proxy n) (default [] ps) = Some v →
  ∃ n1 n2 ps1 ps2,
    SortFunc p (h ∪ n) = Some (tt, h ∪ n1) ∧ n1 ##ₘ h ∧ deref get_proxies n1 p = Some ps1 ∧
    mapM (den_proxy n1) (default [] ps1) = Some (sort_proxies v) ∧
    clear_rules_of p (h ∪ n1) = Some (tt, h ∪ n2) ∧ n2 ##ₘ h ∧ deref get_proxies n2 p = Some ps2 ∧
    mapM (den_proxy n2) (default [] ps2) = Some (set_Rules [] <$> sort_proxies v).
Proof.
  intros Hd Hp Hv. destruct p as [l|].
  2: { cbn in Hp. injection Hp as <-. cbn in Hv. injection Hv as <-. by exists n, n, None, None. }
  unfold deref in Hp. destruct (n !! l) as [c|] eqn:Ec; [|done]. cbn in Hp. destruct (get_proxies c) as [l0|] eqn:Eg; [|done].
  apply get_proxies_inv in Eg as ->. injection Hp as <-. cbn [default from_option id] in Hv.
  destruct (store_proxies h n l l0 _ _ Hd Ec (sort_means _ _ _ Hv)) as (E1 & Hd1 & Hv1). set (n1 := <[l := CProxies (sort_hproxies l0)]> n) in *.
  destruct (store_proxies h n1 l (sort_hproxies l0) _ _ Hd1 (lookup_insert_eq _ _ _) (no_rules_means _ _ _ Hv1)) as (E2 & Hd2 & Hv2).
  exists n1, (<[l := CProxies (no_rules <$> sort_hproxies l0)]> n1), (Some (sort_hproxies l0)), (Some (no_rules <$> sort_hproxies l0)).
  assert ((h ∪ n) !! l = Some (CProxies l0)) as Hl by (by apply lookup_union_Some_r). split_and!; try done.
  - unfold SortFunc. erewrite run_bind by (unfold load; by rewrite Hl). erewrite run_bind by done. unfold store. rewrite Hl. cbn. by rewrite E1.
  - unfold deref, n1. by rewrite lookup_insert_eq.
  - rewrite <- E1. unfold clear_rules_of. erewrite run_bind by (unfold load; by rewrite lookup_insert_eq). erewrite run_bind by done.
    rewrite (clear_rules_run l (h ∪ n) []). cbn [app]. rewrite <- E2, <- E1, insert_insert_eq. done.
  - unfold deref. by rewrite lookup_insert_eq.
Qed.

Lemma hash_run h n c ps v D :
  n ##ₘ h → deref get_proxies n (hc_Proxies c) = Some ps → mapM (den_proxy n) (default [] ps) = Some v →
  hash marshal c D (h ∪ n) =
    Some (hash_config marshal {| c_APIVersion := hc_APIVersion c; c_Seed := hc_Seed c; c_Runtime := hc_Runtime c; c_Proxies := v |} D, h ∪ n).
Proof.
  intros Hd Hp Hv. unfold hash. erewrite (respects n (h ∪ n)); [done|by apply map_union_subseteq_r|].
  unfold den_config. rewrite Hp. cbn [mbind option_bind]. by rewrite Hv.
Qed.

(** C18. NewDocument, which sorts, reseeds and strips a copy in place, computes the
    document of the value model and leaves the configuration it was given alone: it
    only adds cells. *)
Theorem newDocument_refines h c D v :
  den_config h c = Some v →
  ∃ n, n ##ₘ h ∧
    match Config.newDocument marshal v D with
    | Some d => ∃ hd, newDocument marshal c D h = Some (Some hd, h ∪ n) ∧ hd_config hd = c ∧ den_document (h ∪ n) hd = Some d
    | None => newDocument marshal c D h = Some (None, h ∪ n)
    end.
Proof.
  intros Hc. destruct (copies_run den_config cloneConfig h c v cloneConfig_copies Hc) as (c' & n & Hr & Hd & Hv).
  pose proof Hv as (ps & Hp & (vs & Hvs & [= <-])%bind_Some)%bind_Some.
  destruct (arrays_run h n (hc_Proxies c') vs ps Hd Hp Hvs) as (n1 & n2 & ps1 & ps2 & Hs & Hd1 & Hp1 & Hv1 & Hcl & Hd2 & Hp2 & Hv2).
  pose proof (hash_run h n1 c' ps1 _ D Hd1 Hp1 Hv1) as Hfull.
  set (c0 := {| hc_APIVersion := hc_APIVersion c'; hc_Seed := 0; hc_Runtime := hc_Runtime c'; hc_Proxies := hc_Proxies c' |}).
  pose proof (hash_run h n2 c0 ps2 _ D Hd2 Hp2 Hv2) as Hrestart.
  unfold newDocument. rewrite (run_bind _ _ _ _ _ Hr), (run_bind _ _ _ _ _ Hs), (run_bind _ _ _ _ _ Hfull).
  unfold Config.newDocument, canonical, restart_view. cbn [c_APIVersion c_Seed c_Runtime c_Proxies].
  destruct (hash_config _ _ _) as [full|]; [|by exists n1]. exists n2. split; [done|]. fold c0. cbv zeta.
  rewrite (run_bind _ _ _ _ _ Hcl), (run_bind _ _ _ _ _ Hrestart). cbn [mbind option_bind c0 hc_APIVersion hc_Seed hc_Runtime].
  destruct (hash_config _ _ _) as [restart|]; [|done]. eexists. split_and!; [done..|]. unfold den_document. cbn [hd_config].
  by rewrite (respects h (h ∪ n2) _ _ (map_union_subseteq_l h n2) Hc).
Qed.
End documents.

(** ** A configuration in memory *)

Definition sample_hrule : hRule :=
  {| hr_ID := "r1"; hr_Enabled := true;
     hr_Match := {| hm_PathPattern := ""; hm_Method := "GET"; hm_Service := ""; hm_Path := ""; hm_Headers := Some 3%positive |};
     hr_Select := {| hs_Probability := None; hs_Nth := None; hs_Every := Some 4%positive |};
     hr_Fault := {| hf_Phase := BeforeUpstreamRequest; hf_Action := "delay"; hf_Duration := Some 5%positive; hf_MaxDuration := None;
                    hf_Status := None; hf_Body := None; hf_Direction := ""; hf_Bytes := None; hf_BytesPerSecond := None;
                    hf_AfterBytes := None; hf_AfterDuration := None; hf_TriggerDirection := "" |} |}.
Definition sample_hproxy (id : string) (rules : option loc) : hProxy :=
  {| hp_ID := id; hp_Protocol := "http1"; hp_UpstreamProtocol := "http1"; hp_Listen := "127.0.0.1:8080"; hp_Upstream := "http://up:80";
     hp_TLS := None; hp_UpstreamTLS := None; hp_Rules := rules |}.
Definition sample_heap : heap :=
  {[ 1%positive := CProxies [sample_hproxy "b" (Some 2%positive); sample_hproxy "a" None]; 2%positive := CRules [sample_hrule];
     3%positive := CHeaders {[ "x-a" := "1" ]}; 4%positive := CInt 2; 5%positive := CInt 5 ]}.
Definition sample_hconfig : hConfig :=
  {| hc_APIVersion := APIVersion; hc_Seed := 7; hc_Runtime := DefaultRuntime; hc_Proxies := Some 1%positive |}.
Definition sample_hdocument : hDocument :=
  {| hd_config := sample_hconfig; hd_valid := true; hd_fingerprint := []; hd_restartFingerprint := [] |}.
Definition sample_value : Document :=
  default {| d_config := {| c_APIVersion := ""; c_Seed := 0; c_Runtime := DefaultRuntime; c_Proxies := [] |}; d_valid := false;
             d_fingerprint := []; d_restartFingerprint := [] |} (den_document sample_heap sample_hdocument).

(** A caller that renames the first proxy of its copy. *)
Lemma Config_isolated_witness :
  ∃ c n, Document_Config sample_hdocument sample_heap = Some (c, sample_heap ∪ n) ∧
    den_config (sample_heap ∪ n) c = Some (d_config sample_value) ∧
    ∀ l x, l ∈ dom n → den_document (<[l := x]> (sample_heap ∪ n)) sample_hdocument = Some sample_value.
Proof.
  destruct (Config_isolated sample_heap sample_hdocument sample_value) as (c & n & Hr & Hd & Hc & Hdoc & _); [vm_compute; reflexivity|].
  exists c, n. split; [exact Hr|]. split; [exact Hc|]. intros l x Hl. apply Hdoc. intros l' Hl'.
  rewrite lookup_insert_ne; [by apply lookup_union_l', elem_of_dom|]. intros ->. apply map_disjoint_dom in Hd. set_solver.
Defined.

Definition sample_json (c : Config) (digests : gmap string bytes) : option bytes :=
  Some (of_string (c_APIVersion c +:+ String.concat "," (p_ID <$> c_Proxies c))).

Lemma newDocument_refines_witness :
  ∃ n, n ##ₘ sample_heap ∧
    match Config.newDocument sample_json (d_config sample_value) ∅ with
    | Some d => ∃ hd, newDocument sample_json sample_hconfig ∅ sample_heap = Some (Some hd, sample_heap ∪ n) ∧
                      hd_config hd = sample_hconfig ∧ den_document (sample_heap ∪ n) hd = Some d
    | None => newDocument sample_json sample_hconfig ∅ sample_heap = Some (None, sample_heap ∪ n)
    end.
Proof. apply (newDocument_refines sample_json sample_heap sample_hconfig ∅ (d_config sample_value)). vm_compute. reflexivity. Defined.
