(* ===== verification/Validate.v ===== *)
(** * Configuration validation (internal/config/validate.go)

    [validate] and its helpers. A validator that writes through its pointer
    returns the updated value; an error is a [FieldError]. Ranging over a Go map
    is modelled by [range], an arbitrary enumeration of the map. *)

From Stdlib Require Import Ascii.
From S2P Require Import Prelude GoLib GoUtf8 GoRand Config.
Local Open Scope go_scope.

Record FieldError := { e_File : string; e_Path : string; e_Message : string }.

Definition invalid (path message : string) : FieldError :=
  {| e_File := ""; e_Path := path; e_Message := message |}.

Definition CR : ascii := "013".
Definition LF : ascii := "010".
Definition NUL : ascii := "000".

(** ** Lexical predicates *)

Definition nonempty (s : string) : bool := negb (s =s "").

Definition identifier (s : string) : bool :=
  nonempty s &&
  all_chars (λ c, is_alnum c || Ascii.eqb c "-" || Ascii.eqb c "_" || Ascii.eqb c ".") s.

Definition token (s : string) : bool :=
  nonempty s && all_chars (λ c, is_alnum c || ContainsByte "!#$%&'*+-.^_`|~" c) s.

Definition last_char (s : string) : option ascii := last (String.list_ascii_of_string s).

Definition host_label (label : string) : bool :=
  nonempty label && bool_decide (String.length label ≤ 63)%nat &&
  negb (HasPrefix label "-") && negb (bool_decide (last_char label = Some "-"%char)) &&
  all_chars (λ c, is_alnum c || Ascii.eqb c "-") label.

(** [is_ip s] is net.ParseIP(s) != nil. *)
Definition hostname (is_ip : string → bool) (s : string) : bool :=
  is_ip s ||
  (nonempty s && bool_decide (String.length s ≤ 253)%nat &&
   forallb host_label (Split "." (TrimSuffix s "."))).

Definition tcpDirection (d : string) : bool :=
  (d =s "client_to_upstream") || (d =s "upstream_to_client").

Definition validUpstreamScheme (protocol scheme : string) : bool :=
  if (protocol =s "postgresql") || (protocol =s "mysql")
  then (scheme =s protocol) || (scheme =s protocol +:+ "s")
  else (scheme =s "http") || (scheme =s "https").

Definition name_start (c : ascii) : bool := is_lower c || is_upper c || Ascii.eqb c "_".

(** The [:name] segments of a pattern, checked left to right against the names
    already used. *)
Fixpoint pattern_segments (segments : list string) (names : gset string) : bool :=
  match segments with
  | [] => true
  | segment :: rest =>
      if negb (ContainsByte segment ":") then pattern_segments rest names
      else
        match segment with
        | String c (String n0 tail as name) =>
            if Ascii.eqb c ":" && name_start n0 &&
               all_chars (λ c, name_start c || is_digit c) tail
            then if bool_decide (name ∈ names) then false
                 else pattern_segments rest ({[name]} ∪ names)
            else false
        | _ => false
        end
  end.

Definition validPathPattern (pattern : string) : bool :=
  HasPrefix pattern "/" &&
  negb (ContainsAny pattern ("*?#" +:+ String CR (String LF ""))) &&
  pattern_segments (Split "/" pattern) ∅.

(** ** Selectors *)

Definition is_some {A} (o : option A) : bool := match o with Some _ => true | None => false end.
Definition positive (o : option Z) : bool :=
  match o with Some d => 0 <? d | None => false end.

Definition selector_count (s : Selector) : nat :=
  (Nat.b2n (is_some (s_Probability s)) + Nat.b2n (is_some (s_Nth s)) +
   Nat.b2n (is_some (s_Every s)))%nat.

(** Writing 0 over a zero probability turns -0 into +0. *)
Definition normalize_probability (p : spec_float) : spec_float :=
  if f_eqb p f_zero then f_zero else p.

Definition probability_in_range (p : spec_float) : bool :=
  negb (f_IsNaN p || f_IsInf p || f_ltb p f_zero || f_ltb f_one p).

Definition validateSelector (s : Selector) (path : string) : res FieldError Selector :=
  let s := {| s_Probability := normalize_probability <$> s_Probability s;
              s_Nth := s_Nth s; s_Every := s_Every s |} in
  fail_if match s_Probability s with Some p => negb (probability_in_range p) | None => false end
    with invalid (path +:+ ".select.probability") "must be finite and between 0 and 1" ;;
  fail_if bool_decide (s_Nth s = Some 0)
    with invalid (path +:+ ".select.nth") "must be positive" ;;
  fail_if bool_decide (s_Every s = Some 0)
    with invalid (path +:+ ".select.every") "must be positive" ;;
  fail_if negb (bool_decide (selector_count s = 1%nat))
    with invalid (path +:+ ".select") "exactly one selector is required" ;;
  Ok s.

(** ** HTTP and gRPC faults *)

Definition validateFault (f : Fault) (path : string) : res FieldError unit :=
  fail_if is_some (f_AfterBytes f) || is_some (f_AfterDuration f) || nonempty (f_TriggerDirection f)
    with invalid path "TCP trigger fields require protocol tcp" ;;
  let before := (f_Phase f =s BeforeUpstreamRequest) in
  let after := (f_Phase f =s AfterUpstreamHeaders) in
  let act a := (f_Action f =s a) in
  fail_if negb before && negb after with invalid (path +:+ ".phase") "unsupported phase" ;;
  _ ← (if act "delay" then
         fail_if negb (positive (f_Duration f))
           with invalid (path +:+ ".duration") "positive duration is required" ;; Ok tt
       else if act "respond" then
         fail_if negb before
           with invalid (path +:+ ".phase") "respond requires before_upstream_request" ;;
         fail_if match f_Status f with Some st => (st <? 200) || (599 <? st) | None => true end
           with invalid (path +:+ ".status") "status 200–599 is required" ;; Ok tt
       else if act "hold_request" || act "hold_response" then
         fail_if (act "hold_request" && negb before) || (act "hold_response" && negb after)
           with invalid (path +:+ ".phase") "unsupported action/phase combination" ;;
         fail_if negb (positive (f_MaxDuration f))
           with invalid (path +:+ ".max_duration") "positive max_duration is required" ;; Ok tt
       else if act "truncate" || act "throttle" then
         fail_if negb (f_Direction f =s "request") &&
                 negb (f_Direction f =s "response")
           with invalid (path +:+ ".direction") "expected request or response" ;;
         fail_if negb (Bool.eqb (f_Direction f =s "request") before)
           with invalid (path +:+ ".phase") "phase must correspond to direction" ;;
         fail_if act "truncate" && match f_Bytes f with Some n => n <? 0 | None => true end
           with invalid (path +:+ ".bytes") "nonnegative byte limit is required" ;;
         fail_if act "throttle" && negb (positive (f_BytesPerSecond f))
           with invalid (path +:+ ".bytes_per_second") "positive rate is required" ;; Ok tt
       else if act "close_connection" then Ok tt
       else Err (invalid (path +:+ ".action") "unsupported action"));
  fail_if nonempty (f_Direction f) && negb (act "truncate") && negb (act "throttle")
    with invalid (path +:+ ".direction") "not supported by this action" ;;
  fail_if is_some (f_Bytes f) && negb (act "truncate")
    with invalid (path +:+ ".bytes") "not supported by this action" ;;
  fail_if is_some (f_BytesPerSecond f) && negb (act "throttle")
    with invalid (path +:+ ".bytes_per_second") "not supported by this action" ;;
  fail_if is_some (f_Duration f) && negb (act "delay")
    with invalid (path +:+ ".duration") "not supported by this action" ;;
  fail_if is_some (f_MaxDuration f) && negb (act "hold_request") && negb (act "hold_response")
    with invalid (path +:+ ".max_duration") "not supported by this action" ;;
  fail_if is_some (f_Status f) && negb (act "respond")
    with invalid (path +:+ ".status") "not supported by this action" ;;
  fail_if is_some (f_Body f) && negb (act "respond")
    with invalid (path +:+ ".body") "not supported by this action" ;;
  Ok tt.

(** ** Rules *)

Fixpoint normalize_headers (path : string) (l : list (string * string))
    (headers : gmap string string) : res FieldError (gmap string string) :=
  match l with
  | [] => Ok headers
  | (name, value) :: rest =>
      fail_if negb (token name) || ContainsAny value (String CR (String LF (String NUL "")))
        with invalid (path +:+ ".match.headers") "invalid header name or value" ;;
      let name := ToLower name in
      fail_if is_some (headers !! name)
        with invalid (path +:+ ".match.headers") "duplicate case-insensitive header name" ;;
      normalize_headers path rest (<[name := value]> headers)
  end.

Definition empty_matcher (m : Matcher) : bool :=
  negb (nonempty (m_Method m)) && negb (nonempty (m_Path m)) && negb (nonempty (m_PathPattern m)) &&
  negb (nonempty (m_Service m)) && bool_decide (header_map m = ∅).

Section rules.
Context (range : gmap string string → list (string * string)).

Definition validateRule (r : Rule) (path : string) : res FieldError Rule :=
  let m := r_Match r in
  fail_if nonempty (m_Method m) && negb (token (m_Method m))
    with invalid (path +:+ ".match.method") "invalid method token" ;;
  fail_if nonempty (m_Path m) &&
          (negb (HasPrefix (m_Path m) "/") ||
           ContainsAny (m_Path m) ("?#" +:+ String CR (String LF "")))
    with invalid (path +:+ ".match.path") "expected an exact path without query or fragment" ;;
  fail_if nonempty (m_PathPattern m) && nonempty (m_Path m)
    with invalid (path +:+ ".match.path_pattern") "cannot combine path and path_pattern" ;;
  fail_if nonempty (m_PathPattern m) && negb (validPathPattern (m_PathPattern m))
    with invalid (path +:+ ".match.path_pattern") "expected an absolute path with whole-segment :name parameters; no duplicate names, wildcard, query or fragment" ;;
  headers ← normalize_headers path (range (header_map m)) ∅;
  sel ← validateSelector (r_Select r) path;
  _ ← validateFault (r_Fault r) (path +:+ ".fault");
  let f := r_Fault r in
  let f := if (f_Action f =s "respond") && negb (is_some (f_Body f))
           then set_Body (Some "") f else f in
  Ok (set_Fault f (set_Select sel (set_Match (set_Headers (Some headers) m) r))).

Definition validateTCPRule (r : Rule) (path : string) : res FieldError Rule :=
  fail_if negb (empty_matcher (r_Match r))
    with invalid (path +:+ ".match") "tcp requires an empty matcher" ;;
  sel ← validateSelector (r_Select r) path;
  let f := r_Fault r in
  fail_if is_some (f_Status f) || is_some (f_Body f) || is_some (f_Bytes f)
    with invalid (path +:+ ".fault") "HTTP fields are unsupported for tcp" ;;
  fail_if is_some (f_AfterBytes f) && is_some (f_AfterDuration f)
    with invalid (path +:+ ".fault") "choose one trigger" ;;
  _ ← match f_AfterBytes f with
      | Some n =>
          fail_if n <? 0
            with invalid (path +:+ ".fault.after_bytes") "must be nonnegative" ;;
          fail_if negb (tcpDirection (f_TriggerDirection f))
            with invalid (path +:+ ".fault.trigger_direction") "byte trigger requires a direction" ;;
          Ok tt
      | None =>
          fail_if nonempty (f_TriggerDirection f)
            with invalid (path +:+ ".fault.trigger_direction") "requires after_bytes" ;;
          Ok tt
      end;
  fail_if is_some (f_AfterDuration f) && negb (positive (f_AfterDuration f))
    with invalid (path +:+ ".fault.after_duration") "must be positive" ;;
  let phase p := (f_Phase f =s p) in
  let act a := (f_Action f =s a) in
  _ ← (if act "delay_connect" then
         fail_if negb (phase TCPOnConnect) || negb (positive (f_Duration f)) ||
                 is_some (f_AfterBytes f) || is_some (f_AfterDuration f) ||
                 nonempty (f_Direction f) || is_some (f_MaxDuration f) ||
                 is_some (f_BytesPerSecond f)
           with invalid (path +:+ ".fault") "delay_connect requires on_connect and positive duration only" ;;
         Ok tt
       else if act "close_connection" then
         fail_if negb (phase TCPOnTransfer) || nonempty (f_Direction f) ||
                 is_some (f_Duration f) || is_some (f_MaxDuration f) ||
                 is_some (f_BytesPerSecond f)
           with invalid (path +:+ ".fault") "close_connection requires on_transfer and a valid trigger" ;;
         Ok tt
       else if act "hold" then
         fail_if negb (phase TCPOnTransfer) || negb (tcpDirection (f_Direction f)) ||
                 negb (positive (f_MaxDuration f)) || is_some (f_Duration f) ||
                 is_some (f_BytesPerSecond f)
           with invalid (path +:+ ".fault") "hold requires on_transfer, direction and positive max_duration" ;;
         Ok tt
       else if act "throttle" then
         fail_if negb (phase TCPOnTransfer) || negb (tcpDirection (f_Direction f)) ||
                 negb (positive (f_BytesPerSecond f)) || is_some (f_Duration f) ||
                 is_some (f_MaxDuration f)
           with invalid (path +:+ ".fault") "throttle requires on_transfer, direction and positive bytes_per_second" ;;
         Ok tt
       else Err (invalid (path +:+ ".fault.action") "unsupported tcp action"));
  Ok (set_Select sel r).

Definition validateCommitRule (r : Rule) (path : string) : res FieldError Rule :=
  fail_if negb (empty_matcher (r_Match r))
    with invalid (path +:+ ".match") "database protocol requires an empty matcher" ;;
  fail_if negb (f_Phase (r_Fault r) =s AfterCommit)
    with invalid (path +:+ ".fault.phase") "database protocol requires after_commit" ;;
  copy ← validateRule (set_Fault (set_Phase AfterUpstreamHeaders (r_Fault r)) r) path;
  Ok (set_Select (r_Select copy)
       (set_Match (set_Headers (m_Headers (r_Match copy)) (r_Match r)) r)).
End rules.

(** ** TLS files and the network address syntax of upstreams *)

(** What validation needs from net, net/url, path/filepath, os and crypto. *)
Record URL := {
  u_Scheme : string;
  u_Opaque : string;
  u_User : bool;
  u_Host : string;
  u_Path : string;
  u_RawQuery : string;
  u_ForceQuery : bool;
  u_Fragment : string
}.

Record Env := {
  ParseIP : string → bool;
  url_Parse : string → option URL;
  Clean : string → string;
  ReadFile : string → option bytes;
  X509KeyPair : bytes → bytes → bool;
  pem_Decode : bytes → option (string * bytes * bytes);
  ParseCertificate : bytes → bool
}.

Definition valid_optional_port (s : string) : bool :=
  match s with String c digits => Ascii.eqb c ":" && all_chars is_digit digits | _ => true end.

(** URL.Hostname and URL.Port. *)
Definition split_host_port (h : string) : string * string :=
  let '(host, port) :=
    match LastIndexByte h ":" with
    | Some i => if valid_optional_port (drop_str i h) then (take_str i h, drop_str (S i) h)
                else (h, "")
    | None => (h, "")
    end in
  (if HasPrefix host "[" && HasSuffix host "]"
   then take_str (String.length host - 2) (drop_str 1 host) else host, port).
Definition u_Hostname (u : URL) : string := (split_host_port (u_Host u)).1.
Definition u_Port (u : URL) : string := (split_host_port (u_Host u)).2.

Definition IsAbs (name : string) : bool := HasPrefix name "/".
Definition Join (env : Env) (a b : string) : string :=
  match a, b with
  | "", "" => ""
  | "", _ => Clean env b
  | _, "" => Clean env a
  | _, _ => Clean env (a +:+ "/" +:+ b)
  end.

Section validate.
Context (env : Env) (range : gmap string string → list (string * string)).

Definition tls_read (base name field : string) (digests : gmap string bytes) :
    res FieldError (string * bytes * gmap string bytes) :=
  fail_if (name =s "") with invalid field "file is required" ;;
  let name := if negb (IsAbs name) then Join env base name else name in
  let name := Clean env name in
  match ReadFile env name with
  | None => Err (invalid field "cannot read file")
  | Some data => Ok (name, data, <[name := Sha256.Sum256 data]> digests)
  end.

(** The PEM loop. [fuel] bounds the iterations; each consumes part of [data]. *)
Fixpoint ca_loop (fuel : nat) (field : string) (data : bytes) (count : Z) : res FieldError unit :=
  match fuel with
  | O => Err (invalid field "")
  | S fuel' =>
      match data with
      | [] => fail_if count =? 0 with invalid field "expected PEM certificates" ;; Ok tt
      | _ =>
          match pem_Decode env data with
          | None => Err (invalid field "expected PEM certificates")
          | Some (ty, block, rest) =>
              fail_if negb (ty =s "CERTIFICATE")
                with invalid field "expected PEM certificates" ;;
              fail_if negb (ParseCertificate env block)
                with invalid field "invalid CA certificate" ;;
              ca_loop fuel' field (GoUtf8.TrimSpace rest) (count + 1)
          end
      end
  end.

Definition validateCA (base name field : string) (digests : gmap string bytes) :
    res FieldError (string * gmap string bytes) :=
  '(name, data, digests) ← tls_read base name field digests;
  _ ← ca_loop (S (length data)) field data 0;
  Ok (name, digests).

Definition is_db (protocol : string) : bool :=
  (protocol =s "postgresql") || (protocol =s "mysql").

Definition validate_listener_tls (t : ListenerTLS) (base path : string)
    (digests : gmap string bytes) : res FieldError (ListenerTLS * gmap string bytes) :=
  '(certFile, cert, digests) ← tls_read base (lt_CertFile t) (path +:+ ".tls.cert_file") digests;
  '(keyFile, key, digests) ← tls_read base (lt_KeyFile t) (path +:+ ".tls.key_file") digests;
  fail_if negb (X509KeyPair env cert key)
    with invalid (path +:+ ".tls") "invalid or mismatched certificate/key" ;;
  '(caFile, digests) ←
    (if nonempty (lt_ClientCAFile t)
     then validateCA base (lt_ClientCAFile t) (path +:+ ".tls.client_ca_file") digests
     else Ok (lt_ClientCAFile t, digests));
  Ok ({| lt_CertFile := certFile; lt_KeyFile := keyFile; lt_ClientCAFile := caFile |}, digests).

Definition validate_upstream_tls (p : Proxy) (u : UpstreamTLS) (base path : string)
    (digests : gmap string bytes) : res FieldError (UpstreamTLS * gmap string bytes) :=
  fail_if negb (HasPrefix (p_Upstream p) "https://") &&
          negb (HasPrefix (p_Upstream p) "postgresqls://") &&
          negb (HasPrefix (p_Upstream p) "mysqls://")
    with invalid (path +:+ ".upstream_tls") "requires a TLS upstream" ;;
  fail_if negb (nonempty (ut_CAFile u)) && negb (nonempty (ut_CertFile u)) &&
          negb (nonempty (ut_KeyFile u))
    with invalid (path +:+ ".upstream_tls") "CA or client certificate/key is required" ;;
  '(caFile, digests) ←
    (if nonempty (ut_CAFile u)
     then validateCA base (ut_CAFile u) (path +:+ ".upstream_tls.ca_file") digests
     else Ok (ut_CAFile u, digests));
  if nonempty (ut_CertFile u) || nonempty (ut_KeyFile u) then
    '(certFile, cert, digests) ←
      tls_read base (ut_CertFile u) (path +:+ ".upstream_tls.cert_file") digests;
    '(keyFile, key, digests) ←
      tls_read base (ut_KeyFile u) (path +:+ ".upstream_tls.key_file") digests;
    fail_if negb (X509KeyPair env cert key)
      with invalid (path +:+ ".upstream_tls") "invalid or mismatched certificate/key" ;;
    Ok ({| ut_CAFile := caFile; ut_CertFile := certFile; ut_KeyFile := keyFile |}, digests)
  else
    Ok ({| ut_CAFile := caFile; ut_CertFile := ut_CertFile u; ut_KeyFile := ut_KeyFile u |},
        digests).

Definition validateTLS (p : Proxy) (base path : string) (digests : gmap string bytes) :
    res FieldError (Proxy * gmap string bytes) :=
  fail_if is_db (p_Protocol p) &&
          (match p_TLS p with Some t => nonempty (lt_ClientCAFile t) | None => false end ||
           match p_UpstreamTLS p with
           | Some u => nonempty (ut_CertFile u) || nonempty (ut_KeyFile u)
           | None => false
           end)
    with invalid (path +:+ ".tls") "database mTLS is unsupported" ;;
  fail_if (p_Protocol p =s "mysql") &&
          negb (Bool.eqb (is_some (p_TLS p)) (HasPrefix (p_Upstream p) "mysqls://"))
    with invalid (path +:+ ".tls") "mysql requires both TLS legs or both plaintext legs" ;;
  '(tls, digests) ←
    match p_TLS p with
    | Some t => '(t, digests) ← validate_listener_tls t base path digests; Ok (Some t, digests)
    | None => Ok (None, digests)
    end;
  '(utls, digests) ←
    match p_UpstreamTLS p with
    | Some u => '(u, digests) ← validate_upstream_tls p u base path digests; Ok (Some u, digests)
    | None => Ok (None, digests)
    end;
  Ok ({| p_ID := p_ID p; p_Protocol := p_Protocol p; p_UpstreamProtocol := p_UpstreamProtocol p;
         p_Listen := p_Listen p; p_Upstream := p_Upstream p; p_TLS := tls;
         p_UpstreamTLS := utls; p_Rules := p_Rules p |}, digests).

(** ** The proxy loop of [validate] *)

Definition port_ok (n : Z) : bool := (1 <=? n) && (n <=? 65535).

Definition set_network (proto listen upstream : string) (p : Proxy) : Proxy :=
  {| p_ID := p_ID p; p_Protocol := p_Protocol p; p_UpstreamProtocol := proto;
     p_Listen := listen; p_Upstream := upstream; p_TLS := p_TLS p;
     p_UpstreamTLS := p_UpstreamTLS p; p_Rules := p_Rules p |}.

Definition upstream_protocol (p : Proxy) (path : string) : res FieldError string :=
  let proto := if negb (nonempty (p_UpstreamProtocol p))
               then if (p_Protocol p =s "grpc") then "http2" else p_Protocol p
               else p_UpstreamProtocol p in
  let raw := is_db (p_Protocol p) || (p_Protocol p =s "tcp") in
  fail_if raw && negb (proto =s p_Protocol p)
    with invalid (path +:+ ".upstream_protocol") "upstream protocol must match listener" ;;
  fail_if negb raw &&
          ((negb (proto =s "http1") && negb (proto =s "http2")) ||
           ((p_Protocol p =s "grpc") && negb (proto =s "http2")))
    with invalid (path +:+ ".upstream_protocol") "expected http1 or http2; grpc requires http2" ;;
  Ok proto.

Definition normalize_listen (listen path : string) : res FieldError string :=
  let bad := invalid (path +:+ ".listen") "expected host:port with port 1–65535" in
  match SplitHostPort listen with
  | None => Err bad
  | Some (host, port) =>
      match Atoi port with
      | None => Err bad
      | Some number =>
          fail_if negb (port_ok number) || (nonempty host && negb (hostname (ParseIP env) host))
            with bad ;;
          let host := if negb (nonempty host) then "127.0.0.1" else host in
          Ok (JoinHostPort (ToLower host) (Itoa number))
      end
  end.

Definition tcp_upstream (p : Proxy) (listen path : string) : res FieldError string :=
  let bad := invalid (path +:+ ".upstream") "expected tcp://host:port without credentials or path" in
  match url_Parse env (p_Upstream p) with
  | None => Err bad
  | Some u =>
      fail_if negb (u_Scheme u =s "tcp") || u_User u || nonempty (u_Opaque u) ||
              nonempty (u_Path u) || nonempty (u_RawQuery u) || u_ForceQuery u ||
              nonempty (u_Fragment u) || negb (hostname (ParseIP env) (u_Hostname u)) ||
              negb (nonempty (u_Port u))
        with bad ;;
      match Atoi (u_Port u) with
      | None => Err (invalid (path +:+ ".upstream") "invalid port")
      | Some n =>
          fail_if negb (port_ok n) with invalid (path +:+ ".upstream") "invalid port" ;;
          let upstream := "tcp://" +:+ JoinHostPort (ToLower (u_Hostname u)) (Itoa n) in
          fail_if (upstream =s "tcp://" +:+ listen)
            with invalid (path +:+ ".upstream") "upstream cannot equal listener" ;;
          fail_if is_some (p_TLS p) || is_some (p_UpstreamTLS p)
            with invalid (path +:+ ".tls") "tcp passthrough does not terminate TLS" ;;
          Ok upstream
      end
  end.

Definition origin_upstream (p : Proxy) (path : string) : res FieldError string :=
  let scheme := if is_db (p_Protocol p) then p_Protocol p +:+ "(s)" else "HTTP(S)" in
  let bad := invalid (path +:+ ".upstream")
    ("expected a " +:+ scheme +:+ " origin without credentials, path, query or fragment") in
  let bad_port := invalid (path +:+ ".upstream") "invalid port" in
  match url_Parse env (p_Upstream p) with
  | None => Err bad
  | Some u =>
      fail_if negb (validUpstreamScheme (p_Protocol p) (u_Scheme u)) || u_User u ||
              negb (hostname (ParseIP env) (u_Hostname u)) || nonempty (u_Opaque u) ||
              (nonempty (u_Path u) && negb (u_Path u =s "/")) ||
              nonempty (u_RawQuery u) || u_ForceQuery u || ContainsByte (p_Upstream p) "#"
        with bad ;;
      let port := u_Port u in
      let port := if is_db (p_Protocol p) && negb (nonempty port) && negb (HasSuffix (u_Host u) ":")
                  then if (p_Protocol p =s "mysql") then "3306" else "5432"
                  else port in
      port ← (if nonempty port then
                match Atoi port with
                | None => Err bad_port
                | Some n => fail_if negb (port_ok n) with bad_port ;; Ok (Itoa n)
                end
              else if HasSuffix (u_Host u) ":" then Err bad_port else Ok port);
      let host := ToLower (u_Hostname u) in
      let port := if ((port =s "80") && (u_Scheme u =s "http")) ||
                     ((port =s "443") && (u_Scheme u =s "https"))
                  then "" else port in
      let host := if nonempty port then JoinHostPort host port
                  else if ContainsByte host ":" then "[" +:+ host +:+ "]" else host in
      Ok (u_Scheme u +:+ "://" +:+ host)
  end.

Definition known_protocol (s : string) : bool :=
  bool_decide (s ∈ ["http1"; "http2"; "grpc"; "postgresql"; "mysql"; "tcp"]).

Definition validate_proxy_rule (protocol path : string) (j : nat) (r : Rule) :
    res FieldError Rule :=
  let rp := path +:+ ".rules[" +:+ pretty j +:+ "]" in
  fail_if negb (identifier (r_ID r))
    with invalid (rp +:+ ".id") "expected a nonempty identifier" ;;
  fail_if negb (protocol =s "grpc") && nonempty (m_Service (r_Match r))
    with invalid (rp +:+ ".match.service") "requires grpc" ;;
  fail_if nonempty (m_Service (r_Match r)) && negb (identifier (m_Service (r_Match r)))
    with invalid (rp +:+ ".match.service") "invalid service name" ;;
  fail_if negb (bool_decide (f_Action (r_Fault r) ∈ Actions protocol))
    with invalid (rp +:+ ".fault.action") "unsupported capability for protocol" ;;
  if is_db protocol then validateCommitRule range r rp
  else if (protocol =s "tcp") then validateTCPRule r rp
  else validateRule range r rp.

Definition vstate : Type := gset string * gmap string bytes.

Definition validate_proxy (base : string) (i : nat) (p : Proxy) (st : vstate) :
    res FieldError (Proxy * vstate) :=
  let '(listeners, digests) := st in
  let path := "proxies[" +:+ pretty i +:+ "]" in
  fail_if negb (identifier (p_ID p))
    with invalid (path +:+ ".id") "expected a nonempty identifier" ;;
  fail_if negb (known_protocol (p_Protocol p))
    with invalid (path +:+ ".protocol") "expected http1, http2, grpc, postgresql, mysql or tcp" ;;
  proto ← upstream_protocol p path;
  listen ← normalize_listen (p_Listen p) path;
  fail_if bool_decide (listen ∈ listeners)
    with invalid (path +:+ ".listen") "duplicate listener" ;;
  let listeners := {[listen]} ∪ listeners in
  '(p, digests) ←
    (if (p_Protocol p =s "tcp") then
       upstream ← tcp_upstream p listen path;
       Ok (set_network proto listen upstream p, digests)
     else
       upstream ← origin_upstream p path;
       validateTLS (set_network proto listen upstream p) base path digests);
  rules ← mapi_res (validate_proxy_rule (p_Protocol p) path) 0 (p_Rules p);
  Ok (set_Rules rules p, (listeners, digests)).

Definition validate (c : Config) (base : string) :
    res FieldError (Config * gmap string bytes) :=
  fail_if negb (c_APIVersion c =s APIVersion)
    with invalid "api_version" "unsupported or missing version" ;;
  fail_if rt_MaxInflightRequests (c_Runtime c) <=? 0
    with invalid "runtime.max_inflight_requests" "must be positive" ;;
  fail_if rt_RequestTimeout (c_Runtime c) <=? 0
    with invalid "runtime.request_timeout" "must be positive" ;;
  fail_if bool_decide (c_Proxies c = [])
    with invalid "proxies" "at least one proxy is required" ;;
  '(proxies, st) ← mapi_state (validate_proxy base) 0 (c_Proxies c) (∅, ∅);
  Ok ({| c_APIVersion := c_APIVersion c; c_Seed := c_Seed c; c_Runtime := c_Runtime c;
         c_Proxies := proxies |}, st.2).
End validate.
