(* ===== verification/ValidateSpec.v ===== *)
(** * What validation accepts

    Declarative tables of the accepted selectors and faults, one constructor per
    row of the documented combinations, and theorems that the validators of
    Validate.v accept exactly those. The fault tables are the interface on which
    the protocol adapters rely when they dereference optional fields. *)

From Stdlib Require Import Ascii.
From S2P Require Import Prelude GoLib GoUtf8 GoRand Config Validate.

(** ** Tables *)

Inductive selector_ok : Selector → Prop :=
| sel_probability p :
    probability_in_range p = true → normalize_probability p = p →
    selector_ok {| s_Probability := Some p; s_Nth := None; s_Every := None |}
| sel_nth n : n ≠ 0 → selector_ok {| s_Probability := None; s_Nth := Some n; s_Every := None |}
| sel_every n : n ≠ 0 → selector_ok {| s_Probability := None; s_Nth := None; s_Every := Some n |}.

Definition normalize_selector (s : Selector) : Selector :=
  {| s_Probability := normalize_probability <$> s_Probability s;
     s_Nth := s_Nth s; s_Every := s_Every s |}.

Definition http_fields (ph a : string) (dur maxd st : option Z) (body : option string)
    (dir : string) (byts bps : option Z) : Fault :=
  {| f_Phase := ph; f_Action := a; f_Duration := dur; f_MaxDuration := maxd; f_Status := st;
     f_Body := body; f_Direction := dir; f_Bytes := byts; f_BytesPerSecond := bps;
     f_AfterBytes := None; f_AfterDuration := None; f_TriggerDirection := "" |}.

Definition http_phase (ph : string) : Prop :=
  ph = BeforeUpstreamRequest ∨ ph = AfterUpstreamHeaders.

(** The phase at which a body fault of a direction is reached. *)
Inductive body_phase : string → string → Prop :=
| request_phase : body_phase "request" BeforeUpstreamRequest
| response_phase : body_phase "response" AfterUpstreamHeaders.

Inductive http_fault : Fault → Prop :=
| hf_delay ph d : http_phase ph → 0 < d →
    http_fault (http_fields ph "delay" (Some d) None None None "" None None)
| hf_respond st body : 200 ≤ st ≤ 599 →
    http_fault (http_fields BeforeUpstreamRequest "respond" None None (Some st) body "" None None)
| hf_hold_request d : 0 < d →
    http_fault (http_fields BeforeUpstreamRequest "hold_request" None (Some d) None None "" None None)
| hf_hold_response d : 0 < d →
    http_fault (http_fields AfterUpstreamHeaders "hold_response" None (Some d) None None "" None None)
| hf_truncate dir ph n : body_phase dir ph → 0 ≤ n →
    http_fault (http_fields ph "truncate" None None None None dir (Some n) None)
| hf_throttle dir ph n : body_phase dir ph → 0 < n →
    http_fault (http_fields ph "throttle" None None None None dir None (Some n))
| hf_close ph : http_phase ph →
    http_fault (http_fields ph "close_connection" None None None None "" None None).

(** The faults of the database adapters. *)
Inductive commit_fault : Fault → Prop :=
| cf_delay d : 0 < d →
    commit_fault (http_fields AfterCommit "delay" (Some d) None None None "" None None)
| cf_hold d : 0 < d →
    commit_fault (http_fields AfterCommit "hold_response" None (Some d) None None "" None None)
| cf_close :
    commit_fault (http_fields AfterCommit "close_connection" None None None None "" None None).

Inductive tcp_trigger : option Z → option Z → string → Prop :=
| trigger_immediate : tcp_trigger None None ""
| trigger_bytes n dir : 0 ≤ n → tcpDirection dir = true → tcp_trigger (Some n) None dir
| trigger_duration d : 0 < d → tcp_trigger None (Some d) "".

Definition tcp_fields (ph a : string) (dur maxd : option Z) (dir : string) (bps ab ad : option Z)
    (td : string) : Fault :=
  {| f_Phase := ph; f_Action := a; f_Duration := dur; f_MaxDuration := maxd; f_Status := None;
     f_Body := None; f_Direction := dir; f_Bytes := None; f_BytesPerSecond := bps;
     f_AfterBytes := ab; f_AfterDuration := ad; f_TriggerDirection := td |}.

Inductive tcp_fault : Fault → Prop :=
| tf_delay_connect d : 0 < d →
    tcp_fault (tcp_fields TCPOnConnect "delay_connect" (Some d) None "" None None None "")
| tf_close ab ad td : tcp_trigger ab ad td →
    tcp_fault (tcp_fields TCPOnTransfer "close_connection" None None "" None ab ad td)
| tf_hold dir d ab ad td : tcpDirection dir = true → 0 < d → tcp_trigger ab ad td →
    tcp_fault (tcp_fields TCPOnTransfer "hold" None (Some d) dir None ab ad td)
| tf_throttle dir n ab ad td : tcpDirection dir = true → 0 < n → tcp_trigger ab ad td →
    tcp_fault (tcp_fields TCPOnTransfer "throttle" None None dir (Some n) ab ad td).

(** ** Helper lemmas *)

Lemma is_some_false {A} (o : option A) : is_some o = false ↔ o = None.
Proof. destruct o; simpl; split; intros; [done|done|done|done]. Qed.

Lemma nonempty_false s : nonempty s = false ↔ s = "".
Proof. unfold nonempty. by rewrite negb_false_iff, str_eq_true. Qed.

Lemma positive_true o : positive o = true ↔ ∃ d, o = Some d ∧ 0 < d.
Proof.
  destruct o as [d|]; simpl; [rewrite Z.ltb_lt|]; split; [eauto|by intros (?&[=->]&?)|done|].
  by intros (?&?&?).
Qed.

(** Decide a comparison of two closed strings by computation. *)
Ltac decide_strings :=
  repeat match goal with
  | H : context [str_eq ?a ?b] |- _ =>
      let v := eval vm_compute in (str_eq a b) in
      lazymatch v with true => idtac | false => idtac end;
      change (str_eq a b) with v in H; cbn [negb andb orb Bool.eqb] in H
  | |- context [str_eq ?a ?b] =>
      let v := eval vm_compute in (str_eq a b) in
      lazymatch v with true => idtac | false => idtac end;
      change (str_eq a b) with v; cbn [negb andb orb Bool.eqb]
  end.

(** Case analysis on the next undecided string test of a hypothesis. *)
Ltac case_string H :=
  match type of H with
  | context [str_eq ?a ?b] =>
      let E := fresh "Es" in
      destruct (str_eq a b) eqn:E;
      [apply str_eq_true in E | apply str_eq_false in E];
      cbn [negb andb orb Bool.eqb] in H; subst
  end.

Lemma phase_guard ph :
  negb (str_eq ph BeforeUpstreamRequest) && negb (str_eq ph AfterUpstreamHeaders) = false →
  http_phase ph.
Proof.
  rewrite andb_false_iff, !negb_false_iff, !str_eq_true. done.
Qed.

Lemma body_phase_guard dir ph :
  negb (str_eq dir "request") && negb (str_eq dir "response") = false →
  Bool.eqb (str_eq dir "request") (str_eq ph BeforeUpstreamRequest) = true →
  http_phase ph → body_phase dir ph.
Proof.
  rewrite andb_false_iff, !negb_false_iff, !str_eq_true.
  intros [->| ->] He [->| ->]; vm_compute in He; try done; constructor.
Qed.

Ltac norm_fields :=
  repeat match goal with
  | H : context [_ && true] |- _ => rewrite !andb_true_r in H
  | H : context [_ && false] |- _ => rewrite !andb_false_r in H
  | H : negb (str_eq _ _) && negb (str_eq _ _) = false |- _ => apply phase_guard in H
  | H : is_some _ = false |- _ => apply is_some_false in H
  | H : nonempty _ = false |- _ => apply nonempty_false in H
  | H : positive _ = true |- _ => apply positive_true in H as (? & ? & ?)
  end.

Ltac fault_fields :=
  cbn [f_Phase f_Action f_Duration f_MaxDuration f_Status f_Body f_Direction f_Bytes
       f_BytesPerSecond f_AfterBytes f_AfterDuration f_TriggerDirection] in *.

Ltac settle_guards :=
  repeat (cbn [negb andb orb Bool.eqb is_some] in *; decide_strings; bool_hyps; norm_fields;
          subst; simplify_eq).

(** ** Selectors *)

Lemma normalize_probability_idem p :
  normalize_probability (normalize_probability p) = normalize_probability p.
Proof. unfold normalize_probability. by destruct (f_eqb p f_zero) eqn:E; rewrite ?E. Qed.

Lemma validateSelector_spec s path s' :
  validateSelector s path = Ok s' ↔ s' = normalize_selector s ∧ selector_ok s'.
Proof.
  unfold validateSelector. fold (normalize_selector s). rewrite !guard_bind_Ok. split.
  - intros (Hp & Hn & He & Hc & [= <-]). split; [done|]. bool_hyps.
    unfold normalize_selector in *. destruct s as [[p|] [n|] [k|]]; simpl in *; try done;
      bool_hyps.
    + constructor; [done|apply normalize_probability_idem].
    + constructor; congruence.
    + constructor; congruence.
  - intros [Hs H]. rewrite <- Hs. clear Hs s. destruct H as [p Hp Hnorm|n Hn|n Hn]; simpl;
      rewrite ?Hp; split_and!; try done; apply bool_decide_eq_false; congruence.
Qed.

(** ** Faults *)

Lemma validateFault_sound f path u : validateFault f path = Ok u → http_fault f.
Proof.
  destruct f as [ph a dur maxd st body dir byts bps ab ad td].
  unfold validateFault. cbv zeta. fault_fields. intros H. open_ok H.
  repeat (case_string Hb; cbn beta iota in Hb; open_ok Hb).
  all: settle_guards.
  - by apply hf_delay.
  - destruct st as [st|]; [|done]. bool_hyps. apply hf_respond. lia.
  - by apply hf_hold_request.
  - by apply hf_hold_response.
  - destruct byts as [n|]; [|done]. bool_hyps. apply hf_truncate; [|done].
    by apply body_phase_guard.
  - apply hf_throttle; [|done]. by apply body_phase_guard.
  - by apply hf_close.
Qed.

Lemma validateFault_complete f path : http_fault f → validateFault f path = Ok tt.
Proof.
  intros H. destruct H as [ph d [->| ->]|st body|d|d|dir ph n []|dir ph n []|ph [->| ->]];
    unfold validateFault, http_fields; cbv zeta; fault_fields; decide_strings;
    cbn [positive is_some]; cbn [negb andb orb Bool.eqb].
  all: repeat match goal with
       | H : 0 < ?d |- context [0 <? ?d] => rewrite (proj2 (Z.ltb_lt 0 d) H)
       | H : 0 ≤ ?d |- context [?d <? 0] => rewrite (proj2 (Z.ltb_ge d 0) H)
       | H : 200 ≤ ?d ≤ 599 |- context [(?d <? 200) || (599 <? ?d)] =>
           replace ((d <? 200) || (599 <? d)) with false by lia
       end; try reflexivity.
  all: by destruct body.
Qed.

(** C25. The HTTP/gRPC fault validator accepts exactly the documented table of
    action, phase and parameter combinations ([http_fault]). *)
Theorem validateFault_exact f path :
  is_ok (validateFault f path) = true ↔ http_fault f.
Proof.
  split.
  - destruct (validateFault f path) as [u|] eqn:E; [intros _|done].
    by eapply validateFault_sound.
  - intros H. by rewrite validateFault_complete.
Qed.

Lemma validateTCPRule_sound r path r' :
  validateTCPRule r path = Ok r' →
  empty_matcher (r_Match r) = true ∧ selector_ok (r_Select r') ∧ tcp_fault (r_Fault r) ∧
  r' = set_Select (normalize_selector (r_Select r)) r.
Proof.
  unfold validateTCPRule. cbv zeta. intros H. open_ok H. simplify_eq.
  apply validateSelector_spec in Hb as [-> Hsel].
  destruct r as [id en m sel [ph a dur maxd st body dir byts bps ab ad td]].
  cbn [r_Match r_Select r_Fault set_Select] in *. fault_fields.
  rename Hb1 into Ha. rename Hb0 into Ht.
  repeat (case_string Ha; cbn beta iota in Ha; open_ok Ha).
  all: assert (tcp_trigger ab ad td) as Htrig
    by (clear Ha; destruct ab as [n|]; open_ok Ht; settle_guards;
        try destruct ad; settle_guards; by constructor).
  all: clear Ht; settle_guards; split_and!; try done.
  - inversion Htrig; subst. by apply tf_delay_connect.
  - by apply tf_close.
  - by apply tf_hold.
  - by apply tf_throttle.
Qed.

Lemma validateTCPRule_complete r path :
  empty_matcher (r_Match r) = true → selector_ok (normalize_selector (r_Select r)) →
  tcp_fault (r_Fault r) →
  validateTCPRule r path = Ok (set_Select (normalize_selector (r_Select r)) r).
Proof.
  intros Hm Hsel Hf. unfold validateTCPRule. cbv zeta. rewrite Hm. cbn [negb].
  rewrite (proj2 (validateSelector_spec _ path _) (conj eq_refl Hsel)).
  destruct Hf as [d|ab ad td Ht|dir d ab ad td Hdir ? Ht|dir n ab ad td Hdir ? Ht];
    try (destruct Ht as [|k dir' ? Hdir'|k]); unfold tcp_fields; fault_fields; decide_strings;
    cbn [positive is_some]; rewrite ?Hdir, ?Hdir'; cbn [negb andb orb].
  all: repeat match goal with
       | H : 0 < ?d |- context [0 <? ?d] => rewrite (proj2 (Z.ltb_lt 0 d) H)
       | H : 0 ≤ ?d |- context [?d <? 0] => rewrite (proj2 (Z.ltb_ge d 0) H)
       end; reflexivity.
Qed.

(** A TCP rule is accepted exactly when its matcher is empty, it has one
    valid selector and its fault is a row of the TCP table; acceptance only
    normalises the selector. *)
Theorem validateTCPRule_exact r path r' :
  validateTCPRule r path = Ok r' ↔
  empty_matcher (r_Match r) = true ∧ selector_ok (r_Select r') ∧ tcp_fault (r_Fault r) ∧
  r' = set_Select (normalize_selector (r_Select r)) r.
Proof.
  split; [apply validateTCPRule_sound|]. intros (? & ? & ? & ->).
  by apply validateTCPRule_complete.
Qed.

(** ** Headers: ranging over a map in any order *)

Lemma normalize_headers_Ok path l acc h :
  normalize_headers path l acc = Ok h ↔
  Forall (λ nv, token nv.1 = true ∧
    ContainsAny nv.2 (String CR (String LF (String NUL ""))) = false) l ∧
  NoDup ((λ nv, ToLower nv.1) <$> l) ∧
  Forall (λ nv, acc !! ToLower nv.1 = None) l ∧
  h = list_to_map ((λ nv, (ToLower nv.1, nv.2)) <$> l) ∪ acc.
Proof.
  revert acc. induction l as [|[n v] l IH]; intros acc; cbn [normalize_headers].
  { split; [intros [= <-]|intros (_ & _ & _ & ->)].
    - split_and!; [constructor..|]. simpl. by rewrite (left_id_L ∅ (∪)).
    - simpl. by rewrite (left_id_L ∅ (∪)). }
  rewrite !guard_bind_Ok, IH, !fmap_cons, !Forall_cons, NoDup_cons, list_to_map_cons.
  cbn [fst snd]. rewrite orb_false_iff, negb_false_iff, is_some_false.
  rewrite <- (insert_union_l _ acc).
  assert (Forall (λ nv, <[ToLower n:=v]> acc !! ToLower nv.1 = None) l ↔
    ToLower n ∉ (λ nv : string * string, ToLower nv.1) <$> l ∧
    Forall (λ nv, acc !! ToLower nv.1 = None) l) as ->.
  { rewrite !Forall_forall. split.
    - intros H. split.
      + intros (x & Hx & Hin)%list_elem_of_fmap. specialize (H x Hin).
        rewrite Hx, lookup_insert_eq in H. done.
      + intros x Hin. specialize (H x Hin).
        apply lookup_insert_None in H. tauto.
    - intros [Hn H] x Hin. rewrite lookup_insert_ne; [by apply H|].
      intros Heq. apply Hn. rewrite Heq. apply list_elem_of_fmap. by exists x. }
  assert (ToLower n ∉ (λ nv : string * string, ToLower nv.1) <$> l →
    <[ToLower n:=v]> (list_to_map ((λ nv, (ToLower nv.1, nv.2)) <$> l) ∪ acc) =
    list_to_map ((λ nv, (ToLower nv.1, nv.2)) <$> l) ∪ <[ToLower n:=v]> acc) as Hins.
  { intros Hn. apply insert_union_r, not_elem_of_list_to_map_1.
    by rewrite <- list_fmap_compose. }
  split; intros; destruct_and!; split_and!; try done; subst; by rewrite Hins.
Qed.

Lemma normalize_headers_perm path l1 l2 h :
  l1 ≡ₚ l2 → normalize_headers path l1 ∅ = Ok h → normalize_headers path l2 ∅ = Ok h.
Proof.
  intros Hp. rewrite !normalize_headers_Ok. intros (? & Hnd & ? & ->).
  split_and!; [by rewrite <- Hp..|]. f_equal. apply list_to_map_proper; [|by rewrite Hp].
  by rewrite <- list_fmap_compose.
Qed.

(** A [for range] over a map visits every entry once, in some order. *)
Definition enumerates (range : gmap string string → list (string * string)) : Prop :=
  ∀ m, range m ≡ₚ map_to_list m.

(** Acceptance of an HTTP rule and the rule it is normalised to do not
    depend on the iteration order of the header map. *)
Theorem validateRule_order range1 range2 r path r' :
  enumerates range1 → enumerates range2 →
  validateRule range1 r path = Ok r' → validateRule range2 r path = Ok r'.
Proof.
  unfold enumerates. intros H1 H2. unfold validateRule. cbv zeta. rewrite !guard_bind_Ok, !res_bind_Ok.
  intros (? & ? & ? & ? & h & Hh & Hrest). split_and!; try done. exists h. split; [|done].
  eapply normalize_headers_perm; [|done]. by rewrite H1, H2.
Qed.


(** ** Rules per protocol *)

Lemma validateRule_sound range r path r' :
  validateRule range r path = Ok r' →
  selector_ok (r_Select r') ∧ http_fault (r_Fault r) ∧ r_ID r' = r_ID r ∧
  r_Enabled r' = r_Enabled r ∧ r_Select r' = normalize_selector (r_Select r) ∧
  r_Fault r' = (if str_eq (f_Action (r_Fault r)) "respond" && negb (is_some (f_Body (r_Fault r)))
                then set_Body (Some "") (r_Fault r) else r_Fault r).
Proof.
  unfold validateRule. cbv zeta. intros H. open_ok H. simplify_eq.
  apply validateSelector_spec in Hb0 as [-> ?]. apply validateFault_sound in Hb1. done.
Qed.

Lemma validateCommitRule_sound range r path r' :
  validateCommitRule range r path = Ok r' → f_Action (r_Fault r) ∈ Actions "postgresql" →
  selector_ok (r_Select r') ∧ commit_fault (r_Fault r') ∧ r_ID r' = r_ID r.
Proof.
  unfold validateCommitRule. intros H Ha. open_ok H. simplify_eq.
  apply validateRule_sound in Hb as (Hs & Hf & _ & _ & _ & _). cbn in Hf |- *.
  split_and!; [done| |done]. bool_hyps.
  destruct r as [id en m sel [ph a dur maxd st body dir byts bps ab ad td]].
  cbn [r_Fault] in *. fault_fields. subst ph.
  apply (bool_decide_eq_true_2 _) in Ha.
  inversion Hf; subst; try (vm_compute in Ha; discriminate Ha).
  - by apply cf_delay.
  - by apply cf_hold.
  - by apply cf_close.
Qed.

(** What a validated rule of a protocol guarantees to its adapter. *)
Definition rule_wf (protocol : string) (r : Rule) : Prop :=
  selector_ok (r_Select r) ∧ f_Action (r_Fault r) ∈ Actions protocol ∧
  if is_db protocol then commit_fault (r_Fault r)
  else if str_eq protocol "tcp" then tcp_fault (r_Fault r)
  else http_fault (r_Fault r) ∧
       (f_Action (r_Fault r) = "respond" → is_Some (f_Body (r_Fault r))).

Lemma Actions_db protocol : is_db protocol = true → Actions protocol = Actions "postgresql".
Proof.
  unfold is_db. rewrite orb_true_iff, !str_eq_true. by intros [->| ->].
Qed.

Lemma validateCommitRule_action range r path r' :
  validateCommitRule range r path = Ok r' → r_Fault r' = r_Fault r.
Proof. unfold validateCommitRule. intros H. open_ok H. by simplify_eq. Qed.

Lemma validate_proxy_rule_wf range protocol path j r r' :
  validate_proxy_rule range protocol path j r = Ok r' → rule_wf protocol r' ∧ r_ID r' = r_ID r.
Proof.
  unfold validate_proxy_rule, rule_wf. intros H. open_ok H. bool_hyps.
  destruct (is_db protocol) eqn:Edb.
  { pose proof (validateCommitRule_action _ _ _ _ H) as Heq. rewrite Heq.
    apply validateCommitRule_sound in H; [|by rewrite <- (Actions_db protocol)].
    rewrite Heq in H. tauto. }
  destruct (str_eq protocol "tcp").
  { apply validateTCPRule_sound in H as (_ & ? & ? & ->). done. }
  apply validateRule_sound in H as (? & ? & ? & _ & _ & ->).
  destruct (str_eq (f_Action (r_Fault r)) "respond" && _) eqn:E; split_and!; try done.
  - bool_hyps. destruct (r_Fault r); simpl in *. subst. inversion H0; subst. by apply hf_respond.
  - intros Ha. apply andb_false_iff in E as [E|E].
    + by rewrite <- str_eq_true, E in Ha.
    + destruct (f_Body (r_Fault r)); [done|]. discriminate.
Qed.

(** ** Whole configurations *)

Definition proxy_wf (p : Proxy) : Prop :=
  identifier (p_ID p) = true ∧ known_protocol (p_Protocol p) = true ∧
  Forall (rule_wf (p_Protocol p)) (p_Rules p).

Record config_wf (c : Config) : Prop := {
  wf_inflight : 0 < rt_MaxInflightRequests (c_Runtime c);
  wf_timeout : 0 < rt_RequestTimeout (c_Runtime c);
  wf_nonempty : c_Proxies c ≠ [];
  wf_proxies : Forall proxy_wf (c_Proxies c);
  wf_listeners : NoDup (p_Listen <$> c_Proxies c)
}.

Lemma validateTLS_fields env p base path D p' D' :
  validateTLS env p base path D = Ok (p', D') →
  p_ID p' = p_ID p ∧ p_Protocol p' = p_Protocol p ∧ p_Listen p' = p_Listen p ∧
  p_Rules p' = p_Rules p.
Proof.
  unfold validateTLS. intros H. open_ok H. destruct x as [t D1]. open_ok H.
  destruct x as [u D2]. by simplify_eq.
Qed.

Lemma validate_proxy_spec env range base i p L D p' L' D' :
  validate_proxy env range base i p (L, D) = Ok (p', (L', D')) →
  proxy_wf p' ∧ p_ID p' = p_ID p ∧ p_Listen p' ∉ L ∧ L' = {[p_Listen p']} ∪ L.
Proof.
  unfold validate_proxy. cbv zeta. intros H. open_ok H.
  match goal with Hm : _ = Ok ?q |- _ => is_var q; destruct q as [p1 D1] end.
  open_ok H. simplify_eq. bool_hyps.
  assert (p_ID p1 = p_ID p ∧ p_Protocol p1 = p_Protocol p ∧ p_Listen p1 = x0) as (Hid & Hpr & Hl).
  { destruct (str_eq (p_Protocol p) "tcp"); open_ok Hb1; [by simplify_eq|].
    apply validateTLS_fields in Hb1. naive_solver. }
  unfold proxy_wf. cbn. rewrite Hid, Hpr, Hl. split_and!; try done.
  apply Forall_forall. intros r' Hr'. destruct (mapi_res_elem _ _ _ _ _ Hb2 Hr') as (j & r & _ & Hr).
  rewrite Hpr in Hr. by apply validate_proxy_rule_wf in Hr as [? _].
Qed.

Lemma validate_proxies_spec env range base i ps st ps' st' :
  mapi_state (validate_proxy env range base) i ps st = Ok (ps', st') →
  Forall proxy_wf ps' ∧ p_ID <$> ps' = p_ID <$> ps ∧ NoDup (p_Listen <$> ps') ∧
  Forall (λ p, p_Listen p ∉ st.1) ps'.
Proof.
  revert i st ps'. induction ps as [|p ps IH]; intros i [L D] ps' H; simpl in H.
  { simplify_eq. split_and!; constructor. }
  open_ok H. destruct x as [p' [L1 D1]]. open_ok H. destruct x as [ps1 st2]. simplify_eq.
  destruct (validate_proxy_spec _ _ _ _ _ _ _ _ _ _ Hb) as (? & ? & Hl & ->).
  destruct (IH _ _ _ Hb0) as (? & ? & ? & Hout). cbn in Hout |- *.
  split_and!; [by constructor|congruence| |].
  - constructor; [|done]. intros (q & Hq & Hin)%list_elem_of_fmap.
    rewrite Forall_forall in Hout. apply (Hout q Hin). rewrite <- Hq. set_solver.
  - constructor; [done|]. eapply Forall_impl; [exact Hout|]. set_solver.
Qed.

Lemma validate_wf env range c base c' D :
  validate env range c base = Ok (c', D) →
  config_wf c' ∧ c_Seed c' = c_Seed c ∧ p_ID <$> c_Proxies c' = p_ID <$> c_Proxies c.
Proof.
  unfold validate. intros H. open_ok H. destruct x as [ps st]. simplify_eq. bool_hyps.
  destruct (validate_proxies_spec _ _ _ _ _ _ _ _ Hb) as (? & Hid & ? & _).
  split_and!; try done. constructor; cbn; try done.
  intros ->. symmetry in Hid. by apply fmap_nil_inv in Hid.
Qed.

(** Validation keeps the rule IDs of every proxy. *)
Lemma validate_rule_ids env range c base c' D :
  validate env range c base = Ok (c', D) →
  (λ p, r_ID <$> p_Rules p) <$> c_Proxies c' = (λ p, r_ID <$> p_Rules p) <$> c_Proxies c.
Proof.
  unfold validate. intros H. open_ok H. destruct x as [ps st]. simplify_eq. cbn.
  eapply mapi_state_fmap; [|exact Hb]. clear. intros i p [L D] p' [L' D'] H.
  unfold validate_proxy in H. cbv zeta in H. open_ok H.
  match goal with Hm : _ = Ok ?q |- _ => is_var q; destruct q as [p1 D1] end.
  open_ok H. simplify_eq. cbn.
  assert (p_Rules p1 = p_Rules p) as <-.
  { destruct (str_eq (p_Protocol p) "tcp"); open_ok Hb1; [by simplify_eq|].
    apply validateTLS_fields in Hb1. naive_solver. }
  eapply mapi_res_fmap; [|exact Hb2]. intros j r r' Hr. by apply validate_proxy_rule_wf in Hr as [_ ?].
Qed.

(** Every configuration [validate] accepts is well formed: positive limits,
    at least one proxy, pairwise distinct normalised listeners, known protocols,
    and every rule with one valid selector and a fault row of its protocol. *)
Theorem validate_accepts_wf env range c base c' D :
  validate env range c base = Ok (c', D) → config_wf c'.
Proof. intros H. by apply validate_wf in H as [? _]. Qed.
