(* ===== verification/Engine.v ===== *)
(** * The decision engine (internal/engine/engine.go)

    One [ruleState] per configured rule: its counters and its generator. The
    engine owns them, [Decide] runs one attempt through the rules of a proxy.
    Each rule's critical section is the only mutation of a call, so concurrent
    calls behave as some sequence of [Decide] steps. A Go runtime panic (nil
    dereference, division by zero) is [None]. *)

From Stdlib Require Import Ascii.
From S2P Require Import Prelude GoLib GoRand Config.
Local Open Scope go_scope.

Record Metadata := {
  md_Method : string;
  md_Service : string;
  md_Path : string;
  md_Headers : gmap string (list string)
}.

(** The zero Metadata the TCP and database adapters pass. *)
Definition no_metadata : Metadata :=
  {| md_Method := ""; md_Service := ""; md_Path := ""; md_Headers := ∅ |}.

Record Decision := {
  dc_ProxyID : string;
  dc_RuleID : string;
  dc_EligibleSequence : Z;
  dc_Selected : bool;
  dc_Selector : Selector;
  dc_Fault : Fault
}.

Record Counters := { Eligible : Z; Selected : Z }.

Record ruleState := {
  rs_rule : Rule;
  rs_counters : Counters;
  rs_random : PCG
}.

Notation Engine := (gmap string (list ruleState)).

#[export] Instance Counters_eq_dec : EqDecision Counters. Proof. solve_decision. Defined.
#[export] Instance Decision_eq_dec : EqDecision Decision. Proof. solve_decision. Defined.
#[export] Instance ruleState_eq_dec : EqDecision ruleState. Proof. solve_decision. Defined.

(** ** Construction *)

(** The generator of a rule: SHA-256 of seed, proxy ID, 0 and rule ID. *)
Definition rule_random (seed : Z) (proxyID ruleID : string) : PCG :=
  let bs := le_bytes 8 seed ++ of_string proxyID ++ [byte.of_Z 0] ++ of_string ruleID in
  let hash := Sha256.Sum256 bs in
  NewPCG (le_uint (take 8 hash)) (le_uint (take 8 (drop 8 hash))).

Definition new_state (seed : Z) (proxyID : string) (r : Rule) : ruleState :=
  {| rs_rule := r; rs_counters := {| Eligible := 0; Selected := 0 |};
     rs_random := rule_random seed proxyID (r_ID r) |}.

Definition New (document : option Document) : res string Engine :=
  match document with
  | Some d =>
      if d_valid d then
        Ok (fold_left (λ e p, <[p_ID p := new_state (c_Seed (d_config d)) (p_ID p) <$> p_Rules p]> e)
              (c_Proxies (d_config d)) ∅)
      else Err "engine: validated config is required"
  | None => Err "engine: validated config is required"
  end.

(** ** Matching *)

(** The segment loop of [matchesPathPattern]; each turn removes a segment from
    the pattern, so the pattern's length bounds the turns. *)
Fixpoint path_loop (fuel : nat) (pattern path : string) : bool :=
  match fuel with
  | O => false
  | S fuel' =>
      let '(want, restPattern, morePattern) := Cut "/" pattern in
      let '(got, restPath, morePath) := Cut "/" path in
      if (if HasPrefix want ":" then got =s "" else negb (want =s got)) then false
      else if negb (Bool.eqb morePattern morePath) then false
      else if negb morePattern then true
      else path_loop fuel' restPattern restPath
  end.

Definition matchesPathPattern (pattern path : string) : bool :=
  path_loop (S (String.length pattern)) pattern path.

Definition header_match (name expected : string) (headers : gmap string (list string)) : bool :=
  existsb (λ av, EqualFold name av.1 && existsb (λ v, v =s expected) av.2) (map_to_list headers).

Definition matches (m : Matcher) (metadata : Metadata) : bool :=
  let path := (Cut "?" (md_Path metadata)).1.1 in
  if negb (m_Service m =s "") && negb (m_Service m =s md_Service metadata) then false
  else if (negb (m_Method m =s "") && negb (m_Method m =s md_Method metadata)) ||
          (negb (m_Path m =s "") && negb (m_Path m =s path)) then false
  else if negb (m_PathPattern m =s "") && negb (matchesPathPattern (m_PathPattern m) path) then false
  else forallb (λ ne, header_match ne.1 ne.2 (md_Headers metadata)) (map_to_list (header_map m)).

(** ** Selection *)

Definition selectAttempt (st : ruleState) (sequence : Z) : option (bool * PCG) :=
  let s := r_Select (rs_rule st) in
  match s_Nth s, s_Every s, s_Probability s with
  | Some n, _, _ => Some (sequence =? n, rs_random st)
  | None, Some k, _ =>
      if k =? 0 then None else Some (sequence mod k =? 0, rs_random st)
  | None, None, Some p =>
      if f_eqb p f_zero then Some (false, rs_random st)
      else if f_eqb p f_one then Some (true, rs_random st)
      else let '(x, g) := Float64 (rs_random st) in Some (f_ltb x p, g)
  | None, None, None => None
  end.

(** The critical section of [Decide]: count the attempt and select. *)
Definition attempt (st : ruleState) : option (ruleState * Z * bool) :=
  let sequence := u64 (Eligible (rs_counters st) + 1) in
  '(selected, g) ← selectAttempt st sequence;
  let counters := {| Eligible := sequence;
                     Selected := if (selected : bool) then u64 (Selected (rs_counters st) + 1)
                                 else Selected (rs_counters st) |} in
  mret ({| rs_rule := rs_rule st; rs_counters := counters; rs_random := g |}, sequence, selected).

Definition eligible (metadata : Metadata) (st : ruleState) : bool :=
  r_Enabled (rs_rule st) && matches (r_Match (rs_rule st)) metadata.

(** The rule loop: the first enabled, matching rule takes the attempt. *)
Fixpoint decide_rules (decision : Decision) (metadata : Metadata) (rules : list ruleState) :
    option (list ruleState * Decision) :=
  match rules with
  | [] => Some ([], decision)
  | st :: rest =>
      if negb (eligible metadata st) then
        '(rest', d) ← decide_rules decision metadata rest;
        mret (st :: rest', d)
      else
        '(st', sequence, selected) ← attempt st;
        mret (st' :: rest,
          {| dc_ProxyID := dc_ProxyID decision; dc_RuleID := r_ID (rs_rule st);
             dc_EligibleSequence := sequence; dc_Selected := selected;
             dc_Selector := r_Select (rs_rule st); dc_Fault := r_Fault (rs_rule st) |})
  end.

Definition no_decision (proxyID : string) : Decision :=
  {| dc_ProxyID := proxyID; dc_RuleID := ""; dc_EligibleSequence := 0; dc_Selected := false;
     dc_Selector := no_selector; dc_Fault := no_fault |}.

Definition Decide (e : Engine) (proxyID : string) (metadata : Metadata) (enabled : bool) :
    option (Engine * (Decision * option string)) :=
  match e !! proxyID with
  | None => Some (e, (no_decision proxyID, Some "engine: unknown proxy"))
  | Some rules =>
      if negb enabled then Some (e, (no_decision proxyID, None))
      else
        '(rules', d) ← decide_rules (no_decision proxyID) metadata rules;
        mret (<[proxyID := rules']> e, (d, None))
  end.

Definition engine_Counters (e : Engine) (proxyID ruleID : string) : Counters * bool :=
  match list_find (λ st, r_ID (rs_rule st) = ruleID) (default [] (e !! proxyID)) with
  | Some (_, st) => (rs_counters st, true)
  | None => ({| Eligible := 0; Selected := 0 |}, false)
  end.
