(* ===== verification/EngineSpec.v ===== *)
(** * Correctness of the decision engine

    A run is a sequence of [Decide] calls. The theorems give matching a
    segment-wise meaning, show that a run changes a rule's state only through
    the attempts that rule owns (so seeded decisions replay whatever the other
    traffic does), give closed forms for [nth] and [every], and show that no call
    panics on a validated configuration. *)

From Stdlib Require Import Ascii.
From S2P Require Import Prelude GoLib GoUtf8 GoRand Config Validate ValidateSpec Engine.

(** ** Specifications *)

(** One pattern segment against one path segment. *)
Definition segment_ok (want got : string) : Prop :=
  if HasPrefix want ":" then got ≠ "" else want = got.

(** The rule that owns an attempt: the first enabled rule that matches. *)
Fixpoint first_rule (md : Metadata) (rs : list Rule) : option nat :=
  match rs with
  | [] => None
  | r :: rs' => if r_Enabled r && matches (r_Match r) md then Some O
                else S <$> first_rule md rs'
  end.

Record call := { cl_proxy : string; cl_metadata : Metadata; cl_enabled : bool }.

Fixpoint run (e : Engine) (calls : list call) : option (Engine * list Decision) :=
  match calls with
  | [] => Some (e, [])
  | c :: rest =>
      '(e, (d, _)) ← Decide e (cl_proxy c) (cl_metadata c) (cl_enabled c);
      '(e, ds) ← run e rest;
      mret (e, d :: ds)
  end.

Fixpoint attempts (n : nat) (st : ruleState) : option ruleState :=
  match n with
  | O => Some st
  | S n' => st ← attempts n' st; '(st', _, _) ← attempt st; mret st'
  end.

(** Whether a call is an attempt of rule [i] of proxy [pid] with rules [rs]. *)
Definition owns (pid : string) (rs : list Rule) (i : nat) (c : call) : bool :=
  bool_decide (cl_proxy c = pid) && cl_enabled c &&
  bool_decide (first_rule (cl_metadata c) rs = Some i).

Definition owned (pid : string) (rs : list Rule) (i : nat) (calls : list call) : nat :=
  length (filter (λ c, owns pid rs i c = true) calls).

(** Field widths of a decoded selector: [nth] and [every] are uint64. *)
Definition selector_typed (s : Selector) : Prop :=
  (∀ n, s_Nth s = Some n → 0 ≤ n < 2 ^ 64) ∧ (∀ n, s_Every s = Some n → 0 ≤ n < 2 ^ 64).

(** ** Paths and headers *)

Lemma path_loop_segments fuel pattern path :
  (String.length pattern < fuel)%nat →
  path_loop fuel pattern path = true ↔
  Forall2 segment_ok (Split "/" pattern) (Split "/" path).
Proof.
  revert pattern path. induction fuel as [|fuel IH]; intros pattern path Hf; [lia|].
  cbn [path_loop]. rewrite (Split_Cut "/" pattern), (Split_Cut "/" path).
  destruct (Cut "/" pattern) as [[want restp] morep] eqn:Ep.
  destruct (Cut "/" path) as [[got restq] moreq] eqn:Eq.
  assert ((if HasPrefix want ":" then str_eq got "" else negb (str_eq want got)) = false ↔
          segment_ok want got) as Hseg.
  { unfold segment_ok. destruct (HasPrefix want ":").
    - apply str_eq_false.
    - rewrite negb_false_iff. apply str_eq_true. }
  destruct (if HasPrefix want ":" then _ else _).
  { split; [done|]. intros H. exfalso.
    destruct morep, moreq; apply Forall2_cons in H as [H _]; by apply Hseg in H. }
  assert (segment_ok want got) by by apply Hseg.
  destruct morep, moreq; simpl.
  - rewrite IH by (apply Cut_length in Ep; lia). rewrite Forall2_cons. tauto.
  - split; [done|]. intros [_ Hc%Forall2_nil_inv_r]%Forall2_cons. by apply Split_nonempty in Hc.
  - split; [done|]. intros [_ Hc%Forall2_nil_inv_l]%Forall2_cons. by apply Split_nonempty in Hc.
  - rewrite Forall2_cons. split; [|done]. intros _. split; [done|constructor].
Qed.

Lemma path_pattern_iff pattern path :
  matchesPathPattern pattern path = true ↔
  Forall2 segment_ok (Split "/" pattern) (Split "/" path).
Proof. apply path_loop_segments. lia. Qed.

(** A path pattern matches exactly when the path has the same number of
    '/'-segments, literal segments are equal and [:name] segments are nonempty. *)
Theorem matchesPathPattern_segments pattern path :
  matchesPathPattern pattern path = true ↔
  Forall2 segment_ok (Split "/" pattern) (Split "/" path).
Proof. apply path_pattern_iff. Qed.

Lemma header_match_spec name expected headers :
  header_match name expected headers = true ↔
  ∃ actual values, headers !! actual = Some values ∧ EqualFold name actual = true ∧
                   expected ∈ values.
Proof.
  unfold header_match. rewrite existsb_exists. split.
  - intros ([actual values] & Hin & [Hf Hv]%andb_true_iff). cbn in *.
    apply existsb_exists in Hv as (v & Hv & ->%str_eq_true).
    exists actual, values. rewrite <- elem_of_map_to_list, list_elem_of_In.
    split_and!; [done|done|by apply list_elem_of_In].
  - intros (actual & values & Hl & Hf & Hv). exists (actual, values).
    rewrite <- list_elem_of_In, elem_of_map_to_list. split; [done|]. cbn.
    rewrite Hf. apply existsb_exists. exists expected.
    split; [by apply list_elem_of_In|apply str_eq_refl].
Qed.

(** The declarative meaning of a matcher: every nonempty constraint holds. *)
Definition matcher_holds (m : Matcher) (md : Metadata) : Prop :=
  let path := (Cut "?" (md_Path md)).1.1 in
  (m_Service m ≠ "" → m_Service m = md_Service md) ∧
  (m_Method m ≠ "" → m_Method m = md_Method md) ∧
  (m_Path m ≠ "" → m_Path m = path) ∧
  (m_PathPattern m ≠ "" → Forall2 segment_ok (Split "/" (m_PathPattern m)) (Split "/" path)) ∧
  ∀ name expected, header_map m !! name = Some expected →
    ∃ actual values, md_Headers md !! actual = Some values ∧ EqualFold name actual = true ∧
                     expected ∈ values.

Lemma optional_field (b : bool) (s : string) (P : Prop) :
  (b = true ↔ P) → negb (str_eq s "") && negb b = false ↔ (s ≠ "" → P).
Proof.
  intros Hb. rewrite andb_false_iff, !negb_false_iff, str_eq_true, Hb.
  destruct (decide (s = "")); naive_solver.
Qed.

Lemma if_false_iff (b c : bool) : (if b then false else c) = true ↔ b = false ∧ c = true.
Proof. destruct b; naive_solver. Qed.

(** [matches] decides the conjunction of the constraints the matcher names:
    exact service and method, path without query, pattern segments, and for each
    header some actual value under a case-insensitively equal name. *)
Theorem matches_spec m md : matches m md = true ↔ matcher_holds m md.
Proof.
  unfold matches, matcher_holds. cbv zeta. rewrite !if_false_iff, orb_false_iff.
  rewrite (optional_field _ (m_Service m) _ (str_eq_true _ _)).
  rewrite (optional_field _ (m_Method m) _ (str_eq_true _ _)).
  rewrite (optional_field _ (m_Path m) _ (str_eq_true _ _)).
  rewrite (optional_field _ (m_PathPattern m) _ (path_pattern_iff _ _)).
  rewrite forallb_forall.
  assert ((∀ x, In x (map_to_list (header_map m)) → header_match x.1 x.2 (md_Headers md) = true) ↔
    ∀ name expected, header_map m !! name = Some expected →
      ∃ actual values, md_Headers md !! actual = Some values ∧ EqualFold name actual = true ∧
                       expected ∈ values) as ->; [|tauto].
  split.
  - intros H name expected Hl. apply header_match_spec, (H (name, expected)).
    by apply list_elem_of_In, elem_of_map_to_list.
  - intros H [name expected] Hin%list_elem_of_In%elem_of_map_to_list.
    by apply header_match_spec, H.
Qed.

(** ** One call *)

Lemma attempt_rule st st' sequence selected :
  attempt st = Some (st', sequence, selected) → rs_rule st' = rs_rule st.
Proof.
  unfold attempt. destruct (selectAttempt st _) as [[b g]|]; [|done]. by intros [= <- <- <-].
Qed.

Definition decided (pid : string) (st : ruleState) (sequence : Z) (selected : bool) : Decision :=
  {| dc_ProxyID := pid; dc_RuleID := r_ID (rs_rule st); dc_EligibleSequence := sequence;
     dc_Selected := selected; dc_Selector := r_Select (rs_rule st);
     dc_Fault := r_Fault (rs_rule st) |}.

Lemma decide_rules_first d md rules :
  decide_rules d md rules =
  match first_rule md (rs_rule <$> rules) with
  | None => Some (rules, d)
  | Some i =>
      st ← rules !! i;
      '(st', sequence, selected) ← attempt st;
      mret (<[i := st']> rules, decided (dc_ProxyID d) st sequence selected)
  end.
Proof.
  induction rules as [|st rules IH]; [done|]. cbn [decide_rules first_rule fmap list_fmap].
  unfold eligible at 1. destruct (r_Enabled _ && _); cbn [negb].
  { cbn. by destruct (attempt st) as [[[] ?]|]. }
  rewrite IH. destruct (first_rule md (rs_rule <$> rules)) as [i|]; [|done]. cbn.
  destruct (rules !! i) as [st'|]; [|done]. cbn.
  by destruct (attempt st') as [[[] ?]|].
Qed.

Lemma first_rule_lookup md rs i :
  first_rule md rs = Some i →
  ∃ r, rs !! i = Some r ∧ r_Enabled r = true ∧ matches (r_Match r) md = true ∧
       ∀ j r', (j < i)%nat → rs !! j = Some r' → r_Enabled r' && matches (r_Match r') md = false.
Proof.
  revert i. induction rs as [|r rs IH]; intros i; simpl; [done|].
  destruct (r_Enabled r && matches (r_Match r) md) eqn:E.
  - intros [= <-]. exists r. bool_hyps. split_and!; try done. lia.
  - intros (i' & Hi & ->)%fmap_Some. destruct (IH i' Hi) as (r' & ? & ? & ? & Hbefore).
    exists r'. split_and!; try done. intros [|j] r'' Hj Hl; simpl in Hl; [by simplify_eq|].
    eapply Hbefore; [|done]. lia.
Qed.

(** What a call on a known, enabled proxy does to the engine. *)
Lemma Decide_enabled e pid md rules :
  e !! pid = Some rules →
  Decide e pid md true =
  match first_rule md (rs_rule <$> rules) with
  | None => Some (e, (no_decision pid, None))
  | Some i =>
      st ← rules !! i;
      '(st', sequence, selected) ← attempt st;
      mret (<[pid := <[i := st']> rules]> e, (decided pid st sequence selected, None))
  end.
Proof.
  intros H. unfold Decide. rewrite H. cbn [negb]. rewrite decide_rules_first.
  destruct (first_rule _ _) as [i|].
  - destruct (rules !! i) as [st|]; [|done]. cbn. by destruct (attempt st) as [[[] ?]|].
  - unfold mbind, option_bind, mret, option_ret. by rewrite insert_id.
Qed.

Lemma Decide_disabled e pid md :
  ∃ err, Decide e pid md false = Some (e, (no_decision pid, err)).
Proof. unfold Decide. destruct (e !! pid); eauto. Qed.

(** ** Runs *)

Lemma update_rule_static (rules : list ruleState) i st st' :
  rules !! i = Some st → rs_rule st' = rs_rule st →
  rs_rule <$> <[i := st']> rules = rs_rule <$> rules.
Proof.
  intros Hl Hr. rewrite list_fmap_insert. apply list_insert_id. rewrite list_lookup_fmap, Hl. by rewrite Hr.
Qed.

Lemma attempts_front n st :
  attempts (S n) st = '(st', _, _) ← attempt st; attempts n st'.
Proof.
  induction n as [|n IH]; [done|].
  change (attempts (S (S n)) st) with
    (st ← attempts (S n) st; '(st', _, _) ← attempt st; mret st').
  rewrite IH. by destruct (attempt st) as [[[] ?]|].
Qed.

(** A call leaves the state of a rule alone unless the rule owns it. *)
Lemma Decide_rule_state e c e' d pid rules i st :
  Decide e (cl_proxy c) (cl_metadata c) (cl_enabled c) = Some (e', d) →
  e !! pid = Some rules → rules !! i = Some st →
  ∃ rules' st', e' !! pid = Some rules' ∧ rs_rule <$> rules' = rs_rule <$> rules ∧
    rules' !! i = Some st' ∧
    if owns pid (rs_rule <$> rules) i c
    then ∃ sequence selected, attempt st = Some (st', sequence, selected) ∧
           d.1 = decided pid st sequence selected
    else st' = st.
Proof.
  destruct c as [cp cm ce]; unfold owns; cbn. intros H He Hi.
  destruct ce; [|destruct (Decide_disabled e cp cm) as [err Hd]; rewrite Hd in H; simplify_eq;
                 rewrite andb_false_r; by exists rules, st].
  rewrite andb_true_r. destruct (e !! cp) as [crules|] eqn:Hc; cycle 1.
  { unfold Decide in H. rewrite Hc in H. simplify_eq. rewrite bool_decide_false by congruence.
    by exists rules, st. }
  rewrite (Decide_enabled _ _ _ _ Hc) in H.
  case_bool_decide as Hpid; cbn.
  - subst cp. simplify_eq. destruct (first_rule cm (rs_rule <$> rules)) as [k|] eqn:Ef.
    + apply bind_Some in H as (stk & Hk & H). apply bind_Some in H as ([[stk' sq] sl] & Ha & H).
      injection H as <- <-. rewrite lookup_insert_eq.
      pose proof (update_rule_static _ _ _ _ Hk (attempt_rule _ _ _ _ Ha)) as Hs.
      case_bool_decide as Hki; simplify_eq.
      * eexists _, stk'. split_and!; [done|done| |by eauto].
        apply list_lookup_insert_eq. by eapply lookup_lt_Some.
      * eexists _, st. split_and!; [done|done| |done].
        rewrite list_lookup_insert_ne by congruence. done.
    + simplify_eq. rewrite bool_decide_false by done. by exists rules, st.
  - exists rules, st. split_and!; try done.
    destruct (first_rule cm (rs_rule <$> crules)) as [k|]; [|by simplify_eq].
    apply bind_Some in H as (stk & Hk & H). apply bind_Some in H as ([[stk' sq] sl] & Ha & H).
    injection H as <- <-. by rewrite lookup_insert_ne.
Qed.

Lemma run_rule_state e calls e' ds pid rules i st :
  run e calls = Some (e', ds) → e !! pid = Some rules → rules !! i = Some st →
  ∃ rules' st', e' !! pid = Some rules' ∧ rs_rule <$> rules' = rs_rule <$> rules ∧
    rules' !! i = Some st' ∧ attempts (owned pid (rs_rule <$> rules) i calls) st = Some st'.
Proof.
  revert e ds rules st. induction calls as [|c calls IH]; intros e ds rules st H He Hi; simpl in H.
  { simplify_eq. by exists rules, st. }
  apply bind_Some in H as ([e1 [d err]] & Hd & H). apply bind_Some in H as ([e2 ds2] & Hr & H).
  injection H as -> <-. destruct (Decide_rule_state _ _ _ _ _ _ _ _ Hd He Hi)
    as (rules1 & st1 & He1 & Hs1 & Hi1 & Hown).
  destruct (IH _ _ _ _ Hr He1 Hi1) as (rules' & st' & He' & Hs' & Hi' & Ha).
  exists rules', st'. split_and!; [done|congruence|done|].
  unfold owned in *. rewrite filter_cons, <- Hs1. rewrite <- Hs1 in Hown.
  destruct (owns pid (rs_rule <$> rules1) i c).
  - rewrite decide_True by done. cbn [length]. rewrite attempts_front.
    destruct Hown as (sq & sl & -> & _). done.
  - rewrite decide_False by done. by rewrite <- Hown.
Qed.

(** ** Which attempts of a rule are selected *)

Definition draws (s : Selector) : bool :=
  match s_Nth s, s_Every s, s_Probability s with
  | None, None, Some p => negb (f_eqb p f_zero) && negb (f_eqb p f_one)
  | _, _, _ => false
  end.

(** The generator after [n] draws. *)
Definition generator (n : nat) (g : PCG) : PCG := Nat.iter n (λ g, (Float64 g).2) g.

(** Whether the [k]-th attempt (from 1) of a rule with generator [g] is selected. *)
Definition select_at (s : Selector) (g : PCG) (k : Z) : bool :=
  match s_Nth s, s_Every s, s_Probability s with
  | Some n, _, _ => k =? n
  | None, Some m, _ => k mod m =? 0
  | None, None, Some p =>
      if f_eqb p f_zero then false
      else if f_eqb p f_one then true
      else f_ltb (Float64 (generator (Z.to_nat (k - 1)) g)).1 p
  | None, None, None => false
  end.

Definition selected_upto (s : Selector) (g : PCG) (n : nat) : Z :=
  Z.of_nat (length (filter (λ k, select_at s g k = true) (seqZ 1 (Z.of_nat n)))).

(** The state of a fresh rule after [n] attempts. *)
Definition state_at (st : ruleState) (n : nat) : ruleState :=
  {| rs_rule := rs_rule st;
     rs_counters := {| Eligible := Z.of_nat n;
                       Selected := selected_upto (r_Select (rs_rule st)) (rs_random st) n |};
     rs_random := if draws (r_Select (rs_rule st)) then generator n (rs_random st)
                  else rs_random st |}.

Lemma selected_upto_S s g n :
  selected_upto s g (S n) = selected_upto s g n + Z.b2z (select_at s g (Z.of_nat n + 1)).
Proof.
  unfold selected_upto. rewrite seqZ_S, filter_app, length_app, filter_cons, filter_nil.
  rewrite (Z.add_comm 1). case_decide as H; [rewrite H|apply not_true_is_false in H; rewrite H];
    simpl; lia.
Qed.

Lemma selected_upto_range s g n : 0 ≤ selected_upto s g n ≤ Z.of_nat n.
Proof.
  unfold selected_upto. pose proof (length_filter (λ k, select_at s g k = true) (seqZ 1 (Z.of_nat n))).
  rewrite length_seqZ in *. lia.
Qed.

Lemma attempt_state_at st n :
  selector_ok (r_Select (rs_rule st)) → Z.of_nat n + 1 < 2 ^ 64 →
  attempt (state_at st n) =
    Some (state_at st (S n), Z.of_nat n + 1,
          select_at (r_Select (rs_rule st)) (rs_random st) (Z.of_nat n + 1)).
Proof.
  intros Hs Hn. unfold attempt. cbn [rs_counters state_at Eligible Selected rs_rule rs_random].
  rewrite (u64_small (Z.of_nat n + 1)) by lia.
  set (s := r_Select (rs_rule st)) in *. set (g := rs_random st).
  assert (selectAttempt (state_at st n) (Z.of_nat n + 1) =
    Some (select_at s g (Z.of_nat n + 1), if draws s then generator (S n) g else g)) as ->.
  { unfold selectAttempt, select_at, draws. cbn [rs_rule rs_random state_at]. fold s g.
    destruct Hs as [p _ _|k Hk|k Hk]; cbn; [|done|by rewrite (proj2 (Z.eqb_neq k 0))].
    destruct (f_eqb p f_zero), (f_eqb p f_one); cbn; try done.
    rewrite Z.add_simpl_r, Nat2Z.id.
    change (generator (S n) g) with (Float64 (generator n g)).2.
    by destruct (Float64 (generator n g)). }
  unfold mbind, option_bind, mret, option_ret, state_at. fold s g. do 3 f_equal.
  pose proof (selected_upto_range s g n). rewrite selected_upto_S.
  f_equal. destruct (select_at s g (Z.of_nat n + 1)); cbn [Z.b2z]; [|f_equal; lia].
  rewrite u64_small by lia. f_equal; lia.
Qed.

Definition fresh_state (st : ruleState) : Prop := rs_counters st = {| Eligible := 0; Selected := 0 |}.

Lemma state_at_0 st : fresh_state st → state_at st 0 = st.
Proof.
  destruct st as [r c g]; unfold fresh_state; cbn. intros ->. unfold state_at; cbn.
  by destruct (draws _).
Qed.

Lemma attempts_state_at st n :
  fresh_state st → selector_ok (r_Select (rs_rule st)) → Z.of_nat n < 2 ^ 64 →
  attempts n st = Some (state_at st n).
Proof.
  intros Hf Hs. induction n as [|n IH]; intros Hn.
  { cbn. by rewrite state_at_0. }
  cbn [attempts]. rewrite IH by lia. cbn. rewrite attempt_state_at by (done || lia). done.
Qed.

(** ** The engine of a document *)

Lemma New_lookup_fold seed ps (e0 : Engine) p :
  NoDup (p_ID <$> ps) → p ∈ ps →
  fold_left (λ e p, <[p_ID p := new_state seed (p_ID p) <$> p_Rules p]> e) ps e0 !! p_ID p =
    Some (new_state seed (p_ID p) <$> p_Rules p).
Proof.
  assert (∀ ps (e0 : Engine) k, k ∉ p_ID <$> ps →
    fold_left (λ e p, <[p_ID p := new_state seed (p_ID p) <$> p_Rules p]> e) ps e0 !! k = e0 !! k)
    as Hother.
  { clear. induction ps as [|q ps IH]; intros e0 k Hk; [done|].
    rewrite fmap_cons, not_elem_of_cons in Hk. destruct Hk as [Hk1 Hk2].
    cbn [fold_left]. rewrite IH by done. by rewrite lookup_insert_ne. }
  revert e0. induction ps as [|q ps IH]; intros e0 Hnd Hp; [by apply not_elem_of_nil in Hp|].
  rewrite fmap_cons, NoDup_cons in Hnd. destruct Hnd as [Hq Hnd].
  cbn [fold_left]. apply elem_of_cons in Hp as [->|Hp]; [|by apply IH].
  rewrite Hother by done. apply lookup_insert_eq.
Qed.

Lemma New_lookup d e p :
  New (Some d) = Ok e → NoDup (p_ID <$> c_Proxies (d_config d)) → p ∈ c_Proxies (d_config d) →
  e !! p_ID p = Some (new_state (c_Seed (d_config d)) (p_ID p) <$> p_Rules p).
Proof.
  unfold New. destruct (d_valid d); [|done]. intros [= <-] Hnd Hp. by apply New_lookup_fold.
Qed.

Lemma new_state_rules seed pid (rs : list Rule) : rs_rule <$> (new_state seed pid <$> rs) = rs.
Proof. rewrite <- list_fmap_compose. apply list_fmap_id. Qed.

(** Sequence numbers and selections of the decisions a rule owns in a run. *)
Definition owned_decisions (pid : string) (rs : list Rule) (i : nat) (calls : list call)
    (ds : list Decision) : list (Z * bool) :=
  (λ cd : call * Decision, (dc_EligibleSequence cd.2, dc_Selected cd.2)) <$>
    filter (λ cd, owns pid rs i cd.1 = true) (zip calls ds).

Definition schedule (s : Selector) (g : PCG) (start len : nat) : list (Z * bool) :=
  (λ k, (k, select_at s g k)) <$> seqZ (Z.of_nat start + 1) (Z.of_nat len).

Lemma owned_cons pid rs i c calls :
  owned pid rs i (c :: calls) =
  if owns pid rs i c then S (owned pid rs i calls) else owned pid rs i calls.
Proof.
  unfold owned. rewrite filter_cons. destruct (owns pid rs i c);
    [by rewrite decide_True|by rewrite decide_False].
Qed.

Lemma run_decisions e calls e' ds pid rules i st n :
  run e calls = Some (e', ds) → e !! pid = Some rules → rules !! i = Some (state_at st n) →
  selector_ok (r_Select (rs_rule st)) → Z.of_nat (n + length calls) < 2 ^ 64 →
  owned_decisions pid (rs_rule <$> rules) i calls ds =
  schedule (r_Select (rs_rule st)) (rs_random st) n (owned pid (rs_rule <$> rules) i calls).
Proof.
  revert e ds rules n. induction calls as [|c calls IH]; intros e ds rules n H He Hi Hs Hn.
  { done. }
  simpl in H. apply bind_Some in H as ([e1 [d err]] & Hd & H).
  apply bind_Some in H as ([e2 ds2] & Hr & H). injection H as -> <-.
  destruct (Decide_rule_state _ _ _ _ _ _ _ _ Hd He Hi) as (rules1 & st1 & He1 & Hs1 & Hi1 & Hown).
  rewrite owned_cons. unfold owned_decisions. cbn [zip zip_with]. rewrite filter_cons. cbn [fst].
  rewrite <- Hs1 in *. cbn [length] in Hn.
  destruct (owns pid (rs_rule <$> rules1) i c) eqn:Eo.
  - rewrite decide_True by done. destruct Hown as (sq & sl & Ha & Hdc). cbn [fst] in Hdc.
    rewrite attempt_state_at in Ha by (done || lia). injection Ha as <- <- <-.
    rewrite fmap_cons. cbn [snd]. rewrite Hdc. cbn [dc_EligibleSequence dc_Selected decided].
    fold (owned_decisions pid (rs_rule <$> rules1) i calls ds2).
    rewrite (IH _ _ _ (S n) Hr He1 Hi1 Hs ltac:(lia)). unfold schedule.
    rewrite (seqZ_cons _ (Z.of_nat (S _))) by lia. rewrite fmap_cons. f_equal. f_equal.
    f_equal; lia.
  - rewrite decide_False by done. subst st1.
    apply (IH _ _ _ n Hr He1 Hi1 Hs ltac:(lia)).
Qed.

(** The validated documents the program builds: well formed and with distinct IDs. *)
Record document_ok (d : Document) : Prop := {
  doc_valid : d_valid d = true;
  doc_wf : config_wf (d_config d);
  doc_ids : NoDup (p_ID <$> c_Proxies (d_config d))
}.

Lemma document_rule d p r :
  document_ok d → p ∈ c_Proxies (d_config d) → r ∈ p_Rules p → rule_wf (p_Protocol p) r.
Proof.
  intros Hd Hp Hr. destruct (doc_wf d Hd) as [_ _ _ Hwf _].
  rewrite Forall_forall in Hwf. destruct (Hwf p Hp) as (_ & _ & Hrs).
  rewrite Forall_forall in Hrs. by apply Hrs.
Qed.

(** C3. In any run of the engine of a document, the attempts owned by a rule are
    numbered 1, 2, 3, ... and the k-th is selected exactly as [select_at]
    prescribes from the seed, proxy ID and rule ID: the traffic of other rules and
    proxies, and disabled calls, never influence it. *)
Theorem decisions_replay d e calls e' ds p i r :
  document_ok d → New (Some d) = Ok e → run e calls = Some (e', ds) →
  p ∈ c_Proxies (d_config d) → p_Rules p !! i = Some r → Z.of_nat (length calls) < 2 ^ 64 →
  owned_decisions (p_ID p) (p_Rules p) i calls ds =
  schedule (r_Select r) (rule_random (c_Seed (d_config d)) (p_ID p) (r_ID r)) 0
           (owned (p_ID p) (p_Rules p) i calls).
Proof.
  intros Hd Hnew Hrun Hp Hr Hlen. pose proof (New_lookup _ _ _ Hnew (doc_ids d Hd) Hp) as He.
  set (st := new_state (c_Seed (d_config d)) (p_ID p) r).
  assert ((new_state (c_Seed (d_config d)) (p_ID p) <$> p_Rules p) !! i = Some (state_at st 0)) as Hi.
  { rewrite list_lookup_fmap, Hr. by rewrite state_at_0. }
  pose proof (document_rule _ _ _ Hd Hp (list_elem_of_lookup_2 _ _ _ Hr)) as [Hs _].
  pose proof (run_decisions _ _ _ _ _ _ _ st 0 Hrun He Hi Hs ltac:(done)) as H.
  by rewrite new_state_rules in H.
Qed.

(** ** Counters *)

Lemma div_succ_count n k : 0 < k → 0 ≤ n → (n + 1) / k = n / k + Z.b2z ((n + 1) mod k =? 0).
Proof.
  intros Hk Hn. pose proof (Z.div_mod n k ltac:(lia)) as Hdm. pose proof (Z.mod_pos_bound n k Hk).
  destruct (Z.eq_dec (n mod k) (k - 1)) as [E|E].
  - assert (n + 1 = (n / k + 1) * k) as -> by nia.
    by rewrite Z.div_mul, Z.mod_mul by lia.
  - rewrite <- (Z.div_unique (n + 1) k (n / k) (n mod k + 1)) by lia.
    rewrite <- (Z.mod_unique (n + 1) k (n / k) (n mod k + 1)) by lia.
    rewrite (proj2 (Z.eqb_neq _ _)); cbn; lia.
Qed.

Lemma selected_upto_every k g n :
  0 < k →
  selected_upto {| s_Probability := None; s_Nth := None; s_Every := Some k |} g n = Z.of_nat n / k.
Proof.
  intros Hk. induction n as [|n IH]; [by rewrite Z.div_0_l by lia|].
  rewrite selected_upto_S, IH. cbn [select_at s_Nth s_Every].
  rewrite Nat2Z.inj_succ, <- Z.add_1_r. symmetry. apply div_succ_count; lia.
Qed.

Lemma selected_upto_nth k g n :
  0 < k →
  selected_upto {| s_Probability := None; s_Nth := Some k; s_Every := None |} g n =
  Z.b2z (k <=? Z.of_nat n).
Proof.
  intros Hk. induction n as [|n IH]; [by destruct (Z.leb_spec k (Z.of_nat 0)); [lia|]|].
  rewrite selected_upto_S, IH. cbn [select_at s_Nth s_Every]. rewrite Nat2Z.inj_succ.
  destruct (Z.leb_spec k (Z.of_nat n)), (Z.leb_spec k (Z.succ (Z.of_nat n))),
    (Z.eqb_spec (Z.of_nat n + 1) k); cbn; lia.
Qed.

Lemma engine_Counters_lookup (e : Engine) pid rules i st :
  e !! pid = Some rules → NoDup ((r_ID ∘ rs_rule) <$> rules) → rules !! i = Some st →
  engine_Counters e pid (r_ID (rs_rule st)) = (rs_counters st, true).
Proof.
  intros He Hnd Hi. unfold engine_Counters. rewrite He. simpl.
  match goal with |- context [list_find ?P rules] =>
    assert (list_find P rules = Some (i, st)) as ->; [|done] end.
  apply list_find_Some. split_and!; [done|done|]. intros j st' Hj Hlt Heq.
  assert (i = j); [|lia]. rewrite NoDup_alt in Hnd. apply (Hnd i j (r_ID (rs_rule st))).
  - by rewrite list_lookup_fmap, Hi.
  - rewrite list_lookup_fmap, Hj. cbn. by rewrite Heq.
Qed.

Lemma counters_after_run d e calls e' ds p i r :
  document_ok d → New (Some d) = Ok e → run e calls = Some (e', ds) →
  p ∈ c_Proxies (d_config d) → NoDup (r_ID <$> p_Rules p) → p_Rules p !! i = Some r →
  Z.of_nat (length calls) < 2 ^ 64 →
  let n := owned (p_ID p) (p_Rules p) i calls in
  engine_Counters e' (p_ID p) (r_ID r) =
  ({| Eligible := Z.of_nat n;
      Selected := selected_upto (r_Select r)
        (rule_random (c_Seed (d_config d)) (p_ID p) (r_ID r)) n |}, true).
Proof.
  intros Hd Hnew Hrun Hp Hnd Hr Hlen n.
  pose proof (New_lookup _ _ _ Hnew (doc_ids d Hd) Hp) as He.
  set (st := new_state (c_Seed (d_config d)) (p_ID p) r).
  assert ((new_state (c_Seed (d_config d)) (p_ID p) <$> p_Rules p) !! i = Some st) as Hi
    by by rewrite list_lookup_fmap, Hr.
  pose proof (document_rule _ _ _ Hd Hp (list_elem_of_lookup_2 _ _ _ Hr)) as [Hs _].
  destruct (run_rule_state _ _ _ _ _ _ _ _ Hrun He Hi) as (rules' & st' & He' & Hrs & Hi' & Ha).
  rewrite new_state_rules in *. fold n in Ha.
  assert (n ≤ length calls)%nat by (apply length_filter).
  rewrite attempts_state_at in Ha by (done || lia). simplify_eq.
  change (r_ID r) with (r_ID (rs_rule (state_at st n))).
  rewrite (engine_Counters_lookup _ _ rules' i _ He'); [done| |done].
  rewrite list_fmap_compose, Hrs. done.
Qed.

(** After any run, the status counters of an [every: k] rule are the number
    n of attempts the rule owned and n / k selections. *)
Theorem every_counters d e calls e' ds p i r k :
  document_ok d → New (Some d) = Ok e → run e calls = Some (e', ds) →
  p ∈ c_Proxies (d_config d) → NoDup (r_ID <$> p_Rules p) → p_Rules p !! i = Some r →
  Z.of_nat (length calls) < 2 ^ 64 → s_Every (r_Select r) = Some k → 0 < k →
  engine_Counters e' (p_ID p) (r_ID r) =
  ({| Eligible := Z.of_nat (owned (p_ID p) (p_Rules p) i calls);
      Selected := Z.of_nat (owned (p_ID p) (p_Rules p) i calls) / k |}, true).
Proof.
  intros Hd Hnew Hrun Hp Hnd Hr Hlen Hk Hpos.
  rewrite (counters_after_run d e calls e' ds p i r) by done.
  pose proof (document_rule _ _ _ Hd Hp (list_elem_of_lookup_2 _ _ _ Hr)) as [Hs _].
  do 3 f_equal. destruct Hs; simplify_eq/=. by apply selected_upto_every.
Qed.

(** After any run, an [nth: k] rule has been selected once if it owned at
    least k attempts and never otherwise. *)
Theorem nth_counters d e calls e' ds p i r k :
  document_ok d → New (Some d) = Ok e → run e calls = Some (e', ds) →
  p ∈ c_Proxies (d_config d) → NoDup (r_ID <$> p_Rules p) → p_Rules p !! i = Some r →
  Z.of_nat (length calls) < 2 ^ 64 → s_Nth (r_Select r) = Some k → 0 < k →
  Selected (engine_Counters e' (p_ID p) (r_ID r)).1 =
  if k <=? Z.of_nat (owned (p_ID p) (p_Rules p) i calls) then 1 else 0.
Proof.
  intros Hd Hnew Hrun Hp Hnd Hr Hlen Hk Hpos.
  rewrite (counters_after_run d e calls e' ds p i r) by done. cbn [fst Selected].
  pose proof (document_rule _ _ _ Hd Hp (list_elem_of_lookup_2 _ _ _ Hr)) as [Hs _].
  destruct Hs; simplify_eq/=. rewrite selected_upto_nth by done. by destruct (_ <=? _).
Qed.

(** ** Totality and the fault a decision carries *)

Lemma attempt_total st : selector_ok (r_Select (rs_rule st)) → is_Some (attempt st).
Proof.
  intros Hs. unfold attempt, selectAttempt.
  destruct Hs as [p _ _|k Hk|k Hk]; cbn.
  - destruct (f_eqb p f_zero), (f_eqb p f_one); cbn; eauto.
  - eauto.
  - rewrite (proj2 (Z.eqb_neq k 0)) by done. cbn. eauto.
Qed.

(** Every rule of every proxy satisfies [Q] of its configuration. *)
Definition rules_all (Q : string → Rule → Prop) (e : Engine) : Prop :=
  ∀ pid rules st, e !! pid = Some rules → st ∈ rules → Q pid (rs_rule st).

Lemma Decide_total Q e pid md enabled :
  rules_all Q e → (∀ pid r, Q pid r → selector_ok (r_Select r)) →
  ∃ e' dec err, Decide e pid md enabled = Some (e', (dec, err)) ∧ rules_all Q e' ∧
    dc_ProxyID dec = pid ∧
    (dc_RuleID dec ≠ "" ∨ dc_Selected dec = true →
     enabled = true ∧ ∃ r, Q pid r ∧ r_Enabled r = true ∧ matches (r_Match r) md = true ∧
       dc_RuleID dec = r_ID r ∧ dc_Fault dec = r_Fault r ∧ dc_Selector dec = r_Select r).
Proof.
  intros HQ Hsel. destruct enabled; cycle 1.
  { destruct (Decide_disabled e pid md) as [err ->]. eexists e, _, err. split_and!; try done.
    by intros [?|?]. }
  destruct (e !! pid) as [rules|] eqn:He; cycle 1.
  { unfold Decide. rewrite He. eexists e, _, _. split_and!; try done. by intros [?|?]. }
  rewrite (Decide_enabled _ _ _ _ He). destruct (first_rule _ _) as [i|] eqn:Ef; cycle 1.
  { eexists e, _, _. split_and!; try done. by intros [?|?]. }
  apply first_rule_lookup in Ef as (r & Hr & Hen & Hm & _).
  rewrite list_lookup_fmap in Hr. destruct (rules !! i) as [st|] eqn:Hi; [|done].
  cbn in Hr. injection Hr as <-. pose proof (HQ _ _ _ He (list_elem_of_lookup_2 _ _ _ Hi)) as HQr.
  destruct (attempt_total st (Hsel _ _ HQr)) as [[[st' sq] sl] Ha].
  unfold mbind, option_bind, mret, option_ret. rewrite Ha.
  eexists _, _, None. split_and!; [done| |done|].
  - intros pid' rules' st0 Hl Hin. destruct (decide (pid = pid')) as [<-|Hne].
    + rewrite lookup_insert_eq in Hl. injection Hl as <-.
      apply list_elem_of_lookup in Hin as [j Hj].
      destruct (decide (i = j)) as [<-|Hij].
      * rewrite list_lookup_insert_eq in Hj by (by eapply lookup_lt_Some).
        injection Hj as <-. by rewrite (attempt_rule _ _ _ _ Ha).
      * rewrite list_lookup_insert_ne in Hj by done.
        exact (HQ _ _ _ He (list_elem_of_lookup_2 _ _ _ Hj)).
    + rewrite lookup_insert_ne in Hl by done. exact (HQ _ _ _ Hl Hin).
  - intros _. split; [done|]. by exists (rs_rule st).
Qed.

(** A rule of proxy [pid] of the document, with what validation guarantees. *)
Definition document_rule_of (d : Document) (pid : string) (r : Rule) : Prop :=
  ∃ p, p ∈ c_Proxies (d_config d) ∧ p_ID p = pid ∧ r ∈ p_Rules p ∧ rule_wf (p_Protocol p) r.

Lemma New_fold_keys seed ps (e0 : Engine) pid rules :
  fold_left (λ e p, <[p_ID p := new_state seed (p_ID p) <$> p_Rules p]> e) ps e0 !! pid =
    Some rules → e0 !! pid = Some rules ∨ pid ∈ p_ID <$> ps.
Proof.
  revert e0. induction ps as [|q ps IH]; intros e0 H; cbn in H; [by left|].
  destruct (IH _ H) as [Hl|Hin]; [|right; by right].
  destruct (decide (p_ID q = pid)) as [<-|Hne]; [right; left|].
  left. by rewrite lookup_insert_ne in Hl.
Qed.

Lemma New_rules_all d e :
  document_ok d → New (Some d) = Ok e → rules_all (document_rule_of d) e.
Proof.
  intros Hd Hnew pid rules st Hl Hin.
  assert (pid ∈ p_ID <$> c_Proxies (d_config d)) as (p & -> & Hp)%list_elem_of_fmap.
  { unfold New in Hnew. destruct (d_valid d); [|done]. injection Hnew as <-.
    by apply New_fold_keys in Hl as [?|?]. }
  rewrite (New_lookup _ _ _ Hnew (doc_ids d Hd) Hp) in Hl. injection Hl as <-.
  apply list_elem_of_fmap in Hin as (r & -> & Hr). exists p. split_and!; try done.
  by eapply document_rule.
Qed.

Lemma run_total Q e calls :
  rules_all Q e → (∀ pid r, Q pid r → selector_ok (r_Select r)) →
  ∃ e' ds, run e calls = Some (e', ds) ∧ length ds = length calls.
Proof.
  intros HQ Hsel. revert e HQ. induction calls as [|c calls IH]; intros e HQ; [by exists e, []|].
  destruct (Decide_total Q e (cl_proxy c) (cl_metadata c) (cl_enabled c) HQ Hsel)
    as (e1 & dec & err & Hd & HQ1 & _).
  destruct (IH e1 HQ1) as (e2 & ds & Hr & Hlen). exists e2, (dec :: ds).
  simpl. rewrite Hd. simpl. rewrite Hr. split; [done|simpl; lia].
Qed.

Lemma document_rule_selector d pid r : document_rule_of d pid r → selector_ok (r_Select r).
Proof. by intros (p & _ & _ & _ & ? & _). Qed.

(** On the engine of a validated document no sequence of calls panics (no
    nil selector, no division by zero): every call returns a decision. *)
Theorem engine_never_panics d e calls :
  document_ok d → New (Some d) = Ok e →
  ∃ e' ds, run e calls = Some (e', ds) ∧ length ds = length calls.
Proof.
  intros Hd Hnew. eapply run_total; [by eapply New_rules_all|apply document_rule_selector].
Qed.
