(* ===== verification/Decode.v ===== *)
(** * Decoding YAML nodes (internal/config/parse.go, encode.go)

    decodeNode walks a node tree and a Go value together, by reflection. Here the
    reflected type is a code [GoType] with its values [denote], and decoding
    returns the assigned value. The YAML library (text to nodes, scalars, and the
    reverse) is the class [Yaml]; a panic is the error [Panic]. *)

From S2P Require Import Prelude GoLib GoRand GoTime Config Validate.
Local Open Scope go_scope.

(** ** yaml.Node *)

Inductive Kind := DocumentNode | SequenceNode | MappingNode | ScalarNode | AliasNode.

#[export] Instance Kind_eq_dec : EqDecision Kind. Proof. solve_decision. Defined.

Inductive Node := MkNode (kind : Kind) (tag value : string) (content : list Node).

Definition n_Kind (n : Node) : Kind := let 'MkNode k _ _ _ := n in k.
Definition n_Tag (n : Node) : string := let 'MkNode _ t _ _ := n in t.
Definition n_Value (n : Node) : string := let 'MkNode _ _ v _ := n in v.
Definition n_Content (n : Node) : list Node := let 'MkNode _ _ _ c := n in c.

(** ** Reflected types *)

Inductive GoType :=
| TString
| TBool
| TInt
| TUint64
| TFloat64
| TDuration
| TPointer (t : GoType)
| TSlice (t : GoType)
| TMap (t : GoType)
| TStruct (name : string) (fields : list (string * GoType)).

(** The values of a type; a struct is the tuple of its fields, and [None] is the nil
    pointer or map. *)
Fixpoint denote (t : GoType) : Type :=
  match t with
  | TString => string
  | TBool => bool
  | TInt | TUint64 | TDuration => Z
  | TFloat64 => spec_float
  | TPointer t => option (denote t)
  | TSlice t => list (denote t)
  | TMap t => option (gmap string (denote t))
  | TStruct _ fields =>
      (fix go (fs : list (string * GoType)) : Type :=
         match fs with [] => unit | f :: fs' => denote f.2 * go fs' end) fields
  end%type.

(** reflect.New: the zero value. *)
Fixpoint zero (t : GoType) : denote t :=
  match t return denote t with
  | TString => ""
  | TBool => false
  | TInt | TUint64 | TDuration => 0
  | TFloat64 => f_zero
  | TPointer _ => None
  | TSlice _ => []
  | TMap _ => None
  | TStruct _ fields =>
      (fix go (fs : list (string * GoType)) : denote (TStruct "" fs) :=
         match fs return denote (TStruct "" fs) with [] => tt | f :: fs' => (zero f.2, go fs') end) fields
  end.

(** Assign to the field with tag [key], through [k]; [None] when there is none. *)
Fixpoint update_field {E} (fs : list (string * GoType)) (key : string)
    (k : ∀ t, denote t → res E (denote t)) : denote (TStruct "" fs) → option (res E (denote (TStruct "" fs))) :=
  match fs return denote (TStruct "" fs) → option (res E (denote (TStruct "" fs))) with
  | [] => λ _, None
  | f :: fs' => λ v,
      if f.1 =s key then Some (x ← k f.2 v.1; Ok (x, v.2))
      else (λ r, rest ← r; Ok (v.1, rest)) <$> update_field fs' key k v.2
  end.

(** ** Errors *)

Inductive failure :=
| Invalid (e : FieldError)
| Other (message : string)
| Panic.

(** The scalar kinds of [tags]. *)
Inductive scalar := SString | SBool | SInt | SUint64 | SFloat64.

Definition scalar_type (s : scalar) : GoType :=
  match s with
  | SString => TString | SBool => TBool | SInt => TInt | SUint64 => TUint64 | SFloat64 => TFloat64
  end.

Definition scalar_tag (s : scalar) : string :=
  match s with
  | SString => "!!str" | SBool => "!!bool" | SInt => "!!int" | SUint64 => "!!int" | SFloat64 => "!!float"
  end.

(** The YAML library: the first document of a text and whether the decoder then
    reports anything but io.EOF; Node.Decode of a scalar node; Node.Encode and
    yaml.Marshal. *)
Class Yaml := {
  yaml_first : bytes → option Node;
  yaml_more : bytes → bool;
  scalar_Decode : ∀ s : scalar, string → string → option (denote (scalar_type s));
  node_Encode : ∀ t, denote t → option Node;
  yaml_Marshal : Node → option bytes
}.

Section decode.
Context `{Yaml}.

Definition fail (path message : string) : failure :=
  Invalid (invalid (if path =s "" then "config" else path) message).

Definition child_path (path key : string) : string :=
  if path =s "" then key else path +:+ "." +:+ key.

(** The loops over the children of a node, given the decoder of a child. *)
Section children.
Context (decode : Node → ∀ t, denote t → string → res failure (denote t)).

Fixpoint decode_fields (fs : list (string * GoType)) (path : string) (content : list Node)
    (seen : gset string) (v : denote (TStruct "" fs)) : res failure (denote (TStruct "" fs)) :=
  match content with
  | [] => Ok v
  | key :: value :: rest =>
      fail_if negb (n_Tag key =s "!!str")
        with fail path "expected string field names; YAML merges are not supported" ;;
      let child := child_path path (n_Value key) in
      fail_if bool_decide (n_Value key ∈ seen) with Invalid (invalid child "duplicate field") ;;
      match update_field fs (n_Value key) (λ t x, decode value t x child) v with
      | None => Err (Invalid (invalid child "unknown field"))
      | Some r => v ← r; decode_fields fs path rest ({[n_Value key]} ∪ seen) v
      end
  | [_] => Err Panic
  end.

Fixpoint decode_map (t : GoType) (path : string) (content : list Node) (seen : gset string)
    (m : gmap string (denote t)) : res failure (gmap string (denote t)) :=
  match content with
  | [] => Ok m
  | key :: value :: rest =>
      fail_if negb (n_Tag key =s "!!str")
        with fail path "expected string field names; YAML merges are not supported" ;;
      let child := child_path path (n_Value key) in
      fail_if bool_decide (n_Value key ∈ seen) with Invalid (invalid child "duplicate field") ;;
      x ← decode value t (zero t) child;
      decode_map t path rest ({[n_Value key]} ∪ seen) (<[n_Value key := x]> m)
  | [_] => Err Panic
  end.

Fixpoint decode_items (t : GoType) (path : string) (i : nat) (content : list Node) :
    res failure (list (denote t)) :=
  match content with
  | [] => Ok []
  | item :: rest =>
      x ← decode item t (zero t) (path +:+ "[" +:+ pretty i +:+ "]");
      xs ← decode_items t path (S i) rest;
      Ok (x :: xs)
  end.
End children.

(** Rule.Enabled defaults to true. *)
Definition set_true (t : GoType) : denote t → res failure (denote t) :=
  match t return denote t → res failure (denote t) with TBool => λ _, Ok true | _ => Ok end.

Definition enable_rule (name : string) (fs : list (string * GoType)) (v : denote (TStruct "" fs)) :
    res failure (denote (TStruct "" fs)) :=
  if name =s "Rule" then default (Err Panic) (update_field fs "enabled" set_true v) else Ok v.

Definition decode_scalar (s : scalar) (kind : Kind) (tag value path : string) :
    res failure (denote (scalar_type s)) :=
  fail_if negb (bool_decide (kind = ScalarNode)) ||
          (negb (tag =s scalar_tag s) &&
           negb (match s with SFloat64 => tag =s "!!int" | _ => false end))
    with fail path "invalid scalar type" ;;
  match scalar_Decode s tag value with
  | None => Err (fail path "invalid scalar value")
  | Some x => Ok x
  end.

Definition refused (kind : Kind) (tag : string) : bool := bool_decide (kind = AliasNode) || (tag =s "!!null").

(** decodeNode: by recursion on the node, and on the types pointed to for the
    same node. *)
Fixpoint decodeNode (n : Node) : ∀ t, denote t → string → res failure (denote t) :=
  let 'MkNode kind tag value content := n in
  fix decode_as (t : GoType) (v : denote t) (path : string) : res failure (denote t) :=
    fail_if refused kind tag with fail path "aliases and null values are not supported" ;;
    match t return denote t → res failure (denote t) with
    | TPointer t' => λ _, x ← decode_as t' (zero t') path; Ok (Some x)
    | TDuration => λ _,
        fail_if negb (tag =s "!!str") with fail path "expected a duration string" ;;
        match ParseDuration value with
        | None => Err (fail path "invalid duration")
        | Some d => Ok d
        end
    | TStruct name fs => λ v,
        fail_if negb (bool_decide (kind = MappingNode)) with fail path "expected a mapping" ;;
        v ← enable_rule name fs v;
        decode_fields decodeNode fs path content ∅ v
    | TMap t' => λ _,
        fail_if negb (bool_decide (kind = MappingNode)) with fail path "expected a mapping" ;;
        m ← decode_map decodeNode t' path content ∅ ∅;
        Ok (Some m)
    | TSlice t' => λ _,
        fail_if negb (bool_decide (kind = SequenceNode)) with fail path "expected a sequence" ;;
        decode_items decodeNode t' path 0 content
    | TString => λ _, decode_scalar SString kind tag value path
    | TBool => λ _, decode_scalar SBool kind tag value path
    | TInt => λ _, decode_scalar SInt kind tag value path
    | TUint64 => λ _, decode_scalar SUint64 kind tag value path
    | TFloat64 => λ _, decode_scalar SFloat64 kind tag value path
    end v.

(** decodeDocument into a value of type [t] that holds [v]. *)
Definition decodeDocument (data : bytes) (t : GoType) (v : denote t) : res failure (denote t) :=
  match yaml_first data with
  | None => Err (Invalid (invalid "config" "expected one valid YAML document"))
  | Some node =>
      fail_if yaml_more data with Invalid (invalid "config" "expected exactly one YAML document") ;;
      match n_Content node with
      | [content] => decodeNode content t v ""
      | _ => Err (Invalid (invalid "config" "expected a mapping"))
      end
  end.

(** ** Encoding *)

Section prune.
Context (prune_child : Node → option Node).

(** Drop the entries with a null value; [None] is an odd number of children. *)
Fixpoint prune_entries (content : list Node) : option (list Node) :=
  match content with
  | [] => Some []
  | key :: item :: rest =>
      if n_Tag item =s "!!null" then prune_entries rest
      else item ← prune_child item; rest ← prune_entries rest; Some (key :: item :: rest)
  | [_] => None
  end.

Fixpoint prune_items (content : list Node) : option (list Node) :=
  match content with
  | [] => Some []
  | item :: rest => item ← prune_child item; rest ← prune_items rest; Some (item :: rest)
  end.
End prune.

Fixpoint prune (n : Node) : option Node :=
  let 'MkNode kind tag value content := n in
  content ← (if bool_decide (kind = MappingNode) then prune_entries prune content
             else prune_items prune content);
  Some (MkNode kind tag value content).

(** Encode for a value of any reflected type. *)
Definition encode_value (t : GoType) (v : denote t) : res failure bytes :=
  match node_Encode t v with
  | None => Err (Other "yaml: encode")
  | Some node =>
      match prune node with
      | None => Err Panic
      | Some node =>
          match yaml_Marshal node with
          | None => Err (Other "yaml: marshal")
          | Some data => Ok data
          end
      end
  end.
End decode.
