(* ===== verification/DecodeSpec.v ===== *)
(** * Correctness of decoding

    What the YAML library documents about encoding, as a relation between values
    and nodes; decoding a pruned encoding gives the value back; decoding accepts
    only strict trees and never panics on the nodes the library builds. *)

From S2P Require Import Prelude GoLib GoUtf8 GoRand GoTime Config Validate Decode.
Local Open Scope go_scope.

(** ** Induction *)

Section node_ind.
Context (P : Node → Prop).
Context (step : ∀ kind tag value content, Forall P content → P (MkNode kind tag value content)).

Fixpoint node_induction (n : Node) : P n :=
  let 'MkNode kind tag value content := n in
  step kind tag value content
    ((fix go (l : list Node) : Forall P l :=
        match l with [] => Forall_nil_2 P | x :: l' => Forall_cons_2 P x l' (node_induction x) (go l') end) content).
End node_ind.

Section type_ind.
Context (P : GoType → Prop).
Context (Hscalar : ∀ s, P (scalar_type s)) (Hduration : P TDuration).
Context (Hpointer : ∀ t, P t → P (TPointer t)) (Hslice : ∀ t, P t → P (TSlice t)).
Context (Hmap : ∀ t, P t → P (TMap t)).
Context (Hstruct : ∀ name fs, Forall (λ f, P f.2) fs → P (TStruct name fs)).

Fixpoint type_induction (t : GoType) : P t :=
  match t with
  | TString => Hscalar SString
  | TBool => Hscalar SBool
  | TInt => Hscalar SInt
  | TUint64 => Hscalar SUint64
  | TFloat64 => Hscalar SFloat64
  | TDuration => Hduration
  | TPointer t => Hpointer t (type_induction t)
  | TSlice t => Hslice t (type_induction t)
  | TMap t => Hmap t (type_induction t)
  | TStruct name fs =>
      Hstruct name fs
        ((fix go (l : list (string * GoType)) : Forall (λ f, P f.2) l :=
            match l with
            | [] => Forall_nil_2 _
            | f :: l' => Forall_cons_2 (λ f, P f.2) f l' (type_induction f.2) (go l')
            end) fs)
  end.
End type_ind.

(** ** Struct fields *)

Definition tags (fs : list (string * GoType)) : list string := fst <$> fs.

(** A property of the value of the field with a tag. *)
Fixpoint at_field (fs : list (string * GoType)) (key : string) (P : ∀ t, denote t → Prop) :
    denote (TStruct "" fs) → Prop :=
  match fs return denote (TStruct "" fs) → Prop with
  | [] => λ _, False
  | f :: fs' => λ v, if f.1 =s key then P f.2 v.1 else at_field fs' key P v.2
  end.

(** A relation between the fields of two values, by tag. *)
Fixpoint fields_rel (R : string → ∀ t, denote t → denote t → Prop) (fs : list (string * GoType)) :
    denote (TStruct "" fs) → denote (TStruct "" fs) → Prop :=
  match fs return denote (TStruct "" fs) → denote (TStruct "" fs) → Prop with
  | [] => λ _ _, True
  | f :: fs' => λ v w, R f.1 f.2 v.1 w.1 ∧ fields_rel R fs' v.2 w.2
  end.

Lemma fields_rel_impl (R R' : string → ∀ t, denote t → denote t → Prop) fs v w :
  (∀ key t x y, key ∈ tags fs → R key t x y → R' key t x y) → fields_rel R fs v w → fields_rel R' fs v w.
Proof.
  induction fs as [|f fs IH]; [done|]. intros Hi [H1 H2]. split.
  - apply Hi; [left|done].
  - apply IH; [|done]. intros key t x y Hk. apply Hi. by right.
Qed.

(** [update_field] changes the field with the tag and no other. *)
Lemma update_field_rel {E} (R R' : string → ∀ t, denote t → denote t → Prop) fs key v w
    (k : ∀ t, denote t → res E (denote t)) :
  NoDup (tags fs) →
  at_field fs key (λ t x, ∀ y, R key t x y → ∃ y', k t y = Ok y' ∧ R' key t x y') v →
  (∀ key' t x y, key' ≠ key → R key' t x y → R' key' t x y) →
  fields_rel R fs v w →
  ∃ w', update_field fs key k w = Some (Ok w') ∧ fields_rel R' fs v w'.
Proof.
  induction fs as [|f fs IH]; intros Hn Ha Hi Hr; [done|]. cbn in Hn. apply NoDup_cons in Hn as [Hf Hn].
  destruct Hr as [H1 H2]. cbn in Ha. cbn [update_field]. destruct (str_eq f.1 key) eqn:Ek; bool_hyps.
  - subst key. destruct (Ha _ H1) as (y' & Hk & Hy). rewrite Hk. exists (y', w.2). split; [done|].
    split; [done|]. eapply fields_rel_impl; [|done]. intros key' t x y Hin. apply Hi. intros ->. done.
  - destruct (IH v.2 w.2 Hn Ha Hi H2) as (w' & -> & Hw). exists (w.1, w'). split; [done|].
    split; [by apply Hi|done].
Qed.

(** ** Values with nil pointers only *)

(** The pointers reachable through structs are nil, as in a zero value. *)
Fixpoint nils (t : GoType) : denote t → Prop :=
  match t return denote t → Prop with
  | TPointer _ => λ v, v = None
  | TStruct _ fs =>
      (fix go (fs : list (string * GoType)) : denote (TStruct "" fs) → Prop :=
         match fs return denote (TStruct "" fs) → Prop with
         | [] => λ _, True
         | f :: fs' => λ v, nils f.2 v.1 ∧ go fs' v.2
         end) fs
  | _ => λ _, True
  end.

Lemma nils_fields name fs v w :
  nils (TStruct name fs) w ↔ fields_rel (λ _ t _ y, nils t y) fs v w.
Proof.
  cbn [nils]. revert v w. induction fs as [|f fs IH]; intros v w; [done|]. cbn [fields_rel]. by rewrite (IH v.2 w.2).
Qed.

Lemma zero_nils t : nils t (zero t).
Proof.
  induction t as [s| |t _|t _|t _|name fs IH] using type_induction; [by destruct s|done..|].
  cbn [nils zero]. induction IH as [|f fs Hf _ IHfs]; [done|]. split; [done|exact IHfs].
Qed.

(** ** Nil maps *)

(** The value with every nil map made empty: the encoder writes both as an empty
    mapping. *)
Fixpoint make (t : GoType) : denote t → denote t :=
  match t return denote t → denote t with
  | TPointer t => fmap (make t)
  | TSlice t => fmap (make t)
  | TMap t => λ m, Some (make t <$> default ∅ m)
  | TStruct _ fs =>
      (fix go (fs : list (string * GoType)) : denote (TStruct "" fs) → denote (TStruct "" fs) :=
         match fs return denote (TStruct "" fs) → denote (TStruct "" fs) with
         | [] => id
         | f :: fs' => λ v, (make f.2 v.1, go fs' v.2)
         end) fs
  | _ => id
  end.

(** ** The documented encoding *)

(** Values whose strings are UTF-8. The library writes any other string as
    !!binary. *)
Fixpoint textual (t : GoType) : denote t → bool :=
  match t return denote t → bool with
  | TString => λ s, utf8_Valid (of_string s)
  | TPointer t => λ v, match v with Some x => textual t x | None => true end
  | TSlice t => forallb (textual t)
  | TMap t => λ v,
      forallb (λ e : string * denote t, utf8_Valid (of_string e.1) && textual t e.2)
        (map_to_list (default ∅ (v : option (gmap string (denote t)))))
  | TStruct _ fs =>
      (fix go (fs : list (string * GoType)) : denote (TStruct "" fs) → bool :=
         match fs return denote (TStruct "" fs) → bool with
         | [] => λ _, true
         | f :: fs' => λ v, textual f.2 v.1 && go fs' v.2
         end) fs
  | _ => λ _, true
  end.

(** Types whose values encode without a null inside a slice, a map or a second
    pointer. *)
Definition is_pointer (t : GoType) : bool := match t with TPointer _ => true | _ => false end.
Fixpoint solid (t : GoType) : bool :=
  match t with
  | TPointer t | TSlice t | TMap t => negb (is_pointer t) && solid t
  | TStruct _ fs => forallb (λ f, solid f.2) fs
  | _ => true
  end.

Definition key_node (key : string) : Node := MkNode ScalarNode "!!str" key [].

(** The children that encode the fields of a struct, in order. *)
Fixpoint fields_encode (enc : ∀ t, denote t → Node → Prop) (fs : list (string * GoType)) :
    denote (TStruct "" fs) → list Node → Prop :=
  match fs return denote (TStruct "" fs) → list Node → Prop with
  | [] => λ _ content, content = []
  | f :: fs' => λ v content, ∃ n rest, content = key_node f.1 :: n :: rest ∧ enc f.2 v.1 n ∧
                                       fields_encode enc fs' v.2 rest
  end.

Section encodes.
Context `{Yaml}.

Fixpoint encodes (t : GoType) : denote t → Node → Prop :=
  match t return denote t → Node → Prop with
  | TString => λ v n, ∃ value, n = MkNode ScalarNode "!!str" value [] ∧ scalar_Decode SString "!!str" value = Some v
  | TBool => λ v n, ∃ value, n = MkNode ScalarNode "!!bool" value [] ∧ scalar_Decode SBool "!!bool" value = Some v
  | TInt => λ v n, ∃ value, n = MkNode ScalarNode "!!int" value [] ∧ scalar_Decode SInt "!!int" value = Some v
  | TUint64 => λ v n, ∃ value, n = MkNode ScalarNode "!!int" value [] ∧ scalar_Decode SUint64 "!!int" value = Some v
  | TFloat64 => λ v n, ∃ tag value, n = MkNode ScalarNode tag value [] ∧ (tag = "!!float" ∨ tag = "!!int") ∧
      scalar_Decode SFloat64 tag value = Some v
  | TDuration => λ v n, ∃ value, n = MkNode ScalarNode "!!str" value [] ∧ ParseDuration value = Some v
  | TPointer t => λ v n,
      match v with
      | None => n_Tag n = "!!null"
      | Some x => encodes t x n ∧ n_Tag n ≠ "!!null"
      end
  | TSlice t => λ v n, ∃ ns, n = MkNode SequenceNode "!!seq" "" ns ∧
      Forall2 (λ x n, encodes t x n ∧ n_Tag n ≠ "!!null") v ns
  | TMap t => λ v n, ∃ m entries ns, v = Some m ∧ entries ≡ₚ map_to_list m ∧
      Forall2 (λ e n, encodes t e.2 n ∧ n_Tag n ≠ "!!null") entries ns ∧
      n = MkNode MappingNode "!!map" "" (mjoin (zip_with (λ e n, [key_node e.1; n]) entries ns))
  | TStruct _ fs => λ v n, ∃ content, n = MkNode MappingNode "!!map" "" content ∧
      fields_encode encodes fs v content
  end.

(** Types decodeNode handles: distinct tags, and an enabled field in a Rule. *)
Fixpoint type_ok (t : GoType) : bool :=
  match t with
  | TPointer t | TSlice t | TMap t => type_ok t
  | TStruct name fs =>
      bool_decide (NoDup (tags fs)) && (negb (name =s "Rule") || bool_decide ("enabled" ∈ tags fs)) &&
      forallb (λ f, type_ok f.2) fs
  | _ => true
  end.

(** ** Round trip *)

Definition roundtrips (t : GoType) : Prop :=
  ∀ v n, encodes t v n → n_Tag n ≠ "!!null" →
  ∃ n', prune n = Some n' ∧ n_Tag n' = n_Tag n ∧
    ∀ v0 path, nils t v0 → decodeNode n' t v0 path = Ok v.

Lemma encodes_null t v n : encodes t v n → n_Tag n = "!!null" → ∀ y, nils t y → y = v.
Proof.
  destruct t; cbn [encodes].
  1-4,6: by intros (value & -> & _).
  - by intros (tag & value & -> & [-> | ->] & _).
  - destruct v as [x|]; [by intros [_ ?]|]. intros _ _ y. done.
  - by intros (ns & -> & _).
  - by intros (m & entries & ns & _ & _ & _ & ->).
  - by intros (content & -> & _).
Qed.

Lemma fields_rel_at (R R' : string → ∀ t, denote t → denote t → Prop) fs key v w :
  NoDup (tags fs) → at_field fs key (λ t x, ∀ y, R key t x y → R' key t x y) v →
  (∀ key' t x y, key' ≠ key → R key' t x y → R' key' t x y) →
  fields_rel R fs v w → fields_rel R' fs v w.
Proof.
  induction fs as [|f fs IH]; intros Hn Ha Hi Hr; [done|]. cbn in Hn. apply NoDup_cons in Hn as [Hf Hn].
  destruct Hr as [H1 H2]. cbn in Ha. destruct (str_eq f.1 key) eqn:Ek; bool_hyps.
  - subst key. split; [by apply Ha|]. eapply fields_rel_impl; [|done]. intros key' t x y Hin. apply Hi. by intros ->.
  - split; [by apply Hi|by apply IH].
Qed.

Lemma fields_rel_eq fs v w : fields_rel (λ _ _ x y, y = x) fs v w → w = v.
Proof.
  induction fs as [|f fs IH]; [by destruct v, w|]. intros [H1 H2]. destruct v, w. cbn in *. f_equal; auto.
Qed.

(** Decoding the children of a pruned struct: the fields of [rest] are still to
    come and hold nil pointers, the others have their value. *)
Lemma decode_fields_loop fs v path rest vr content :
  NoDup (tags fs) → NoDup (tags rest) → Forall (λ f, roundtrips f.2) rest →
  fields_encode encodes rest vr content →
  (∀ key P, key ∈ tags rest → at_field rest key P vr → at_field fs key P v) →
  ∃ content', prune_entries prune content = Some content' ∧
    ∀ seen cur, (∀ key, key ∈ tags rest → key ∉ seen) →
      fields_rel (λ key t x y, if decide (key ∈ tags rest) then nils t y else y = x) fs v cur →
      decode_fields decodeNode fs path content' seen cur = Ok v.
Proof.
  intros Hnd. revert content. induction rest as [|f rest IH]; intros content Hnr Hrt He Hat.
  { cbn in He. subst content. exists []. split; [done|]. intros seen cur _ Hr. cbn. f_equal. apply fields_rel_eq.
    eapply fields_rel_impl; [|done]. intros key t x y _. cbv beta. rewrite decide_False by apply not_elem_of_nil. done. }
  cbn [fields_encode] in He. destruct He as (n & more & -> & Hn & He).
  cbn in Hnr. apply NoDup_cons in Hnr as [Hf Hnr]. apply Forall_cons in Hrt as [Hrf Hrt].
  destruct (IH vr.2 more Hnr Hrt He) as (content' & Hp & Hd).
  { intros key P Hk Ha. apply Hat; [by right|]. cbn. rewrite (proj2 (str_eq_false f.1 key)); [done|]. intros E; rewrite <- E in Hk; done. }
  assert (∀ P : ∀ t, denote t → Prop, P f.2 vr.1 → at_field fs f.1 P v) as Hfield.
  { intros P HP. apply Hat; [left|]. cbn. by rewrite str_eq_refl. }
  assert (∀ key' t (x y : denote t), key' ≠ f.1 → (if decide (key' ∈ tags (f :: rest)) then nils t y else y = x) →
          if decide (key' ∈ tags rest) then nils t y else y = x) as Hother.
  { intros key' t x y Hne. cbn [tags fmap list_fmap]. destruct (decide (key' ∈ _)) as [Hin|Hin], (decide (key' ∈ tags rest)) as [Hin'|Hin']; try done.
    - by apply elem_of_cons in Hin as [?|?].
    - exfalso. apply Hin. by right. }
  cbn [prune_entries]. destruct (str_eq (n_Tag n) "!!null") eqn:Et; bool_hyps.
  - exists content'. split; [done|]. intros seen cur Hseen Hr. apply Hd.
    { intros key Hk. apply Hseen. by right. }
    eapply (fields_rel_at _ _ fs f.1); [done| |exact Hother|exact Hr].
    apply Hfield. intros y. cbv beta. rewrite decide_True by left. rewrite decide_False by done.
    by eapply encodes_null.
  - destruct (Hrf _ _ Hn Et) as (n' & Hpn & Htag & Hdec). rewrite Hpn, Hp. eexists. split; [done|].
    intros seen cur Hseen Hr. cbn [decode_fields key_node n_Tag n_Value]. rewrite str_eq_refl. cbn [negb guard_err mbind res_bind].
    rewrite bool_decide_false by (apply Hseen; left). cbn [guard_err mbind res_bind].
    destruct (update_field_rel (λ key t x y, if decide (key ∈ tags (f :: rest)) then nils t y else y = x)
                (λ key t x y, if decide (key ∈ tags rest) then nils t y else y = x) fs f.1 v cur
                (λ t x, decodeNode n' t x (child_path path f.1)) Hnd) as (cur' & -> & Hcur'); try done.
    { apply Hfield. intros y. cbv beta. rewrite decide_True by left. intros Hy. eexists. split; [by apply Hdec|].
      by rewrite decide_False. }
    cbn [mbind res_bind]. apply Hd; [|done].
    intros key Hk [->%elem_of_singleton|Hs]%elem_of_union; [done|]. eapply Hseen; [right; exact Hk|done].
Qed.

Lemma decode_not_refused n t v path v' :
  decodeNode n t v path = Ok v' → refused (n_Kind n) (n_Tag n) = false.
Proof. destruct n as [kind tag value content], t; cbn [decodeNode]; intros Hd; by open_ok Hd. Qed.

Lemma decode_pointer n t v path :
  refused (n_Kind n) (n_Tag n) = false →
  decodeNode n (TPointer t) v path = x ← decodeNode n t (zero t) path; Ok (Some x).
Proof. destruct n as [kind tag value content]. cbn [n_Kind n_Tag]. intros Hr. cbn [decodeNode]. by rewrite Hr. Qed.

Lemma prune_node kind tag value content content' :
  (if bool_decide (kind = MappingNode) then prune_entries prune content else prune_items prune content) = Some content' →
  prune (MkNode kind tag value content) = Some (MkNode kind tag value content').
Proof. intros Hp. cbn [prune]. by rewrite Hp. Qed.

Lemma items_roundtrip t xs ns path :
  roundtrips t → Forall2 (λ x n, encodes t x n ∧ n_Tag n ≠ "!!null") xs ns →
  ∃ ns', prune_items prune ns = Some ns' ∧ ∀ i, decode_items decodeNode t path i ns' = Ok xs.
Proof.
  intros Ht. induction 1 as [|x n xs ns [He Htag] _ (ns' & Hp & Hd)]; [by exists []|].
  destruct (Ht _ _ He Htag) as (n' & Hpn & _ & Hdec). exists (n' :: ns'). cbn. rewrite Hpn, Hp. split; [done|].
  intros i. rewrite Hdec by apply zero_nils. cbn. by rewrite Hd.
Qed.

Lemma entries_roundtrip t entries ns path :
  roundtrips t → NoDup (entries.*1) →
  Forall2 (λ e n, encodes t e.2 n ∧ n_Tag n ≠ "!!null") entries ns →
  ∃ ns', prune_entries prune (mjoin (zip_with (λ e n, [key_node e.1; n]) entries ns)) = Some ns' ∧
    ∀ seen m, (∀ e, e ∈ entries → e.1 ∉ seen ∧ m !! e.1 = None) →
      decode_map decodeNode t path ns' seen m = Ok (list_to_map entries ∪ m).
Proof.
  intros Ht Hnd Hf. induction Hf as [|[key x] n entries ns [He Htag] _ IH].
  { exists []. split; [done|]. intros seen m _. cbn. by rewrite map_empty_union. }
  cbn in Hnd. apply NoDup_cons in Hnd as [Hkey Hnd]. destruct (IH Hnd) as (ns' & Hp & Hd).
  destruct (Ht _ _ He Htag) as (n' & Hpn & _ & Hdec). exists (key_node key :: n' :: ns'). split.
  { change (mjoin _) with (key_node key :: n :: mjoin (zip_with (λ e n, [key_node e.1; n]) entries ns)). cbn [prune_entries]. by rewrite (proj2 (str_eq_false _ _) Htag), Hpn, Hp. }
  intros seen m Hfresh. cbn [decode_map key_node n_Tag n_Value]. rewrite str_eq_refl. cbn [negb guard_err mbind res_bind].
  destruct (Hfresh (key, x)) as [Hs Hm]; [left|]. rewrite bool_decide_false by done. cbn [guard_err mbind res_bind].
  rewrite Hdec by apply zero_nils. cbn [mbind res_bind]. rewrite Hd; [f_equal|].
  - cbn. rewrite <- insert_union_r, insert_union_l; [done|]. apply not_elem_of_list_to_map_1. done.
  - intros e Hin. assert (e.1 ≠ key) as Hne. { intros <-. apply Hkey. by apply list_elem_of_fmap_2. }
    destruct (Hfresh e) as [Hs' Hm']; [by right|]. split; [set_solver|]. by rewrite lookup_insert_ne.
Qed.

Lemma type_ok_struct name fs :
  type_ok (TStruct name fs) = true →
  NoDup (tags fs) ∧ (name = "Rule" → "enabled" ∈ tags fs) ∧ Forall (λ f, type_ok f.2 = true) fs.
Proof.
  cbn. intros Hok. bool_hyps. split_and!; [done| |].
  2:{ apply Forall_forall. intros f Hf. apply (proj1 (forallb_forall (λ f, type_ok f.2) fs)); [done|]. by apply list_elem_of_In. }
  intros ->. rewrite str_eq_refl in *. cbn in *. by bool_hyps.
Qed.

Lemma set_true_field fs v :
  "enabled" ∈ tags fs → at_field fs "enabled" (λ t x, ∀ y, nils t y → ∃ y', set_true t y = Ok y' ∧ nils t y') v.
Proof.
  induction fs as [|[tag t] fs IH]; intros Hin; [by apply not_elem_of_nil in Hin|]. cbn [at_field fst snd].
  destruct (str_eq tag "enabled") eqn:Ef; bool_hyps.
  - intros y Hy. destruct t; eexists; (split; [done|]); done.
  - apply IH. cbn in Hin. by apply elem_of_cons in Hin as [?|?].
Qed.

Lemma enable_nils name fs v0 :
  type_ok (TStruct name fs) = true → nils (TStruct name fs) v0 →
  ∃ v1, enable_rule name fs v0 = Ok v1 ∧ nils (TStruct name fs) v1.
Proof.
  intros (Hnd & Hen & _)%type_ok_struct Hn. unfold enable_rule.
  destruct (str_eq name "Rule") eqn:Er; [|by exists v0]. bool_hyps.
  destruct (update_field_rel (λ _ t _ y, nils t y) (λ _ t _ y, nils t y) fs "enabled" v0 v0 set_true Hnd)
    as (w & -> & Hw); [by apply set_true_field, Hen|done|by apply (nils_fields name)|].
  exists w. split; [done|]. by apply (nils_fields name fs v0).
Qed.

Lemma decode_scalar_type s kind tag value content v path :
  decodeNode (MkNode kind tag value content) (scalar_type s) v path =
  (fail_if refused kind tag with fail path "aliases and null values are not supported" ;;
   decode_scalar s kind tag value path).
Proof. by destruct s. Qed.

Lemma scalar_roundtrip s value tag v :
  (tag = scalar_tag s ∨ s = SFloat64 ∧ tag = "!!int") → scalar_Decode s tag value = Some v →
  ∀ v0 path, decodeNode (MkNode ScalarNode tag value []) (scalar_type s) v0 path = Ok v.
Proof.
  intros Htag Hd v0 path. destruct s, Htag as [->|[E ->]]; try done;
    cbn; unfold decode_scalar; cbn; cbn in Hd; by rewrite Hd.
Qed.

Lemma roundtrip_all t : type_ok t = true → roundtrips t.
Proof.
  induction t as [s| |t IH|t IH|t IH|name fs IH] using type_induction; intros Hok v n He Htag.
  - assert (∃ tag value, n = MkNode ScalarNode tag value [] ∧ (tag = scalar_tag s ∨ s = SFloat64 ∧ tag = "!!int") ∧
              scalar_Decode s tag value = Some v) as (tag & value & -> & Ht & Hd).
    { destruct s; cbn in He; [naive_solver..|]. destruct He as (tag & value & -> & [-> | ->] & Hd); naive_solver. }
    eexists. split; [done|]. split; [done|]. intros v0 path _. by apply scalar_roundtrip.
  - destruct He as (value & -> & Hd). eexists. split; [done|]. split; [done|]. intros v0 path _. cbn. by rewrite Hd.
  - cbn [encodes] in He. destruct v as [x|]; [|done]. destruct He as [He _].
    destruct (IH Hok x n He Htag) as (n' & Hp & Ht & Hd). exists n'. split; [done|]. split; [done|]. intros v0 path _.
    specialize (Hd (zero t) path (zero_nils t)). rewrite decode_pointer by by eapply decode_not_refused. by rewrite Hd.
  - destruct He as (ns & -> & He). 
    destruct (items_roundtrip t v ns "" (IH Hok) He) as (ns' & Hp & _).
    eexists. split; [by apply prune_node|]. split; [done|]. intros v0 path _.
    destruct (items_roundtrip t v ns path (IH Hok) He) as (ns'' & Hp' & Hd). simplify_eq. cbn. apply Hd.
  - destruct He as (m & entries & ns & -> & Hperm & He & ->).
    assert (NoDup entries.*1) as Hnd. { rewrite Hperm. apply (NoDup_fst_map_to_list (M := gmap string)). }
    destruct (entries_roundtrip t entries ns "" (IH Hok) Hnd He) as (ns' & Hp & _).
    eexists. split; [by apply prune_node|]. split; [done|]. intros v0 path _.
    destruct (entries_roundtrip t entries ns path (IH Hok) Hnd He) as (ns'' & Hp' & Hd). simplify_eq.
    cbn. rewrite Hd by (intros e _; split; [apply not_elem_of_empty|apply lookup_empty]).
    rewrite map_union_empty, (list_to_map_proper entries (map_to_list m)) by done.
    change (@Ok failure (option (gmap string (denote t))) (Some (list_to_map (map_to_list m))) = Ok (Some m)). do 2 f_equal.
    apply (list_to_map_to_list (M := gmap string)).
  - destruct He as (content & -> & He). destruct (type_ok_struct _ _ Hok) as (Hnd & _ & Hfs).
    assert (Forall (λ f, roundtrips f.2) fs) as Hrt.
    { apply Forall_forall. intros f Hf. apply (proj1 (Forall_forall _ _) IH f Hf). by apply (proj1 (Forall_forall _ _) Hfs). }
    assert (∀ path, ∃ content', prune_entries prune content = Some content' ∧ ∀ cur, nils (TStruct name fs) cur →
              decode_fields decodeNode fs path content' ∅ cur = Ok v) as Hloop.
    { intros path. destruct (decode_fields_loop fs v path fs v content) as (content' & Hp & Hd); try done.
      exists content'. split; [done|]. intros cur Hc. apply Hd; [intros; apply not_elem_of_empty|].
      eapply fields_rel_impl; [|by apply (nils_fields name)]. intros key t x y Hin Hy. cbv beta in *. by rewrite decide_True. }
    destruct (Hloop "") as (content' & Hp & _). eexists. split; [by apply prune_node|]. split; [done|]. intros v0 path Hv0.
    destruct (Hloop path) as (c'' & Hp' & Hd). simplify_eq.
    destruct (enable_nils name fs v0 Hok Hv0) as (v1 & Hen & Hv1). cbn. rewrite Hen. cbn. by apply Hd.
Qed.

(** ** Strictness *)

(** The children of a mapping node as the pairs they are read as. *)
Fixpoint pairs (content : list Node) : list (Node * Node) :=
  match content with key :: value :: rest => (key, value) :: pairs rest | _ => [] end.

Lemma pairs_ind (P : list Node → Prop) :
  P [] → (∀ n, P [n]) → (∀ key value rest, P rest → P (key :: value :: rest)) → ∀ l, P l.
Proof.
  intros H0 H1 H2. fix IH 1. intros [|a [|b l]]; [done|done|]. apply H2, IH.
Qed.

(** The trees yaml.v3 builds: the children of a mapping come in pairs, and only
    scalars and aliases have a value. *)
Fixpoint node_ok (n : Node) : bool :=
  let 'MkNode kind _ value content := n in
  match kind with
  | MappingNode => (value =s "") && Nat.even (length content)
  | SequenceNode | DocumentNode => value =s ""
  | ScalarNode | AliasNode => true
  end && forallb node_ok content.

(** A strict tree: no alias, no null, and in every mapping distinct string keys. *)
Inductive strict : Node → Prop :=
| strict_scalar tag value content : tag ≠ "!!null" → strict (MkNode ScalarNode tag value content)
| strict_seq tag value content :
    tag ≠ "!!null" → Forall strict content → strict (MkNode SequenceNode tag value content)
| strict_map tag value content :
    tag ≠ "!!null" → NoDup ((λ p, n_Value p.1) <$> pairs content) →
    Forall (λ p, n_Tag p.1 = "!!str" ∧ strict p.2) (pairs content) →
    strict (MkNode MappingNode tag value content).

Definition decodes (n : Node) : Prop := ∃ t v path v', decodeNode n t v path = Ok v'.

Lemma update_field_ok {E} fs key (k : ∀ t, denote t → res E (denote t)) v w :
  update_field fs key k v = Some (Ok w) → ∃ t x y, k t x = Ok y.
Proof.
  revert v w. induction fs as [|f fs IH]; intros v w; [done|]. cbn [update_field].
  destruct (str_eq f.1 key).
  - intros Hu. simplify_eq. destruct (k f.2 v.1) eqn:Ek; [eauto|done].
  - destruct (update_field fs key k v.2) as [[r|]|] eqn:Eu; cbn; intros Hu; simplify_eq. eauto.
Qed.

(** What the loops over the pairs of a mapping establish. *)
Definition read_pairs (seen : gset string) (content : list Node) : Prop :=
  NoDup ((λ p, n_Value p.1) <$> pairs content) ∧
  Forall (λ p, n_Value p.1 ∉ seen ∧ n_Tag p.1 = "!!str" ∧ decodes p.2) (pairs content).

Lemma read_pairs_nil seen : read_pairs seen [].
Proof. split; constructor. Qed.

Lemma read_pairs_cons seen key value rest :
  n_Value key ∉ seen → n_Tag key = "!!str" → decodes value →
  read_pairs ({[n_Value key]} ∪ seen) rest → read_pairs seen (key :: value :: rest).
Proof.
  intros Hk Ht Hd [Hn Hf]. split; cbn [pairs].
  - apply NoDup_cons. split; [|done]. intros (p & Hp & Hin)%list_elem_of_fmap. cbn in Hp.
    apply (proj1 (Forall_forall _ _) Hf) in Hin as [Hs _]. set_solver.
  - constructor; [done|]. eapply Forall_impl; [done|]. intros p (Hp & ? & ?). set_solver.
Qed.

Lemma decode_fields_strict fs path content seen v v' :
  decode_fields decodeNode fs path content seen v = Ok v' → read_pairs seen content.
Proof.
  revert seen v. induction content as [|n|key value rest IH] using pairs_ind; intros seen v Hd; [apply read_pairs_nil|done|].
  cbn [decode_fields] in Hd. open_ok Hd. bool_hyps.
  destruct (update_field fs _ _ v) as [[w|]|] eqn:Eu; try done. cbn [mbind res_bind] in Hd.
  apply update_field_ok in Eu as (t & x & y & Hy). apply read_pairs_cons; [done..| |by eapply IH].
  by exists t, x, (child_path path (n_Value key)), y.
Qed.

Lemma decode_map_strict t path content seen m m' :
  decode_map decodeNode t path content seen m = Ok m' → read_pairs seen content.
Proof.
  revert seen m. induction content as [|n|key value rest IH] using pairs_ind; intros seen m Hd; [apply read_pairs_nil|done|].
  cbn [decode_map] in Hd. open_ok Hd. bool_hyps. apply read_pairs_cons; [done..| |by eapply IH].
  by exists t, (zero t), (child_path path (n_Value key)), x.
Qed.

Lemma decode_items_strict t path i content xs :
  decode_items decodeNode t path i content = Ok xs → Forall decodes content.
Proof.
  revert i xs. induction content as [|n rest IH]; intros i xs Hd; [done|]. cbn [decode_items] in Hd. open_ok Hd.
  constructor; [|by eapply IH]. eexists t, (zero t), _, _. done.
Qed.

Lemma ParseDuration_empty : ParseDuration "" = None.
Proof. done. Qed.

Lemma decode_scalar_kind s kind tag value path x :
  decode_scalar s kind tag value path = Ok x → kind = ScalarNode.
Proof. unfold decode_scalar. intros Hd. open_ok Hd. by bool_hyps. Qed.

Lemma pairs_Forall (P : Node → Prop) content : Forall P content → Forall (λ p, P p.2) (pairs content).
Proof.
  induction content as [|n|key value rest IH] using pairs_ind; intros Hf; [done|constructor|].
  decompose_Forall_hyps. cbn. constructor; [done|by apply IH].
Qed.

Lemma strict_mapping tag value content :
  Forall (λ n, decodes n → strict n) content → tag ≠ "!!null" → read_pairs ∅ content →
  strict (MkNode MappingNode tag value content).
Proof.
  intros IH%pairs_Forall Ht [Hn Hf]. constructor; [done..|]. apply Forall_forall. intros p Hp.
  pose proof (proj1 (Forall_forall _ _) Hf p Hp) as (_ & Hs & Hd). split; [done|].
  by apply (proj1 (Forall_forall _ _) IH p Hp).
Qed.

(** Whatever decodeNode accepts, into any type, is strict. *)
Lemma decodes_strict n : node_ok n = true → decodes n → strict n.
Proof.
  induction n as [kind tag value content IH] using node_induction. intros Hok (t & v & path & v' & Hd).
  assert (Forall (λ n, decodes n → strict n) content) as Hch.
  { cbn in Hok. apply andb_true_iff in Hok as [_ Hok]. apply Forall_forall. intros n Hn.
    apply (proj1 (Forall_forall _ _) IH n Hn). by apply (proj1 (forallb_forall _ _) Hok), list_elem_of_In. }
  pose proof (decode_not_refused _ _ _ _ _ Hd) as Hr. cbn [n_Kind n_Tag] in Hr. unfold refused in Hr. bool_hyps.
  revert path v v' Hd. induction t as [s| |t IHt|t _|t _|name fs _] using type_induction; intros path v v' Hd.
  - assert (kind = ScalarNode) as ->.
    { rewrite decode_scalar_type in Hd. open_ok Hd. by eapply decode_scalar_kind. }
    by constructor.
  - cbn [decodeNode] in Hd. open_ok Hd. destruct kind; try done; [..|by constructor].
    all: cbn in Hok; bool_hyps; by subst value.
  - rewrite decode_pointer in Hd; [|by eapply decode_not_refused]. open_ok Hd. by eapply IHt.
  - cbn [decodeNode] in Hd. open_ok Hd. bool_hyps. subst kind. constructor; [done|].
    apply decode_items_strict in Hd. apply Forall_forall. intros n Hn.
    apply (proj1 (Forall_forall _ _) Hch n Hn). by apply (proj1 (Forall_forall _ _) Hd).
  - cbn [decodeNode] in Hd. open_ok Hd. bool_hyps. subst kind. eapply strict_mapping; [done..|]. by eapply decode_map_strict.
  - cbn [decodeNode] in Hd. open_ok Hd. bool_hyps. subst kind. eapply strict_mapping; [done..|]. by eapply decode_fields_strict.
Qed.

(** ** No panics *)

Lemma update_field_panic fs key (k : ∀ t, denote t → res failure (denote t)) v :
  Forall (λ f, ∀ x, k f.2 x ≠ Err Panic) fs → update_field fs key k v ≠ Some (Err Panic).
Proof.
  intros Hk. revert v. induction Hk as [|f fs Hf _ IH]; intros v; [done|]. cbn [update_field].
  destruct (str_eq f.1 key).
  - intros Hu. simplify_eq. specialize (Hf v.1). destruct (k f.2 v.1); [done|]. cbn in *. congruence.
  - specialize (IH v.2). destruct (update_field fs key k v.2) as [[r|[]]|]; cbn; congruence.
Qed.

Lemma bind_panic {A B} (r : res failure A) (f : A → res failure B) :
  r ≠ Err Panic → (∀ a, r = Ok a → f a ≠ Err Panic) → (r ≫= f) ≠ Err Panic.
Proof. destruct r; cbn; [auto|]. intros Hr _. congruence. Qed.

Lemma guard_panic {A} b e (r : res failure A) :
  e ≠ Panic → (b = false → r ≠ Err Panic) → (fail_if b with e ;; r) ≠ Err Panic.
Proof. destruct b; cbn; [congruence|auto]. Qed.

(** A child that never panics, into any type with distinct tags. *)
Definition calm (n : Node) : Prop :=
  ∀ t v path, type_ok t = true → decodeNode n t v path ≠ Err Panic.

Lemma decode_fields_calm fs path content seen v :
  Nat.even (length content) = true → Forall calm content → Forall (λ f, type_ok f.2 = true) fs →
  decode_fields decodeNode fs path content seen v ≠ Err Panic.
Proof.
  intros He Hc Hfs. revert seen v He Hc.
  induction content as [|n|key value rest IH] using pairs_ind; intros seen v He Hc; [done|done|].
  decompose_Forall_hyps. cbn [decode_fields]. apply guard_panic; [done|]. intros _. apply guard_panic; [done|]. intros _.
  destruct (update_field fs _ _ v) as [r|] eqn:Eu; [|done].
  apply bind_panic; [|intros; by apply IH]. intros ->. revert Eu. apply update_field_panic.
  eapply Forall_impl; [done|]. intros f Hf x. by apply H1.
Qed.

Lemma decode_map_calm t path content seen m :
  Nat.even (length content) = true → Forall calm content → type_ok t = true →
  decode_map decodeNode t path content seen m ≠ Err Panic.
Proof.
  intros He Hc Ht. revert seen m He Hc.
  induction content as [|n|key value rest IH] using pairs_ind; intros seen m He Hc; [done|done|].
  decompose_Forall_hyps. cbn [decode_map]. apply guard_panic; [done|]. intros _. apply guard_panic; [done|]. intros _.
  apply bind_panic; [by apply H1|]. intros x _. by apply IH.
Qed.

Lemma decode_items_calm t path i content :
  Forall calm content → type_ok t = true → decode_items decodeNode t path i content ≠ Err Panic.
Proof.
  intros Hc Ht. revert i. induction Hc as [|n rest Hn _ IH]; intros i; [done|]. cbn [decode_items].
  apply bind_panic; [by apply Hn|]. intros x _. by apply bind_panic.
Qed.

Lemma update_field_known {E} fs key (k : ∀ t, denote t → res E (denote t)) v :
  key ∈ tags fs → is_Some (update_field fs key k v).
Proof.
  intros Hin. induction fs as [|f fs IH]; [by apply not_elem_of_nil in Hin|]. cbn [update_field].
  destruct (str_eq f.1 key) eqn:Ef; bool_hyps; [done|]. apply fmap_is_Some, IH.
  cbn in Hin. apply elem_of_cons in Hin as [Hk|?]; [by rewrite Hk in Ef|done].
Qed.

Lemma enable_calm name fs v : type_ok (TStruct name fs) = true → enable_rule name fs v ≠ Err Panic.
Proof.
  intros (_ & Hen & _)%type_ok_struct. unfold enable_rule. destruct (str_eq name "Rule") eqn:Er; [|done]. bool_hyps.
  destruct (update_field_known fs "enabled" set_true v (Hen Er)) as [r Hr]. rewrite Hr. cbn. intros ->.
  revert Hr. apply update_field_panic. apply Forall_forall. intros [tag t] _ x. by destruct t.
Qed.

Lemma decode_calm n : node_ok n = true → calm n.
Proof.
  induction n as [kind tag value content IH] using node_induction. intros Hok.
  assert (Forall calm content) as Hch.
  { cbn in Hok. apply andb_true_iff in Hok as [_ Hok]. apply Forall_forall. intros n Hn.
    apply (proj1 (Forall_forall _ _) IH n Hn). by apply (proj1 (forallb_forall _ _) Hok), list_elem_of_In. }
  intros t. induction t as [s| |t IHt|t _|t _|name fs _] using type_induction; intros v path Ht.
  - rewrite decode_scalar_type. apply guard_panic; [done|]. intros _. unfold decode_scalar. apply guard_panic; [done|].
    intros _. by destruct (scalar_Decode _ _ _).
  - cbn [decodeNode]. apply guard_panic; [done|]. intros _. apply guard_panic; [done|]. intros _. by destruct (ParseDuration _).
  - destruct (refused kind tag) eqn:Er; [cbn; by rewrite Er|]. rewrite decode_pointer by done. apply bind_panic; [by apply IHt|done].
  - cbn [decodeNode]. apply guard_panic; [done|]. intros _. apply guard_panic; [done|]. intros _. by apply decode_items_calm.
  - cbn [decodeNode]. apply guard_panic; [done|]. intros _. apply guard_panic; [done|]. intros Hk. bool_hyps. subst kind.
    cbn in Hok. bool_hyps. apply bind_panic; [by apply decode_map_calm|done].
  - cbn [decodeNode]. apply guard_panic; [done|]. intros _. apply guard_panic; [done|]. intros Hk. bool_hyps. subst kind.
    apply bind_panic; [by apply enable_calm|]. intros w _. cbn in Hok. bool_hyps. apply decode_fields_calm; [done..|].
    by apply type_ok_struct in Ht as (_ & _ & ?).
Qed.
End encodes.
