(* ===== verification/Load.v ===== *)
(** * Loading configurations (internal/config/load.go, parse.go, encode.go)

    The YAML types of the configuration structs, Parse, Load with its includes,
    finish, and Encode. The file system is part of the environment: a path is
    resolved, stat'ed, globbed and read through it. *)

From Stdlib Require Import Ascii.
From S2P Require Import Prelude GoLib GoUtf8 GoRand GoTime Config Validate Decode.
Local Open Scope go_scope.

(** ** The structs with their yaml tags *)

Definition RuntimeT : GoType :=
  TStruct "Runtime" [("max_inflight_requests", TInt); ("request_timeout", TDuration)].
Definition ListenerTLST : GoType :=
  TStruct "ListenerTLS" [("cert_file", TString); ("key_file", TString); ("client_ca_file", TString)].
Definition UpstreamTLST : GoType :=
  TStruct "UpstreamTLS" [("ca_file", TString); ("cert_file", TString); ("key_file", TString)].
Definition MatcherT : GoType :=
  TStruct "Matcher" [("path_pattern", TString); ("method", TString); ("service", TString);
                     ("path", TString); ("headers", TMap TString)].
Definition SelectorT : GoType :=
  TStruct "Selector" [("probability", TPointer TFloat64); ("nth", TPointer TUint64);
                      ("every", TPointer TUint64)].
Definition FaultT : GoType :=
  TStruct "Fault" [("phase", TString); ("action", TString); ("duration", TPointer TDuration);
                   ("max_duration", TPointer TDuration); ("status", TPointer TInt);
                   ("body", TPointer TString); ("direction", TString); ("bytes", TPointer TInt);
                   ("bytes_per_second", TPointer TInt); ("after_bytes", TPointer TInt);
                   ("after_duration", TPointer TDuration); ("trigger_direction", TString)].
Definition RuleT : GoType :=
  TStruct "Rule" [("id", TString); ("enabled", TBool); ("match", MatcherT); ("select", SelectorT);
                  ("fault", FaultT)].
Definition ProxyT : GoType :=
  TStruct "Proxy" [("id", TString); ("protocol", TString); ("upstream_protocol", TString);
                   ("listen", TString); ("upstream", TString); ("tls", TPointer ListenerTLST);
                   ("upstream_tls", TPointer UpstreamTLST); ("rules", TSlice RuleT)].
Definition ConfigT : GoType :=
  TStruct "Config" [("api_version", TString); ("seed", TUint64); ("runtime", RuntimeT);
                    ("proxies", TSlice ProxyT)].
Definition rootConfigT : GoType :=
  TStruct "rootConfig" [("api_version", TString); ("seed", TUint64); ("runtime", RuntimeT);
                        ("proxies", TSlice ProxyT); ("include", TSlice TString)].
Definition fragmentT : GoType := TStruct "" [("proxies", TSlice ProxyT)].

(** Records and their reflected values. *)
Definition to_Runtime (v : denote RuntimeT) : Runtime :=
  let '(n, (t, _)) := v in {| rt_MaxInflightRequests := n; rt_RequestTimeout := t |}.
Definition of_Runtime (r : Runtime) : denote RuntimeT :=
  (rt_MaxInflightRequests r, (rt_RequestTimeout r, tt)).
Definition to_ListenerTLS (v : denote ListenerTLST) : ListenerTLS :=
  let '(c, (k, (ca, _))) := v in {| lt_CertFile := c; lt_KeyFile := k; lt_ClientCAFile := ca |}.
Definition of_ListenerTLS (t : ListenerTLS) : denote ListenerTLST :=
  (lt_CertFile t, (lt_KeyFile t, (lt_ClientCAFile t, tt))).
Definition to_UpstreamTLS (v : denote UpstreamTLST) : UpstreamTLS :=
  let '(ca, (c, (k, _))) := v in {| ut_CAFile := ca; ut_CertFile := c; ut_KeyFile := k |}.
Definition of_UpstreamTLS (t : UpstreamTLS) : denote UpstreamTLST :=
  (ut_CAFile t, (ut_CertFile t, (ut_KeyFile t, tt))).
Definition to_Matcher (v : denote MatcherT) : Matcher :=
  let '(pp, (m, (s, (p, (h, _))))) := v in
  {| m_PathPattern := pp; m_Method := m; m_Service := s; m_Path := p; m_Headers := h |}.
Definition of_Matcher (m : Matcher) : denote MatcherT :=
  (m_PathPattern m, (m_Method m, (m_Service m, (m_Path m, (m_Headers m, tt))))).
Definition to_Selector (v : denote SelectorT) : Selector :=
  let '(p, (n, (e, _))) := v in {| s_Probability := p; s_Nth := n; s_Every := e |}.
Definition of_Selector (s : Selector) : denote SelectorT :=
  (s_Probability s, (s_Nth s, (s_Every s, tt))).
Definition to_Fault (v : denote FaultT) : Fault :=
  let '(ph, (a, (d, (md, (st, (b, (dir, (n, (bps, (ab, (ad, (td, _)))))))))))) := v in
  {| f_Phase := ph; f_Action := a; f_Duration := d; f_MaxDuration := md; f_Status := st; f_Body := b;
     f_Direction := dir; f_Bytes := n; f_BytesPerSecond := bps; f_AfterBytes := ab;
     f_AfterDuration := ad; f_TriggerDirection := td |}.
Definition of_Fault (f : Fault) : denote FaultT :=
  (f_Phase f, (f_Action f, (f_Duration f, (f_MaxDuration f, (f_Status f, (f_Body f, (f_Direction f,
   (f_Bytes f, (f_BytesPerSecond f, (f_AfterBytes f, (f_AfterDuration f, (f_TriggerDirection f, tt)))))))))))).
Definition to_Rule (v : denote RuleT) : Rule :=
  let '(id, (en, (m, (s, (f, _))))) := v in
  {| r_ID := id; r_Enabled := en; r_Match := to_Matcher m; r_Select := to_Selector s; r_Fault := to_Fault f |}.
Definition of_Rule (r : Rule) : denote RuleT :=
  (r_ID r, (r_Enabled r, (of_Matcher (r_Match r), (of_Selector (r_Select r), (of_Fault (r_Fault r), tt))))).
Definition to_Proxy (v : denote ProxyT) : Proxy :=
  let '(id, (pr, (up, (l, (u, (t, (ut, (rs, _)))))))) := v in
  {| p_ID := id; p_Protocol := pr; p_UpstreamProtocol := up; p_Listen := l; p_Upstream := u;
     p_TLS := to_ListenerTLS <$> (t : option (denote ListenerTLST));
     p_UpstreamTLS := to_UpstreamTLS <$> (ut : option (denote UpstreamTLST));
     p_Rules := to_Rule <$> (rs : list (denote RuleT)) |}.
Definition of_Proxy (p : Proxy) : denote ProxyT :=
  (p_ID p, (p_Protocol p, (p_UpstreamProtocol p, (p_Listen p, (p_Upstream p, (of_ListenerTLS <$> p_TLS p,
   (of_UpstreamTLS <$> p_UpstreamTLS p, (of_Rule <$> p_Rules p, tt)))))))).
Definition to_Config (v : denote ConfigT) : Config :=
  let '(a, (s, (r, (ps, _)))) := v in
  {| c_APIVersion := a; c_Seed := s; c_Runtime := to_Runtime r;
     c_Proxies := to_Proxy <$> (ps : list (denote ProxyT)) |}.
Definition of_Config (c : Config) : denote ConfigT :=
  (c_APIVersion c, (c_Seed c, (of_Runtime (c_Runtime c), (of_Proxy <$> c_Proxies c, tt)))).

(** ** Files *)

(** Beyond what validation uses: filepath.Abs, os.Stat (whether the file is
    regular, and its identity for os.SameFile) and filepath.Glob. *)
Record Files := {
  fs_env : Env;
  Abs : string → option string;
  Stat : string → option (bool * Z);
  Glob : string → option (list string)
}.

(** filepath.Dir on a Unix path. *)
Definition Dir (env : Env) (path : string) : string :=
  Clean env (match LastIndexByte path "/" with Some i => take_str (S i) path | None => "" end).

Definition proxySource : Type := string * string.

Definition proxySources (file : string) (count : nat) : list proxySource :=
  (λ i, (file, "proxies[" +:+ pretty i +:+ "]")) <$> seq 0 count.

Definition with_file (file : string) (e : FieldError) : FieldError :=
  {| e_File := file; e_Path := e_Path e; e_Message := e_Message e |}.

Definition sourceError (f : failure) (file : string) : failure :=
  match f with Invalid e => Invalid (with_file file e) | _ => f end.

(** A result whose error is attributed to a file. *)
Definition in_file {A} (file : string) (r : res failure A) : res failure A :=
  match r with Ok a => Ok a | Err f => Err (sourceError f file) end.

Section load.
Context `{Yaml} (fs : Files) (range : gmap string string → list (string * string)).
Context (marshal : Config → gmap string bytes → option bytes).
Let env := fs_env fs.

(** ** finish *)

(** The rule IDs of one proxy: [rules] maps an ID to the index it was declared at. *)
Fixpoint check_rules (src : proxySource) (j : nat) (l : list Rule) (rules : gmap string nat) :
    res failure unit :=
  match l with
  | [] => Ok tt
  | rule :: rest =>
      match rules !! r_ID rule with
      | Some previous =>
          Err (sourceError (Invalid (invalid (src.2 +:+ ".rules[" +:+ pretty j +:+ "].id")
                 ("duplicate rule ID; first declaration: " +:+ src.1 +:+ ": " +:+ src.2 +:+
                  ".rules[" +:+ pretty previous +:+ "].id"))) src.1)
      | None => check_rules src (S j) rest (<[r_ID rule := j]> rules)
      end
  end.

Definition resolve (src : proxySource) (path : string) : string :=
  if nonempty path && negb (IsAbs path) then Join env (Dir env src.1) path else path.

Definition resolve_proxy (src : proxySource) (p : Proxy) : Proxy :=
  {| p_ID := p_ID p; p_Protocol := p_Protocol p; p_UpstreamProtocol := p_UpstreamProtocol p;
     p_Listen := p_Listen p; p_Upstream := p_Upstream p;
     p_TLS := (λ t, {| lt_CertFile := resolve src (lt_CertFile t); lt_KeyFile := resolve src (lt_KeyFile t);
                       lt_ClientCAFile := resolve src (lt_ClientCAFile t) |}) <$> p_TLS p;
     p_UpstreamTLS := (λ t, {| ut_CAFile := resolve src (ut_CAFile t); ut_CertFile := resolve src (ut_CertFile t);
                               ut_KeyFile := resolve src (ut_KeyFile t) |}) <$> p_UpstreamTLS p;
     p_Rules := p_Rules p |}.

(** The loop over the proxies with their sources; a missing source is an index
    out of range. *)
Fixpoint check_proxies (proxies : list Proxy) (sources : list proxySource)
    (ids : gmap string proxySource) : res failure (list Proxy) :=
  match proxies, sources with
  | [], _ => Ok []
  | p :: proxies, src :: sources =>
      match ids !! p_ID p with
      | Some previous =>
          Err (sourceError (Invalid (invalid (src.2 +:+ ".id")
                 ("duplicate proxy ID; first declaration: " +:+ previous.1 +:+ ": " +:+ previous.2 +:+ ".id"))) src.1)
      | None =>
          _ ← check_rules src 0 (p_Rules p) ∅;
          rest ← check_proxies proxies sources (<[p_ID p := src]> ids);
          Ok (resolve_proxy src p :: rest)
      end
  | _ :: _, [] => Err Panic
  end.

(** Attribute a validation error to the file and path its proxy came from. *)
Fixpoint locate (i : nat) (sources : list proxySource) (root : string) (e : FieldError) : FieldError :=
  match sources with
  | [] => with_file root e
  | src :: rest =>
      let prefix := "proxies[" +:+ pretty i +:+ "]" in
      if HasPrefix (e_Path e) (prefix +:+ ".")
      then {| e_File := src.1; e_Path := src.2 +:+ TrimPrefix (e_Path e) prefix; e_Message := e_Message e |}
      else locate (S i) rest root e
  end.

Definition set_Proxies (ps : list Proxy) (c : Config) : Config :=
  {| c_APIVersion := c_APIVersion c; c_Seed := c_Seed c; c_Runtime := c_Runtime c; c_Proxies := ps |}.

Definition finish (c : Config) (sources : list proxySource) (root : string) : res failure Document :=
  proxies ← check_proxies (c_Proxies c) sources ∅;
  match validate env range (set_Proxies proxies c) (Dir env root) with
  | Err e => Err (Invalid (locate 0 sources root e))
  | Ok (c, digests) =>
      match newDocument marshal c digests with
      | None => Err (Other "json: marshal")
      | Some d => Ok d
      end
  end.

(** ** Parse *)

Definition blank_config : denote ConfigT := ("", (0, (of_Runtime DefaultRuntime, ([], tt)))).

Definition Parse (data : bytes) (filename : string) : res failure Document :=
  fail_if filename =s "" with Invalid (invalid "config" "filename is required for relative paths") ;;
  match Abs fs filename with
  | None => Err (Invalid (invalid "config" "cannot resolve filename"))
  | Some absolute =>
      c ← in_file absolute (to_Config <$> decodeDocument data ConfigT blank_config);
      finish c (proxySources absolute (length (c_Proxies c))) absolute
  end.

(** ** Load *)

(** The files seen so far, with their identities. *)
Definition seen_files : Type := list (string * Z).

Definition seen_as (id : Z) (seen : seen_files) : option string :=
  fst <$> find (λ p, p.2 =? id) seen.

(** One included file: its proxies and their sources. *)
Definition load_fragment (root field file : string) (seen : seen_files) :
    res failure (list Proxy * list proxySource * seen_files) :=
  match Stat fs file with
  | Some (true, id) =>
      match seen_as id seen with
      | Some previous =>
          Err (sourceError (Invalid (invalid field
                 ("file included more than once: " +:+ file +:+ "; first source: " +:+ previous))) root)
      | None =>
          match ReadFile env file with
          | None => Err (sourceError (Invalid (invalid "config" "cannot read file")) file)
          | Some data =>
              v ← in_file file (decodeDocument data fragmentT ([], tt));
              let proxies := to_Proxy <$> (v.1 : list (denote ProxyT)) in
              fail_if bool_decide (proxies = [])
                with sourceError (Invalid (invalid "proxies" "fragment must contain at least one proxy")) file ;;
              Ok (proxies, proxySources file (length proxies), seen ++ [(file, id)])
          end
      end
  | _ => Err (sourceError (Invalid (invalid field ("expected a readable regular file: " +:+ file))) root)
  end.

Fixpoint load_matches (root field : string) (files : list string) (seen : seen_files) :
    res failure (list Proxy * list proxySource * seen_files) :=
  match files with
  | [] => Ok ([], [], seen)
  | file :: rest =>
      '(ps, srcs, seen) ← load_fragment root field file seen;
      '(ps', srcs', seen) ← load_matches root field rest seen;
      Ok (ps ++ ps', srcs ++ srcs', seen)
  end.

Fixpoint load_includes (root : string) (i : nat) (patterns : list string) (seen : seen_files) :
    res failure (list Proxy * list proxySource) :=
  match patterns with
  | [] => Ok ([], [])
  | pattern :: rest =>
      let field := "include[" +:+ pretty i +:+ "]" in
      fail_if pattern =s "" with sourceError (Invalid (invalid field "empty include path")) root ;;
      let pattern := if negb (IsAbs pattern) then Join env (Dir env root) pattern else pattern in
      match Glob fs pattern with
      | None | Some [] =>
          Err (sourceError (Invalid (invalid field "invalid glob or no matching files")) root)
      | Some files =>
          '(ps, srcs, seen) ← load_matches root field files seen;
          '(ps', srcs') ← load_includes root (S i) rest seen;
          Ok (ps ++ ps', srcs ++ srcs')
      end
  end.

Definition Load (filename : string) : res failure Document :=
  fail_if filename =s "" with Invalid (invalid "config" "filename is required") ;;
  match Abs fs filename with
  | None => Err (Invalid (invalid "config" "cannot resolve filename"))
  | Some root =>
      match Stat fs root with
      | Some (true, id) =>
          match ReadFile env root with
          | None => Err (sourceError (Invalid (invalid "config" "cannot read file")) root)
          | Some data =>
              raw ← in_file root (decodeDocument data rootConfigT
                                    ("", (0, (of_Runtime DefaultRuntime, ([], ([], tt))))));
              let '(api, (seed, (rt, (ps, (includes, _))))) := raw in
              let own := to_Proxy <$> (ps : list (denote ProxyT)) in
              '(more, srcs) ← load_includes root 0 includes [(root, id)];
              finish {| c_APIVersion := api; c_Seed := seed; c_Runtime := to_Runtime rt; c_Proxies := own ++ more |}
                (proxySources root (length own) ++ srcs) root
          end
      | _ => Err (sourceError (Invalid (invalid "config" "expected a readable regular file")) root)
      end
  end.
End load.

(** ** Encode *)

Definition Encode `{Yaml} (c : Config) : res failure bytes := encode_value ConfigT (of_Config c).
