(* ===== verification/LoadSpec.v ===== *)
(** * Correctness of loading

    What Load and Parse return is a document the rest of the program may rely on;
    an encoded configuration parses back to itself; errors name the file and the
    field the author wrote; loading never panics. *)

From Stdlib Require Import Ascii.
From S2P Require Import Prelude GoLib GoUtf8 GoRand GoTime Config Validate ValidateSpec Engine EngineSpec Decode Load DecodeSpec.
Local Open Scope go_scope.

(** ** Types and records *)

Lemma config_types_ok :
  forallb type_ok [ConfigT; rootConfigT; fragmentT] = true.
Proof. vm_compute. reflexivity. Qed.

Lemma to_of_Rule r : to_Rule (of_Rule r) = r.
Proof. by destruct r as [? ? [] [] []]. Qed.

Lemma to_of_Proxy p : to_Proxy (of_Proxy p) = p.
Proof.
  destruct p as [? ? ? ? ? t ut rs]. cbn. f_equal.
  - by destruct t as [[]|].
  - by destruct ut as [[]|].
  - rewrite <- list_fmap_compose. rewrite <- (list_fmap_id rs) at 2. apply list_fmap_ext. intros i r _. apply to_of_Rule.
Qed.

Lemma to_of_Config c : to_Config (of_Config c) = c.
Proof.
  destruct c as [? ? [] ps]. cbn. f_equal. rewrite <- list_fmap_compose. rewrite <- (list_fmap_id ps) at 2.
  apply list_fmap_ext. intros i p _. apply to_of_Proxy.
Qed.

Section load.
Context `{Yaml} (fs : Files) (range : gmap string string → list (string * string)).
Context (marshal : Config → gmap string bytes → option bytes).

(** ** Accepted documents *)

Lemma check_rules_nodup src j l rules :
  is_ok (check_rules src j l rules) = true →
  NoDup (r_ID <$> l) ∧ Forall (λ r, rules !! r_ID r = None) l.
Proof.
  revert j rules. induction l as [|r l IH]; intros j rules; [by split; constructor|]. cbn [check_rules].
  destruct (rules !! r_ID r) eqn:Er; [done|]. intros [Hn Hf]%IH.
  rewrite fmap_cons. split.
  - constructor; [|done]. intros (r' & Hr & Hin)%list_elem_of_fmap.
    apply (proj1 (Forall_forall _ _) Hf) in Hin. rewrite <- Hr, lookup_insert_eq in Hin. done.
  - constructor; [done|]. eapply Forall_impl; [done|]. intros r' Hr'. by apply lookup_insert_None in Hr' as [? _].
Qed.

Lemma check_proxies_ok proxies sources ids ps :
  check_proxies fs proxies sources ids = Ok ps →
  NoDup (p_ID <$> ps) ∧ Forall (λ p, ids !! p_ID p = None ∧ NoDup (r_ID <$> p_Rules p)) ps.
Proof.
  revert sources ids ps. induction proxies as [|p proxies IH]; intros [|src sources] ids ps; cbn [check_proxies].
  1-3: intros [= <-]; split; constructor.
  destruct (ids !! p_ID p) eqn:Ep; [done|]. intros Hc. open_ok Hc. simplify_eq.
  destruct (IH _ _ _ Hb0) as [Hn Hf]. rewrite fmap_cons. split.
  - constructor; [|done]. intros (q & Hq & Hin)%list_elem_of_fmap.
    apply (proj1 (Forall_forall _ _) Hf) in Hin as [Hin _]. cbn in Hq. rewrite <- Hq, lookup_insert_eq in Hin. done.
  - constructor.
    + split; [done|]. cbn. eapply (check_rules_nodup src 0 _ ∅). by rewrite Hb.
    + eapply Forall_impl; [done|]. intros q [Hq ?]. split; [|done]. by apply lookup_insert_None in Hq as [? _].
Qed.

(** A document with distinct rule IDs within every proxy. *)
Definition loaded_ok (d : Document) : Prop :=
  document_ok d ∧ Forall (λ p, NoDup (r_ID <$> p_Rules p)) (c_Proxies (d_config d)).

(** The configuration of a finished document is one that validation returned. *)
Lemma finish_validated c sources root d :
  finish fs range marshal c sources root = Ok d →
  ∃ c' base D, validate (fs_env fs) range c' base = Ok (d_config d, D).
Proof.
  unfold finish. intros Hf. open_ok Hf. destruct (validate _ _ _ _) as [[c' digests]|] eqn:Ev; [|done].
  destruct (newDocument _ _ _) as [d'|] eqn:Ed; [|done]. simplify_eq.
  unfold newDocument in Ed. destruct (hash_config _ (canonical _) _); [|done]. cbn in Ed.
  destruct (hash_config _ (restart_view _) _); [|done]. injection Ed as <-. eauto.
Qed.

Lemma finish_sound c sources root d : finish fs range marshal c sources root = Ok d → loaded_ok d.
Proof.
  unfold finish. intros Hf. open_ok Hf. apply check_proxies_ok in Hb as [Hn Hr].
  destruct (validate _ _ _ _) as [[c' digests]|] eqn:Ev; [|done].
  destruct (newDocument _ _ _) as [d'|] eqn:Ed; [|done]. simplify_eq.
  unfold newDocument in Ed. destruct (hash_config _ (canonical _) _); [|done]. cbn in Ed.
  destruct (hash_config _ (restart_view _) _); [|done]. injection Ed as <-.
  destruct (validate_wf _ _ _ _ _ _ Ev) as (Hwf & _ & Hids). cbn in Hids. split.
  - split; [done|done|]. cbn. by rewrite Hids.
  - pose proof (validate_rule_ids _ _ _ _ _ _ Ev) as Hri. cbn in *.
    apply (Forall_fmap (λ p, r_ID <$> p_Rules p) (λ l : list string, NoDup l)). rewrite Hri.
    apply Forall_fmap. eapply Forall_impl; [done|]. by intros p [_ ?].
Qed.

Lemma Load_finish filename d :
  Load fs range marshal filename = Ok d → ∃ c sources root, finish fs range marshal c sources root = Ok d.
Proof.
  unfold Load. intros Hl. open_ok Hl. destruct (Abs fs filename) as [root|]; [|done].
  destruct (Stat fs root) as [[[] id]|]; try done. destruct (ReadFile _ root); [|done].
  open_ok Hl. destruct x as (api & seed & rt & ps & includes & []). open_ok Hl. destruct x as [more srcs]. eauto.
Qed.

Lemma Load_validated filename d :
  Load fs range marshal filename = Ok d → ∃ c base D, validate (fs_env fs) range c base = Ok (d_config d, D).
Proof. intros (c & sources & root & Hf)%Load_finish. by eapply finish_validated. Qed.

(** A document that Load or Parse put together for an absolute file name. *)
Definition finished (d : Document) : Prop :=
  ∃ name c sources root, Abs fs name = Some root ∧ finish fs range marshal c sources root = Ok d.

Lemma Load_finished filename d : Load fs range marshal filename = Ok d → finished d.
Proof.
  unfold Load. intros Hl. open_ok Hl. destruct (Abs fs filename) as [root|] eqn:Ea; [|done].
  destruct (Stat fs root) as [[[] id]|]; try done. destruct (ReadFile _ root); [|done].
  open_ok Hl. destruct x as (api & seed & rt & ps & includes & []). open_ok Hl. destruct x as [more srcs]. by eexists filename, _, _, root.
Qed.

Lemma Parse_finished data filename d : Parse fs range marshal data filename = Ok d → finished d.
Proof.
  unfold Parse. intros Hp. open_ok Hp. destruct (Abs fs filename) as [root|] eqn:Ea; [|done]. open_ok Hp. by eexists filename, _, _, root.
Qed.

(** C36. A document Load returns is valid: its configuration, put together from the root
    and every included file, is well formed, proxy IDs are unique in it and rule
    IDs within each proxy. *)
Theorem Load_sound filename d : Load fs range marshal filename = Ok d → loaded_ok d.
Proof. intros (c & sources & root & Hf)%Load_finish. by eapply finish_sound. Qed.

Lemma Parse_finish data filename d :
  Parse fs range marshal data filename = Ok d → ∃ c sources root, finish fs range marshal c sources root = Ok d.
Proof.
  unfold Parse. intros Hp. open_ok Hp. destruct (Abs fs filename) as [root|]; [|done]. open_ok Hp. eauto.
Qed.

Lemma Parse_validated data filename d :
  Parse fs range marshal data filename = Ok d → ∃ c base D, validate (fs_env fs) range c base = Ok (d_config d, D).
Proof. intros (c & sources & root & Hf)%Parse_finish. by eapply finish_validated. Qed.

(** The same of a document Parse returns. *)
Theorem Parse_sound data filename d : Parse fs range marshal data filename = Ok d → loaded_ok d.
Proof. intros (c & sources & root & Hf)%Parse_finish. by eapply finish_sound. Qed.

(** ** Round trip *)

(** What the YAML library documents of a value whose strings are UTF-8:
    Node.Encode follows the yaml tags, and Marshal writes the encoded node, its
    null entries taken out, as one document that decodes to the same node. *)
Record yaml_laws : Prop := {
  law_Encode : ∀ t v n, solid t = true → textual t v = true → node_Encode t v = Some n → encodes t (make t v) n;
  law_Marshal : ∀ t v n n' data, solid t = true → textual t v = true →
    node_Encode t v = Some n → prune n = Some n' → yaml_Marshal n' = Some data →
    yaml_first data = Some (MkNode DocumentNode "" "" [n']) ∧ yaml_more data = false
}.

Lemma encode_decode name fields (v v0 : denote (TStruct name fields)) data :
  yaml_laws → type_ok (TStruct name fields) = true → solid (TStruct name fields) = true → nils (TStruct name fields) v0 →
  textual (TStruct name fields) v = true →
  encode_value (TStruct name fields) v = Ok data → decodeDocument data (TStruct name fields) v0 = Ok (make (TStruct name fields) v).
Proof.
  intros Hy Hok Hso Hv0 Htx. unfold encode_value. destruct (node_Encode _ v) as [n|] eqn:Ev; [|done].
  pose proof (law_Encode Hy _ _ _ Hso Htx Ev) as En.
  assert (n_Tag n ≠ "!!null") as Ht. { cbn in En. by destruct En as (content & -> & _). }
  destruct (roundtrip_all _ Hok _ _ En Ht) as (n' & Hn & _ & Hd). rewrite Hn.
  destruct (yaml_Marshal n') as [data'|] eqn:Em; [|done]. intros [= <-].
  destruct (law_Marshal Hy _ _ _ _ _ Hso Htx Ev Hn Em) as [Hf Hm]. unfold decodeDocument. rewrite Hf, Hm. cbn [n_Content guard_err mbind res_bind].
  by apply Hd.
Qed.

(** A configuration whose matchers all have a map of headers. *)
Definition make_rule (r : Rule) : Rule := set_Match (set_Headers (Some (header_map (r_Match r))) (r_Match r)) r.
Definition make_proxy (p : Proxy) : Proxy := set_Rules (make_rule <$> p_Rules p) p.
Definition make_config (c : Config) : Config := set_Proxies (make_proxy <$> c_Proxies c) c.

Lemma make_of_Config c : make ConfigT (of_Config c) = of_Config (make_config c).
Proof.
  unfold of_Config. cbn. repeat f_equal. rewrite <- !list_fmap_compose. apply list_fmap_ext. intros _ p _. unfold compose. cbn.
  assert (∀ A (o : option A), id <$> o = o) as Ho by (by intros A []). unfold of_Proxy. cbn. repeat f_equal.
  - by destruct (p_TLS p).
  - by destruct (p_UpstreamTLS p).
  - rewrite <- !list_fmap_compose. apply list_fmap_ext. intros _ r _. unfold compose. cbn. unfold of_Rule, of_Matcher, of_Selector, of_Fault. cbn.
    by rewrite !Ho, map_fmap_id.
Qed.

(** A configuration whose strings are UTF-8. *)
Definition text_config (c : Config) : bool := textual ConfigT (of_Config c).

(** What Encode writes, Parse reads back: parsing the encoding of a configuration
    is validating that configuration itself, whichever optional fields it leaves
    out, except that a nil map of headers comes back empty. *)
Theorem Encode_Parse c data filename root :
  yaml_laws → text_config c = true → Encode c = Ok data → filename ≠ "" → Abs fs filename = Some root →
  Parse fs range marshal data filename =
  finish fs range marshal (make_config c) (proxySources root (length (c_Proxies c))) root.
Proof.
  intros Hy Ht He Hf Ha. unfold Parse. rewrite (proj2 (str_eq_false _ _) Hf), Ha. cbn [guard_err mbind res_bind].
  assert (decodeDocument data ConfigT blank_config = Ok (of_Config (make_config c))) as ->.
  { rewrite <- make_of_Config. apply encode_decode; [done..| |done|done]. by repeat split. }
  cbn [fmap res_fmap in_file mbind res_bind]. rewrite to_of_Config. unfold make_config at 2. cbn [set_Proxies c_Proxies]. by rewrite length_fmap.
Qed.

(** ** Panics *)

(** The nodes the library builds are well formed. *)
Definition yaml_nodes_ok : Prop := ∀ data n, yaml_first data = Some n → node_ok n = true.

Lemma document_calm data t v :
  yaml_nodes_ok → type_ok t = true → decodeDocument data t v ≠ Err Panic.
Proof.
  intros Hy Ht. unfold decodeDocument. destruct (yaml_first data) as [n|] eqn:En; [|done].
  apply guard_panic; [done|]. intros _. apply Hy in En. destruct n as [kind tag value content]. cbn in *.
  apply andb_true_iff in En as [_ En]. destruct content as [|n [|]]; [done| |done]. cbn in En. bool_hyps. by apply decode_calm.
Qed.

(** What decodeDocument accepts is one document whose tree is strict. *)
Theorem document_strict data t v v' :
  yaml_nodes_ok → decodeDocument data t v = Ok v' →
  ∃ node n, yaml_first data = Some node ∧ yaml_more data = false ∧ n_Content node = [n] ∧ strict n.
Proof.
  intros Hy. unfold decodeDocument. destruct (yaml_first data) as [node|] eqn:En; [|done]. intros Hd. open_ok Hd.
  pose proof (Hy _ _ En) as Hok. destruct node as [kind tag value content]. cbn [n_Content] in Hd.
  destruct content as [|n [|]]; try done. eexists _, n. split_and!; [done..|].
  cbn in Hok. apply andb_true_iff in Hok as [_ Hok]. cbn in Hok. bool_hyps.
  apply decodes_strict; [done|]. by exists t, v, "", v'.
Qed.

Lemma in_file_panic {A} file (r : res failure A) : r ≠ Err Panic → in_file file r ≠ Err Panic.
Proof. destruct r as [|[]]; cbn; congruence. Qed.

Lemma check_rules_panic src j l rules : check_rules src j l rules ≠ Err Panic.
Proof. revert j rules. induction l; intros j rules; cbn; [done|]. by destruct (rules !! _). Qed.

Lemma check_proxies_panic proxies sources ids :
  (length proxies ≤ length sources)%nat → check_proxies fs proxies sources ids ≠ Err Panic.
Proof.
  revert sources ids. induction proxies as [|p proxies IH]; intros [|src sources] ids Hl; cbn in *; try done; try lia.
  destruct (ids !! p_ID p); [done|]. apply bind_panic; [apply check_rules_panic|]. intros _ _.
  apply bind_panic; [apply IH; lia|done].
Qed.

Lemma finish_panic c sources root :
  (length (c_Proxies c) ≤ length sources)%nat → finish fs range marshal c sources root ≠ Err Panic.
Proof.
  intros Hl. unfold finish. apply bind_panic; [by apply check_proxies_panic|]. intros ps _.
  destruct (validate _ _ _ _) as [[]|]; [|done]. by destruct (newDocument _ _ _).
Qed.

Lemma proxySources_length file n : length (proxySources file n) = n.
Proof. unfold proxySources. by rewrite length_fmap, length_seq. Qed.

Lemma fragment_lengths root field file seen ps srcs seen' :
  load_fragment fs root field file seen = Ok (ps, srcs, seen') → length ps = length srcs.
Proof.
  unfold load_fragment. destruct (Stat fs file) as [[[] id]|]; try done.
  destruct (seen_as id seen); [done|]. destruct (ReadFile _ file); [|done]. intros Hl. open_ok Hl. simplify_eq.
  by rewrite proxySources_length.
Qed.

Lemma matches_lengths root field files seen ps srcs seen' :
  load_matches fs root field files seen = Ok (ps, srcs, seen') → length ps = length srcs.
Proof.
  revert seen ps srcs. induction files as [|file files IH]; intros seen ps srcs Hl; cbn in Hl; [by simplify_eq|].
  open_ok Hl. destruct x as [[ps1 srcs1] seen1]. open_ok Hl. destruct x as [[ps2 srcs2] seen2]. simplify_eq.
  rewrite !length_app. f_equal; [by eapply fragment_lengths|by eapply IH].
Qed.

Lemma includes_lengths root i patterns seen ps srcs :
  load_includes fs root i patterns seen = Ok (ps, srcs) → length ps = length srcs.
Proof.
  revert i seen ps srcs. induction patterns as [|pattern patterns IH]; intros i seen ps srcs Hl; cbn [load_includes] in Hl; [by simplify_eq|].
  open_ok Hl. destruct (Glob fs _) as [[|file files]|]; try done.
  open_ok Hl. destruct x as [[ps1 srcs1] seen1]. open_ok Hl. destruct x as [ps2 srcs2]. simplify_eq.
  rewrite !length_app. f_equal; [by eapply matches_lengths|by eapply IH].
Qed.

Lemma fragment_panic root field file seen :
  yaml_nodes_ok → load_fragment fs root field file seen ≠ Err Panic.
Proof.
  intros Hy. unfold load_fragment. destruct (Stat fs file) as [[[] id]|]; try done.
  destruct (seen_as id seen); [done|]. destruct (ReadFile _ file); [|done].
  apply bind_panic; [by apply in_file_panic, (document_calm _ fragmentT)|]. intros v _. by apply guard_panic.
Qed.

Lemma matches_panic root field files seen :
  yaml_nodes_ok → load_matches fs root field files seen ≠ Err Panic.
Proof.
  intros Hy. revert seen. induction files as [|file files IH]; intros seen; [done|]. cbn [load_matches].
  apply bind_panic; [by apply fragment_panic|]. intros [[ps srcs] seen'] _.
  apply bind_panic; [done|]. by intros [[ps' srcs'] seen''] _.
Qed.

Lemma includes_panic root i patterns seen :
  yaml_nodes_ok → load_includes fs root i patterns seen ≠ Err Panic.
Proof.
  intros Hy. revert i seen. induction patterns as [|pattern patterns IH]; intros i seen; [done|]. cbn [load_includes].
  apply guard_panic; [done|]. intros _. destruct (Glob fs _) as [[|file files]|]; [done| |done].
  apply bind_panic; [by apply matches_panic|]. intros [[ps srcs] seen'] _.
  apply bind_panic; [done|]. by intros [ps' srcs'] _.
Qed.

(** C38. Load returns a document or an error for every file set: no file, node tree or
    include list makes it panic. *)
Theorem Load_total filename : yaml_nodes_ok → Load fs range marshal filename ≠ Err Panic.
Proof.
  intros Hy. unfold Load. apply guard_panic; [done|]. intros _. destruct (Abs fs filename) as [root|]; [|done].
  destruct (Stat fs root) as [[[] id]|]; try done. destruct (ReadFile _ root); [|done].
  apply bind_panic; [by apply in_file_panic, (document_calm _ rootConfigT)|]. intros (api & seed & rt & ps & includes & []) _.
  apply bind_panic; [by apply includes_panic|]. intros [more srcs] Hi. apply finish_panic. cbn [c_Proxies].
  rewrite !length_app, proxySources_length. apply includes_lengths in Hi. lia.
Qed.
End load.

(** ** Where errors are reported *)

Lemma str_app_assoc (a b c : string) : a +:+ (b +:+ c) = (a +:+ b) +:+ c.
Proof. induction a as [|x a IH]; [done|]. exact (f_equal (String x) IH). Qed.

Lemma str_app_nil (a : string) : a +:+ "" = a.
Proof. induction a as [|x a IH]; [done|]. exact (f_equal (String x) IH). Qed.

(** The error of [r], if any, is at a path that starts with [path]. *)
Definition under {A} (path : string) (r : res FieldError A) : Prop :=
  ∀ e, r = Err e → ∃ rest, e_Path e = path +:+ rest.

Lemma under_Ok {A} path (a : A) : under path (Ok a).
Proof. by intros e. Qed.

Lemma under_here {A} path message : under path (Err (A := A) (invalid path message)).
Proof. intros e [= <-]. exists "". by rewrite str_app_nil. Qed.

Lemma under_field {A} path rest message : under path (Err (A := A) (invalid (path +:+ rest) message)).
Proof. intros e [= <-]. by exists rest. Qed.

Lemma under_app {A} path more (r : res FieldError A) : under (path +:+ more) r → under path r.
Proof. intros Hr e He. destruct (Hr e He) as [rest Hp]. exists (more +:+ rest). by rewrite Hp, str_app_assoc. Qed.

Lemma under_dot {A} path rest (r : res FieldError A) :
  under (path +:+ String "." rest) r → under (path +:+ ".") r.
Proof. intros Hr. apply (under_app _ rest). by rewrite <- str_app_assoc. Qed.

Lemma under_bind {A B} path (r : res FieldError A) (f : A → res FieldError B) :
  under path r → (∀ a, under path (f a)) → under path (r ≫= f).
Proof. intros Hr Hf e. destruct r as [a|e']; cbn; [apply Hf|]. intros [= ->]. by apply Hr. Qed.

Lemma under_guard {A} path b e (r : res FieldError A) :
  under path (Err (A := unit) e) → under path r → under path (fail_if b with e ;; r).
Proof. intros He Hr. destruct b; [|done]. intros e' [= <-]. by apply He. Qed.

Create HintDb paths.

Ltac paths_step :=
  match goal with
  | |- under _ (guard_err _ _ ≫= _) => apply under_guard
  | |- under _ (_ ≫= _) => apply under_bind; [|intros ?]
  | |- under _ (Ok _) => apply under_Ok
  | |- under _ (Err (invalid _ _)) =>
      first [apply under_here|apply (under_field _ _)|eapply under_dot; apply under_here]
  | |- under _ (match ?x with _ => _ end) => destruct x
  | |- under _ (if ?x then _ else _) => destruct x
  | |- under _ _ => solve [eauto with paths]
  end.
Ltac paths := cbv zeta; repeat paths_step.

Lemma selector_paths s path : under (path +:+ ".") (validateSelector s path).
Proof. unfold validateSelector. paths. Qed.
#[local] Hint Resolve selector_paths : paths.

Lemma fault_paths f path : under path (validateFault f path).
Proof. unfold validateFault. paths. Qed.

Lemma rule_fault_paths f path : under (path +:+ ".") (validateFault f (path +:+ ".fault")).
Proof. eapply under_dot. apply fault_paths. Qed.
#[local] Hint Resolve rule_fault_paths : paths.

Lemma headers_paths path l h : under (path +:+ ".") (normalize_headers path l h).
Proof. revert h. induction l as [|[name value] l IH]; intros h; cbn [normalize_headers]; paths. Qed.
#[local] Hint Resolve headers_paths : paths.

Lemma rule_paths range r path : under (path +:+ ".") (validateRule range r path).
Proof. unfold validateRule. paths. Qed.
#[local] Hint Resolve rule_paths : paths.

Lemma tcp_rule_paths r path : under (path +:+ ".") (validateTCPRule r path).
Proof. unfold validateTCPRule. paths. Qed.

Lemma commit_rule_paths range r path : under (path +:+ ".") (validateCommitRule range r path).
Proof. unfold validateCommitRule. paths. Qed.
#[local] Hint Resolve tcp_rule_paths commit_rule_paths : paths.

Lemma proxy_rule_paths range protocol path j r :
  under (path +:+ ".") (validate_proxy_rule range protocol path j r).
Proof.
  unfold validate_proxy_rule. cbv zeta. eapply (under_dot _ ("rules[" +:+ pretty j +:+ "]")). eapply (under_app _ ".").
  paths.
Qed.
#[local] Hint Resolve proxy_rule_paths : paths.

Section env_paths.
Context (env : Env) (range : gmap string string → list (string * string)).

Lemma tls_read_paths base name field D : under field (tls_read env base name field D).
Proof. unfold tls_read. paths. Qed.

Lemma ca_loop_paths fuel field data count : under field (ca_loop env fuel field data count).
Proof. revert data count. induction fuel as [|fuel IH]; intros data count; cbn [ca_loop]; paths; apply IH. Qed.

Lemma validateCA_paths base name field D : under field (validateCA env base name field D).
Proof. unfold validateCA. pose proof tls_read_paths. pose proof ca_loop_paths. paths. Qed.

Lemma tls_read_below base name path field D :
  under (path +:+ ".") (tls_read env base name (path +:+ String "." field) D).
Proof. eapply under_dot, tls_read_paths. Qed.

Lemma validateCA_below base name path field D :
  under (path +:+ ".") (validateCA env base name (path +:+ String "." field) D).
Proof. eapply under_dot, validateCA_paths. Qed.
#[local] Hint Resolve tls_read_below validateCA_below : paths.

Lemma listener_tls_paths t base path D : under (path +:+ ".") (validate_listener_tls env t base path D).
Proof. unfold validate_listener_tls. paths. Qed.

Lemma upstream_tls_paths p u base path D : under (path +:+ ".") (validate_upstream_tls env p u base path D).
Proof. unfold validate_upstream_tls. paths. Qed.
#[local] Hint Resolve listener_tls_paths upstream_tls_paths : paths.

Lemma validateTLS_paths p base path D : under (path +:+ ".") (validateTLS env p base path D).
Proof. unfold validateTLS. paths. Qed.

Lemma upstream_protocol_paths p path : under (path +:+ ".") (upstream_protocol p path).
Proof. unfold upstream_protocol. paths. Qed.

Lemma listen_paths listen path : under (path +:+ ".") (normalize_listen env listen path).
Proof. unfold normalize_listen. paths. Qed.

Lemma tcp_upstream_paths p listen path : under (path +:+ ".") (tcp_upstream env p listen path).
Proof. unfold tcp_upstream. paths. Qed.

Lemma origin_upstream_paths p path : under (path +:+ ".") (origin_upstream env p path).
Proof. unfold origin_upstream. paths. Qed.
#[local] Hint Resolve validateTLS_paths upstream_protocol_paths listen_paths tcp_upstream_paths origin_upstream_paths : paths.

Lemma mapi_paths {A B} path (f : nat → A → res FieldError B) i l :
  (∀ i x, under path (f i x)) → under path (mapi_res f i l).
Proof. intros Hf. revert i. induction l as [|x l IH]; intros i; cbn [mapi_res]; paths. Qed.

Lemma proxy_paths base i p st :
  under ("proxies[" +:+ pretty i +:+ "].") (validate_proxy env range base i p st).
Proof.
  replace ("proxies[" +:+ pretty i +:+ "].") with (("proxies[" +:+ pretty i +:+ "]") +:+ ".") by by rewrite <- !str_app_assoc.
  unfold validate_proxy. destruct st as [L D]. cbv zeta.
  repeat first [apply mapi_paths; intros ? ?|paths_step].
Qed.

Lemma proxies_error base i ps st e :
  mapi_state (validate_proxy env range base) i ps st = Err e →
  ∃ j rest, (i ≤ j < i + length ps)%nat ∧ e_Path e = "proxies[" +:+ pretty j +:+ "]." +:+ rest.
Proof.
  revert i st. induction ps as [|p ps IH]; intros i st He; cbn in He; [done|].
  destruct (validate_proxy env range base i p st) as [[p' st']|e'] eqn:Ep; cbn in He.
  - destruct (mapi_state _ (S i) ps st') as [[ps' st2]|e'] eqn:Em; cbn in He; [done|]. simplify_eq.
    destruct (IH _ _ Em) as (j & rest & Hj & Hp). exists j, rest. split; [cbn; lia|done].
  - simplify_eq. destruct (proxy_paths _ _ _ _ _ Ep) as [rest Hr]. exists i, rest. split; [cbn; lia|].
    by rewrite Hr, <- !str_app_assoc.
Qed.
End env_paths.

(** ** Indices *)

Lemma pretty_N_chars x s :
  all_chars is_digit s = true → all_chars is_digit (pretty_N_go x s) = true.
Proof.
  revert s. induction (N.lt_wf_0 x) as [x _ IH]; intros s Hs.
  destruct (decide (0 < x)%N) as [Hx|Hx].
  - rewrite pretty_N_go_step by done. apply IH; [by apply N.div_lt|].
    cbn. rewrite Hs, andb_true_r. unfold pretty_N_char. by repeat case_match.
  - by replace x with 0%N by lia.
Qed.

Lemma pretty_digits (i : nat) : all_chars is_digit (pretty i) = true.
Proof.
  unfold pretty, pretty_nat, pretty, pretty_N. case_decide; [done|]. by apply pretty_N_chars.
Qed.

(** Digits up to a bracket determine the number. *)
Lemma digits_bracket a b x y :
  all_chars is_digit a = true → all_chars is_digit b = true → a +:+ String "]" x = b +:+ String "]" y → a = b.
Proof.
  revert b. induction a as [|c a IH]; intros [|c' b] Ha Hb E; cbn in *; simplify_eq; try done.
  bool_hyps. f_equal. eauto.
Qed.

Lemma HasPrefix_split s p : HasPrefix s p = true → ∃ rest, s = p +:+ rest.
Proof.
  unfold HasPrefix. revert s. induction p as [|c p IH]; intros s Hs; [by exists s|].
  destruct s as [|c' s]; [done|]. cbn in Hs. destruct (Ascii.ascii_dec c c') as [->|]; [|done].
  destruct (IH s Hs) as [rest ->]. by exists rest.
Qed.

Definition proxy_path (i : nat) : string := "proxies[" +:+ pretty i +:+ "]".

Lemma proxy_path_prefix i j rest :
  HasPrefix (proxy_path j +:+ String "." rest) (proxy_path i +:+ ".") = true → i = j.
Proof.
  intros [more E]%HasPrefix_split. unfold proxy_path in E. cbn in E. simplify_eq.
  rewrite <- !str_app_assoc in E. cbn in E.
  apply (inj pretty). symmetry. eapply digits_bracket; [apply pretty_digits..|exact E].
Qed.

Lemma locate_hit k sources root i rest e src :
  sources !! i = Some src → e_Path e = proxy_path (k + i) +:+ String "." rest →
  locate k sources root e = {| e_File := src.1; e_Path := src.2 +:+ String "." rest; e_Message := e_Message e |}.
Proof.
  intros Hs He. revert k i Hs He. induction sources as [|s sources IH]; intros k i Hs He; [done|].
  cbn [locate]. fold (proxy_path k). destruct (HasPrefix _ (proxy_path k +:+ ".")) eqn:Ep; rewrite He in Ep.
  - rewrite He. apply proxy_path_prefix in Ep. assert (i = 0%nat) as -> by lia. rewrite Nat.add_0_r in *. simplify_list_eq. f_equal.
    f_equal. unfold TrimPrefix. by rewrite HasPrefix_app, drop_str_app.
  - destruct i as [|i].
    + rewrite Nat.add_0_r in Ep. change (String "." rest) with ("." +:+ rest) in Ep.
      by rewrite str_app_assoc, HasPrefix_app in Ep.
    + apply (IH (S k) i Hs). by rewrite He, Nat.add_succ_r.
Qed.

Lemma locate_miss k sources root e :
  HasPrefix (e_Path e) "proxies[" = false → locate k sources root e = with_file root e.
Proof.
  intros Hp. revert k. induction sources as [|s sources IH]; intros k; [done|]. cbn [locate]. fold (proxy_path k).
  destruct (HasPrefix (e_Path e) (proxy_path k +:+ ".")) eqn:E; [|apply IH].
  apply HasPrefix_split in E as [more E]. rewrite E in Hp. unfold proxy_path in Hp.
  rewrite <- !str_app_assoc, HasPrefix_app in Hp. done.
Qed.

Lemma validate_error env range c base e :
  validate env range c base = Err e →
  (∃ i rest, (i < length (c_Proxies c))%nat ∧ e_Path e = proxy_path i +:+ String "." rest) ∨
  e_Path e ∈ ["api_version"; "runtime.max_inflight_requests"; "runtime.request_timeout"; "proxies"].
Proof.
  unfold validate. intros He.
  destruct (negb (str_eq (c_APIVersion c) APIVersion)); [injection He as <-; right; cbn; set_solver|].
  destruct (rt_MaxInflightRequests (c_Runtime c) <=? 0); [injection He as <-; right; cbn; set_solver|].
  destruct (rt_RequestTimeout (c_Runtime c) <=? 0); [injection He as <-; right; cbn; set_solver|].
  destruct (bool_decide (c_Proxies c = [])); [injection He as <-; right; cbn; set_solver|]. cbn [guard_err mbind res_bind] in He.
  destruct (mapi_state _ _ _ _) as [[ps st]|e'] eqn:Em; [done|]. injection He as <-. left.
  apply proxies_error in Em as (j & rest & Hj & Hp). exists j, rest. split; [lia|]. rewrite Hp. unfold proxy_path.
  by rewrite <- !str_app_assoc.
Qed.

Section errors.
Context (fs : Files) (range : gmap string string → list (string * string)).
Context (marshal : Config → gmap string bytes → option bytes).

(** C37. A validation error is reported with the file its proxy came from and the path
    of the field in that file; other fields belong to the root file. *)
Theorem finish_error c sources root ps e :
  length sources = length (c_Proxies c) →
  check_proxies fs (c_Proxies c) sources ∅ = Ok ps →
  validate (fs_env fs) range (set_Proxies ps c) (Dir (fs_env fs) root) = Err e →
  (∃ i src rest, sources !! i = Some src ∧ e_Path e = proxy_path i +:+ String "." rest ∧
     finish fs range marshal c sources root =
       Err (Invalid {| e_File := src.1; e_Path := src.2 +:+ String "." rest; e_Message := e_Message e |})) ∨
  (e_Path e ∈ ["api_version"; "runtime.max_inflight_requests"; "runtime.request_timeout"; "proxies"] ∧
   finish fs range marshal c sources root = Err (Invalid (with_file root e))).
Proof.
  intros Hl Hc Hv. unfold finish. rewrite Hc. cbn [mbind res_bind]. rewrite Hv.
  assert (length ps = length (c_Proxies c)) as Hlen.
  { clear Hv Hl. revert sources ps Hc. generalize (∅ : gmap string proxySource).
    induction (c_Proxies c) as [|p l IH]; intros ids [|src sources] ps Hc; cbn in Hc; simplify_eq; try done.
    destruct (ids !! p_ID p); [done|]. open_ok Hc. simplify_eq. cbn. f_equal. by eapply IH. }
  destruct (validate_error _ _ _ _ _ Hv) as [(i & rest & Hi & Hp)|Hp]; [left|right].
  - cbn in Hi. destruct (lookup_lt_is_Some_2 sources i) as [src Hs]; [lia|]. exists i, src, rest. split_and!; [done..|].
    do 2 f_equal. by apply (locate_hit 0 _ _ i).
  - split; [done|]. do 2 f_equal. 
    repeat (apply elem_of_cons in Hp as [Hp|Hp]; [apply locate_miss; by rewrite Hp|]). by apply not_elem_of_nil in Hp.
Qed.
End errors.
