(* ===== verification/NetSpec.v ===== *)
(** * Addresses: host, port and what splits them again

    Lemmas on the parts of strings, strconv, net and net/url that validation
    writes addresses with: a number printed by Itoa is read back by Atoi, a host
    and a port joined by JoinHostPort are split again by SplitHostPort and by the
    accessors of a URL, and a host name stays one in lower case. *)

From Stdlib Require Import Ascii.
From S2P Require Import Prelude GoLib GoUtf8 GoRand Config Validate.

(** ** Numbers *)

Lemma pretty_char_digit x : (x < 10)%N → digit_val (pretty_N_char x) = Z.of_N x ∧ is_digit (pretty_N_char x) = true.
Proof.
  intros Hx. assert (x ∈ [0; 1; 2; 3; 4; 5; 6; 7; 8; 9]%N) as Hin by (rewrite !elem_of_cons; lia).
  repeat (apply elem_of_cons in Hin as [->|Hin]; [done|]). by apply not_elem_of_nil in Hin.
Qed.

Lemma pretty_go_val x s : digits_val 0 (pretty_N_go x s) = digits_val (Z.of_N x) s.
Proof.
  revert s. induction (N.lt_wf_0 x) as [x _ IH]; intros s. destruct (decide (x = 0)%N) as [->|Hx]; [by rewrite pretty_N_go_0|].
  rewrite pretty_N_go_step by lia. rewrite IH by (apply N.div_lt; lia). cbn [digits_val].
  destruct (pretty_char_digit (x `mod` 10)) as [-> _]; [apply N.mod_lt; lia|]. f_equal.
  pose proof (N.div_mod x 10 ltac:(lia)). lia.
Qed.

Lemma pretty_go_digits x s : all_chars is_digit s = true → all_chars is_digit (pretty_N_go x s) = true.
Proof.
  revert s. induction (N.lt_wf_0 x) as [x _ IH]; intros s Hs. destruct (decide (x = 0)%N) as [->|Hx]; [by rewrite pretty_N_go_0|].
  rewrite pretty_N_go_step by lia. apply IH; [apply N.div_lt; lia|]. cbn.
  destruct (pretty_char_digit (x `mod` 10)) as [_ ->]; [apply N.mod_lt; lia|done].
Qed.

Lemma pretty_go_cons x c s : ∃ c' s', pretty_N_go x (String c s) = String c' s'.
Proof.
  revert c s. induction (N.lt_wf_0 x) as [x _ IH]. intros c s. destruct (decide (x = 0)%N) as [->|Hx]; [rewrite pretty_N_go_0; eauto|].
  rewrite pretty_N_go_step by lia. apply IH. apply N.div_lt; lia.
Qed.

Lemma Itoa_pos n : 0 < n → Itoa n = pretty_N_go (Z.to_N n) "".
Proof. intros Hn. destruct n as [|p|p]; [lia| |lia]. done. Qed.

Lemma Itoa_digits n : 0 < n → all_chars is_digit (Itoa n) = true.
Proof. intros Hn. rewrite Itoa_pos by done. by apply pretty_go_digits. Qed.

Lemma Itoa_cons n : 0 < n → ∃ c s, Itoa n = String c s.
Proof. intros Hn. rewrite Itoa_pos, pretty_N_go_step by lia. apply pretty_go_cons. Qed.

Lemma Atoi_digits s : all_digits s = true → digits_val 0 s < 2 ^ 63 → 0 ≤ digits_val 0 s → Atoi s = Some (digits_val 0 s).
Proof.
  intros Hd Hlt Hge. unfold all_digits in Hd. bool_hyps. destruct s as [|c s]; [done|]. pose proof H0 as Hd. cbn [all_chars] in H0. bool_hyps.
  assert (Ascii.eqb c "-" = false ∧ Ascii.eqb c "+" = false) as [E1 E2]
    by (clear -H0; destruct c as [[] [] [] [] [] [] [] []]; vm_compute in H0; done).
  unfold Atoi. rewrite E1, E2. unfold all_digits. rewrite H, Hd. cbn [negb andb]. cbv zeta.
  replace (_ && _) with true by lia. done.
Qed.

(** Atoi reads back what Itoa wrote. *)
Lemma Atoi_Itoa n : 0 < n < 2 ^ 63 → Atoi (Itoa n) = Some n.
Proof.
  intros [Hn Hb]. destruct (Itoa_cons n Hn) as (c & s & E).
  assert (digits_val 0 (Itoa n) = n) as Hv.
  { rewrite Itoa_pos, pretty_go_val by done. cbn. lia. }
  assert (all_digits (Itoa n) = true) as Hd. { unfold all_digits. rewrite Itoa_digits, andb_true_r by done. by rewrite E. }
  rewrite (Atoi_digits _ Hd); rewrite Hv; [done|lia..].
Qed.

(** ** Characters *)

Lemma ContainsByte_app a b c : ContainsByte (a +:+ b) c = ContainsByte a c || ContainsByte b c.
Proof. unfold ContainsByte. by rewrite all_chars_app, negb_andb. Qed.

Lemma ContainsByte_cons x s c : ContainsByte (String x s) c = Ascii.eqb x c || ContainsByte s c.
Proof. unfold ContainsByte. cbn [all_chars]. by rewrite negb_andb, negb_involutive. Qed.

Lemma all_chars_impl (P Q : ascii → bool) s :
  (∀ c, P c = true → Q c = true) → all_chars P s = true → all_chars Q s = true.
Proof. intros HPQ. induction s as [|c s IH]; cbn; [done|]. intros H. bool_hyps. rewrite HPQ by done. auto. Qed.

(** A class of characters without [c] does not contain it. *)
Lemma all_chars_without (P : ascii → bool) s c : P c = false → all_chars P s = true → ContainsByte s c = false.
Proof.
  intros Hc Hs. unfold ContainsByte. rewrite negb_false_iff. eapply all_chars_impl; [|exact Hs]. intros d Hd.
  rewrite negb_true_iff. apply Ascii.eqb_neq. congruence.
Qed.

Lemma LastIndexByte_none s c : ContainsByte s c = false → LastIndexByte s c = None.
Proof.
  induction s as [|x s IH]; [done|]. rewrite ContainsByte_cons. intros [Hx Hs]%orb_false_iff. simpl. by rewrite (IH Hs), Hx.
Qed.

Lemma LastIndexByte_app a b c :
  ContainsByte b c = false → LastIndexByte (a +:+ String c b) c = Some (String.length a).
Proof.
  intros Hn%LastIndexByte_none. induction a as [|x a IH].
  - change (match LastIndexByte b c with Some i => Some (S i) | None => if Ascii.eqb c c then Some O else None end = Some O).
    by rewrite Hn, Ascii.eqb_refl.
  - change (match LastIndexByte (a +:+ String c b) c with Some i => Some (S i) | None => if Ascii.eqb x c then Some O else None end = Some (S (String.length a))).
    by rewrite IH.
Qed.

(** A string that contains [c] splits at its last occurrence. *)
Lemma ContainsByte_last s c : ContainsByte s c = true → ∃ a b, s = a +:+ String c b ∧ ContainsByte b c = false.
Proof.
  induction s as [|x s IH]; [done|]. rewrite ContainsByte_cons. intros H. destruct (ContainsByte s c) eqn:E.
  - destruct IH as (a & b & -> & Hb); [done|]. by exists (String x a), b.
  - rewrite orb_false_r in H. apply Ascii.eqb_eq in H as ->. by exists "", s.
Qed.

Lemma IndexByte_app a b c : ContainsByte a c = false → IndexByte (a +:+ String c b) c = Some (String.length a).
Proof.
  induction a as [|x a IH].
  - intros _. change ((if Ascii.eqb c c then Some O else S <$> IndexByte b c) = Some O). by rewrite Ascii.eqb_refl.
  - rewrite ContainsByte_cons. intros H. bool_hyps.
    change ((if Ascii.eqb x c then Some O else S <$> IndexByte (a +:+ String c b) c) = Some (S (String.length a))).
    by rewrite H, IH.
Qed.

Lemma HasSuffix_app a b : HasSuffix (a +:+ b) b = true.
Proof. unfold HasSuffix. rewrite append_sub, drop_str_app, String.eqb_refl, bool_decide_true; [done|]. rewrite length_append. lia. Qed.

Lemma take_drop_str n s : take_str n s +:+ drop_str n s = s.
Proof. revert s. induction n as [|n IH]; intros [|c s]; try done. exact (f_equal (String c) (IH s)). Qed.

Lemma HasSuffix_split s x : HasSuffix s x = true → ∃ a, s = a +:+ x.
Proof.
  unfold HasSuffix. intros H. bool_hyps. apply String.eqb_eq in H0. exists (take_str (String.length s - String.length x) s).
  by rewrite <- H0 at 2; rewrite take_drop_str.
Qed.

(** ** Host names *)

(** The characters of host names and IP addresses. *)
Definition host_char (c : ascii) : bool :=
  is_alnum c || Ascii.eqb c "-" || Ascii.eqb c "." || Ascii.eqb c ":".

Lemma Split_chars (P : ascii → bool) sep s :
  P sep = true → forallb (all_chars P) (Split sep s) = true → all_chars P s = true.
Proof.
  intros Hsep. induction s as [|c s IH]; cbn; [done|]. destruct (Ascii.eqb c sep) eqn:E.
  - apply Ascii.eqb_eq in E as ->. cbn. rewrite Hsep. auto.
  - destruct (Split sep s) as [|x xs]; [by cbn; rewrite !andb_true_r; intros ->; apply IH|]. cbn. intros H. bool_hyps.
    rewrite H. apply IH. cbn. by rewrite H1, H0.
Qed.

Lemma TrimSuffix_cases s x : TrimSuffix s x = s ∨ s = TrimSuffix s x +:+ x.
Proof.
  destruct (HasSuffix s x) eqn:E; [|left; by apply TrimSuffix_none]. apply HasSuffix_split in E as [a ->].
  right. by rewrite TrimSuffix_app.
Qed.

Lemma labels_chars s : forallb host_label (Split "." (TrimSuffix s ".")) = true → all_chars host_char s = true.
Proof.
  intros H. assert (all_chars host_char (TrimSuffix s ".") = true) as Ht.
  { apply (Split_chars _ "."); [done|]. apply forallb_forall. intros l Hl. apply (proj1 (forallb_forall _ _) H) in Hl.
    unfold host_label in Hl. bool_hyps. eapply all_chars_impl; [|done]. intros c Hc. unfold host_char. by rewrite Hc. }
  destruct (TrimSuffix_cases s ".") as [<-| ->]; [done|]. by rewrite all_chars_app, Ht.
Qed.

Lemma lower_ascii_class (P : ascii → bool) c :
  P ∈ [is_alnum; is_digit; Ascii.eqb "-"; Ascii.eqb "."; Ascii.eqb ":"] → P (lower_ascii c) = P c.
Proof.
  intros H. repeat (apply elem_of_cons in H as [->|H]; [by destruct c as [[] [] [] [] [] [] [] []]|]). by apply not_elem_of_nil in H.
Qed.

Lemma ToLower_length s : String.length (ToLower s) = String.length s.
Proof. induction s as [|c s IH]; cbn; [done|]. by rewrite IH. Qed.

Lemma ToLower_chars (P : ascii → bool) s : (∀ c, P (lower_ascii c) = P c) → all_chars P (ToLower s) = all_chars P s.
Proof. intros HP. induction s as [|c s IH]; cbn; [done|]. by rewrite HP, IH. Qed.

Lemma ToLower_app a b : ToLower (a +:+ b) = ToLower a +:+ ToLower b.
Proof. induction a as [|c a IH]; [done|]. exact (f_equal (String (lower_ascii c)) IH). Qed.

Lemma lower_eqb c d : d ∈ ["-"; "."; ":"]%char → Ascii.eqb (lower_ascii c) d = Ascii.eqb c d.
Proof.
  intros H. repeat (apply elem_of_cons in H as [->|H]; [by destruct c as [[] [] [] [] [] [] [] []]|]). by apply not_elem_of_nil in H.
Qed.

Lemma ToLower_contains s d : d ∈ ["-"; "."; ":"]%char → ContainsByte (ToLower s) d = ContainsByte s d.
Proof. intros Hd. unfold ContainsByte. rewrite ToLower_chars; [done|]. intros c. by rewrite lower_eqb. Qed.

Lemma ToLower_Split s : Split "." (ToLower s) = ToLower <$> Split "." s.
Proof.
  induction s as [|c s IH]; [done|]. cbn [ToLower Split]. rewrite lower_eqb by (rewrite !elem_of_cons; tauto).
  destruct (Ascii.eqb c "."); rewrite IH; [done|]. by destruct (Split "." s).
Qed.

Lemma ToLower_TrimSuffix s : TrimSuffix (ToLower s) "." = ToLower (TrimSuffix s ".").
Proof.
  destruct (HasSuffix s ".") eqn:E.
  - apply HasSuffix_split in E as [a ->]. by rewrite ToLower_app, !TrimSuffix_app.
  - rewrite (TrimSuffix_none s) by done. apply TrimSuffix_none. destruct (HasSuffix (ToLower s) ".") eqn:E'; [|done].
    exfalso. apply HasSuffix_split in E' as [a Ha]. revert a Ha E. induction s as [|c s IH]; intros a Ha E; [by destruct a|].
    destruct a as [|x a].
    + cbn in Ha. injection Ha as Hc Hs. destruct s as [|]; [|done]. cbn in E. 
      assert (c = "."%char) as ->; [|done]. apply (f_equal (λ d, Ascii.eqb d ".")) in Hc. rewrite lower_eqb in Hc by (rewrite !elem_of_cons; tauto).
      by apply Ascii.eqb_eq.
    + change (String (lower_ascii c) (ToLower s) = String x (a +:+ ".")) in Ha. injection Ha as _ Ha. apply (IH _ Ha).
      destruct (HasSuffix s ".") eqn:Es; [|done]. apply HasSuffix_split in Es as [b ->]. 
      change (String c (b +:+ ".")) with (String c b +:+ ".") in E. by rewrite HasSuffix_app in E.
Qed.

Lemma ToLower_last s : last_char (ToLower s) = lower_ascii <$> last_char s.
Proof.
  unfold last_char. assert (String.list_ascii_of_string (ToLower s) = lower_ascii <$> String.list_ascii_of_string s) as ->.
  { induction s as [|c s IH]; cbn; [done|]. by rewrite IH. }
  apply fmap_last.
Qed.

Lemma host_label_lower l : host_label (ToLower l) = host_label l.
Proof.
  unfold host_label. rewrite ToLower_length. f_equal; [f_equal; [f_equal; [f_equal|]|]|].
  - by destruct l.
  - destruct l as [|c l]; [done|]. unfold HasPrefix. cbn [ToLower String.prefix].
    pose proof (lower_eqb c "-") as E. rewrite !elem_of_cons in E. specialize (E ltac:(tauto)).
    destruct (Ascii.ascii_dec "-" c) as [<-|Hn]; [by destruct l|]. destruct (Ascii.ascii_dec "-" (lower_ascii c)) as [E'|]; [|done].
    rewrite <- E', Ascii.eqb_refl in E. symmetry in E. apply Ascii.eqb_eq in E. congruence.
  - rewrite ToLower_last. f_equal. apply bool_decide_ext. split.
    + intros (c & -> & Hc)%fmap_Some. f_equal. symmetry in Hc. apply Ascii.eqb_eq in Hc. rewrite lower_eqb in Hc by (rewrite !elem_of_cons; tauto).
      by apply Ascii.eqb_eq.
    + by intros ->.
  - apply ToLower_chars. intros c. by destruct c as [[] [] [] [] [] [] [] []].
Qed.

(** ** Host names and the addresses built from them *)

Section hosts.
Context (is_ip : string → bool).

(** net.ParseIP: only hexadecimal digits, dots and colons are accepted, in either
    case. *)
Definition ip_chars : Prop := ∀ s, is_ip s = true → all_chars host_char s = true.
Definition ip_lower : Prop := ∀ s, is_ip s = true → is_ip (ToLower s) = true.

Lemma hostname_chars s : ip_chars → hostname is_ip s = true → all_chars host_char s = true.
Proof.
  intros Hip. unfold hostname. rewrite orb_true_iff. intros [H|H]; [by apply Hip|]. bool_hyps. by apply labels_chars.
Qed.

Lemma hostname_lower s : ip_lower → hostname is_ip s = true → hostname is_ip (ToLower s) = true.
Proof.
  intros Hip. unfold hostname. rewrite !orb_true_iff. intros [H|H]; [left; by apply Hip|right]. bool_hyps.
  rewrite ToLower_length, ToLower_TrimSuffix, ToLower_Split. apply andb_true_iff. split.
  - apply andb_true_iff. split; [by destruct s|by apply bool_decide_eq_true].
  - apply forallb_forall. intros l Hl. apply list_elem_of_In, list_elem_of_fmap in Hl as (l' & -> & Hl). rewrite host_label_lower.
    apply (proj1 (forallb_forall _ _) H0). by apply list_elem_of_In.
Qed.
End hosts.

Lemma host_char_excludes s c :
  all_chars host_char s = true → c ∈ ["["; "]"; "#"; "/"]%char → ContainsByte s c = false.
Proof.
  intros Hs Hc. eapply all_chars_without; [|exact Hs].
  repeat (apply elem_of_cons in Hc as [->|Hc]; [done|]). by apply not_elem_of_nil in Hc.
Qed.

Lemma digit_excludes s c : all_chars is_digit s = true → c ∈ [":"; "["; "]"; "#"]%char → ContainsByte s c = false.
Proof.
  intros Hs Hc. eapply all_chars_without; [|exact Hs].
  repeat (apply elem_of_cons in Hc as [->|Hc]; [done|]). by apply not_elem_of_nil in Hc.
Qed.

Ltac in_list := rewrite !elem_of_cons; tauto.

Lemma HasPrefix_char c s : HasPrefix s (String c "") = true → ContainsByte s c = true.
Proof.
  unfold HasPrefix. destruct s as [|x s]; [done|]. cbn. destruct (Ascii.ascii_dec c x) as [<-|]; [|done].
  intros _. by rewrite ContainsByte_cons, Ascii.eqb_refl.
Qed.

(** SplitHostPort undoes JoinHostPort. *)
Lemma Split_Join_HostPort host port :
  all_chars host_char host = true → all_chars is_digit port = true →
  SplitHostPort (JoinHostPort host port) = Some (host, port).
Proof.
  intros Hh Hp. pose proof (host_char_excludes _ "[" Hh ltac:(in_list)) as Ho. pose proof (host_char_excludes _ "]" Hh ltac:(in_list)) as Hc.
  pose proof (digit_excludes _ ":" Hp ltac:(in_list)) as Pc. pose proof (digit_excludes _ "[" Hp ltac:(in_list)) as Po.
  pose proof (digit_excludes _ "]" Hp ltac:(in_list)) as Pb.
  unfold SplitHostPort, JoinHostPort. destruct (ContainsByte host ":") eqn:Ec.
  - set (a := "[" +:+ host +:+ "]"). assert ("[" +:+ host +:+ "]:" +:+ port = a +:+ String ":" port) as ->.
    { unfold a. change ("]:" +:+ port) with ("]" +:+ String ":" port). by rewrite !append_assoc. }
    rewrite LastIndexByte_app by done. 
    assert (drop_str (S (String.length a)) (a +:+ String ":" port) = port) as Edrop.
    { change (String ":" port) with (":" +:+ port). rewrite append_assoc. 
      replace (S (String.length a)) with (String.length (a +:+ ":")) by (rewrite length_append; cbn; lia). apply drop_str_app. }
    rewrite Edrop.
    assert (a +:+ String ":" port = String "[" host +:+ String "]" (String ":" port)) as E
      by (unfold a; change (String "[" host +:+ String "]" (String ":" port)) with ("[" +:+ (host +:+ ("]" +:+ String ":" port))); by rewrite !append_assoc).
    assert (String.length a = S (String.length (String "[" host))) as La by (unfold a; rewrite !length_append; cbn; lia).
    rewrite E. change (HasPrefix (String "[" host +:+ String "]" (String ":" port)) "[") with (HasPrefix ("[" +:+ (host +:+ String "]" (String ":" port))) "[").
    rewrite HasPrefix_app.
    rewrite IndexByte_app by (by rewrite ContainsByte_cons, Hc). rewrite <- La, bool_decide_true by done.
    assert (drop_str 1 (String "[" host +:+ String "]" (String ":" port)) = host +:+ "]:" +:+ port) as -> by done.
    assert (drop_str (S (String.length (String "[" host))) (String "[" host +:+ String "]" (String ":" port)) = String ":" port) as E2.
    { change (String "[" host +:+ String "]" (String ":" port)) with (String "[" host +:+ ("]" +:+ String ":" port)). rewrite append_assoc.
      replace (S _) with (String.length (String "[" host +:+ "]")) by (rewrite length_append; cbn; lia). apply drop_str_app. }
    rewrite La, E2, (ContainsByte_cons ":"), Pb, !ContainsByte_app, Ho, Po.
    change (ContainsByte "]:" "[") with false. cbn [orb Ascii.eqb Bool.eqb]. do 2 f_equal.
    cbn. rewrite Nat.sub_0_r. apply take_str_app.
  - change (host +:+ ":" +:+ port) with (host +:+ String ":" port). rewrite LastIndexByte_app by done.
    destruct (HasPrefix (host +:+ String ":" port) "[") eqn:Eh.
    { apply HasPrefix_char in Eh. rewrite ContainsByte_app, ContainsByte_cons, Ho, Po in Eh. done. }
    rewrite take_str_app, Ec. rewrite !ContainsByte_app, !ContainsByte_cons, Ho, Hc, Po, Pb. cbn [orb Ascii.eqb].
    do 2 f_equal. change (host +:+ String ":" port) with (host +:+ (":" +:+ port)). rewrite append_assoc.
    replace (S (String.length host)) with (String.length (host +:+ ":")) by (rewrite length_append; cbn; lia). apply drop_str_app.
Qed.

(** ** Authorities of URLs *)

(** The host and optional port that validation writes after the scheme. *)
Definition authority (host port : string) : string :=
  if nonempty port then JoinHostPort host port
  else if ContainsByte host ":" then "[" +:+ host +:+ "]" else host.

Lemma bracket_strip h :
  (if HasPrefix ("[" +:+ h +:+ "]") "[" && HasSuffix ("[" +:+ h +:+ "]") "]"
   then take_str (String.length ("[" +:+ h +:+ "]") - 2) (drop_str 1 ("[" +:+ h +:+ "]")) else "[" +:+ h +:+ "]") = h.
Proof.
  rewrite HasPrefix_app. rewrite (append_assoc "[" h "]") at 1. rewrite HasSuffix_app. cbn [andb].
  replace (String.length _ - 2)%nat with (String.length h) by (rewrite !length_append; cbn; lia). apply take_str_app.
Qed.

Lemma plain_strip h : ContainsByte h "[" = false →
  (if HasPrefix h "[" && HasSuffix h "]" then take_str (String.length h - 2) (drop_str 1 h) else h) = h.
Proof. intros Hh. destruct (HasPrefix h "[") eqn:E; [|done]. apply HasPrefix_char in E. congruence. Qed.

Lemma valid_optional_port_bracket b :
  ContainsByte (b +:+ "]") ":" = false → valid_optional_port (String ":" (b +:+ "]")) = false.
Proof.
  intros _. unfold valid_optional_port. rewrite all_chars_app. cbn [all_chars]. by rewrite !andb_false_r.
Qed.

(** URL.Hostname and URL.Port read the two parts of an authority. *)
Lemma split_authority host port :
  all_chars host_char host = true → all_chars is_digit port = true →
  split_host_port (authority host port) = (host, port).
Proof.
  intros Hh Hp. pose proof (host_char_excludes _ "[" Hh ltac:(in_list)) as Ho.
  pose proof (digit_excludes _ ":" Hp ltac:(in_list)) as Pc.
  assert (∀ h, split_host_port (h +:+ String ":" port) =
    (if HasPrefix h "[" && HasSuffix h "]" then take_str (String.length h - 2) (drop_str 1 h) else h, port)) as Hj.
  { intros h. unfold split_host_port. rewrite LastIndexByte_app, drop_str_app, take_str_app by done. cbn [valid_optional_port Ascii.eqb Bool.eqb].
    rewrite Hp. cbn [andb]. change (String ":" port) with (":" +:+ port). rewrite append_assoc.
    replace (S (String.length h)) with (String.length (h +:+ ":")) by (rewrite length_append; cbn; lia). by rewrite drop_str_app. }
  unfold authority, JoinHostPort. destruct (nonempty port) eqn:En.
  - destruct (ContainsByte host ":").
    + replace ("[" +:+ host +:+ "]:" +:+ port) with (("[" +:+ host +:+ "]") +:+ String ":" port)
        by (change ("]:" +:+ port) with ("]" +:+ String ":" port); by rewrite !append_assoc).
      by rewrite Hj, bracket_strip.
    + change (host +:+ ":" +:+ port) with (host +:+ String ":" port). by rewrite Hj, plain_strip.
  - assert (port = "") as -> by (unfold nonempty in En; bool_hyps; done). destruct (ContainsByte host ":") eqn:Ec.
    + unfold split_host_port. destruct (ContainsByte_last _ _ Ec) as (a & b & Eh & Hb).
      assert ("[" +:+ host +:+ "]" = ("[" +:+ a) +:+ String ":" (b +:+ "]")) as E.
      { rewrite Eh. change (String ":" (b +:+ "]")) with (":" +:+ (b +:+ "]")). change (String ":" b) with (":" +:+ b). by rewrite !append_assoc. }
      assert (ContainsByte (b +:+ "]") ":" = false) as Hb' by (by rewrite ContainsByte_app, Hb).
      rewrite E at 1. rewrite LastIndexByte_app by done. rewrite E at 1. rewrite drop_str_app, valid_optional_port_bracket by done.
      by rewrite bracket_strip.
    + unfold split_host_port. rewrite LastIndexByte_none by done. by rewrite plain_strip.
Qed.

Lemma HasSuffix_char s c : HasSuffix s (String c "") = true → ContainsByte s c = true.
Proof. intros [a ->]%HasSuffix_split. by rewrite ContainsByte_app, ContainsByte_cons, Ascii.eqb_refl, orb_true_r. Qed.

(** An authority does not end in a colon. *)
Lemma authority_suffix host port : all_chars is_digit port = true → HasSuffix (authority host port) ":" = false.
Proof.
  intros Hp. assert (∀ s c, Ascii.eqb c ":" = false → HasSuffix (s +:+ String c "") ":" = false) as Hlast.
  { intros s c Hc. unfold HasSuffix. rewrite length_append. cbn [String.length]. replace (String.length s + 1 - 1)%nat with (String.length s) by lia.
    rewrite drop_str_app. cbn. by rewrite Hc, andb_false_r. }
  assert (∀ s, s ≠ "" → all_chars is_digit s = true → ∃ a c, s = a +:+ String c "" ∧ is_digit c = true) as Hend.
  { intros s Hne Hd. induction s as [|c s IH]; [done|]. cbn in Hd. bool_hyps. destruct s as [|c' s]; [by exists "", c|].
    destruct IH as (a & d & E & Hdd); [done|done|]. exists (String c a), d. split; [|done]. by rewrite E. }
  unfold authority. destruct (nonempty port) eqn:En.
  - destruct (Hend port) as (a & c & E & Hd); [unfold nonempty in En; by bool_hyps|done|].
    assert (Ascii.eqb c ":" = false) by (clear -Hd; destruct c as [[] [] [] [] [] [] [] []]; vm_compute in Hd; done).
    unfold JoinHostPort. rewrite E. destruct (ContainsByte host ":"); rewrite !append_assoc; by apply Hlast.
  - destruct (ContainsByte host ":") eqn:Ec; [rewrite append_assoc; by apply Hlast|].
    destruct (HasSuffix host ":") eqn:E; [|done]. apply HasSuffix_char in E. congruence.
Qed.
