(* ===== verification/NormalSpec.v ===== *)
(** * Validation is a normalisation

    Validating a configuration that validation returned gives the same
    configuration and the same file digests. RoundTrip combines it with the round
    trip of LoadSpec. *)

From Stdlib Require Import Ascii.
From S2P Require Import Prelude GoLib GoUtf8 GoRand GoTime Config Validate ValidateSpec NetSpec Decode Load DecodeSpec LoadSpec.
Local Open Scope go_scope.

(** What is relied on of net.ParseIP, url.Parse and filepath.Clean. *)
Definition origin_url (scheme host : string) : URL :=
  {| u_Scheme := scheme; u_Opaque := ""; u_User := false; u_Host := host; u_Path := ""; u_RawQuery := "";
     u_ForceQuery := false; u_Fragment := "" |}.

Definition upstream_schemes : list string :=
  ["tcp"; "http"; "https"; "postgresql"; "postgresqls"; "mysql"; "mysqls"].

Record env_laws (env : Env) : Prop := {
  law_ip_chars : ip_chars (ParseIP env);
  law_ip_lower : ip_lower (ParseIP env);
  law_url : ∀ scheme host port, scheme ∈ upstream_schemes → hostname (ParseIP env) host = true →
    all_chars is_digit port = true →
    url_Parse env (scheme +:+ "://" +:+ authority host port) = Some (origin_url scheme (authority host port));
  law_Clean_idem : ∀ s, Clean env (Clean env s) = Clean env s;
  law_Clean_abs : ∀ s, IsAbs s = true → IsAbs (Clean env s) = true;
  law_Clean_nonempty : ∀ s, Clean env s ≠ ""
}.

(** ** Rules *)

(** Field access through the assignments of the validators. *)
Ltac rule_fields :=
  cbn [r_ID r_Enabled r_Match r_Select r_Fault set_Fault set_Select set_Match set_Headers m_Method m_Path m_PathPattern
       m_Headers header_map default from_option id m_Service] in *.

Lemma normalize_selector_idem s : normalize_selector (normalize_selector s) = normalize_selector s.
Proof. destruct s as [[p|] n e]; cbn; [|done]. unfold normalize_selector. cbn. by rewrite normalize_probability_idem. Qed.

Lemma validateSelector_idem s path :
  selector_ok (normalize_selector s) → validateSelector (normalize_selector s) path = Ok (normalize_selector s).
Proof. intros Hs. apply validateSelector_spec. by rewrite normalize_selector_idem. Qed.

Lemma token_lower s : token (ToLower s) = token s.
Proof.
  unfold token. f_equal; [by destruct s|]. apply ToLower_chars. intros c. by destruct c as [[] [] [] [] [] [] [] []].
Qed.

Section rules.
Context (range : gmap string string → list (string * string)) (Hrange : enumerates range).
#[local] Set Default Proof Using "Type*".

Lemma headers_idem path m h path' :
  normalize_headers path (range m) ∅ = Ok h → normalize_headers path' (range h) ∅ = Ok h.
Proof.
  rewrite !normalize_headers_Ok. intros (Ht & Hn & _ & ->). rewrite (right_id_L ∅ (∪)).
  set (l := (λ nv : string * string, (ToLower nv.1, nv.2)) <$> range m) in *.
  assert (NoDup l.*1) as Hnd by (unfold l; by rewrite <- list_fmap_compose).
  assert (range (list_to_map l) ≡ₚ l) as Hp. { rewrite (Hrange _). by apply map_to_list_to_map. }
  assert (Forall (λ nv : string * string, token nv.1 = true ∧ ContainsAny nv.2 (String CR (String LF (String NUL ""))) = false ∧ ToLower nv.1 = nv.1) l) as Hl.
  { unfold l. apply Forall_fmap. eapply Forall_impl; [exact Ht|]. intros [n v] [Hn1 Hv]. cbn in *. by rewrite token_lower, ToLower_idem. }
  assert ((λ nv : string * string, (ToLower nv.1, nv.2)) <$> l = l) as Hid.
  { clear -Hl. induction Hl as [|[n v] l (_ & _ & E) _ IH]; [done|]. cbn in *. by rewrite E, IH. }
  split_and!.
  - rewrite Hp. eapply Forall_impl; [exact Hl|]. by intros ? (? & ? & _).
  - rewrite Hp. assert ((λ nv : string * string, ToLower nv.1) <$> l = l.*1) as ->; [|done].
    rewrite <- Hid at 2. by rewrite <- list_fmap_compose.
  - rewrite Hp. by apply Forall_true.
  - rewrite ?(right_id_L ∅ (∪)). apply list_to_map_proper; [done|]. by rewrite Hp, Hid.
Qed.

Lemma validateRule_idem r path r' path' :
  validateRule range r path = Ok r' → validateRule range r' path' = Ok r'.
Proof.
  unfold validateRule. cbv zeta. intros H. open_ok H. apply validateSelector_spec in Hb0 as [-> Hs].
  pose proof (validateFault_sound _ _ _ Hb1) as Hf.
  set (f := if (f_Action (r_Fault r) =s "respond") && negb (is_some (f_Body (r_Fault r))) then set_Body (Some "") (r_Fault r) else r_Fault r) in *.
  assert (http_fault f) as Hf'.
  { unfold f. destruct ((f_Action _ =s _) && _) eqn:E; [|done]. bool_hyps. destruct (r_Fault r); cbn in *. subst. inversion Hf; subst. by apply hf_respond. }
  assert ((f_Action f =s "respond") && negb (is_some (f_Body f)) = false) as Hb2.
  { unfold f. destruct ((f_Action (r_Fault r) =s _) && _) eqn:E; [|done]. by rewrite andb_false_r. }
  injection H as <-. rule_fields. rewrite Hg, Hg0, Hg1, Hg2. cbn [guard_err mbind res_bind].
  rewrite (headers_idem _ _ _ _ Hb). cbn [mbind res_bind].
  rewrite validateSelector_idem by done.
  cbn [mbind res_bind]. rewrite validateFault_complete by done. cbn [mbind res_bind]. by rewrite Hb2.
Qed.

Lemma empty_matcher_headers m h : empty_matcher m = true → default ∅ h = ∅ → empty_matcher (set_Headers h m) = true.
Proof. unfold empty_matcher, header_map. cbn. intros H ->. bool_hyps. by rewrite H, H3, H2, H1. Qed.

Lemma validateCommitRule_idem r path r' path' :
  validateCommitRule range r path = Ok r' → validateCommitRule range r' path' = Ok r'.
Proof.
  unfold validateCommitRule. intros H. open_ok H. simplify_eq. rename x into copy.
  assert (m_Headers (r_Match copy) = Some ∅) as Hh.
  { unfold validateRule in Hb. cbv zeta in Hb. open_ok Hb. simplify_eq. cbn. unfold empty_matcher in Hg. bool_hyps.
    cbn in Hb0. rewrite H0 in Hb0. apply normalize_headers_Ok in Hb0 as (_ & _ & _ & ->).
    assert (range ∅ = []) as ->; [|done]. apply Permutation_nil_r. rewrite (Hrange _). by rewrite map_to_list_empty. }
  bool_hyps. cbn [r_Match r_Fault set_Select set_Match set_Headers]. rewrite empty_matcher_headers by (by rewrite ?Hh).
    cbn [negb guard_err mbind res_bind]. rewrite (proj2 (str_eq_true _ _) Hg0). cbn [negb guard_err mbind res_bind].
  unfold validateRule in Hb |- *. cbv zeta in *. rule_fields. open_ok Hb. simplify_eq. rule_fields.
  rewrite Hg1, Hg2, Hg3, Hg4. cbn [guard_err mbind res_bind]. rewrite (headers_idem _ _ _ _ Hb0). cbn [mbind res_bind].
  apply validateSelector_spec in Hb1 as [-> Hs].
  rewrite validateSelector_idem by done.
  cbn [mbind res_bind]. rewrite (validateFault_complete (set_Phase _ _)) by (by eapply validateFault_sound).
  done.
Qed.

Lemma validateTCPRule_idem r path r' path' : validateTCPRule r path = Ok r' → validateTCPRule r' path' = Ok r'.
Proof.
  intros (Hm & Hs & Hf & ->)%validateTCPRule_sound. rewrite validateTCPRule_complete; [|done| |done].
  - cbn. by rewrite normalize_selector_idem.
  - cbn in *. by rewrite normalize_selector_idem.
Qed.

Lemma proxy_rule_idem protocol path j r r' path' j' :
  validate_proxy_rule range protocol path j r = Ok r' → validate_proxy_rule range protocol path' j' r' = Ok r'.
Proof.
  intros H. pose proof H as H'. unfold validate_proxy_rule in H'. open_ok H'.
  assert (r_ID r' = r_ID r ∧ m_Service (r_Match r') = m_Service (r_Match r) ∧ f_Action (r_Fault r') = f_Action (r_Fault r)) as (Ei & Es & Ea).
  { destruct (is_db protocol).
    - unfold validateCommitRule in H'. open_ok H'. by simplify_eq.
    - destruct (protocol =s "tcp"); [apply validateTCPRule_sound in H' as (_ & _ & _ & ->); done|].
      unfold validateRule in H'. cbv zeta in H'. open_ok H'. simplify_eq. cbn. by destruct (_ && _). }
  unfold validate_proxy_rule. rewrite Ei, Es, Ea, Hg, Hg0, Hg1, Hg2. cbn [guard_err mbind res_bind].
  destruct (is_db protocol); [by eapply validateCommitRule_idem|]. destruct (protocol =s "tcp"); [by eapply validateTCPRule_idem|].
  by eapply validateRule_idem.
Qed.
End rules.

(** ** Addresses *)

Lemma port_ok_range n : port_ok n = true → 0 < n < 2 ^ 63.
Proof. unfold port_ok. intros H. bool_hyps. lia. Qed.

Section env.
Context (env : Env) (Henv : env_laws env).
#[local] Set Default Proof Using "Type*".

Lemma host_parts host :
  hostname (ParseIP env) host = true →
  all_chars host_char (ToLower host) = true ∧ hostname (ParseIP env) (ToLower host) = true.
Proof.
  intros Hh. assert (hostname (ParseIP env) (ToLower host) = true) as Hl by (by apply hostname_lower; [apply (law_ip_lower env Henv)|]).
  split; [|done]. by apply (hostname_chars (ParseIP env)); [apply (law_ip_chars env Henv)|].
Qed.

Lemma listen_idem listen path l path' : normalize_listen env listen path = Ok l → normalize_listen env l path' = Ok l.
Proof.
  unfold normalize_listen. destruct (SplitHostPort listen) as [[host port]|]; [|done]. destruct (Atoi port) as [n|]; [|done].
  intros H. open_ok H. injection H as <-. apply orb_false_iff in Hg as [Hn Hh]. bool_hyps.
  set (host' := if negb (nonempty host) then "127.0.0.1" else host) in *.
  assert (hostname (ParseIP env) host' = true ∧ nonempty (ToLower host') = true) as [Hh' Hne].
  { unfold host'. destruct (nonempty host) eqn:E; cbn in *; [bool_hyps; split; [done|by destruct host]|].
    split; [|done]. unfold hostname. by rewrite orb_true_r. }
  pose proof (port_ok_range _ Hn) as Hr. destruct (host_parts _ Hh') as [Hc Hl].
  rewrite Split_Join_HostPort by first [done|apply Itoa_digits; lia]. rewrite Atoi_Itoa by done. rewrite Hn, Hl, Hne. cbn.
  by rewrite ToLower_idem.
Qed.

Lemma authority_port host n : 0 < n → JoinHostPort host (Itoa n) = authority host (Itoa n).
Proof. intros Hn. destruct (Itoa_cons n Hn) as (c & s & E). unfold authority. by rewrite E. Qed.

(** The accessors of an origin validation wrote. *)
Lemma origin_parts scheme host port :
  hostname (ParseIP env) host = true → all_chars is_digit port = true →
  u_Hostname (origin_url scheme (authority (ToLower host) port)) = ToLower host ∧
  u_Port (origin_url scheme (authority (ToLower host) port)) = port.
Proof.
  intros Hh Hp. destruct (host_parts _ Hh) as [Hc _]. unfold u_Hostname, u_Port. cbn [origin_url u_Host].
  by rewrite split_authority.
Qed.

Lemma tcp_idem p listen path up p' path' :
  tcp_upstream env p listen path = Ok up → p_Upstream p' = up → p_TLS p' = p_TLS p → p_UpstreamTLS p' = p_UpstreamTLS p →
  tcp_upstream env p' listen path' = Ok up.
Proof.
  intros H Eu Et Eut. unfold tcp_upstream in *. destruct (url_Parse env (p_Upstream p)) as [u|]; [|done]. open_ok H.
  destruct (Atoi (u_Port u)) as [n|]; [|done]. open_ok H. injection H as H. bool_hyps.
  pose proof (port_ok_range _ Hg0) as Hr. destruct (host_parts _ H4) as [_ Hl].
  rewrite authority_port in H, Hg1 by lia.
  assert (url_Parse env up = Some (origin_url "tcp" (authority (ToLower (u_Hostname u)) (Itoa n)))) as Hurl.
  { rewrite <- H. apply (law_url env Henv "tcp"); [left|done|apply Itoa_digits; lia]. }
  rewrite Eu, Hurl.
  destruct (origin_parts "tcp" (u_Hostname u) (Itoa n) H4 (Itoa_digits n ltac:(lia))) as [-> ->]. cbn [origin_url u_Scheme u_User u_Opaque u_Path u_RawQuery u_ForceQuery u_Fragment].
  rewrite Hl, Atoi_Itoa, Hg0 by done. rewrite Et, Eut, ToLower_idem.
  destruct (Itoa_cons n ltac:(lia)) as (c & s & E). rewrite authority_port by lia. rewrite H0, H1. 
  replace (nonempty (Itoa n)) with true by (by rewrite E). cbn.
  rewrite (proj2 (str_eq_false _ _) Hg1). cbn. by rewrite H.
Qed.

Lemma authority_plain host port :
  hostname (ParseIP env) host = true → all_chars is_digit port = true → ContainsByte (authority (ToLower host) port) "#" = false.
Proof.
  intros Hh Hp. destruct (host_parts _ Hh) as [Hc _]. pose proof (host_char_excludes _ "#" Hc ltac:(rewrite !elem_of_cons; tauto)) as E1.
  pose proof (digit_excludes _ "#" Hp ltac:(rewrite !elem_of_cons; tauto)) as E2.
  unfold authority, JoinHostPort. by destruct (nonempty port), (ContainsByte (ToLower host) ":"); rewrite ?ContainsByte_app, ?E1, ?E2.
Qed.

Lemma scheme_known protocol scheme : validUpstreamScheme protocol scheme = true → scheme ∈ upstream_schemes.
Proof.
  unfold validUpstreamScheme, upstream_schemes. intros H. destruct (_ || _) eqn:E.
  - apply orb_true_iff in E as [E|E]; apply str_eq_true in E as ->; apply orb_true_iff in H as [H|H]; apply str_eq_true in H as ->;
      rewrite !elem_of_cons; tauto.
  - apply orb_true_iff in H as [H|H]; apply str_eq_true in H as ->; rewrite !elem_of_cons; tauto.
Qed.

(** The port an origin is written with: none, or a number that is not the default
    of its scheme. *)
Definition origin_port (db : bool) (scheme port : string) : Prop :=
  (db = false ∧ port = "") ∨
  (∃ n, port = Itoa n ∧ port_ok n = true ∧
    ((Itoa n =s "80") && (scheme =s "http")) || ((Itoa n =s "443") && (scheme =s "https")) = false).

Lemma db_scheme p scheme :
  is_db p = true → validUpstreamScheme p scheme = true → (scheme =s "http") = false ∧ (scheme =s "https") = false.
Proof.
  unfold is_db, validUpstreamScheme. intros Hdb. rewrite Hdb.
  intros [H|H]%orb_true_iff; apply str_eq_true in H as ->; by apply orb_true_iff in Hdb as [->%str_eq_true| ->%str_eq_true].
Qed.

Lemma origin_inv p path up :
  origin_upstream env p path = Ok up →
  ∃ scheme host port, up = scheme +:+ "://" +:+ authority (ToLower host) port ∧
    validUpstreamScheme (p_Protocol p) scheme = true ∧ hostname (ParseIP env) host = true ∧
    origin_port (is_db (p_Protocol p)) scheme port.
Proof.
  unfold origin_upstream. destruct (url_Parse env (p_Upstream p)) as [u|]; [|done]. cbv zeta. intros H. open_ok H.
  injection H as <-. bool_hyps. eexists (u_Scheme u), (u_Hostname u), _. split; [done|]. split_and!; [done..|].
  clear - Hb H. destruct (is_db (p_Protocol p)) eqn:Edb; cbn [andb] in Hb.
  - assert (∃ n, x = Itoa n ∧ port_ok n = true) as (n & -> & Hn).
    { set (port := if _ && _ then _ else u_Port u) in Hb. destruct (nonempty port) eqn:Ep.
      - destruct (Atoi port) as [n|]; [|done]. open_ok Hb. bool_hyps. simplify_eq. eauto.
      - destruct (HasSuffix (u_Host u) ":") eqn:Eh; [done|]. exfalso. unfold port in Ep.
        destruct (nonempty (u_Port u)) eqn:Eu; cbn in Ep; [congruence|]. by destruct (str_eq _ "mysql"). }
    destruct (db_scheme _ _ Edb H) as [E1 E2]. rewrite E1, E2, !andb_false_r. right. exists n. by rewrite E1, E2, !andb_false_r.
  - destruct (nonempty (u_Port u)) eqn:En.
    + destruct (Atoi (u_Port u)) as [n|]; [|done]. open_ok Hb. bool_hyps. simplify_eq.
      destruct (_ || _) eqn:E; [by left|right]. eauto.
    + destruct (HasSuffix (u_Host u) ":"); [done|]. injection Hb as <-. apply nonempty_false in En as ->. left. split; [done|]. by destruct (_ || _).
Qed.

Lemma origin_idem p path up p' path' :
  origin_upstream env p path = Ok up → p_Upstream p' = up → p_Protocol p' = p_Protocol p →
  origin_upstream env p' path' = Ok up.
Proof.
  intros (scheme & host & port & Hup & Hs & Hh & Hport)%origin_inv Eu Ep. unfold origin_upstream. rewrite Eu, Ep, Hup. cbv zeta.
  assert (all_chars is_digit port = true) as Hd.
  { destruct Hport as [[_ ->]|(n & -> & Hn & _)]; [done|]. apply Itoa_digits. apply port_ok_range in Hn. lia. }
  destruct (host_parts _ Hh) as [_ Hl]. rewrite (law_url env Henv _ _ _ (scheme_known _ _ Hs) Hl Hd).
  destruct (origin_parts scheme host port Hh Hd) as [-> ->].
  cbn [origin_url u_Scheme u_User u_Opaque u_Path u_RawQuery u_ForceQuery u_Fragment u_Host].
  rewrite Hs, Hl, authority_suffix, ToLower_idem by done.
  assert (ContainsByte (scheme +:+ "://" +:+ authority (ToLower host) port) "#" = false) as ->.
  { rewrite !ContainsByte_app, authority_plain, orb_false_r by done. clear -Hs. apply scheme_known in Hs. unfold upstream_schemes in Hs.
    repeat (apply elem_of_cons in Hs as [->|Hs]; [done|]). by apply not_elem_of_nil in Hs. }
  cbn [negb orb andb nonempty guard_err mbind res_bind]. replace (nonempty "") with false by done. cbn [andb orb guard_err mbind res_bind].
  destruct Hport as [[-> ->]|(n & -> & Hn & Hdef)].
  - done.
  - destruct (Itoa_cons n) as (c & s & E); [apply port_ok_range in Hn; lia|]. replace (nonempty (Itoa n)) with true by (by rewrite E).
    rewrite andb_false_r. cbn [negb andb]. rewrite E, <- E. replace (nonempty (Itoa n)) with true by (by rewrite E).
    rewrite Atoi_Itoa, Hn by (by apply port_ok_range). cbn [negb guard_err mbind res_bind]. rewrite Hdef.
    unfold authority. replace (nonempty (Itoa n)) with true by (by rewrite E). done.
Qed.

(** ** Certificate files *)

Lemma IsAbs_nonempty s : IsAbs s = true → nonempty s = true.
Proof. by destruct s. Qed.

Lemma IsAbs_app a b : IsAbs a = true → IsAbs (a +:+ b) = true.
Proof.
  unfold IsAbs. intros [rest ->]%HasPrefix_split. rewrite <- append_assoc. apply HasPrefix_app.
Qed.

(** A name as tls_read leaves it. *)
Definition settled (name : string) : Prop := IsAbs name = true ∧ Clean env name = name.

Lemma tls_read_settled base name field D n data D' :
  IsAbs base = true → tls_read env base name field D = Ok (n, data, D') → settled n.
Proof.
  intros Hb. unfold tls_read. intros H. open_ok H. destruct (ReadFile _ _); [|done]. simplify_eq. split; [|apply (law_Clean_idem env Henv)].
  apply (law_Clean_abs env Henv). destruct (IsAbs name) eqn:Ea; [done|]. cbn. destruct base as [|c base]; [done|]. destruct name as [|c' name]; [done|].
  apply (law_Clean_abs env Henv). by apply IsAbs_app.
Qed.

Lemma tls_read_idem base name field D n data D' base' field' :
  IsAbs base = true → tls_read env base name field D = Ok (n, data, D') → tls_read env base' n field' D = Ok (n, data, D').
Proof.
  intros Hb H. destruct (tls_read_settled _ _ _ _ _ _ _ Hb H) as [Ha Hc]. unfold tls_read in *. open_ok H.
  destruct (ReadFile env (Clean env _)) as [d|] eqn:Er; [|done]. injection H as En -> <-. rewrite En in *. rewrite Ha. cbn [negb]. rewrite Hc, Er.
  apply IsAbs_nonempty in Ha. unfold nonempty in Ha. apply negb_true_iff in Ha. by rewrite Ha.
Qed.

Lemma ca_loop_field fuel field field' data count :
  ca_loop env fuel field data count = Ok tt → ca_loop env fuel field' data count = Ok tt.
Proof.
  revert data count. induction fuel as [|fuel IH]; intros data count; [done|]. cbn [ca_loop]. destruct data as [|b data].
  - by destruct (count =? 0).
  - destruct (pem_Decode env _) as [[[ty block] rest]|]; [|done]. destruct (negb (ty =s _)); [done|]. destruct (negb (ParseCertificate _ _)); [done|]. apply IH.
Qed.

Lemma validateCA_idem base name field D n D' base' field' :
  IsAbs base = true → validateCA env base name field D = Ok (n, D') → settled n ∧ validateCA env base' n field' D = Ok (n, D').
Proof.
  intros Hb H. unfold validateCA in *. open_ok H. destruct x as [[n' data] D1]. open_ok H. destruct x. simplify_eq. split; [by eapply tls_read_settled|].
  rewrite (tls_read_idem _ _ _ _ _ _ _ _ _ Hb Hb0). cbn [mbind res_bind]. by erewrite ca_loop_field.
Qed.

(** A CA file that may be left out. *)
Lemma optional_CA_idem base name field D n D' base' field' :
  IsAbs base = true →
  (if nonempty name then validateCA env base name field D else Ok (name, D)) = Ok (n, D') →
  nonempty n = nonempty name ∧ (if nonempty n then validateCA env base' n field' D else Ok (n, D)) = Ok (n, D').
Proof.
  intros Hb. destruct (nonempty name) eqn:En.
  - intros H. destruct (validateCA_idem _ _ _ _ _ _ base' field' Hb H) as [[Ha _] Hv]. rewrite (IsAbs_nonempty _ Ha). by split.
  - intros [= <- <-]. by rewrite En.
Qed.

Lemma listener_tls_idem l base path D l' D' base' path' :
  IsAbs base = true → validate_listener_tls env l base path D = Ok (l', D') →
  nonempty (lt_ClientCAFile l') = nonempty (lt_ClientCAFile l) ∧ validate_listener_tls env l' base' path' D = Ok (l', D').
Proof.
  intros Hb H. unfold validate_listener_tls in *. open_ok H. destruct x as [[cf c] D1]. open_ok H. destruct x as [[kf k] D2]. open_ok H.
  destruct x as [ca D3]. injection H as <- <-. cbn [lt_CertFile lt_KeyFile lt_ClientCAFile].
  destruct (optional_CA_idem _ _ _ _ _ _ base' (path' +:+ ".tls.client_ca_file") Hb Hb2) as [E Hca]. split; [done|].
  rewrite (tls_read_idem _ _ _ _ _ _ _ _ _ Hb Hb0). cbn [mbind res_bind]. rewrite (tls_read_idem _ _ _ _ _ _ _ _ _ Hb Hb1). cbn [mbind res_bind].
  rewrite Hg. cbn [guard_err mbind res_bind]. by rewrite Hca.
Qed.

Lemma upstream_tls_idem p u base path D u' D' p' base' path' :
  IsAbs base = true → validate_upstream_tls env p u base path D = Ok (u', D') → p_Upstream p' = p_Upstream p →
  nonempty (ut_CertFile u') || nonempty (ut_KeyFile u') = nonempty (ut_CertFile u) || nonempty (ut_KeyFile u) ∧
  validate_upstream_tls env p' u' base' path' D = Ok (u', D').
Proof.
  intros Hb H Eu. unfold validate_upstream_tls in *. open_ok H. rewrite Eu, Hg. cbn [guard_err mbind res_bind]. destruct x as [ca D1].
  destruct (optional_CA_idem _ _ _ _ _ _ base' (path' +:+ ".upstream_tls.ca_file") Hb Hb0) as [E Hca].
  destruct (_ || _) eqn:Eo.
  - open_ok H. destruct x as [[cf c] D2]. open_ok H. destruct x as [[kf k] D3]. open_ok H. injection H as <- <-. cbn [ut_CAFile ut_CertFile ut_KeyFile].
    destruct (tls_read_settled _ _ _ _ _ _ _ Hb Hb1) as [Ac _]. rewrite (IsAbs_nonempty _ Ac). split; [done|]. cbn [negb andb orb guard_err mbind res_bind].
    rewrite andb_false_r. cbn [andb guard_err mbind res_bind]. rewrite Hca. cbn [mbind res_bind].
    rewrite (tls_read_idem _ _ _ _ _ _ _ _ _ Hb Hb1). cbn [mbind res_bind]. rewrite (tls_read_idem _ _ _ _ _ _ _ _ _ Hb Hb2). cbn [mbind res_bind]. by rewrite Hg1.
  - injection H as <- <-. cbn [ut_CAFile ut_CertFile ut_KeyFile]. rewrite Eo. split; [done|]. rewrite E, Hg0. cbn [guard_err mbind res_bind]. rewrite E in Hca. by rewrite Hca.
Qed.

Lemma validateTLS_idem p base path D p' D' rules base' path' :
  IsAbs base = true → validateTLS env p base path D = Ok (p', D') →
  validateTLS env (set_Rules rules p') base' path' D = Ok (set_Rules rules p', D').
Proof.
  intros Hb H. unfold validateTLS in H. open_ok H. destruct x as [l D1]. open_ok H. destruct x as [u D2]. injection H as <- <-.
  assert (is_some l = is_some (p_TLS p) ∧
    match l with Some t => nonempty (lt_ClientCAFile t) | None => false end = match p_TLS p with Some t => nonempty (lt_ClientCAFile t) | None => false end ∧
    match l with Some t => '(t, digests) ← validate_listener_tls env t base' path' D; Ok (Some t, digests) | None => Ok (None, D) end = Ok (l, D1)) as (El & Ec & Hl).
  { destruct (p_TLS p) as [t|]; [|by simplify_eq]. open_ok Hb0. destruct x as [t' D3]. injection Hb0 as <- <-.
    destruct (listener_tls_idem _ _ _ _ _ _ base' path' Hb Hb2) as [E Hv]. split_and!; [done|done|]. by rewrite Hv. }
  unfold validateTLS. cbn [set_Rules p_ID p_Protocol p_UpstreamProtocol p_Listen p_Upstream p_TLS p_UpstreamTLS p_Rules].
  set (p2 := {| p_ID := p_ID p; p_Protocol := p_Protocol p; p_UpstreamProtocol := p_UpstreamProtocol p; p_Listen := p_Listen p;
                p_Upstream := p_Upstream p; p_TLS := l; p_UpstreamTLS := u; p_Rules := rules |}).
  assert (match u with Some u => nonempty (ut_CertFile u) || nonempty (ut_KeyFile u) | None => false end =
          match p_UpstreamTLS p with Some u => nonempty (ut_CertFile u) || nonempty (ut_KeyFile u) | None => false end ∧
    match u with Some u => '(u, digests) ← validate_upstream_tls env p2 u base' path' D1; Ok (Some u, digests) | None => Ok (None, D1) end = Ok (u, D2)) as (Ek & Hu).
  { destruct (p_UpstreamTLS p) as [t|]; [|by simplify_eq]. open_ok Hb1. destruct x as [t' D3]. injection Hb1 as <- <-.
    destruct (upstream_tls_idem p t base path D1 t' D3 p2 base' path' Hb Hb2) as [E Hv]; [done|]. split; [done|]. by rewrite Hv. }
  rewrite Ec, Ek, El, Hg, Hg0. cbn [guard_err mbind res_bind]. rewrite Hl. cbn [mbind res_bind].
  lazymatch goal with |- context [validate_upstream_tls env ?q] => change q with p2 end. by rewrite Hu.
Qed.

Lemma upstream_protocol_idem p path proto p' path' :
  known_protocol (p_Protocol p) = true → upstream_protocol p path = Ok proto → p_Protocol p' = p_Protocol p → p_UpstreamProtocol p' = proto →
  upstream_protocol p' path' = Ok proto.
Proof.
  intros Hk H Ep Eu. unfold upstream_protocol in *. cbv zeta in *. rewrite Ep, Eu. open_ok H. injection H as H. rewrite H in *.
  assert (nonempty proto = true) as ->.
  { rewrite <- H. unfold known_protocol in Hk. bool_hyps. destruct (nonempty (p_UpstreamProtocol p)) eqn:E; [done|]. cbn.
    repeat (apply elem_of_cons in Hk as [->|Hk]; [done|]). by apply not_elem_of_nil in Hk. }
  cbn [negb]. by rewrite Hg, Hg0.
Qed.

Section proxies.
Context (range : gmap string string → list (string * string)) (Hrange : enumerates range).

Lemma rules_idem protocol path i l l' path' :
  mapi_res (validate_proxy_rule range protocol path) i l = Ok l' → mapi_res (validate_proxy_rule range protocol path') i l' = Ok l'.
Proof.
  revert i l'. induction l as [|r l IH]; intros i l' H; cbn in H; [by simplify_eq|]. open_ok H. simplify_eq. cbn [mapi_res].
  rewrite (proxy_rule_idem range Hrange _ _ _ _ _ path' i Hb). cbn [mbind res_bind]. by rewrite (IH _ _ Hb0).
Qed.

Lemma set_network_same p : set_network (p_UpstreamProtocol p) (p_Listen p) (p_Upstream p) p = p.
Proof. by destruct p. Qed.

Lemma set_Rules_same p : set_Rules (p_Rules p) p = p.
Proof. by destruct p. Qed.

Lemma proxy_idem base i p st p' st' base' i' :
  IsAbs base = true → validate_proxy env range base i p st = Ok (p', st') → validate_proxy env range base' i' p' st = Ok (p', st').
Proof.
  intros Hb H. destruct st as [L D]. unfold validate_proxy in H. cbv zeta in H. open_ok H. destruct x1 as [p1 D1]. open_ok H. injection H as <- <-.
  rename x into proto, x0 into listen, x1 into rules. apply negb_false_iff in Hg0 as Hk.
  assert (p_ID p1 = p_ID p ∧ p_Protocol p1 = p_Protocol p ∧ p_UpstreamProtocol p1 = proto ∧ p_Listen p1 = listen) as (Ei & Ep & Eu & El).
  { destruct (p_Protocol p =s "tcp"); open_ok Hb2; [by simplify_eq|]. unfold validateTLS in Hb2. open_ok Hb2. destruct x0 as [l D2]. open_ok Hb2.
    destruct x0 as [u D3]. by simplify_eq. }
  unfold validate_proxy. cbv zeta. cbn [set_Rules p_ID p_Protocol p_Listen p_Rules]. rewrite Ei, Ep, El, Hg, Hg0. cbn [guard_err mbind res_bind].
  rewrite (upstream_protocol_idem p _ _ (set_Rules rules p1) _ Hk Hb0) by done. cbn [mbind res_bind].
  rewrite (listen_idem _ _ _ _ Hb1). cbn [mbind res_bind]. rewrite Hg1. cbn [guard_err mbind res_bind].
  assert ((if p_Protocol p =s "tcp"
     then upstream ← tcp_upstream env (set_Rules rules p1) listen ("proxies[" +:+ pretty i' +:+ "]"); Ok (set_network proto listen upstream (set_Rules rules p1), D)
     else upstream ← origin_upstream env (set_Rules rules p1) ("proxies[" +:+ pretty i' +:+ "]");
       validateTLS env (set_network proto listen upstream (set_Rules rules p1)) base' ("proxies[" +:+ pretty i' +:+ "]") D)
     = Ok (set_Rules rules p1, D1)) as Hnet.
  { destruct (p_Protocol p =s "tcp").
    - open_ok Hb2. injection Hb2 as <- <-. rewrite (tcp_idem p listen _ x (set_Rules rules (set_network proto listen x p)) _ Hb4) by done. done.
    - open_ok Hb2. assert (p_Upstream p1 = x) as Ex.
      { unfold validateTLS in Hb2. open_ok Hb2. destruct x0 as [l D2]. open_ok Hb2. destruct x0 as [u D3]. injection Hb2 as <- _. done. }
      rewrite (origin_idem p _ x (set_Rules rules p1) _ Hb4) by done. cbn [mbind res_bind].
      assert (set_network proto listen x (set_Rules rules p1) = set_Rules rules p1) as ->; [|by eapply validateTLS_idem].
      rewrite <- Eu, <- El, <- Ex. apply (set_network_same (set_Rules rules p1)). }
  rewrite Hnet. cbn [mbind res_bind set_Rules p_Protocol p_Rules]. rewrite Ep in Hb3 |- *. rewrite (rules_idem _ _ _ _ _ _ Hb3). done.
Qed.

Lemma proxies_idem base i l st l' st' base' :
  IsAbs base = true → mapi_state (validate_proxy env range base) i l st = Ok (l', st') →
  mapi_state (validate_proxy env range base') i l' st = Ok (l', st').
Proof.
  intros Hb. revert i st l'. induction l as [|p l IH]; intros i st l' H; cbn in H; [by simplify_eq|]. open_ok H. destruct x as [p' st1]. open_ok H.
  destruct x as [l1 st2]. simplify_eq. cbn [mapi_state]. rewrite (proxy_idem _ _ _ _ _ _ base' i Hb Hb0). cbn [mbind res_bind].
  by rewrite (IH _ _ _ Hb1).
Qed.

(** Validating what validation returned, from any directory, changes nothing and
    finds the same file digests. *)
Theorem validate_idem c base c' D base' :
  IsAbs base = true → validate env range c base = Ok (c', D) → validate env range c' base' = Ok (c', D).
Proof.
  intros Hb H. unfold validate in H. open_ok H. destruct x as [ps st]. injection H as <- <-. unfold validate.
  cbn [c_APIVersion c_Runtime c_Proxies c_Seed]. rewrite Hg, Hg0, Hg1. cbn [guard_err mbind res_bind].
  rewrite bool_decide_false. 2: { intros ->. bool_hyps. by destruct (c_Proxies c); [|cbn in Hb0; open_ok Hb0; destruct x; open_ok Hb0; destruct x]. }
  cbn [guard_err mbind res_bind]. by rewrite (proxies_idem _ _ _ _ _ _ base' Hb Hb0).
Qed.
End proxies.
End env.

(** ** Documents *)

Section documents.
Context (fs : Files) (range : gmap string string → list (string * string)).
Context (Henv : env_laws (fs_env fs)).
#[local] Set Default Proof Using "Type + Henv".
Let env := fs_env fs.

(** A file name that no directory changes. *)
Definition fixed_name (name : string) : bool := negb (nonempty name) || IsAbs name.
Definition fixed_names (p : Proxy) : bool :=
  match p_TLS p with
  | Some t => fixed_name (lt_CertFile t) && fixed_name (lt_KeyFile t) && fixed_name (lt_ClientCAFile t)
  | None => true
  end &&
  match p_UpstreamTLS p with
  | Some u => fixed_name (ut_CAFile u) && fixed_name (ut_CertFile u) && fixed_name (ut_KeyFile u)
  | None => true
  end.

Lemma settled_fixed name : settled env name → fixed_name name = true.
Proof. intros [Ha _]. unfold fixed_name. by rewrite Ha, orb_true_r. Qed.

Lemma optional_fixed base name field D n D' :
  IsAbs base = true → (if nonempty name then validateCA env base name field D else Ok (name, D)) = Ok (n, D') → fixed_name n = true.
Proof.
  intros Hb. destruct (nonempty name) eqn:En; [|intros [= <- <-]; unfold fixed_name; by rewrite En].
  intros Hv. destruct (validateCA_idem env Henv _ _ _ _ _ _ base field Hb Hv) as [Hs _]. by apply settled_fixed.
Qed.

Lemma validateTLS_fixed p base path D p' D' : IsAbs base = true → validateTLS env p base path D = Ok (p', D') → fixed_names p' = true.
Proof.
  intros Hb Hv. unfold validateTLS in Hv. open_ok Hv. destruct x as [l D1]. open_ok Hv. destruct x as [u D2]. injection Hv as <- <-.
  unfold fixed_names. cbn [p_TLS p_UpstreamTLS]. apply andb_true_iff. split.
  - destruct (p_TLS p) as [t|]; [|by simplify_eq]. open_ok Hb0. destruct x as [t' D3]. injection Hb0 as <- <-.
    unfold validate_listener_tls in Hb2. open_ok Hb2. destruct x as [[cf c] D4]. open_ok Hb2. destruct x as [[kf k] D5]. open_ok Hb2.
    destruct x as [ca D6]. injection Hb2 as <- <-. cbn [lt_CertFile lt_KeyFile lt_ClientCAFile].
    rewrite (settled_fixed cf) by (by eapply tls_read_settled). rewrite (settled_fixed kf) by (by eapply tls_read_settled). by eapply optional_fixed.
  - destruct (p_UpstreamTLS p) as [t|]; [|by simplify_eq]. open_ok Hb1. destruct x as [t' D3]. injection Hb1 as <- <-.
    unfold validate_upstream_tls in Hb2. open_ok Hb2. destruct x as [ca D4]. assert (fixed_name ca = true) as Hca by (by eapply optional_fixed).
    destruct (nonempty (ut_CertFile t) || nonempty (ut_KeyFile t)) eqn:Eo.
    + open_ok Hb2. destruct x as [[cf c] D5]. open_ok Hb2. destruct x as [[kf k] D6]. open_ok Hb2. injection Hb2 as <- <-. cbn [ut_CAFile ut_CertFile ut_KeyFile].
      rewrite Hca, (settled_fixed cf) by (by eapply tls_read_settled). by rewrite (settled_fixed kf) by (by eapply tls_read_settled).
    + injection Hb2 as <- <-. cbn [ut_CAFile ut_CertFile ut_KeyFile]. apply orb_false_iff in Eo as [E1 E2]. unfold fixed_name in *.
      by rewrite Hca, E1, E2.
Qed.

Lemma validate_fixed c base c' D :
  IsAbs base = true → validate env range c base = Ok (c', D) → Forall (λ p, fixed_names p = true) (c_Proxies c').
Proof.
  intros Hb Hv. unfold validate in Hv. open_ok Hv. destruct x as [ps st]. injection Hv as <- <-. cbn [c_Proxies].
  eapply (mapi_state_Ok (λ _, True)) in Hb0 as (_ & Hall & _); [exact Hall|done|]. clear Hg Hg0 Hg1 Hg2. intros i p [L D] p' st' _ Hp. split; [done|].
  unfold validate_proxy in Hp. cbv zeta in Hp. open_ok Hp. destruct x1 as [p1 D1]. open_ok Hp. injection Hp as <- <-.
  change (fixed_names (set_Rules x1 p1)) with (fixed_names p1).
  match goal with Hm : (if _ =s "tcp" then _ else _) = Ok _ |- _ => rename Hm into Hnet end.
  destruct (p_Protocol p =s "tcp"); rewrite res_bind_Ok in Hnet; destruct Hnet as (up & Hup & Hnet); [|by eapply validateTLS_fixed].
  injection Hnet as <- <-. unfold tcp_upstream in Hup. destruct (url_Parse _ _); [|done]. open_ok Hup. destruct (Atoi _); [|done]. open_ok Hup.
  match goal with Hs : is_some (p_TLS p) || _ = false |- _ => apply orb_false_iff in Hs as [E1 E2] end.
  unfold fixed_names. cbn [set_network p_TLS p_UpstreamTLS]. by destruct (p_TLS p), (p_UpstreamTLS p).
Qed.

Lemma resolve_fixed src name : fixed_name name = true → resolve fs src name = name.
Proof. unfold fixed_name, resolve. by destruct (nonempty name), (IsAbs name). Qed.

Lemma resolve_proxy_fixed src p : fixed_names p = true → resolve_proxy fs src p = p.
Proof.
  unfold fixed_names. intros Hp. apply andb_true_iff in Hp as [H1 H2]. destruct p as [? ? ? ? ? [[]|] [[]|] ?]; unfold resolve_proxy; cbn in *; bool_hyps;
    by rewrite ?resolve_fixed by done.
Qed.

Lemma check_rules_fresh src j l rules :
  NoDup (r_ID <$> l) → Forall (λ r, rules !! r_ID r = None) l → check_rules src j l rules = Ok tt.
Proof.
  revert j rules. induction l as [|r l IH]; intros j rules Hn Hf; [done|]. cbn [check_rules]. rewrite fmap_cons in Hn.
  apply NoDup_cons in Hn as [Hr Hn]. apply Forall_cons in Hf as [Hr' Hf]. rewrite Hr'. apply IH; [done|].
  apply Forall_forall. intros r2 Hin. rewrite lookup_insert_ne; [by apply (proj1 (Forall_forall _ _) Hf)|].
  intros E. apply Hr. rewrite E. by apply list_elem_of_fmap_2.
Qed.

Lemma check_proxies_fresh l sources ids :
  length sources = length l → NoDup (p_ID <$> l) → Forall (λ p, ids !! p_ID p = None) l →
  Forall (λ p, NoDup (r_ID <$> p_Rules p)) l → Forall (λ p, fixed_names p = true) l →
  check_proxies fs l sources ids = Ok l.
Proof.
  revert sources ids. induction l as [|p l IH]; intros [|src sources] ids Hl Hn Hi Hr Hx; try done. cbn [check_proxies].
  rewrite fmap_cons in Hn. apply NoDup_cons in Hn as [Hp Hn]. apply Forall_cons in Hi as [Hi' Hi]. apply Forall_cons in Hr as [Hr' Hr].
  apply Forall_cons in Hx as [Hx' Hx]. destruct (ids !! p_ID p); [done|].
  rewrite check_rules_fresh; [|done|by apply Forall_true]. cbn [mbind res_bind].
  rewrite IH; [|by injection Hl|done| |done|done]; [by cbn; rewrite resolve_proxy_fixed|].
  apply Forall_forall. intros q Hin. rewrite lookup_insert_ne; [by apply (proj1 (Forall_forall _ _) Hi)|].
  intros E. apply Hp. rewrite E. by apply list_elem_of_fmap_2.
Qed.

Lemma Dir_abs root : IsAbs root = true → IsAbs (Dir env root) = true.
Proof.
  intros Ha. apply (law_Clean_abs _ Henv). unfold IsAbs in *. apply HasPrefix_split in Ha as [rest ->].
  destruct (LastIndexByte ("/" +:+ rest) "/") as [i|] eqn:E; [exact (HasPrefix_app "/" (take_str i rest))|].
  change (match LastIndexByte rest "/" with Some i => Some (S i) | None => Some O end = None) in E. by destruct (LastIndexByte rest "/").
Qed.
End documents.
