(* ===== verification/RoundTrip.v ===== *)
(** * A document encoded and parsed again

    Encode writes a nil map of headers as an empty mapping, and Parse makes a map
    for it. Validation treats the two alike, but the fingerprint is a hash of JSON
    text, which does not: null and {}. So the configuration comes back with every
    map made; the restart fingerprint, which covers no rule, is the same; and the
    document is the same one unless a TCP rule came without headers, the only rules
    whose headers validation leaves alone. *)

From S2P Require Import Prelude GoLib GoUtf8 GoRand GoTime Config Validate ValidateSpec NetSpec Decode Load DecodeSpec LoadSpec NormalSpec.
Local Open Scope go_scope.

(** ** Validation does not see whether a map is nil *)

Section rules.
Context (range : gmap string string → list (string * string)).

Lemma validateRule_make r path : validateRule range (make_rule r) path = validateRule range r path.
Proof. done. Qed.

Lemma validateRule_made r path r' : validateRule range r path = Ok r' → make_rule r' = r'.
Proof. unfold validateRule. cbv zeta. intros H. open_ok H. by simplify_eq. Qed.

Lemma validateCommitRule_make r path : validateCommitRule range (make_rule r) path = validateCommitRule range r path.
Proof. done. Qed.

Lemma validateCommitRule_made r path r' : validateCommitRule range r path = Ok r' → make_rule r' = r'.
Proof.
  unfold validateCommitRule. intros H. open_ok H. simplify_eq. unfold validateRule in Hb. cbv zeta in Hb. open_ok Hb. by simplify_eq.
Qed.

Lemma validateTCPRule_make r path r' : validateTCPRule r path = Ok r' → validateTCPRule (make_rule r) path = Ok (make_rule r').
Proof. intros (Hm & Hs & Hf & ->)%validateTCPRule_sound. by rewrite validateTCPRule_complete. Qed.

Lemma proxy_rule_make protocol path j r r' :
  validate_proxy_rule range protocol path j r = Ok r' →
  validate_proxy_rule range protocol path j (make_rule r) = Ok (make_rule r').
Proof.
  unfold validate_proxy_rule. intros H. open_ok H. cbn [make_rule set_Match set_Headers r_ID r_Match r_Fault m_Service].
  rewrite Hg, Hg0, Hg1, Hg2. cbn [guard_err mbind res_bind]. destruct (is_db protocol).
  - rewrite (validateCommitRule_made _ _ _ H). by rewrite <- H, <- validateCommitRule_make.
  - destruct (protocol =s "tcp"); [by apply validateTCPRule_make|].
    rewrite (validateRule_made _ _ _ H). by rewrite <- H, <- validateRule_make.
Qed.

Lemma rules_make protocol path i l l' :
  mapi_res (validate_proxy_rule range protocol path) i l = Ok l' →
  mapi_res (validate_proxy_rule range protocol path) i (make_rule <$> l) = Ok (make_rule <$> l').
Proof.
  revert i l'. induction l as [|r l IH]; intros i l' H; cbn in H; [by simplify_eq|]. open_ok H. simplify_eq. cbn.
  rewrite (proxy_rule_make _ _ _ _ _ Hb). cbn [mbind res_bind]. by rewrite (IH _ _ Hb0).
Qed.

Section proxies.
Context (env : Env).

(** The calls before the rules do not look at them. *)
Lemma validateTLS_rules rules p base path D p' D' :
  validateTLS env p base path D = Ok (p', D') → validateTLS env (set_Rules rules p) base path D = Ok (set_Rules rules p', D').
Proof.
  intros H. unfold validateTLS in H. open_ok H. destruct x as [l D1]. open_ok H. destruct x as [u D2]. injection H as <- <-.
  unfold validateTLS. cbn [set_Rules p_TLS p_UpstreamTLS p_Upstream p_UpstreamProtocol p_Protocol]. rewrite Hg, Hg0. cbn [guard_err mbind res_bind].
  rewrite Hb. cbn [mbind res_bind]. change (validate_upstream_tls env (set_Rules rules p)) with (validate_upstream_tls env p). by rewrite Hb0.
Qed.

Lemma proxy_make base i p st p' st' :
  validate_proxy env range base i p st = Ok (p', st') → validate_proxy env range base i (make_proxy p) st = Ok (make_proxy p', st').
Proof.
  destruct st as [L D]. intros H. unfold validate_proxy in H. cbv zeta in H. open_ok H. destruct x1 as [p1 D1]. open_ok H. injection H as <- <-.
  rename x into proto, x0 into listen, x1 into rules.
  unfold validate_proxy. cbv zeta. unfold make_proxy. set (made := make_rule <$> p_Rules p).
  change (p_ID (set_Rules made p)) with (p_ID p). change (p_Protocol (set_Rules made p)) with (p_Protocol p).
  change (p_Listen (set_Rules made p)) with (p_Listen p). change (upstream_protocol (set_Rules made p)) with (upstream_protocol p).
  rewrite Hg, Hg0. cbn [guard_err mbind res_bind]. rewrite Hb. cbn [mbind res_bind]. rewrite Hb0. cbn [mbind res_bind].
  rewrite Hg1. cbn [guard_err mbind res_bind].
  assert (p_Rules p1 = p_Rules p ∧
    (if p_Protocol p =s "tcp"
     then upstream ← tcp_upstream env (set_Rules made p) listen ("proxies[" +:+ pretty i +:+ "]"); Ok (set_network proto listen upstream (set_Rules made p), D)
     else upstream ← origin_upstream env (set_Rules made p) ("proxies[" +:+ pretty i +:+ "]");
       validateTLS env (set_network proto listen upstream (set_Rules made p)) base ("proxies[" +:+ pretty i +:+ "]") D) = Ok (set_Rules made p1, D1)) as [Er ->].
  { change (tcp_upstream env (set_Rules made p)) with (tcp_upstream env p). change (origin_upstream env (set_Rules made p)) with (origin_upstream env p).
    destruct (p_Protocol p =s "tcp"); open_ok Hb1; rewrite Hb3; cbn [mbind res_bind].
    - by injection Hb1 as <- <-.
    - split; [|by apply (validateTLS_rules made) in Hb1]. unfold validateTLS in Hb1. open_ok Hb1. destruct x0 as [l D2]. open_ok Hb1.
      destruct x0 as [u D3]. by injection Hb1 as <- <-. }
  cbn [mbind res_bind set_Rules p_Rules p_Protocol]. unfold made. rewrite <- Er, (rules_make _ _ _ _ _ Hb2). done.
Qed.

Lemma proxies_make base i l st l' st' :
  mapi_state (validate_proxy env range base) i l st = Ok (l', st') →
  mapi_state (validate_proxy env range base) i (make_proxy <$> l) st = Ok (make_proxy <$> l', st').
Proof.
  revert i st l'. induction l as [|p l IH]; intros i st l' H; cbn in H; [by simplify_eq|]. open_ok H. destruct x as [p' st1]. open_ok H.
  destruct x as [l1 st2]. simplify_eq. cbn. rewrite (proxy_make _ _ _ _ _ _ Hb). cbn [mbind res_bind]. by rewrite (IH _ _ _ Hb0).
Qed.

Lemma validate_make c base c' D :
  validate env range c base = Ok (c', D) → validate env range (make_config c) base = Ok (make_config c', D).
Proof.
  intros H. unfold validate in H. open_ok H. destruct x as [ps st]. injection H as <- <-. unfold validate.
  cbn [make_config set_Proxies c_APIVersion c_Runtime c_Proxies c_Seed]. rewrite Hg, Hg0, Hg1. cbn [guard_err mbind res_bind].
  rewrite bool_decide_false by (bool_hyps; by destruct (c_Proxies c)). cbn [guard_err mbind res_bind]. by rewrite (proxies_make _ _ _ _ _ _ Hb).
Qed.
End proxies.
End rules.

(** ** What validation leaves nil *)

(** The TCP rules have a map of headers, if only an empty one. *)
Definition tcp_headers (c : Config) : Prop :=
  Forall (λ p, p_Protocol p = "tcp" → Forall (λ r, is_Some (m_Headers (r_Match r))) (p_Rules p)) (c_Proxies c).

(** Decidable, and so for other protocols than TCP. *)
Definition has_tcp_headers (c : Config) : bool :=
  forallb (λ p, negb (p_Protocol p =s "tcp") || forallb (λ r, is_some (m_Headers (r_Match r))) (p_Rules p)) (c_Proxies c).

Lemma has_tcp_headers_spec c : has_tcp_headers c = true → tcp_headers c.
Proof.
  unfold has_tcp_headers, tcp_headers. rewrite forallb_forall, Forall_forall. intros H p Hp%list_elem_of_In Ep.
  specialize (H p Hp). rewrite Ep, str_eq_refl in H. cbn [negb orb] in H. rewrite forallb_forall in H. apply Forall_forall. intros r Hr%list_elem_of_In.
  specialize (H r Hr). by destruct (m_Headers _).
Qed.

Lemma make_config_idem c : make_config (make_config c) = make_config c.
Proof.
  assert (∀ l : list _, make_rule <$> (make_rule <$> l) = make_rule <$> l) as Hr by (intros l; by rewrite <- list_fmap_compose).
  assert (∀ l : list _, make_proxy <$> (make_proxy <$> l) = make_proxy <$> l) as Hp.
  { intros l. rewrite <- list_fmap_compose. apply list_fmap_ext. intros _ p _. unfold compose, make_proxy. cbn. by rewrite Hr. }
  unfold make_config. cbn [set_Proxies c_Proxies]. by rewrite Hp.
Qed.

Lemma make_rule_id r : is_Some (m_Headers (r_Match r)) → make_rule r = r.
Proof. intros [h E]. destruct r as [? ? [? ? ? ? ?] ? ?]. cbn in E. by subst. Qed.

Lemma map_id {A} (f : A → A) l : Forall (λ x, f x = x) l → f <$> l = l.
Proof. induction 1 as [|x l E _ IH]; [done|]. by rewrite fmap_cons, E, IH. Qed.

Lemma proxy_rule_made range protocol path j r r' :
  validate_proxy_rule range protocol path j r = Ok r' → protocol ≠ "tcp" → make_rule r' = r'.
Proof.
  unfold validate_proxy_rule. intros H Hp. open_ok H. destruct (is_db protocol); [by eapply validateCommitRule_made|].
  rewrite (proj2 (str_eq_false _ _) Hp) in H. by eapply validateRule_made.
Qed.

Lemma validate_made env range c base c' D :
  validate env range c base = Ok (c', D) → tcp_headers c' → make_config c' = c'.
Proof.
  intros H Ht. assert (Forall (λ p, p_Protocol p ≠ "tcp" → make_proxy p = p) (c_Proxies c')) as Hm.
  { unfold validate in H. open_ok H. destruct x as [ps st]. injection H as <- <-. cbn [c_Proxies].
    eapply (mapi_state_Ok (λ _, True)) in Hb as (_ & Hall & _); [exact Hall|done|]. clear. intros i p [L D] p' st' _ Hp. split; [done|].
    unfold validate_proxy in Hp. cbv zeta in Hp. open_ok Hp. destruct x1 as [p1 D1]. open_ok Hp. injection Hp as <- <-.
    cbn [set_Rules p_Protocol]. intros Hne. unfold make_proxy. cbn [set_Rules p_Rules]. rewrite map_id; [done|].
    apply Forall_forall. intros r' (j & r & _ & Hr)%(mapi_res_elem _ _ _ _ _ Hb2). by eapply proxy_rule_made. }
  unfold make_config. rewrite map_id; [by destruct c'|]. apply Forall_forall. intros p Hin.
  destruct (decide (p_Protocol p = "tcp")) as [E|E]; [|by apply (proj1 (Forall_forall _ _) Hm)].
  pose proof (proj1 (Forall_forall _ _) Ht p Hin E) as Hr. unfold make_proxy. rewrite map_id; [by destruct p|].
  eapply Forall_impl; [exact Hr|]. apply make_rule_id.
Qed.

(** ** Canonical order and the restart view *)

Lemma sort_proxies_map f l : (∀ p, p_ID (f p) = p_ID p) → sort_proxies (f <$> l) = f <$> sort_proxies l.
Proof.
  intros Hf. assert (∀ p l, insert_proxy (f p) (f <$> l) = f <$> insert_proxy p l) as Hi.
  { intros p k. induction k as [|q k IH]; [done|]. cbn. unfold id_le. rewrite !Hf. destruct (negb _); [done|]. cbn. by rewrite IH. }
  induction l as [|p l IH]; [done|]. rewrite fmap_cons. unfold sort_proxies in *. cbn [foldr]. by rewrite IH, Hi.
Qed.

Lemma canonical_make c : canonical (make_config c) = make_config (canonical c).
Proof. unfold canonical. cbn. by rewrite sort_proxies_map. Qed.

Lemma restart_view_make c : restart_view (canonical (make_config c)) = restart_view (canonical c).
Proof. rewrite canonical_make. unfold restart_view. cbn. by rewrite <- list_fmap_compose. Qed.

(** ** Documents *)

(** json.Marshal of a configuration fails for reasons of its own, never because of
    a nil or an empty map. *)
Definition marshal_law (marshal : Config → gmap string bytes → option bytes) : Prop :=
  ∀ c D, is_Some (marshal c D) → is_Some (marshal (make_config c) D).

Section documents.
Context `{Yaml} (fs : Files) (range : gmap string string → list (string * string)).
Context (marshal : Config → gmap string bytes → option bytes) (Hmarshal : marshal_law marshal).
Context (Henv : env_laws (fs_env fs)) (Hrange : enumerates range).
Context (Habs : ∀ name root, Abs fs name = Some root → IsAbs root = true).
#[local] Set Default Proof Using "All".

Lemma newDocument_inv c D d :
  newDocument marshal c D = Some d →
  d_config d = c ∧ d_valid d = true ∧ hash_config marshal (canonical c) D = Some (d_fingerprint d) ∧
  hash_config marshal (restart_view (canonical c)) D = Some (d_restartFingerprint d).
Proof.
  unfold newDocument. destruct (hash_config _ (canonical _) _) eqn:E1; [|done]. cbn.
  destruct (hash_config _ (restart_view _) _) eqn:E2; [|done]. by intros [= <-].
Qed.

Lemma newDocument_make c D d :
  newDocument marshal c D = Some d →
  ∃ d', newDocument marshal (make_config c) D = Some d' ∧ d_config d' = make_config c ∧
    d_restartFingerprint d' = d_restartFingerprint d ∧ (make_config c = c → d' = d).
Proof.
  intros Hd. pose proof Hd as (Hc & _ & Hf & Hr)%newDocument_inv.
  assert (is_Some (hash_config marshal (canonical (make_config c)) D)) as [fp Hfp].
  { unfold hash_config in *. apply fmap_Some in Hf as (data & Hdata & _). rewrite canonical_make. apply fmap_is_Some, Hmarshal. by eexists. }
  assert (newDocument marshal (make_config c) D =
    Some {| d_config := make_config c; d_valid := true; d_fingerprint := fp; d_restartFingerprint := d_restartFingerprint d |}) as Hd'.
  { unfold newDocument. rewrite Hfp. cbn. by rewrite restart_view_make, Hr. }
  eexists. split; [exact Hd'|]. split_and!; [done..|]. intros E. rewrite E, Hd in Hd'. rewrite E. by simplify_eq.
Qed.

Lemma finish_make c sources root d root' :
  IsAbs root = true → finish fs range marshal c sources root = Ok d →
  ∃ d', finish fs range marshal (make_config (d_config d)) (proxySources root' (length (c_Proxies (d_config d)))) root' = Ok d' ∧
    d_config d' = make_config (d_config d) ∧ d_restartFingerprint d' = d_restartFingerprint d ∧
    (make_config (d_config d) = d_config d → d' = d).
Proof.
  intros Ha Hf. destruct (finish_sound _ _ _ _ _ _ _ Hf) as [[Hv Hwf Hids] Hrules]. unfold finish in Hf. open_ok Hf.
  destruct (validate (fs_env fs) range _ _) as [[c' D]|] eqn:Ev; [|done]. destruct (newDocument marshal c' D) as [d0|] eqn:Ed; [|done].
  injection Hf as ->. destruct (newDocument_inv _ _ _ Ed) as (Ec & _). rewrite Ec in *.
  pose proof (Dir_abs fs Henv _ Ha) as Hd. destruct (newDocument_make _ _ _ Ed) as (d' & Ed' & Hd').
  exists d'. split; [|done]. unfold finish.
  rewrite (check_proxies_fresh fs Henv).
  2: { rewrite proxySources_length. cbn. by rewrite length_fmap. }
  2: { cbn. rewrite <- list_fmap_compose. done. }
  2: by apply Forall_true.
  2: { cbn. apply Forall_fmap. eapply Forall_impl; [exact Hrules|]. intros p Hp. cbn. rewrite <- list_fmap_compose. exact Hp. }
  2: { cbn. apply Forall_fmap. eapply Forall_impl; [by eapply (validate_fixed fs range Henv)|]. done. }
  cbn [mbind res_bind]. pose proof (validate_idem _ Henv range Hrange _ _ _ _ (Dir (fs_env fs) root') Hd Ev) as Hi.
  apply validate_make in Hi. assert (set_Proxies (c_Proxies (make_config c')) (make_config c') = make_config c') as -> by done.
  by rewrite Hi, Ed'.
Qed.

Lemma finished_roundtrip d data name root :
  yaml_laws → finished fs range marshal d → text_config (d_config d) = true → Encode (d_config d) = Ok data →
  name ≠ "" → Abs fs name = Some root →
  ∃ d', Parse fs range marshal data name = Ok d' ∧ d_config d' = make_config (d_config d) ∧
    d_restartFingerprint d' = d_restartFingerprint d ∧ (make_config (d_config d) = d_config d → d' = d).
Proof.
  intros Hy (name0 & c & sources & root0 & Ha & Hf) Ht He Hn Hr. rewrite (Encode_Parse fs range marshal _ _ _ _ Hy Ht He Hn Hr).
  apply Habs in Ha. by eapply finish_make.
Qed.

(** C15. Encoding the configuration of a loaded document and parsing the text gives back
    the configuration, every map of headers made, and the restart fingerprint, as
    long as the certificate files have not changed and its strings are UTF-8; and it gives the same document,
    fingerprint included, when the TCP rules have a map of headers. *)
Theorem document_roundtrip filename d data name root :
  yaml_laws → Load fs range marshal filename = Ok d → text_config (d_config d) = true → Encode (d_config d) = Ok data →
  name ≠ "" → Abs fs name = Some root →
  ∃ d', Parse fs range marshal data name = Ok d' ∧ d_config d' = make_config (d_config d) ∧
    d_restartFingerprint d' = d_restartFingerprint d ∧ (tcp_headers (d_config d) → d' = d).
Proof.
  intros Hy Hl Htx He Hn Hr. destruct (finished_roundtrip d data name root Hy (Load_finished _ _ _ _ _ Hl) Htx He Hn Hr) as (d' & Hp & Hc & Hf & Hs).
  exists d'. split_and!; [done..|]. intros Ht. apply Hs. apply Load_validated in Hl as (c & base & D & Hv). by eapply validate_made.
Qed.
End documents.
