(* ===== verification/Control.v ===== *)
(** * Runtime control (internal/control/service.go)

    A [Service] publishes one active [Snapshot]. Snapshots share revisions by
    pointer, and [Decide] on a snapshot mutates the counters of the revision it
    points to, so revisions live in a heap and a snapshot holds an address. Each
    operation runs under the service lock and is one atomic step. [persist] is
    the callback of managed mode, acting on a store [W]; its error and its effect
    on the store are independent. Clock readings and the random run ID are
    arguments. *)

From S2P Require Import Prelude GoLib GoRand Config Engine.

Record Info := {
  i_RunID : string;
  i_Revision : Z;
  i_Enabled : bool;
  i_ControlSequence : Z;
  i_AppliedAt : Z;
  i_StateChangedAt : Z
}.

#[export] Instance Info_eq_dec : EqDecision Info. Proof. solve_decision. Defined.

Record revision := { rv_document : Document; rv_engine : Engine }.

Record Snapshot := { sn_info : Info; sn_revision : nat }.

Record Result := { rs_Changed : bool; rs_Info : Info }.

Definition zero_info : Info :=
  {| i_RunID := ""; i_Revision := 0; i_Enabled := false; i_ControlSequence := 0;
     i_AppliedAt := 0; i_StateChangedAt := 0 |}.
Definition zero_result : Result := {| rs_Changed := false; rs_Info := zero_info |}.

Record Service := {
  sv_active : Snapshot;
  sv_heap : gmap nat revision;
  sv_managed : bool
}.

Definition ErrConflict : string := "control: config revision conflict".

(** [control.New]; the first revision is allocated at address 0. *)
Definition New (document : option Document) (runID : string) (now : Z) : res string Service :=
  evaluator ← Engine.New document;
  match document with
  | None => Err "engine: validated config is required"
  | Some d =>
      Ok {| sv_active := {| sn_info := {| i_RunID := runID; i_Revision := 1; i_Enabled := false;
                                         i_ControlSequence := 0; i_AppliedAt := now;
                                         i_StateChangedAt := now |};
                            sn_revision := 0 |};
            sv_heap := {[ 0%nat := {| rv_document := d; rv_engine := evaluator |} ]};
            sv_managed := false |}
  end.

Definition set_info (i : Info) (s : Service) : Service :=
  {| sv_active := {| sn_info := i; sn_revision := sn_revision (sv_active s) |};
     sv_heap := sv_heap s; sv_managed := sv_managed s |}.

(** [NewManaged]; [persist_given] is persist != nil. *)
Definition NewManaged (document : option Document) (rev : Z) (persist_given : bool)
    (runID : string) (now : Z) : res string Service :=
  s ← New document runID now;
  if (rev =? 0) || negb persist_given then Err "control: revision and persistence required"
  else
    let i := sn_info (sv_active s) in
    Ok {| sv_active := {| sn_info := {| i_RunID := i_RunID i; i_Revision := rev;
                                       i_Enabled := i_Enabled i;
                                       i_ControlSequence := i_ControlSequence i;
                                       i_AppliedAt := i_AppliedAt i;
                                       i_StateChangedAt := i_StateChangedAt i |};
                          sn_revision := sn_revision (sv_active s) |};
          sv_heap := sv_heap s; sv_managed := true |}.

Definition Acquire (s : Service) : Snapshot := sv_active s.

(** The fields of Info that enable/disable changes. *)
Definition toggled (i : Info) (enabled : bool) (now : Z) : Info :=
  {| i_RunID := i_RunID i; i_Revision := i_Revision i; i_Enabled := enabled;
     i_ControlSequence := u64 (i_ControlSequence i + 1); i_AppliedAt := i_AppliedAt i;
     i_StateChangedAt := now |}.

Definition SetEnabled (s : Service) (enabled : bool) (now : Z) : Service * Result :=
  let i := sn_info (sv_active s) in
  if Bool.eqb (i_Enabled i) enabled then (s, {| rs_Changed := false; rs_Info := i |})
  else
    let i := toggled i enabled now in
    (set_info i s, {| rs_Changed := true; rs_Info := i |}).

(** The Info of the next revision. *)
Definition next_info (i : Info) (now : Z) : Info :=
  {| i_RunID := i_RunID i; i_Revision := u64 (i_Revision i + 1); i_Enabled := i_Enabled i;
     i_ControlSequence := u64 (i_ControlSequence i + 1); i_AppliedAt := now;
     i_StateChangedAt := i_StateChangedAt i |}.

(** Allocate a revision and make it active with [i]. *)
Definition publish (s : Service) (i : Info) (r : revision) : Service :=
  let addr := fresh (dom (sv_heap s)) in
  {| sv_active := {| sn_info := i; sn_revision := addr |};
     sv_heap := <[addr := r]> (sv_heap s); sv_managed := sv_managed s |}.

Section apply.
Context {W : Type} (persist : Document → Result → W → W * option string).

(** s.persist(document, result) when persist is not nil. *)
Definition persist_if (managed : bool) (d : Document) (r : Result) (w : W) : W * option string :=
  if managed then persist d r w else (w, None).

Definition apply (s : Service) (w : W) (document : option Document) (expected : option Z)
    (now : Z) : Service * W * res string Result :=
  match document with
  | None => (s, w, Err "control: validated config is required")
  | Some d =>
      if negb (d_valid d) then (s, w, Err "control: validated config is required")
      else
        let i := sn_info (sv_active s) in
        if match expected with Some x => negb (x =? i_Revision i) | None => false end
        then (s, w, Err ErrConflict)
        else
          let current := rv_document <$> sv_heap s !! sn_revision (sv_active s) in
          if negb (RestartCompatible current document) then
            (s, w, Err "control: proxies, listeners, upstreams, TLS and runtime limits require restart")
          else if Equal current document then
            let result := {| rs_Changed := false; rs_Info := i |} in
            match persist_if (sv_managed s) d result w with
            | (w, Some err) => (s, w, Err err)
            | (w, None) => (s, w, Ok result)
            end
          else
            match Engine.New document with
            | Err err => (s, w, Err err)
            | Ok evaluator =>
                let next := next_info i now in
                let result := {| rs_Changed := true; rs_Info := next |} in
                match persist_if (sv_managed s) d result w with
                | (w, Some err) => (s, w, Err err)
                | (w, None) =>
                    (publish s next {| rv_document := d; rv_engine := evaluator |}, w, Ok result)
                end
            end
  end.

Definition Apply (s : Service) (w : W) (document : option Document) (now : Z) :
    Service * W * res string Result :=
  if sv_managed s
  then (s, w, Err "control: managed config requires revision precondition")
  else apply s w document None now.

Definition ApplyRevision (s : Service) (w : W) (document : option Document) (expected now : Z) :
    Service * W * res string Result :=
  apply s w document (Some expected) now.

(** Reload and ReloadFile: parse or load, then Apply; [loaded] is the result of
    config.Parse or config.Load. *)
Definition Reload (s : Service) (w : W) (loaded : res string Document) (now : Z) :
    Service * W * res string Result :=
  match loaded with
  | Err e => (s, w, Err e)
  | Ok d => Apply s w (Some d) now
  end.
End apply.

(** ** Snapshots *)

Definition snapshot_config (s : Service) (sn : Snapshot) : option Config :=
  d_config ∘ rv_document <$> sv_heap s !! sn_revision sn.

(** Snapshot.Decide: the engine behind the pointer is updated in place. *)
Definition snapshot_Decide (s : Service) (sn : Snapshot) (proxyID : string) (md : Metadata) :
    option (Service * (Decision * option string)) :=
  r ← sv_heap s !! sn_revision sn;
  '(e, d) ← Decide (rv_engine r) proxyID md (i_Enabled (sn_info sn));
  mret ({| sv_active := sv_active s;
           sv_heap := <[sn_revision sn := {| rv_document := rv_document r; rv_engine := e |}]> (sv_heap s);
           sv_managed := sv_managed s |}, d).

Definition snapshot_Counters (s : Service) (sn : Snapshot) (proxyID ruleID : string) :
    option (Counters * bool) :=
  r ← sv_heap s !! sn_revision sn;
  mret (engine_Counters (rv_engine r) proxyID ruleID).
