(* ===== verification/ControlSpec.v ===== *)
(** * Correctness of runtime control

    Operations as a labelled step function; atomicity of a failed apply, the
    exact effect of a successful one, optimistic concurrency, pinned snapshots,
    counting of revisions and control events, and the restart invariant. *)

From S2P Require Import Prelude GoLib GoRand Config Engine Control.

Section control.
Context {W : Type} (persist : Document → Result → W → W * option string).

(** ** Steps *)

Inductive op :=
| OpEnable (enabled : bool) (now : Z)
| OpApply (document : option Document) (expected : option Z) (now : Z)
| OpDecide (sn : Snapshot) (proxyID : string) (md : Metadata).

(** The new state and, for control operations, the result returned. A decision
    that panics has no successor. *)
Definition exec (o : op) (sw : Service * W) : option (Service * W * option (res string Result)) :=
  let '(s, w) := sw in
  match o with
  | OpEnable b now => let '(s', r) := SetEnabled s b now in Some (s', w, Some (Ok r))
  | OpApply d x now => let '(s', w', r) := apply persist s w d x now in Some (s', w', Some r)
  | OpDecide sn pid md =>
      '(s', _) ← snapshot_Decide s sn pid md; mret (s', w, None)
  end.

Fixpoint exec_all (ops : list op) (sw : Service * W) :
    option (Service * W * list (op * option (res string Result))) :=
  match ops with
  | [] => Some (sw, [])
  | o :: rest =>
      '(s, w, r) ← exec o sw;
      '(sw', rs) ← exec_all rest (s, w);
      mret (sw', (o, r) :: rs)
  end.

Definition changed (r : option (res string Result)) : bool :=
  match r with Some (Ok r) => rs_Changed r | _ => false end.

Definition changed_apply (or : op * option (res string Result)) : bool :=
  match or.1 with OpApply _ _ _ => changed or.2 | _ => false end.

Definition info (s : Service) : Info := sn_info (sv_active s).

Definition active_document (s : Service) : option Document :=
  rv_document <$> sv_heap s !! sn_revision (sv_active s).

(** ** One apply *)

Lemma publish_fresh s i r : sv_heap s !! sn_revision (sv_active (publish s i r)) = None.
Proof.
  cbn. apply not_elem_of_dom. apply is_fresh.
Qed.

Lemma publish_old s i r a v :
  sv_heap s !! a = Some v → sv_heap (publish s i r) !! a = Some v.
Proof.
  intros Ha. cbn. rewrite lookup_insert_ne; [done|]. intros Heq.
  pose proof (publish_fresh s i r) as Hf. cbn in Hf. congruence.
Qed.

(** All outcomes of [apply], as one case analysis. *)
Inductive apply_outcome (s : Service) (w : W) (doc : option Document) (expected : option Z)
    (now : Z) : Service * W * res string Result → Prop :=
| apply_rejected e :
    apply_outcome s w doc expected now (s, w, Err e)
| apply_persist_failed d r w' e :
    doc = Some d → sv_managed s = true → persist d r w = (w', Some e) →
    apply_outcome s w doc expected now (s, w', Err e)
| apply_noop d w' :
    doc = Some d → Equal (active_document s) doc = true →
    (∀ x, expected = Some x → x = i_Revision (info s)) →
    persist_if persist (sv_managed s) d {| rs_Changed := false; rs_Info := info s |} w = (w', None) →
    apply_outcome s w doc expected now (s, w', Ok {| rs_Changed := false; rs_Info := info s |})
| apply_published d e w' :
    doc = Some d → RestartCompatible (active_document s) doc = true →
    Equal (active_document s) doc = false →
    (∀ x, expected = Some x → x = i_Revision (info s)) → Engine.New doc = Ok e →
    persist_if persist (sv_managed s) d
      {| rs_Changed := true; rs_Info := next_info (info s) now |} w = (w', None) →
    apply_outcome s w doc expected now
      (publish s (next_info (info s) now) {| rv_document := d; rv_engine := e |}, w',
       Ok {| rs_Changed := true; rs_Info := next_info (info s) now |}).

Lemma apply_cases s w doc expected now :
  apply_outcome s w doc expected now (apply persist s w doc expected now).
Proof.
  unfold apply. destruct doc as [d|]; [|constructor].
  destruct (d_valid d); cbn [negb]; [|constructor].
  destruct (match expected with Some x => _ | None => _ end) eqn:Ex; [constructor|].
  assert (∀ x, expected = Some x → x = i_Revision (info s)) as Hx.
  { intros x ->. bool_hyps. done. }
  fold (active_document s). fold (info s).
  destruct (RestartCompatible _ _) eqn:Er; cbn [negb]; [|constructor].
  destruct (Equal _ _) eqn:Ee.
  - destruct (persist_if _ _ _ _ _) as [w' [e|]] eqn:Ep; [|by eapply apply_noop].
    unfold persist_if in Ep. destruct (sv_managed s) eqn:Em; [|done].
    by eapply apply_persist_failed.
  - destruct (Engine.New (Some d)) as [e|err] eqn:En; [|constructor].
    destruct (persist_if _ _ _ _ _) as [w' [x|]] eqn:Ep; [|by eapply apply_published].
    unfold persist_if in Ep. destruct (sv_managed s) eqn:Em; [|done].
    by eapply apply_persist_failed.
Qed.

(** C12. An apply that returns an error (invalid document, revision conflict,
    restart-only change, failed persistence) leaves the published service state
    exactly as it was. *)
Theorem apply_error_atomic s w doc expected now s' w' e :
  apply persist s w doc expected now = (s', w', Err e) → s' = s.
Proof.
  intros H. pose proof (apply_cases s w doc expected now) as Hc. rewrite H in Hc.
  by inversion Hc.
Qed.

(** C31. An apply that reports a change was made against the expected revision,
    persisted its result before publication when managed, keeps the injection
    state, and activates exactly the new document with a fresh engine. *)
Theorem apply_changed_effect s w doc expected now s' w' r :
  apply persist s w doc expected now = (s', w', Ok r) → rs_Changed r = true →
  ∃ d e, doc = Some d ∧ Engine.New doc = Ok e ∧
    (∀ x, expected = Some x → x = i_Revision (info s)) ∧
    (sv_managed s = true → persist d r w = (w', None)) ∧
    rs_Info r = info s' ∧ i_Revision (info s') = u64 (i_Revision (info s) + 1) ∧
    i_Enabled (info s') = i_Enabled (info s) ∧
    sv_heap s' !! sn_revision (sv_active s') = Some {| rv_document := d; rv_engine := e |}.
Proof.
  intros H Hch. pose proof (apply_cases s w doc expected now) as Hc. rewrite H in Hc.
  inversion Hc as [| |d w1 Hd Heq Hx Hp|d e w1 Hd Hr Heq Hx Hn Hp]; simplify_eq/=.
  exists d, e. split_and!; try done.
  - intros Hm. rewrite Hm in Hp. done.
  - apply lookup_insert_eq.
Qed.

(** Two optimistic applies against the same revision cannot both change
    the configuration; the later one gets the conflict error. *)
Theorem apply_no_lost_update s w d1 d2 x now1 now2 s1 w1 r1 :
  ApplyRevision persist s w d1 x now1 = (s1, w1, Ok r1) → rs_Changed r1 = true →
  Valid d2 = true →
  ApplyRevision persist s1 w1 d2 x now2 = (s1, w1, Err ErrConflict).
Proof.
  unfold ApplyRevision. intros H Hch Hv. pose proof (apply_cases s w d1 (Some x) now1) as Hc.
  rewrite H in Hc. inversion Hc as [| |d w' Hd Heq Hx Hp|d e w' Hd Hr Heq Hx Hn Hp]; simplify_eq/=.
  unfold apply. destruct d2 as [d2|]; [|done]. cbn in Hv. rewrite Hv. cbn [negb].
  rewrite (Hx x eq_refl). cbn [publish sv_active sn_info next_info i_Revision].
  rewrite (proj2 (Z.eqb_neq _ _)); [done|]. intros E. symmetry in E. by apply u64_succ_ne in E.
Qed.

(** ** Runs of operations *)

Lemma exec_heap o s w s' w' r a v :
  exec o (s, w) = Some (s', w', r) → sv_heap s !! a = Some v →
  ∃ v', sv_heap s' !! a = Some v' ∧ rv_document v' = rv_document v.
Proof.
  destruct o as [b now|d x now|sn pid md]; cbn [exec].
  - unfold SetEnabled. destruct (Bool.eqb _ _); intros [= <- <- <-] Ha; by exists v.
  - intros H Ha. destruct (apply persist s w d x now) as [[s1 w1] r1] eqn:E. simplify_eq.
    pose proof (apply_cases s w d x now) as Hc. rewrite E in Hc.
    inversion Hc; subst; try by exists v. exists v. split; [by apply publish_old|done].
  - intros ([s1 dd] & H & H')%bind_Some Ha. injection H' as <- <- <-.
    unfold snapshot_Decide in H. apply bind_Some in H as (r0 & Hr & H).
    apply bind_Some in H as ([e1 d1] & Hd & H). injection H as <- <-. cbn.
    destruct (decide (sn_revision sn = a)) as [<-|Hne].
    + rewrite lookup_insert_eq. eexists. split; [done|]. cbn. congruence.
    + exists v. by rewrite lookup_insert_ne.
Qed.

(** C32. A snapshot pins its configuration: whatever is enabled, disabled,
    applied or decided later, its revision keeps the document it was acquired
    with. *)
Theorem snapshot_pinned ops s w s' w' rs sn v :
  exec_all ops (s, w) = Some (s', w', rs) → sv_heap s !! sn_revision sn = Some v →
  ∃ v', sv_heap s' !! sn_revision sn = Some v' ∧ rv_document v' = rv_document v.
Proof.
  revert s w v rs. induction ops as [|o ops IH]; intros s w v rs H Hv.
  { injection H as <- <- <-. by exists v. }
  cbn [exec_all] in H. apply bind_Some in H as ([[s1 w1] r1] & H1 & H).
  apply bind_Some in H as ([[s2 w2] rs2] & H2 & H). injection H as -> -> <-.
  destruct (exec_heap _ _ _ _ _ _ _ _ H1 Hv) as (v1 & Hv1 & Hd1).
  destruct (IH _ _ _ _ H2 Hv1) as (v2 & ? & ?). exists v2. split; [done|congruence].
Qed.

Lemma exec_counts o s w s' w' r :
  exec o (s, w) = Some (s', w', r) →
  i_ControlSequence (info s') =
    (if changed r then u64 (i_ControlSequence (info s) + 1) else i_ControlSequence (info s)) ∧
  i_Revision (info s') =
    (if changed_apply (o, r) then u64 (i_Revision (info s) + 1) else i_Revision (info s)) ∧
  i_RunID (info s') = i_RunID (info s).
Proof.
  destruct o as [b now|d x now|sn pid md]; cbn [exec].
  - unfold SetEnabled. destruct (Bool.eqb _ _); by intros [= <- <- <-].
  - intros H. destruct (apply persist s w d x now) as [[s1 w1] r1] eqn:E. simplify_eq.
    pose proof (apply_cases s w d x now) as Hc. rewrite E in Hc. by inversion Hc.
  - intros ([s1 dd] & H & H')%bind_Some. injection H' as <- <- <-.
    unfold snapshot_Decide in H. apply bind_Some in H as (r0 & Hr & H).
    apply bind_Some in H as ([e1 d1] & Hd & H). by injection H as <- <-.
Qed.

(** Number of elements satisfying a test. *)
Definition count {A} (f : A → bool) (l : list A) : Z := Z.of_nat (length (filter (λ x, f x = true) l)).

Lemma count_cons {A} (f : A → bool) x l : count f (x :: l) = Z.b2z (f x) + count f l.
Proof.
  unfold count. rewrite filter_cons. destruct (f x); [rewrite decide_True by done|rewrite decide_False by done];
    cbn [length Z.b2z]; lia.
Qed.

Lemma exec_all_counts ops s w s' w' rs :
  exec_all ops (s, w) = Some (s', w', rs) →
  u64 (i_ControlSequence (info s')) =
    u64 (i_ControlSequence (info s) + count (λ or, changed or.2) rs) ∧
  u64 (i_Revision (info s')) = u64 (i_Revision (info s) + count changed_apply rs).
Proof.
  revert s w rs. induction ops as [|o ops IH]; intros s w rs H.
  { injection H as <- <- <-. cbn. by rewrite !Z.add_0_r. }
  cbn [exec_all] in H. apply bind_Some in H as ([[s1 w1] r1] & H1 & H).
  apply bind_Some in H as ([[s2 w2] rs2] & H2 & H). injection H as -> -> <-.
  destruct (exec_counts _ _ _ _ _ _ H1) as (Hc & Hr & _). destruct (IH _ _ _ H2) as [-> ->].
  rewrite !count_cons, Hc, Hr. cbn [snd].
  destruct (changed r1), (changed_apply (o, r1)); cbn [Z.b2z]; rewrite ?u64_add_l;
    split; f_equal; lia.
Qed.

(** Over any run of operations the control sequence advances by exactly
    the number of reported changes and the revision by the number of changing
    applies (modulo 2^64). *)
Theorem control_counts ops s w s' w' rs :
  exec_all ops (s, w) = Some (s', w', rs) →
  u64 (i_ControlSequence (info s')) =
    u64 (i_ControlSequence (info s) + count (λ or, changed or.2) rs) ∧
  u64 (i_Revision (info s')) = u64 (i_Revision (info s) + count changed_apply rs).
Proof. apply exec_all_counts. Qed.

(** ** Infrastructure is fixed for the lifetime of the process *)

Definition restart_print (s : Service) : option bytes :=
  d_restartFingerprint <$> active_document s.

Lemma exec_restart o s w s' w' r :
  exec o (s, w) = Some (s', w', r) → restart_print s' = restart_print s.
Proof.
  intros H. unfold restart_print, active_document.
  destruct o as [b now|d x now|sn pid md]; cbn [exec] in H.
  - unfold SetEnabled in H. destruct (Bool.eqb _ _); by injection H as <- <- <-.
  - destruct (apply persist s w d x now) as [[s1 w1] r1] eqn:E. simplify_eq.
    pose proof (apply_cases s w d x now) as Hc. rewrite E in Hc.
    inversion Hc as [| | |dd e w2 Hd Hr Heq Hx Hn Hp]; subst; try done.
    cbn [publish sv_heap sv_active sn_revision]. rewrite lookup_insert_eq. cbn.
    unfold RestartCompatible, active_document in Hr.
    destruct (sv_heap s !! sn_revision (sv_active s)) as [v|]; [|done]. cbn in *.
    bool_hyps. congruence.
  - apply bind_Some in H as ([s1 dd] & H & H'). injection H' as <- <- <-.
    unfold snapshot_Decide in H. apply bind_Some in H as (r0 & Hr & H).
    apply bind_Some in H as ([e1 d1] & Hd & H). injection H as <- <-. cbn.
    destruct (decide (sn_revision sn = sn_revision (sv_active s))) as [<-|Hne].
    + by rewrite lookup_insert_eq, Hr.
    + by rewrite lookup_insert_ne.
Qed.

(** No run of control operations changes the restart fingerprint of the
    active document: listeners, upstreams, TLS and limits stay those of startup. *)
Theorem restart_fixed ops s w s' w' rs :
  exec_all ops (s, w) = Some (s', w', rs) → restart_print s' = restart_print s.
Proof.
  revert s w rs. induction ops as [|o ops IH]; intros s w rs H.
  { by injection H as <- <- <-. }
  cbn [exec_all] in H. apply bind_Some in H as ([[s1 w1] r1] & H1 & H).
  apply bind_Some in H as ([[s2 w2] rs2] & H2 & H). injection H as -> -> <-.
  rewrite (IH _ _ _ H2). by eapply exec_restart.
Qed.
End control.
