(* ===== verification/Recorder.v ===== *)
(** * Event recorder (internal/recorder/recorder.go)

    The recorder is shared by every flow and by its writer goroutine. [Record]
    runs under the mutex; the writer receives from the bounded queue, checks the
    abort channel, encodes outside the lock and accounts under it. Each of these
    is one atomic step of [rexec]. The queue capacity is positive, as the command
    line requires. *)

From S2P Require Import Prelude GoLib GoRand Config Engine Control.

Record Counters := {
  rc_Total : Z;
  rc_Eligible : Z;
  rc_Selected : Z;
  rc_Applied : Z;
  rc_Active : Z;
  rc_ActiveFaults : Z;
  rc_Dropped : Z;
  rc_WriteErrors : Z;
  rc_Written : Z;
  rc_Pending : Z
}.

Record Event := {
  ev_Info : Info;
  ev_Type : string;
  ev_Time : Z;
  ev_FlowID : string;
  ev_ProxyID : string;
  ev_Protocol : string;
  ev_StartedAt : Z;
  ev_FinishedAt : Z;
  ev_RuleID : string;
  ev_EligibleSequence : Z;
  ev_Selector : string;
  ev_Probability : option spec_float;
  ev_Nth : option Z;
  ev_Every : option Z;
  ev_Selected : bool;
  ev_Reached : bool;
  ev_Applied : bool;
  ev_NotReached : bool;
  ev_Phase : string;
  ev_Action : string;
  ev_Outcome : string;
  ev_ErrorKind : string;
  ev_CommitConfirmed : bool;
  ev_GRPCStatus : string;
  ev_UpstreamStatus : Z;
  ev_Operation : string;
  ev_ClientBytes : Z;
  ev_UpstreamBytes : Z;
  ev_Changed : bool;
  ev_Counters : option Counters
}.

Definition zero_event : Event :=
  {| ev_Info := zero_info; ev_Type := ""; ev_Time := 0; ev_FlowID := ""; ev_ProxyID := "";
     ev_Protocol := ""; ev_StartedAt := 0; ev_FinishedAt := 0; ev_RuleID := "";
     ev_EligibleSequence := 0; ev_Selector := ""; ev_Probability := None; ev_Nth := None;
     ev_Every := None; ev_Selected := false; ev_Reached := false; ev_Applied := false;
     ev_NotReached := false; ev_Phase := ""; ev_Action := ""; ev_Outcome := ""; ev_ErrorKind := "";
     ev_CommitConfirmed := false; ev_GRPCStatus := ""; ev_UpstreamStatus := 0; ev_Operation := "";
     ev_ClientBytes := 0; ev_UpstreamBytes := 0; ev_Changed := false; ev_Counters := None |}.

Definition zero_counters : Counters :=
  {| rc_Total := 0; rc_Eligible := 0; rc_Selected := 0; rc_Applied := 0; rc_Active := 0;
     rc_ActiveFaults := 0; rc_Dropped := 0; rc_WriteErrors := 0; rc_Written := 0; rc_Pending := 0 |}.

(** Where the writer goroutine is. [Aborted] holds the event it dropped on the
    floor when it saw the abort channel closed. *)
Inductive writer :=
| Idle
| Received (e : Event)
| Encoding (e : Event)
| Exited
| Aborted (e : Event).

Record Recorder := {
  rec_counts : Counters;
  rec_outcomes : gmap string Z;
  rec_queue : list Event;
  rec_capacity : nat;
  rec_closed : bool;
  rec_abort : bool;
  rec_writer : writer;
  rec_output : list Event
}.

(** recorder.New. *)
Definition New (capacity : nat) : Recorder :=
  {| rec_counts := zero_counters; rec_outcomes := ∅; rec_queue := []; rec_capacity := capacity;
     rec_closed := false; rec_abort := false; rec_writer := Idle; rec_output := [] |}.

(** ** Counter updates *)

Definition count_flow (dt de ds da dact df : Z) (c : Counters) : Counters :=
  {| rc_Total := u64 (rc_Total c + dt); rc_Eligible := u64 (rc_Eligible c + de);
     rc_Selected := u64 (rc_Selected c + ds); rc_Applied := u64 (rc_Applied c + da);
     rc_Active := u64 (rc_Active c + dact); rc_ActiveFaults := u64 (rc_ActiveFaults c + df);
     rc_Dropped := rc_Dropped c; rc_WriteErrors := rc_WriteErrors c;
     rc_Written := rc_Written c; rc_Pending := rc_Pending c |}.

Definition count_queue (dd de dw dp : Z) (c : Counters) : Counters :=
  {| rc_Total := rc_Total c; rc_Eligible := rc_Eligible c; rc_Selected := rc_Selected c;
     rc_Applied := rc_Applied c; rc_Active := rc_Active c; rc_ActiveFaults := rc_ActiveFaults c;
     rc_Dropped := u64 (rc_Dropped c + dd); rc_WriteErrors := u64 (rc_WriteErrors c + de);
     rc_Written := u64 (rc_Written c + dw); rc_Pending := u64 (rc_Pending c + dp) |}.

(** The switch on the event type. *)
Definition account (e : Event) (c : Counters) : Counters :=
  if str_eq (ev_Type e) "flow_started" then count_flow 1 0 0 0 1 0 c
  else if str_eq (ev_Type e) "decision" then
    count_flow 0 (if str_eq (ev_RuleID e) "" then 0 else 1) (Z.b2z (ev_Selected e)) 0 0 0 c
  else if str_eq (ev_Type e) "fault_applied" then count_flow 0 0 0 1 0 1 c
  else if str_eq (ev_Type e) "flow_finished" then
    count_flow 0 0 0 0 (-1) (- Z.b2z (ev_Applied e)) c
  else c.

Definition outcome_limit : nat := 32.

Definition account_outcome (e : Event) (o : gmap string Z) : gmap string Z :=
  if str_eq (ev_Type e) "flow_finished" then
    match o !! ev_Outcome e with
    | Some n => <[ev_Outcome e := u64 (n + 1)]> o
    | None => if bool_decide (size o < outcome_limit)%nat then <[ev_Outcome e := 1]> o else o
    end
  else o.

Definition stamp (now : Z) (e : Event) : Event :=
  if ev_Time e =? 0 then
    {| ev_Info := ev_Info e; ev_Type := ev_Type e; ev_Time := now; ev_FlowID := ev_FlowID e;
       ev_ProxyID := ev_ProxyID e; ev_Protocol := ev_Protocol e; ev_StartedAt := ev_StartedAt e;
       ev_FinishedAt := ev_FinishedAt e; ev_RuleID := ev_RuleID e;
       ev_EligibleSequence := ev_EligibleSequence e; ev_Selector := ev_Selector e;
       ev_Probability := ev_Probability e; ev_Nth := ev_Nth e; ev_Every := ev_Every e;
       ev_Selected := ev_Selected e; ev_Reached := ev_Reached e; ev_Applied := ev_Applied e;
       ev_NotReached := ev_NotReached e; ev_Phase := ev_Phase e; ev_Action := ev_Action e;
       ev_Outcome := ev_Outcome e; ev_ErrorKind := ev_ErrorKind e;
       ev_CommitConfirmed := ev_CommitConfirmed e; ev_GRPCStatus := ev_GRPCStatus e;
       ev_UpstreamStatus := ev_UpstreamStatus e; ev_Operation := ev_Operation e;
       ev_ClientBytes := ev_ClientBytes e; ev_UpstreamBytes := ev_UpstreamBytes e;
       ev_Changed := ev_Changed e; ev_Counters := ev_Counters e |}
  else e.

(** ** Operations *)

Definition set_queue (c : Counters) (q : list Event) (r : Recorder) : Recorder :=
  {| rec_counts := c; rec_outcomes := rec_outcomes r; rec_queue := q;
     rec_capacity := rec_capacity r; rec_closed := rec_closed r; rec_abort := rec_abort r;
     rec_writer := rec_writer r; rec_output := rec_output r |}.

Definition set_writer (c : Counters) (q : list Event) (w : writer) (out : list Event)
    (r : Recorder) : Recorder :=
  {| rec_counts := c; rec_outcomes := rec_outcomes r; rec_queue := q;
     rec_capacity := rec_capacity r; rec_closed := rec_closed r; rec_abort := rec_abort r;
     rec_writer := w; rec_output := out |}.

Definition Record_ (e : Event) (now : Z) (r : Recorder) : Recorder :=
  let c := account e (rec_counts r) in
  let r := {| rec_counts := c; rec_outcomes := account_outcome e (rec_outcomes r);
              rec_queue := rec_queue r; rec_capacity := rec_capacity r;
              rec_closed := rec_closed r; rec_abort := rec_abort r;
              rec_writer := rec_writer r; rec_output := rec_output r |} in
  let e := stamp now e in
  if negb (rec_closed r) && bool_decide (length (rec_queue r) < rec_capacity r)%nat
  then set_queue (count_queue 0 0 0 1 c) (rec_queue r ++ [e]) r
  else set_queue (count_queue 1 0 0 0 c) (rec_queue r) r.

(** The writer loop: receive, check abort, encode and account, or leave when the
    queue is closed and drained. *)
Definition write_receive (r : Recorder) : option Recorder :=
  match rec_writer r, rec_queue r with
  | Idle, e :: q => Some (set_writer (rec_counts r) q (Received e) (rec_output r) r)
  | _, _ => None
  end.

Definition write_check (r : Recorder) : option Recorder :=
  match rec_writer r with
  | Received e =>
      Some (set_writer (rec_counts r) (rec_queue r)
              (if rec_abort r then Aborted e else Encoding e) (rec_output r) r)
  | _ => None
  end.

Definition write_encoded (ok : bool) (r : Recorder) : option Recorder :=
  match rec_writer r with
  | Encoding e =>
      Some (if ok
            then set_writer (count_queue 0 0 1 (-1) (rec_counts r)) (rec_queue r) Idle
                   (rec_output r ++ [e]) r
            else set_writer (count_queue 1 1 0 (-1) (rec_counts r)) (rec_queue r) Idle
                   (rec_output r) r)
  | _ => None
  end.

Definition write_exit (r : Recorder) : option Recorder :=
  match rec_writer r, rec_queue r with
  | Idle, [] => if rec_closed r
                then Some (set_writer (rec_counts r) [] Exited (rec_output r) r) else None
  | _, _ => None
  end.

Definition set_closed (closed abort : bool) (r : Recorder) : Recorder :=
  {| rec_counts := rec_counts r; rec_outcomes := rec_outcomes r; rec_queue := rec_queue r;
     rec_capacity := rec_capacity r; rec_closed := closed; rec_abort := abort;
     rec_writer := rec_writer r; rec_output := rec_output r |}.

(** Close: the locked part; then either the done branch ([close_result]) or the
    context branch ([close_abort]) of the select. *)
Definition close_begin (r : Recorder) : Recorder := set_closed true (rec_abort r) r.
Definition close_abort (r : Recorder) : Recorder := set_closed (rec_closed r) true r.

(** [r.done] is closed when the writer has returned. *)
Definition stopped (r : Recorder) : bool :=
  match rec_writer r with Exited | Aborted _ => true | _ => false end.

Definition close_result (r : Recorder) : option (option string) :=
  if stopped r then
    Some (if rc_Pending (rec_counts r) =? 0 then None
          else Some "recorder stopped with unflushed events")
  else None.

Definition Outcomes (r : Recorder) : gmap string Z := rec_outcomes r.

(** ** Interleavings *)

Inductive rlabel :=
| LRecord (e : Event) (now : Z)
| LReceive
| LCheck
| LEncoded (ok : bool)
| LExit
| LClose
| LAbort.

Definition rexec (l : rlabel) (r : Recorder) : option Recorder :=
  match l with
  | LRecord e now => Some (Record_ e now r)
  | LReceive => write_receive r
  | LCheck => write_check r
  | LEncoded ok => write_encoded ok r
  | LExit => write_exit r
  | LClose => Some (close_begin r)
  | LAbort => Some (close_abort r)
  end.

Fixpoint rexec_all (ls : list rlabel) (r : Recorder) : option Recorder :=
  match ls with
  | [] => Some r
  | l :: rest => r ← rexec l r; rexec_all rest r
  end.
