(* ===== verification/RecorderSpec.v ===== *)
(** * Correctness of the recorder

    For every interleaving of flows, writer and shutdown: no event is counted
    twice or lost without being counted, the sink receives recorded events in
    order without duplication, memory is bounded, and a clean [Close] means that
    nothing is pending. *)

From S2P Require Import Prelude GoLib GoRand Config Engine Control Recorder.

(** The events given to [Record] along a run, as they are queued. *)
Fixpoint recorded (ls : list rlabel) : list Event :=
  match ls with
  | [] => []
  | LRecord e now :: rest => stamp now e :: recorded rest
  | _ :: rest => recorded rest
  end.

(** Events taken from the queue but not yet accounted. *)
Definition in_flight (w : writer) : list Event :=
  match w with Received e | Encoding e | Aborted e => [e] | Idle | Exited => [] end.

Definition backlog (r : Recorder) : list Event := in_flight (rec_writer r) ++ rec_queue r.

Record rec_inv (n : Z) (es : list Event) (r : Recorder) : Prop := {
  inv_pending : rc_Pending (rec_counts r) = Z.of_nat (length (backlog r));
  inv_conserve : u64 (rc_Written (rec_counts r) + rc_Dropped (rec_counts r) +
                      rc_Pending (rec_counts r)) = u64 n;
  inv_capacity : (length (rec_queue r) ≤ rec_capacity r)%nat;
  inv_order : sublist (rec_output r ++ backlog r) es;
  inv_outcomes : (size (rec_outcomes r) ≤ outcome_limit)%nat;
  inv_small : Z.of_nat (rec_capacity r) + 2 < 2 ^ 64;
  inv_exited : rec_writer r = Exited → rec_queue r = [] ∧ rec_closed r = true
}.

Lemma account_queue e c :
  rc_Pending (account e c) = rc_Pending c ∧ rc_Written (account e c) = rc_Written c ∧
  rc_Dropped (account e c) = rc_Dropped c.
Proof. unfold account. by repeat case_match. Qed.

Lemma account_outcome_size e o :
  (size o ≤ outcome_limit)%nat → (size (account_outcome e o) ≤ outcome_limit)%nat.
Proof.
  intros Ho. unfold account_outcome. destruct (str_eq _ _); [|done].
  destruct (o !! ev_Outcome e) as [n|] eqn:El.
  - by rewrite map_size_insert_Some by eauto.
  - case_bool_decide; [|done]. rewrite map_size_insert_None by done. lia.
Qed.

Lemma backlog_length r : (length (backlog r) ≤ length (rec_queue r) + 1)%nat.
Proof. unfold backlog. rewrite length_app. destruct (rec_writer r); simpl; lia. Qed.

Lemma u64_conserve w d p n k w' d' p' :
  u64 (w + d + p) = u64 n → w' + d' + p' = w + d + p + k →
  u64 (u64 w' + u64 d' + u64 p') = u64 (n + k).
Proof. intros H E. rewrite u64_sum3, E. by apply u64_shift. Qed.

Lemma Record_inv n es e now r :
  rec_inv n es r → rec_inv (n + 1) (es ++ [stamp now e]) (Record_ e now r).
Proof.
  intros [Hp Hc Hcap Ho Hout Hs Hx]. destruct (account_queue e (rec_counts r)) as (Ap & Aw & Ad).
  pose proof (backlog_length r). unfold Record_. cbn [rec_closed rec_queue rec_capacity].
  destruct (negb (rec_closed r) && _) eqn:E.
  - bool_hyps. constructor; cbn; rewrite ?Ap, ?Aw, ?Ad.
    + unfold backlog in *. cbn. rewrite u64_small; rewrite Hp, !length_app in *; cbn in *; lia.
    + eapply u64_conserve; [exact Hc|lia].
    + rewrite length_app; cbn; lia.
    + unfold backlog in *. cbn. rewrite !app_assoc in *. apply sublist_app; [done|reflexivity].
    + by apply account_outcome_size.
    + done.
    + intros Hw. destruct (Hx Hw). congruence.
  - constructor; cbn; rewrite ?Ap, ?Aw, ?Ad.
    + unfold backlog in *. cbn. rewrite u64_small; lia.
    + eapply u64_conserve; [exact Hc|lia].
    + done.
    + unfold backlog in *. cbn. by apply sublist_inserts_r.
    + by apply account_outcome_size.
    + done.
    + done.
Qed.

Lemma write_receive_inv n es r r' :
  write_receive r = Some r' → rec_inv n es r → rec_inv n es r'.
Proof.
  unfold write_receive. destruct (rec_writer r) eqn:Ew; try done.
  destruct (rec_queue r) as [|e q] eqn:Eq; [done|]. intros [= <-] [Hp Hc Hcap Ho Hout Hs Hx].
  unfold backlog in *. rewrite Ew, Eq in *. constructor; cbn in *; try done. lia.
Qed.

Lemma write_check_inv n es r r' :
  write_check r = Some r' → rec_inv n es r → rec_inv n es r'.
Proof.
  unfold write_check. destruct (rec_writer r) eqn:Ew; try done. intros [= <-] [Hp Hc Hcap Ho Hout Hs Hx].
  unfold backlog in *. rewrite Ew in *. constructor; unfold backlog; cbn in *;
    destruct (rec_abort r); done.
Qed.

Lemma write_encoded_inv n es ok r r' :
  write_encoded ok r = Some r' → rec_inv n es r → rec_inv n es r'.
Proof.
  unfold write_encoded. destruct (rec_writer r) as [| |e| |] eqn:Ew; try done.
  intros [= <-] [Hp Hc Hcap Ho Hout Hs Hx]. unfold backlog in *. rewrite Ew in *. cbn in Hp, Ho.
  destruct ok; constructor; unfold backlog; cbn; try done.
  - rewrite u64_small; lia.
  - rewrite <- (Z.add_0_r n). eapply u64_conserve; [exact Hc|lia].
  - by rewrite <- app_assoc.
  - rewrite u64_small; lia.
  - rewrite <- (Z.add_0_r n). eapply u64_conserve; [exact Hc|lia].
  - etrans; [|exact Ho]. apply sublist_app; [reflexivity|]. by apply sublist_cons.
Qed.

Lemma write_exit_inv n es r r' :
  write_exit r = Some r' → rec_inv n es r → rec_inv n es r'.
Proof.
  unfold write_exit. destruct (rec_writer r) eqn:Ew; try done.
  destruct (rec_queue r) eqn:Eq; [|done]. destruct (rec_closed r) eqn:Ec; [|done].
  intros [= <-] [Hp Hc Hcap Ho Hout Hs Hx].
  unfold backlog in *. rewrite Ew, Eq in *. constructor; unfold backlog; cbn in *; done.
Qed.

Definition records (l : rlabel) : Z := match l with LRecord _ _ => 1 | _ => 0 end.

Lemma rexec_inv n es l r r' :
  rexec l r = Some r' → rec_inv n es r → rec_inv (n + records l) (es ++ recorded [l]) r'.
Proof.
  destruct l as [e now| | |ok| | |]; cbn [records recorded rexec];
    rewrite ?Z.add_0_r, ?app_nil_r; intros H Hi.
  - injection H as <-. by apply Record_inv.
  - by eapply write_receive_inv.
  - by eapply write_check_inv.
  - by eapply write_encoded_inv.
  - by eapply write_exit_inv.
  - injection H as <-. destruct Hi. constructor; try done. cbn. naive_solver.
  - injection H as <-. destruct Hi. by constructor.
Qed.

Lemma recorded_app l1 l2 : recorded (l1 ++ l2) = recorded l1 ++ recorded l2.
Proof. induction l1 as [|[] l1 IH]; simpl; congruence. Qed.

Lemma rexec_all_inv n es ls r r' :
  rexec_all ls r = Some r' → rec_inv n es r →
  rec_inv (n + Z.of_nat (length (recorded ls))) (es ++ recorded ls) r'.
Proof.
  revert n es r. induction ls as [|l ls IH]; intros n es r H Hi.
  { injection H as <-. cbn. by rewrite Z.add_0_r, app_nil_r. }
  cbn [rexec_all] in H. apply bind_Some in H as (r1 & H1 & H).
  pose proof (IH _ _ _ H (rexec_inv _ _ _ _ _ H1 Hi)) as Hf.
  change (l :: ls) with ([l] ++ ls). rewrite recorded_app, length_app, app_assoc.
  replace (n + Z.of_nat (length (recorded [l]) + length (recorded ls))) with
    (n + records l + Z.of_nat (length (recorded ls))); [done|].
  destruct l; cbn [recorded records length]; lia.
Qed.

Lemma New_inv capacity : Z.of_nat capacity + 2 < 2 ^ 64 → rec_inv 0 [] (New capacity).
Proof.
  intros. constructor; cbn; try done; [lia|]. rewrite map_size_empty. unfold outcome_limit. lia.
Qed.

Lemma reachable_inv capacity ls r :
  Z.of_nat capacity + 2 < 2 ^ 64 → rexec_all ls (New capacity) = Some r →
  rec_inv (Z.of_nat (length (recorded ls))) (recorded ls) r.
Proof.
  intros Hc H. pose proof (rexec_all_inv 0 [] _ _ _ H (New_inv _ Hc)) as Hi. by rewrite Z.add_0_l in Hi.
Qed.

(** C13. In every interleaving, each recorded event is counted exactly once:
    written + dropped + pending equals the number of Record calls, and pending is
    exactly the queued events plus the one the writer holds. *)
Theorem recorder_conservation capacity ls r :
  Z.of_nat capacity + 2 < 2 ^ 64 → rexec_all ls (New capacity) = Some r →
  u64 (rc_Written (rec_counts r) + rc_Dropped (rec_counts r) + rc_Pending (rec_counts r)) =
    u64 (Z.of_nat (length (recorded ls))) ∧
  rc_Pending (rec_counts r) = Z.of_nat (length (backlog r)).
Proof.
  intros Hc H. destruct (reachable_inv _ _ _ Hc H). done.
Qed.

(** The sink receives a subsequence of the recorded events, in recording
    order and without duplicates, and the events still queued come after them. *)
Theorem recorder_order capacity ls r :
  Z.of_nat capacity + 2 < 2 ^ 64 → rexec_all ls (New capacity) = Some r →
  sublist (rec_output r ++ backlog r) (recorded ls).
Proof. intros Hc H. by destruct (reachable_inv _ _ _ Hc H). Qed.

Lemma rexec_capacity l r r' : rexec l r = Some r' → rec_capacity r' = rec_capacity r.
Proof.
  destruct l as [e now| | |ok| | |]; cbn [rexec].
  - intros [= <-]. unfold Record_. by destruct (_ && _).
  - unfold write_receive. by repeat case_match; intros [= <-].
  - unfold write_check. by repeat case_match; intros [= <-].
  - unfold write_encoded. by repeat case_match; intros [= <-].
  - unfold write_exit. by repeat case_match; intros [= <-].
  - by intros [= <-].
  - by intros [= <-].
Qed.

Lemma rexec_all_capacity ls r r' : rexec_all ls r = Some r' → rec_capacity r' = rec_capacity r.
Proof.
  revert r. induction ls as [|l ls IH]; intros r H; [by injection H as <-|].
  cbn in H. apply bind_Some in H as (r1 & H1 & H). rewrite (IH _ H). by eapply rexec_capacity.
Qed.

(** Memory is bounded: at most [capacity] queued events and 32 outcome
    labels, whatever is recorded. *)
Theorem recorder_bounded capacity ls r :
  Z.of_nat capacity + 2 < 2 ^ 64 → rexec_all ls (New capacity) = Some r →
  (length (rec_queue r) ≤ capacity)%nat ∧ (size (Outcomes r) ≤ 32)%nat.
Proof.
  intros Hc H. destruct (reachable_inv _ _ _ Hc H) as [_ _ Hcap _ Hout _ _].
  by rewrite (rexec_all_capacity _ _ _ H) in Hcap.
Qed.

(** When Close reports success the writer has drained the queue: nothing is
    pending and every recorded event was written or counted as dropped. *)
Theorem recorder_close_clean capacity ls r :
  Z.of_nat capacity + 2 < 2 ^ 64 → rexec_all ls (New capacity) = Some r →
  close_result r = Some None →
  rec_queue r = [] ∧ rec_writer r = Exited ∧
  u64 (rc_Written (rec_counts r) + rc_Dropped (rec_counts r)) =
    u64 (Z.of_nat (length (recorded ls))).
Proof.
  intros Hc H Hr. destruct (reachable_inv _ _ _ Hc H) as [Hp Hcons _ _ _ _ _].
  unfold close_result in Hr. destruct (stopped r) eqn:Es; [|done].
  destruct (Z.eqb_spec (rc_Pending (rec_counts r)) 0) as [E|]; [|done].
  rewrite E in Hp, Hcons. rewrite Z.add_0_r in Hcons. unfold backlog in Hp. rewrite length_app in Hp.
  unfold stopped in Es. destruct (rec_writer r); try done; cbn in Hp.
  split_and!; [|done|done]. apply nil_length_inv. lia.
Qed.

(** ** The writer always finishes *)

Definition write_one (ok : bool) : list rlabel := [LReceive; LCheck; LEncoded ok].

(** The writer's own steps: encode each queued event, then leave. *)
Fixpoint drain (oks : list bool) : list rlabel :=
  match oks with [] => [LExit] | ok :: rest => write_one ok ++ drain rest end.

Lemma drain_all oks r :
  rec_writer r = Idle → rec_closed r = true → rec_abort r = false →
  length oks = length (rec_queue r) →
  ∃ r', rexec_all (drain oks) r = Some r' ∧ rec_writer r' = Exited ∧ rec_queue r' = [].
Proof.
  revert r. induction oks as [|ok oks IH]; intros r Hw Hc Ha Hl.
  - symmetry in Hl. apply nil_length_inv in Hl. cbn. unfold write_exit. rewrite Hw, Hl, Hc. cbn. eauto.
  - destruct (rec_queue r) as [|e q] eqn:Eq; [done|]. cbn in Hl.
    cbn [drain write_one app rexec_all rexec]. unfold write_receive at 1. rewrite Hw, Eq.
    cbn. rewrite Ha. cbn. destruct ok; cbn; apply IH; cbn; try done; lia.
Qed.

Lemma rexec_all_app l1 l2 r : rexec_all (l1 ++ l2) r = rexec_all l1 r ≫= rexec_all l2.
Proof. revert r. induction l1 as [|l l1 IH]; intros r; cbn; [done|]. destruct (rexec l r); cbn; auto. Qed.

Lemma recorded_drain oks : recorded (drain oks) = [].
Proof. induction oks as [|ok oks IH]; [done|]. done. Qed.

(** From any reachable closed recorder whose writer is waiting and was not
    aborted, one encode per queued event (successful or not) brings the writer to
    its exit, and Close then returns success. *)
Theorem recorder_close_terminates capacity ls r oks :
  Z.of_nat capacity + 2 < 2 ^ 64 → rexec_all ls (New capacity) = Some r →
  rec_writer r = Idle → rec_closed r = true → rec_abort r = false →
  length oks = length (rec_queue r) →
  ∃ r', rexec_all (drain oks) r = Some r' ∧ close_result r' = Some None.
Proof.
  intros Hcap H Hw Hc Ha Hl. destruct (drain_all oks r Hw Hc Ha Hl) as (r' & Hr & Hw' & Hq').
  exists r'. split; [done|].
  assert (rexec_all (ls ++ drain oks) (New capacity) = Some r') as Hall
    by (rewrite rexec_all_app, H; done).
  destruct (reachable_inv _ _ _ Hcap Hall) as [Hp _ _ _ _ _ _].
  unfold close_result, stopped. rewrite Hw'. unfold backlog in Hp. rewrite Hw', Hq' in Hp.
  by rewrite Hp.
Qed.
