(* ===== verification/Store.v ===== *)
(** * Managed state and accounts (internal/control/remote/store.go, auth.go)

    The data directory: state.json and users.json, each with its content and the
    contents a crash may leave, and the instance lock. Every system call answers
    with an error or not, as an argument. JSON is the class [Json]; the files a
    configuration names, the YAML library and the clock are arguments. *)

From Stdlib Require Import Ascii.
From S2P Require Import Prelude GoLib GoUtf8 GoRand GoTime GoCrypto Config Validate Engine Control Decode Load.
Local Open Scope go_scope.

Definition auditLimit : nat := 1000.

Record Audit := {
  au_Time : Z;
  au_Actor : string;
  au_Operation : string;
  au_Revision : Z;
  au_Outcome : string
}.

Record state := {
  sa_Version : Z;
  sa_Config : bytes;
  sa_Revision : Z;
  sa_LastApply : Result;
  sa_Audit : list Audit
}.

Record Store := {
  so_dir : string;
  so_state : state;
  so_poisoned : bool
}.

Record user := { us_Role : string; us_Salt : string; us_Hash : string }.

#[export] Instance user_eq_dec : EqDecision user. Proof. solve_decision. Defined.

(** encoding/json for the two files; [users_Unmarshal] is [None] for an error and
    for null. *)
Class Json := {
  state_Marshal : state → option bytes;
  state_Unmarshal : bytes → option state;
  users_Marshal : gmap string user → option bytes;
  users_Unmarshal : bytes → option (gmap string user)
}.

(** ** The data directory *)

(** A file's content now, and what a crash may leave of it. *)
Record file := { f_live : option bytes; f_crash : list (option bytes) }.

Record Disk := { dk_state : file; dk_users : file; dk_locked : bool }.

Definition set_dk_state (f : file) (d : Disk) : Disk :=
  {| dk_state := f; dk_users := dk_users d; dk_locked := dk_locked d |}.
Definition set_dk_users (f : file) (d : Disk) : Disk :=
  {| dk_state := dk_state d; dk_users := f; dk_locked := dk_locked d |}.
Definition set_dk_locked (b : bool) (d : Disk) : Disk :=
  {| dk_state := dk_state d; dk_users := dk_users d; dk_locked := b |}.

(** The answers of the system calls of one atomicFile. *)
Record commit := {
  io_CreateTemp : option string;
  io_Write : option string;
  io_Sync : option string;
  io_Close : option string;
  io_Rename : option string;
  io_OpenDir : option string;
  io_SyncDir : option string
}.

(** os.Rename replaces the content at once; a crash may undo it until the
    directory is synced. *)
Definition rename_file (data : bytes) (f : file) : file :=
  {| f_live := Some data; f_crash := Some data :: f_crash f |}.
Definition sync_file (f : file) : file := {| f_live := f_live f; f_crash := [f_live f] |}.

(** atomicFile: the new file, whether it was renamed, and the error. The
    temporary file is removed on return and is not part of the state. *)
Definition atomicFile (io : commit) (data : bytes) (f : file) : file * (bool * option string) :=
  match io_CreateTemp io with
  | Some err => (f, (false, Some err))
  | None =>
      let err := match io_Write io with None => io_Sync io | err => err end in
      let err := match err with None => io_Close io | err => err end in
      match err with
      | Some err => (f, (false, Some err))
      | None =>
          match io_Rename io with
          | Some err => (f, (false, Some err))
          | None =>
              let f := rename_file data f in
              match io_OpenDir io with
              | Some err => (f, (true, Some err))
              | None =>
                  match io_SyncDir io with
                  | Some err => (f, (true, Some err))
                  | None => (sync_file f, (true, None))
                  end
              end
          end
      end
  end.

(** What the directory calls answer: os.MkdirAll, os.Lstat (is a directory, mode
    bits), opening a lock file, flock, and reading state.json or users.json. *)
Record directory := {
  os_MkdirAll : option string;
  os_Lstat : res string (bool * Z);
  os_OpenLock : option string;
  os_Flock : option string;
  os_Read : option string
}.

(** Perm() &0077, in decimal. *)
Definition privateDir (a : directory) : option failure :=
  match os_MkdirAll a with
  | Some err => Some (Other err)
  | None =>
      match os_Lstat a with
      | Err err => Some (Other err)
      | Ok (isDir, mode) =>
          if negb isDir || negb (Z.land (Z.land mode 511) 63 =? 0)
          then Some (Other "data directory must be private (0700), not a symlink") else None
      end
  end.

Section store.
Context `{Yaml} `{Json}.
Context (fs : Files) (range : gmap string string → list (string * string)).
Context (marshal : Config → gmap string bytes → option bytes).

(** ** Saving *)

Definition set_so_state (st : state) (s : Store) : Store :=
  {| so_dir := so_dir s; so_state := st; so_poisoned := so_poisoned s |}.
Definition set_so_poisoned (b : bool) (s : Store) : Store :=
  {| so_dir := so_dir s; so_state := so_state s; so_poisoned := b |}.

Definition save (io : commit) (next : state) (s : Store) (d : Disk) : Store * Disk * option failure :=
  if so_poisoned s then (s, d, Some (Other "storage commit uncertain; restart required"))
  else
    match state_Marshal next with
    | None => (s, d, Some (Other "json: marshal"))
    | Some data =>
        let '(f, (renamed, err)) := atomicFile io data (dk_state d) in
        let d := set_dk_state f d in
        match err with
        | Some err => (set_so_poisoned renamed s, d, Some (Other ("persist managed state: " +:+ err)))
        | None => (set_so_state next s, d, None)
        end
    end.

Definition keep_last (l : list Audit) : list Audit :=
  if bool_decide (auditLimit < length l)%nat then drop (length l - auditLimit) l else l.

Definition appendAudit (st : state) (now : Z) (actor operation outcome : string) (revision : Z) : state :=
  {| sa_Version := sa_Version st; sa_Config := sa_Config st; sa_Revision := sa_Revision st;
     sa_LastApply := sa_LastApply st;
     sa_Audit := keep_last (sa_Audit st ++ [{| au_Time := now; au_Actor := actor; au_Operation := operation;
                                               au_Revision := revision; au_Outcome := outcome |}]) |}.

Definition store_audit (io : commit) (now : Z) (actor operation outcome : string) (revision : Z)
    (s : Store) (d : Disk) : Store * Disk * option failure :=
  save io (appendAudit (so_state s) now actor operation outcome revision) s d.

Definition with_config (data : bytes) (revision : Z) (last : Result) (st : state) : state :=
  {| sa_Version := sa_Version st; sa_Config := data; sa_Revision := revision; sa_LastApply := last;
     sa_Audit := sa_Audit st |}.

Definition store_apply (io : commit) (now : Z) (actor : string) (doc : Document) (result : Result)
    (s : Store) (d : Disk) : Store * Disk * option failure :=
  match Encode (d_config doc) with
  | Err err => (s, d, Some err)
  | Ok data =>
      let revision := i_Revision (rs_Info result) in
      let next := appendAudit (so_state s) now actor "apply" "ok" revision in
      save io (with_config data revision result next) s d
  end.

(** ** Opening *)

Definition zero_state : state :=
  {| sa_Version := 0; sa_Config := []; sa_Revision := 0; sa_LastApply := zero_result; sa_Audit := [] |}.

Definition bootstrap_state (data : bytes) (now : Z) : state :=
  {| sa_Version := 1; sa_Config := data; sa_Revision := 1; sa_LastApply := zero_result;
     sa_Audit := [{| au_Time := now; au_Actor := "operator"; au_Operation := "bootstrap"; au_Revision := 1;
                     au_Outcome := "ok" |}] |}.

Definition active_path (dir : string) : string := Join (fs_env fs) dir "active.yaml".

Definition load (a : directory) (io : commit) (now : Z) (bootstrap : string) (s : Store) (d : Disk) :
    Store * Disk * res failure Document :=
  match os_Read a with
  | Some err => (s, d, Err (Other err))
  | None =>
      match f_live (dk_state d) with
      | None =>
          match Load fs range marshal bootstrap with
          | Err err => (s, d, Err err)
          | Ok doc =>
              match Encode (d_config doc) with
              | Err err => (s, d, Err err)
              | Ok encoded =>
                  match save io (bootstrap_state encoded now) s d with
                  | (s, d, Some err) => (s, d, Err err)
                  | (s, d, None) => (s, d, Ok doc)
                  end
              end
          end
      | Some data =>
          match state_Unmarshal data with
          | None => (s, d, Err (Other "invalid managed state"))
          | Some st =>
              let s := set_so_state st s in
              if negb (sa_Version st =? 1) || (sa_Revision st =? 0)
              then (s, d, Err (Other "unsupported managed state"))
              else (s, d, Parse fs range marshal (sa_Config st) (active_path (so_dir s)))
          end
      end
  end.

Definition Open (a : directory) (io : commit) (now : Z) (dir bootstrap : string) (d : Disk) :
    Disk * res failure (Store * Document) :=
  match privateDir a with
  | Some err => (d, Err err)
  | None =>
      match os_OpenLock a with
      | Some err => (d, Err (Other err))
      | None =>
          if dk_locked d || is_some (os_Flock a) then (d, Err (Other "managed data is already in use"))
          else
            let s := {| so_dir := dir; so_state := zero_state; so_poisoned := false |} in
            match load a io now bootstrap s (set_dk_locked true d) with
            | (_, d, Err err) => (set_dk_locked false d, Err err)
            | (s, d, Ok doc) => (d, Ok (s, doc))
            end
      end
  end.

Definition store_Close (d : Disk) : Disk := set_dk_locked false d.

(** Configure: [io1] answers the save of a bootstrap, [io2] the save of the new
    configuration. *)
Definition Configure (a : directory) (io1 io2 : commit) (now : Z) (dir filename : string) (d : Disk) :
    Disk * option failure :=
  match Open a io1 now dir filename d with
  | (d, Err err) => (d, Some err)
  | (d, Ok (s, current)) =>
      match Load fs range marshal filename with
      | Err err => (store_Close d, Some err)
      | Ok doc =>
          if Equal (Some current) (Some doc) then
            let '(_, d, err) := store_audit io2 now "operator" "configure" "no_op" (sa_Revision (so_state s)) s d in
            (store_Close d, err)
          else
            match Encode (d_config doc) with
            | Err err => (store_Close d, Some err)
            | Ok data =>
                let revision := u64 (sa_Revision (so_state s) + 1) in
                let next := appendAudit (so_state s) now "operator" "configure" "ok" revision in
                let last := {| rs_Changed := true;
                               rs_Info := {| i_RunID := ""; i_Revision := revision; i_Enabled := false;
                                             i_ControlSequence := 0; i_AppliedAt := now;
                                             i_StateChangedAt := 0 |} |} in
                let '(_, d, err) := save io2 (with_config data revision last next) s d in
                (store_Close d, err)
            end
      end
  end.

(** ** Accounts *)

Definition readUsers (read_error : option string) (d : Disk) : res failure (gmap string user) :=
  match read_error, f_live (dk_users d) with
  | Some err, _ => Err (Other err)
  | None, None => Err (Other "users.json: file does not exist")
  | None, Some data =>
      match users_Unmarshal data with
      | None => Err (Other "invalid users file")
      | Some users => Ok users
      end
  end.

Definition passwordHash (password : string) (salt : bytes) : string :=
  hex_EncodeToString (pbkdf2_Key password salt 600000).

Definition verifyPassword (u : user) (password : string) : bool :=
  let salt := match hex_DecodeString (us_Salt u) with
              | Some salt => if bool_decide (length salt = 16%nat) then salt else replicate 16 (byte.of_Z 0)
              | None => replicate 16 (byte.of_Z 0)
              end in
  let hash := passwordHash password salt in
  (hash =s us_Hash u) && ((us_Role u =s "viewer") || (us_Role u =s "editor")).

(** ^[a-zA-Z0-9_.-]{1,64}$ *)
Definition user_char (c : ascii) : bool :=
  let n := Z.of_nat (nat_of_ascii c) in
  ((97 <=? n) && (n <=? 122)) || ((65 <=? n) && (n <=? 90)) || is_digit c ||
  Ascii.eqb c "_" || Ascii.eqb c "." || Ascii.eqb c "-".
Definition userName (s : string) : bool :=
  nonempty s && bool_decide (String.length s ≤ 64)%nat && all_chars user_char s.

(** SetUser; [salt] is what rand.Read fills, or its error. *)
Definition SetUser (a : directory) (io : commit) (salt : res string bytes)
    (name role password : string) (remove : bool) (d : Disk) : Disk * option failure :=
  if negb (userName name)
  then (d, Some (Other "username: use 1–64 letters, digits, dot, underscore or hyphen"))
  else if negb remove && ((negb (role =s "viewer") && negb (role =s "editor")) ||
                          bool_decide (String.length password < 12)%nat || bool_decide (1024 < String.length password)%nat)
  then (d, Some (Other "role must be viewer/editor; password must be 12–1024 bytes"))
  else
    match privateDir a with
    | Some err => (d, Some err)
    | None =>
        match os_OpenLock a, os_Flock a with
        | Some err, _ | None, Some err => (d, Some (Other err))
        | None, None =>
            match (match os_Read a, f_live (dk_users d) with
                   | None, None => Ok ∅
                   | _, _ => readUsers (os_Read a) d
                   end) with
            | Err err => (d, Some err)
            | Ok users =>
                match (if remove then Ok (delete name users)
                       else
                         match salt with
                         | Err err => Err (Other err)
                         | Ok salt =>
                             Ok (<[name := {| us_Role := role; us_Salt := hex_EncodeToString salt;
                                              us_Hash := passwordHash password salt |}]> users)
                         end) with
                | Err err => (d, Some err)
                | Ok users =>
                    match users_Marshal users with
                    | None => (d, Some (Other "json: marshal"))
                    | Some data =>
                        let '(f, (_, err)) := atomicFile io data (dk_users d) in
                        (set_dk_users f d, Other <$> err)
                    end
                end
            end
        end
    end.
End store.
