(* ===== verification/StoreSpec.v ===== *)
(** * Correctness of the managed store

    A save is all or nothing, now and after a crash; an uncertain commit stops
    further saves; reopening after a crash finds the state that was saved; the
    audit trail is bounded; accounts written by SetUser verify their password. *)

From Stdlib Require Import Ascii.
From S2P Require Import Prelude GoLib GoUtf8 GoRand GoTime GoCrypto Config Validate Engine Control Decode Load Store.
Local Open Scope go_scope.

(** encoding/json reads back what it wrote. *)
Class JsonLaws `{Json} : Prop := {
  state_roundtrip st data : state_Marshal st = Some data → state_Unmarshal data = Some st;
  users_roundtrip users data : users_Marshal users = Some data → users_Unmarshal data = Some users
}.

(** ** atomicFile *)

Inductive commit_outcome (data : bytes) (f : file) : file * (bool * option string) → Prop :=
| committed : commit_outcome data f ({| f_live := Some data; f_crash := [Some data] |}, (true, None))
| uncertain err : commit_outcome data f (rename_file data f, (true, Some err))
| untouched err : commit_outcome data f (f, (false, Some err)).

Lemma atomicFile_outcome io data f : commit_outcome data f (atomicFile io data f).
Proof.
  unfold atomicFile. destruct (io_CreateTemp io); [constructor|].
  destruct (io_Write io), (io_Sync io), (io_Close io); try constructor.
  destruct (io_Rename io); [constructor|]. destruct (io_OpenDir io); [constructor|].
  destruct (io_SyncDir io); constructor.
Qed.

(** ** Audit trail *)

Lemma keep_last_length l : (length (keep_last l) ≤ auditLimit)%nat.
Proof.
  unfold keep_last. destruct (bool_decide _) eqn:E; bool_hyps; [rewrite length_drop; lia|lia].
Qed.

Lemma keep_last_last l x : last (keep_last (l ++ [x])) = Some x.
Proof.
  unfold keep_last. destruct (bool_decide _) eqn:E; [|apply last_snoc]. bool_hyps.
  rewrite length_app in *. cbn [length] in *.
  rewrite drop_app_le by (unfold auditLimit in *; lia). apply last_snoc.
Qed.

Section store.
Context `{JsonLaws}.

(** ** Saving *)

(** The state file holds [st], now and after any crash. *)
Definition durable (st : state) (d : Disk) : Prop :=
  ∃ data, state_Unmarshal data = Some st ∧ dk_state d = {| f_live := Some data; f_crash := [Some data] |}.

(** After an uncertain commit of [next] over [st]: a crash leaves one or the other. *)
Definition either (st next : state) (d : Disk) : Prop :=
  ∃ old new, state_Unmarshal old = Some st ∧ state_Unmarshal new = Some next ∧
    dk_state d = {| f_live := Some new; f_crash := [Some new; Some old] |}.

Inductive save_outcome (next : state) (s : Store) (d : Disk) : Store * Disk * option failure → Prop :=
| save_done d' : durable next d' → dk_users d' = dk_users d → save_outcome next s d (set_so_state next s, d', None)
| save_refused e : save_outcome next s d (s, d, Some e)
| save_uncertain d' e :
    either (so_state s) next d' → dk_users d' = dk_users d →
    save_outcome next s d (set_so_poisoned true s, d', Some e).

Lemma set_dk_state_eta d : set_dk_state (dk_state d) d = d.
Proof. by destruct d. Qed.

Lemma set_so_poisoned_eta s : so_poisoned s = false → set_so_poisoned false s = s.
Proof. destruct s. by intros [= ->]. Qed.

Lemma save_cases io next s d :
  so_poisoned s = false → durable (so_state s) d → save_outcome next s d (save io next s d).
Proof using All.
  intros Hp (data & Hu & Hf). unfold save. rewrite Hp.
  destruct (state_Marshal next) as [new|] eqn:Em; [|constructor]. apply state_roundtrip in Em.
  destruct (atomicFile_outcome io new (dk_state d)) as [|err|err].
  - apply save_done; [|done]. by exists new.
  - apply save_uncertain; [|done]. exists data, new. split_and!; [done..|]. cbn. unfold rename_file. by rewrite Hf.
  - rewrite set_dk_state_eta, set_so_poisoned_eta by done. constructor.
Qed.

(** A poisoned store saves nothing. *)
Lemma save_poisoned io next s d :
  so_poisoned s = true → ∃ e, save io next s d = (s, d, Some e).
Proof. intros Hp. unfold save. rewrite Hp. eauto. Qed.

(** ** Crashes *)

(** The directory after a crash: the state file has one of the contents a crash
    may leave, and the lock is gone. *)
Definition crashes (d d' : Disk) : Prop :=
  f_live (dk_state d') ∈ f_crash (dk_state d) ∧ f_crash (dk_state d') = [f_live (dk_state d')] ∧
  dk_locked d' = false.

Lemma durable_crash st d d' : durable st d → crashes d d' → durable st d'.
Proof.
  intros (data & Hu & Hf) (Hl & Hc & _). rewrite Hf in Hl. cbn in Hl. apply list_elem_of_singleton in Hl.
  exists data. split; [done|]. destruct (dk_state d'). cbn in *. by subst.
Qed.

Lemma either_crash st next d d' : either st next d → crashes d d' → durable st d' ∨ durable next d'.
Proof.
  intros (old & new & Ho & Hn & Hf) (Hl & Hc & _). rewrite Hf in Hl. cbn in Hl.
  apply elem_of_cons in Hl as [Hl|Hl%list_elem_of_singleton]; destruct (dk_state d') as [live crash] eqn:Ed; cbn in *; subst.
  - right. by exists new.
  - left. by exists old.
Qed.

Section open.
Context `{Yaml} (fs : Files) (range : gmap string string → list (string * string)).
Context (marshal : Config → gmap string bytes → option bytes).

(** Opening a directory whose state file holds [st] finds [st]. *)
Lemma Open_durable a io now dir bootstrap st d d' s doc :
  durable st d → Open fs range marshal a io now dir bootstrap d = (d', Ok (s, doc)) →
  so_state s = st ∧ so_poisoned s = false ∧ so_dir s = dir ∧ durable st d' ∧ dk_locked d' = true ∧
  sa_Version st = 1 ∧ sa_Revision st ≠ 0 ∧ Parse fs range marshal (sa_Config st) (active_path fs dir) = Ok doc.
Proof.
  intros (data & Hu & Hf). unfold Open. destruct (privateDir a); [done|]. destruct (os_OpenLock a); [done|].
  destruct (dk_locked d || is_some (os_Flock a)); [done|]. unfold load.
  destruct (os_Read a); [done|]. cbn [set_dk_locked dk_state]. rewrite Hf. cbn [f_live]. rewrite Hu.
  destruct (negb (sa_Version st =? 1) || (sa_Revision st =? 0)) eqn:Ev; [done|]. bool_hyps.
  cbn [set_so_state so_dir]. destruct (Parse _ _ _ _ _) as [doc'|] eqn:Ep; [|done]. intros [= <- <- <-].
  split_and!; try done. by exists data.
Qed.

(** Bootstrapping an empty directory saves the loaded configuration as revision 1. *)
Lemma Open_fresh a io now dir bootstrap d d' s doc :
  f_live (dk_state d) = None → f_crash (dk_state d) = [None] →
  Open fs range marshal a io now dir bootstrap d = (d', Ok (s, doc)) →
  ∃ data, Load fs range marshal bootstrap = Ok doc ∧ Encode (d_config doc) = Ok data ∧
    so_state s = bootstrap_state data now ∧ so_poisoned s = false ∧ so_dir s = dir ∧ durable (so_state s) d'.
Proof using All.
  intros Hl Hc. unfold Open. destruct (privateDir a); [done|]. destruct (os_OpenLock a); [done|].
  destruct (dk_locked d || is_some (os_Flock a)); [done|]. unfold load.
  destruct (os_Read a); [done|]. cbn [set_dk_locked dk_state]. rewrite Hl.
  destruct (Load _ _ _ _) as [doc'|]; [|done]. destruct (Encode _) as [data|] eqn:Ee; [|done].
  unfold save. cbn [so_poisoned]. destruct (state_Marshal _) as [bs|] eqn:Em; [|done]. cbn [dk_state set_dk_locked].
  destruct (atomicFile_outcome io bs (dk_state d)) as [|err|err]; [|done|done]. intros [= <- <- <-].
  exists data. split_and!; try done. exists bs. split; [by apply state_roundtrip|done].
Qed.
End open.

(** An instance that holds the lock excludes every other. *)
Lemma Open_exclusive `{Yaml} fs range marshal a io now dir bootstrap d :
  dk_locked d = true → ∃ e, Open fs range marshal a io now dir bootstrap d = (d, Err e).
Proof.
  intros Hl. unfold Open. destruct (privateDir a); [eauto|]. destruct (os_OpenLock a); [eauto|]. rewrite Hl. eauto.
Qed.

(** ** Accounts *)

Lemma verifyPassword_new role password salt :
  (role = "viewer" ∨ role = "editor") → length salt = 16%nat →
  verifyPassword {| us_Role := role; us_Salt := hex_EncodeToString salt; us_Hash := passwordHash password salt |}
    password = true.
Proof.
  intros Hr Hs. unfold verifyPassword. cbn [us_Role us_Salt us_Hash]. rewrite hex_roundtrip, bool_decide_true by done.
  rewrite str_eq_refl. by destruct Hr as [-> | ->].
Qed.

(** Without an account no password is right. *)
Lemma verifyPassword_missing password :
  verifyPassword {| us_Role := ""; us_Salt := ""; us_Hash := "" |} password = false.
Proof. unfold verifyPassword. cbn [us_Role us_Salt us_Hash]. by rewrite andb_comm. Qed.

(** The accounts before the update; a missing file is no accounts. *)
Definition accounts (read_error : option string) (d : Disk) : res failure (gmap string user) :=
  match read_error, f_live (dk_users d) with None, None => Ok ∅ | _, _ => readUsers read_error d end.

(** An account SetUser writes can log in with its password; every other account
    is kept, and a removed one is gone. *)
Theorem SetUser_effect a io salt name role password remove d d' :
  (∀ bs, salt = Ok bs → length bs = 16%nat) →
  SetUser a io salt name role password remove d = (d', None) →
  ∃ users users', accounts (os_Read a) d = Ok users ∧ readUsers None d' = Ok users' ∧
    delete name users' = delete name users ∧
    if remove then users' !! name = None
    else ∃ u, users' !! name = Some u ∧ us_Role u = role ∧ verifyPassword u password = true.
Proof using All.
  intros Hsalt. unfold SetUser. destruct (negb (userName name)); [done|].
  destruct (negb remove && _) eqn:Eargs; [done|]. destruct (privateDir a); [done|].
  destruct (os_OpenLock a); [done|]. destruct (os_Flock a); [done|]. fold (accounts (os_Read a) d).
  destruct (accounts (os_Read a) d) as [users|]; [|done].
  destruct (if remove then _ else _) as [users'|] eqn:Eu; [|done].
  destruct (users_Marshal users') as [data|] eqn:Em; [|done]. apply users_roundtrip in Em.
  destruct (atomicFile_outcome io data (dk_users d)) as [|err|err]; cbn; intros [= <-].
  exists users, users'. split; [done|]. unfold readUsers. cbn. rewrite Em. split; [done|].
  destruct remove.
  - injection Eu as <-. rewrite delete_delete_eq. split; [done|]. apply lookup_delete_eq.
  - destruct salt as [bs|]; [|done]. injection Eu as <-. rewrite delete_insert_eq. split; [done|].
    eexists. rewrite lookup_insert_eq. split; [done|]. split; [done|]. apply verifyPassword_new; [|auto].
    cbn [negb] in Eargs. rewrite andb_true_l in Eargs. apply orb_false_iff in Eargs as [[Er _]%orb_false_iff _].
    apply andb_false_iff in Er as [Er|Er]; bool_hyps; auto.
Qed.

(** ** A save and a crash *)

(** A save and a crash at any later time: after a save that succeeded the directory
    holds the new state, after one that failed before the rename the old one, and
    after one that failed later the old or the new one, and the store refuses
    every further save. *)
Theorem save_crash io next s d s' d' err d'' :
  so_poisoned s = false → durable (so_state s) d → save io next s d = (s', d', err) → crashes d' d'' →
  match err with
  | None => so_state s' = next ∧ durable next d''
  | Some _ => so_state s' = so_state s ∧
      if so_poisoned s' then durable (so_state s) d'' ∨ durable next d'' else durable (so_state s) d''
  end.
Proof using All.
  intros Hp Hd Hs Hc. pose proof (save_cases io next s d Hp Hd) as Ho. rewrite Hs in Ho.
  inversion Ho; subst.
  - split; [done|]. by eapply durable_crash.
  - rewrite Hp. split; [done|]. by eapply durable_crash.
  - cbn. split; [done|]. by eapply either_crash.
Qed.
End store.
