(* ===== verification/Admin.v ===== *)
(** * Control over the Unix socket (internal/control/admin/server.go, status.go)

    The request handler, with the service, the recorder and the persisted store
    [W] of the control service as its state. The socket and the HTTP server are
    the operating system's and net/http's; a request carries what the handler
    reads of it, and whether its context is already cancelled. *)

From S2P Require Import Prelude GoLib GoUtf8 GoRand GoTime Config Validate Engine Control Recorder Decode Load.
Local Open Scope go_scope.

Record ListenerStatus := { ls_ProxyID : string; ls_Address : string; ls_Ready : bool }.

Record RuleCounters := { ru_ProxyID : string; ru_RuleID : string; ru_Eligible : Z; ru_Selected : Z }.

Record Status := {
  ss_Info : Info;
  ss_Ready : bool;
  ss_Listeners : list ListenerStatus;
  ss_Counters : Recorder.Counters;
  ss_Rules : list RuleCounters
}.

(** ** Status *)

Definition rule_counters (s : Service) (sn : Snapshot) (p : Proxy) (r : Rule) : RuleCounters :=
  let c := match snapshot_Counters s sn (p_ID p) (r_ID r) with
           | Some (c, _) => c
           | None => {| Eligible := 0; Selected := 0 |}
           end in
  {| ru_ProxyID := p_ID p; ru_RuleID := r_ID r; ru_Eligible := Eligible c; ru_Selected := Selected c |}.

Definition status (s : Service) (records : Recorder) (listeners : list ListenerStatus) : Status :=
  let sn := Acquire s in
  {| ss_Info := sn_info sn;
     ss_Ready := negb (bool_decide (listeners = [])) && forallb ls_Ready listeners;
     ss_Listeners := listeners;
     ss_Counters := rec_counts records;
     ss_Rules := match snapshot_config s sn with
                 | None => []
                 | Some c => mjoin ((λ p, rule_counters s sn p <$> p_Rules p) <$> c_Proxies c)
                 end |}.

(** ** Requests *)

(** What the handler reads: the Origin header, the path and method, the body, and
    whether the context is done once the lock is held. *)
Record Request := {
  rq_Origin : string;
  rq_Path : string;
  rq_Method : string;
  rq_Body : bytes;
  rq_Done : bool
}.

Inductive Reply :=
| ReplyError (code : Z) (message : string)
| ReplyStatus (s : Status)
| ReplyResult (r : Result)
| NoReply.

(** FieldError.Error, and the text of any failure. *)
Definition Error (f : failure) : string :=
  match f with
  | Invalid e =>
      if nonempty (e_File e) then e_File e +:+ ": " +:+ e_Path e +:+ ": " +:+ e_Message e
      else e_Path e +:+ ": " +:+ e_Message e
  | Other message => message
  | Panic => "panic"
  end.

(** The event of a control operation. *)
Definition control_event (i : Info) (operation outcome kind : string) (changed : bool) : Event :=
  {| ev_Info := i; ev_Type := "control"; ev_Time := 0; ev_FlowID := ""; ev_ProxyID := "";
     ev_Protocol := ""; ev_StartedAt := 0; ev_FinishedAt := 0; ev_RuleID := "";
     ev_EligibleSequence := 0; ev_Selector := ""; ev_Probability := None; ev_Nth := None;
     ev_Every := None; ev_Selected := false; ev_Reached := false; ev_Applied := false;
     ev_NotReached := false; ev_Phase := ""; ev_Action := ""; ev_Outcome := outcome;
     ev_ErrorKind := kind; ev_CommitConfirmed := false; ev_GRPCStatus := ""; ev_UpstreamStatus := 0;
     ev_Operation := operation; ev_ClientBytes := 0; ev_UpstreamBytes := 0; ev_Changed := changed;
     ev_Counters := None |}.

Section handle.
Context `{Yaml} (fs : Files) (range : gmap string string → list (string * string)).
Context (marshal : Config → gmap string bytes → option bytes).
Context {W : Type} (persist : Document → Result → W → W * option string).

(** The JSON decoder of a reload request: the path, and whether nothing follows. *)
Context (reload_Decode : bytes → option (string * bool)).

Definition body_limit : Z := 8192.

(** The path a reload names, or the answer to a malformed request. A body past
    the limit of MaxBytesReader ends in an error, never in io.EOF. *)
Definition reload_path (body : bytes) : res Reply string :=
  match reload_Decode (take (Z.to_nat body_limit) body) with
  | Some (path, eof) =>
      if negb (IsAbs path) then Err (ReplyError 400 "reload requires an absolute config path")
      else if eof && (Z.of_nat (length body) <=? body_limit) then Ok path
      else Err (ReplyError 400 "expected one JSON object")
  | None => Err (ReplyError 400 "reload requires an absolute config path")
  end.

(** ReloadFile. *)
Definition ReloadFile (s : Service) (w : W) (path : string) (now : Z) : Service * W * res string Result :=
  Reload persist s w (match Load fs range marshal path with Ok d => Ok d | Err f => Err (Error f) end) now.

(** handle, with the clock readings of the service and of the recorder. *)
Definition handle (readOnly : bool) (listeners : list ListenerStatus) (r : Request) (now stamp : Z)
    (s : Service) (w : W) (records : Recorder) : Service * W * Recorder * Reply :=
  if nonempty (rq_Origin r) then (s, w, records, ReplyError 403 "browser requests are unsupported")
  else if (rq_Path r =s "/status") && (rq_Method r =s "GET") then
    let st := status s records listeners in
    (s, w, Record_ (control_event (ss_Info st) "status" "ok" "" false) stamp records, ReplyStatus st)
  else if negb (rq_Method r =s "POST") ||
          (negb (rq_Path r =s "/enable") && negb (rq_Path r =s "/disable") && negb (rq_Path r =s "/reload"))
  then (s, w, records, ReplyError 404 "unknown admin operation")
  else if readOnly
  then (s, w, records, ReplyError 403 "managed mode: use authenticated HTTPS API for mutations")
  else
    match (if rq_Path r =s "/reload" then reload_path (rq_Body r) else Ok "") with
    | Err reply => (s, w, records, reply)
    | Ok path =>
        if rq_Done r then (s, w, records, NoReply)
        else
          let operation := drop_str 1 (rq_Path r) in
          let '(s, w, result) :=
            if operation =s "reload" then ReloadFile s w path now
            else let '(s, result) := SetEnabled s (operation =s "enable") now in (s, w, Ok result) in
          match result with
          | Err err =>
              let event := control_event (sn_info (Acquire s)) operation "rejected" "invalid_config" false in
              (s, w, Record_ event stamp records, ReplyError 400 err)
          | Ok result =>
              let event := control_event (rs_Info result) operation "ok" "" (rs_Changed result) in
              (s, w, Record_ event stamp records, ReplyResult result)
          end
    end.
End handle.
