(* ===== verification/AdminSpec.v ===== *)
(** * Correctness of the admin handler

    A read-only server changes nothing; a change is a POST from no browser, it is
    reported to the caller and recorded with the state it led to. *)

From S2P Require Import Prelude GoLib GoUtf8 GoRand GoTime Config Validate ValidateSpec Engine Control ControlSpec Recorder Decode Load Admin.
Local Open Scope go_scope.

Section admin.
Context `{Yaml} (fs : Files) (range : gmap string string → list (string * string)).
Context (marshal : Config → gmap string bytes → option bytes).
Context {W : Type} (persist : Document → Result → W → W * option string).
Context (reload_Decode : bytes → option (string * bool)).

Lemma SetEnabled_change s b now s' r :
  SetEnabled s b now = (s', r) → s' ≠ s → rs_Changed r = true ∧ rs_Info r = info s'.
Proof. unfold SetEnabled. destruct (Bool.eqb _ _); by intros [= <- <-]. Qed.

Lemma ReloadFile_change s w path now s' w' result :
  ReloadFile fs range marshal persist s w path now = (s', w', result) → s' ≠ s →
  ∃ r, result = Ok r ∧ rs_Changed r = true ∧ rs_Info r = info s'.
Proof.
  unfold ReloadFile, Reload. destruct (Load _ _ _ _) as [d|]; [|by intros [= <- <- <-]].
  unfold Apply. destruct (sv_managed s); [by intros [= <- <- <-]|]. intros Ha Hne.
  pose proof (apply_cases persist s w (Some d) None now) as Hc. rewrite Ha in Hc. inversion Hc; subst; try done. eauto.
Qed.

(** The state of the service changes only through a POST request without an
    Origin to a server that is not read-only; the caller gets the result, and the
    recorder gets one control event with the operation and the new state. *)
Theorem handle_change readOnly listeners r now stamp s w records s' w' records' rep :
  handle fs range marshal persist reload_Decode readOnly listeners r now stamp s w records =
    (s', w', records', rep) →
  s' ≠ s →
  readOnly = false ∧ rq_Origin r = "" ∧ rq_Method r = "POST" ∧
  ∃ result, rep = ReplyResult result ∧ rs_Changed result = true ∧ rs_Info result = info s' ∧
    records' = Record_ (control_event (info s') (drop_str 1 (rq_Path r)) "ok" "" true) stamp records.
Proof.
  unfold handle. cbv zeta. destruct (nonempty (rq_Origin r)) eqn:Eo; [by intros [= <- <- <- <-]|].
  apply nonempty_false in Eo. destruct (_ && _); [by intros [= <- <- <- <-]|].
  destruct (negb (str_eq (rq_Method r) "POST") || _) eqn:Em; [by intros [= <- <- <- <-]|]. bool_hyps.
  destruct readOnly; [by intros [= <- <- <- <-]|].
  destruct (if str_eq (rq_Path r) "/reload" then _ else Ok "") as [path|]; [|by intros [= <- <- <- <-]].
  destruct (rq_Done r); [by intros [= <- <- <- <-]|]. destruct (str_eq (drop_str 1 _) "reload").
  - destruct (ReloadFile _ _ _ _ _ _ _ _) as [[s1 w1] result] eqn:Er. intros Hh Hne.
    assert (s1 = s') as -> by (by destruct result; simplify_eq).
    apply ReloadFile_change in Er as (res & -> & Hc & Hi); [|done]. injection Hh as <- <- <-.
    split_and!; [done..|]. exists res. by rewrite Hc, Hi.
  - destruct (SetEnabled _ _ _) as [s1 res] eqn:Es. intros [= <- <- <- <-] Hne.
    apply SetEnabled_change in Es as [Hc Hi]; [|done]. split_and!; [done..|]. exists res. by rewrite Hc, Hi.
Qed.

(** Every request to a read-only server leaves the service and the store as they
    are. *)
Theorem handle_readOnly listeners r now stamp s w records s' w' records' rep :
  handle fs range marshal persist reload_Decode true listeners r now stamp s w records = (s', w', records', rep) →
  s' = s ∧ w' = w.
Proof.
  unfold handle. cbv zeta. destruct (nonempty _); [by intros [= <- <- <- <-]|].
  destruct (_ && _); [by intros [= <- <- <- <-]|]. destruct (_ || _); by intros [= <- <- <- <-].
Qed.
End admin.
