(* ===== verification/Remote.v ===== *)
(** * The remote control server (internal/control/remote/server.go)

    ServeHTTP is one atomic step on the server and the data directory: it runs
    under the server's mutex. A request carries what the handler reads of it,
    with the clock readings, random texts and system call answers it meets. The
    handler's persistence callback is [store_apply], so that the store and the
    directory are the world [W] of the control service. *)

From Stdlib Require Import Ascii.
From S2P Require Import Prelude GoLib GoUtf8 GoRand GoTime GoCrypto Config Validate Engine Control Recorder Decode Load Store Admin.
Local Open Scope go_scope.

Record session := {
  se_Name : string;
  se_Role : string;
  se_Hash : string;
  se_CSRF : string;
  se_Expires : Z
}.

Record ProxyDraft := { pd_ID : string; pd_Rules : list Rule }.
Record Draft := { df_BaseRevision : Z; df_Proxies : list ProxyDraft }.

Record Server := {
  sr_store : Store;
  sr_service : Service;
  sr_records : Recorder;
  sr_sessions : gmap string session;
  sr_loginWindow : Z;
  sr_loginCount : Z;
  sr_errors : option failure
}.

(** ** Requests and replies *)

Record Request := {
  rq_TLS : bool;
  rq_Method : string;
  rq_Host : string;
  rq_Path : string;
  rq_Origin : string;
  rq_CSRFToken : string;
  rq_ContentType : string;
  rq_Cookie : option string;
  rq_Body : bytes
}.

(** What the environment answers while the request is served: the clock (in
    nanoseconds since the zero time) for the
    request, for each audit entry, the service and the recorder; the random texts
    of a login; the saves and the read of users.json. *)
Record World := {
  wd_now : Z;
  wd_audit1 : Z;
  wd_audit2 : Z;
  wd_service : Z;
  wd_stamp : Z;
  wd_token : string;
  wd_csrf : string;
  wd_io1 : commit;
  wd_io2 : commit;
  wd_users : option string
}.

Record ProxyView := {
  pv_ID : string;
  pv_Protocol : string;
  pv_Listen : string;
  pv_Upstream : string;
  pv_Rules : list Rule
}.
Record ConfigView := { cv_Revision : Z; cv_Proxies : list ProxyView; cv_LastApply : Result }.

(** capabilities: the actions of each protocol, the phases and the selectors. *)
Record CapabilityView := {
  ca_actions : list (string * list string);
  ca_phases : list string;
  ca_protocol_phases : list (string * list string);
  ca_selectors : list string
}.

Definition capabilities : CapabilityView :=
  {| ca_actions := (λ protocol, (protocol, Actions protocol)) <$>
                     ["http1"; "http2"; "grpc"; "postgresql"; "mysql"; "tcp"];
     ca_phases := [BeforeUpstreamRequest; AfterUpstreamHeaders];
     ca_protocol_phases := [("postgresql", [AfterCommit]); ("mysql", [AfterCommit]);
                            ("tcp", [TCPOnConnect; TCPOnTransfer])];
     ca_selectors := ["Probability"; "Nth"; "Every"] |}.

Inductive Payload :=
| Problem (message : string)
| Asset (path : string)
| Session (name role csrf : string)
| Done
| ConfigReply (v : ConfigView)
| StatusReply (s : Status) (outcomes : gmap string Z)
| AuditReply (l : list Audit)
| CapabilityReply (c : CapabilityView)
| ResultReply (r : Result)
| Conflict (v : ConfigView)
| Validated (base : Z).

(** The reply, with the cookie it sets (value and MaxAge) and Retry-After. *)
Record Reply := {
  rp_Status : Z;
  rp_Payload : Payload;
  rp_Cookie : option (string * Z);
  rp_RetryAfter : option string
}.

Definition reply (status : Z) (p : Payload) : Reply :=
  {| rp_Status := status; rp_Payload := p; rp_Cookie := None; rp_RetryAfter := None |}.
Definition problem (status : Z) (message : string) : Reply := reply status (Problem message).

(** ** Field updates *)

Definition with_store (s : Store) (sr : Server) : Server :=
  {| sr_store := s; sr_service := sr_service sr; sr_records := sr_records sr; sr_sessions := sr_sessions sr;
     sr_loginWindow := sr_loginWindow sr; sr_loginCount := sr_loginCount sr; sr_errors := sr_errors sr |}.
Definition with_service (s : Service) (sr : Server) : Server :=
  {| sr_store := sr_store sr; sr_service := s; sr_records := sr_records sr; sr_sessions := sr_sessions sr;
     sr_loginWindow := sr_loginWindow sr; sr_loginCount := sr_loginCount sr; sr_errors := sr_errors sr |}.
Definition with_records (r : Recorder) (sr : Server) : Server :=
  {| sr_store := sr_store sr; sr_service := sr_service sr; sr_records := r; sr_sessions := sr_sessions sr;
     sr_loginWindow := sr_loginWindow sr; sr_loginCount := sr_loginCount sr; sr_errors := sr_errors sr |}.
Definition with_sessions (m : gmap string session) (sr : Server) : Server :=
  {| sr_store := sr_store sr; sr_service := sr_service sr; sr_records := sr_records sr; sr_sessions := m;
     sr_loginWindow := sr_loginWindow sr; sr_loginCount := sr_loginCount sr; sr_errors := sr_errors sr |}.
Definition with_login (window count : Z) (sr : Server) : Server :=
  {| sr_store := sr_store sr; sr_service := sr_service sr; sr_records := sr_records sr;
     sr_sessions := sr_sessions sr; sr_loginWindow := window; sr_loginCount := count; sr_errors := sr_errors sr |}.

(** fail: the channel holds one error; a second one is dropped. *)
Definition fail_with (err : failure) (sr : Server) : Server :=
  {| sr_store := sr_store sr; sr_service := sr_service sr; sr_records := sr_records sr;
     sr_sessions := sr_sessions sr; sr_loginWindow := sr_loginWindow sr; sr_loginCount := sr_loginCount sr;
     sr_errors := match sr_errors sr with Some e => Some e | None => Some err end |}.

Definition operation (path : string) : string :=
  if path =s "/api/login" then "login"
  else if path =s "/api/logout" then "logout"
  else if path =s "/api/apply" then "apply"
  else if path =s "/api/validate" then "validate"
  else if path =s "/api/enable" then "enable"
  else if path =s "/api/disable" then "disable"
  else "unknown".

Section server.
Context `{Yaml} `{Json}.
Context (fs : Files) (range : gmap string string → list (string * string)).
Context (marshal : Config → gmap string bytes → option bytes).

(** json.Decoder on a draft and on credentials: the value, and whether nothing
    follows it. *)
Context (draft_Decode : bytes → option (Draft * bool)).
Context (credentials_Decode : bytes → option (string * string * bool)).

Definition body_limit : Z := 1048576.

Definition decode {A} (parse : bytes → option (A * bool)) (r : Request) : res string A :=
  fail_if negb (rq_ContentType r =s "application/json") with "Content-Type must be application/json" ;;
  match parse (take (Z.to_nat body_limit) (rq_Body r)) with
  | None => Err "invalid JSON request or unknown field"
  | Some (v, eof) =>
      fail_if negb (eof && (Z.of_nat (length (rq_Body r)) <=? body_limit)) with "expected one JSON object" ;;
      Ok v
  end.

Definition service_revision (sr : Server) : Z := i_Revision (sn_info (Acquire (sr_service sr))).

(** audit: [None] when the entry was saved, otherwise the reply. *)
Definition audit (io : commit) (now : Z) (actor op outcome : string) (sr : Server) (d : Disk) :
    Server * Disk * option Reply :=
  let '(st, d, err) := store_audit io now actor op outcome (service_revision sr) (sr_store sr) d in
  let sr := with_store st sr in
  match err with
  | Some err =>
      (if so_poisoned st then fail_with err sr else sr, d,
       Some (problem 503 "audit storage unavailable; no operation performed"))
  | None => (sr, d, None)
  end.

(** if s.audit(...) { reply }. *)
Definition audit_reply (io : commit) (now : Z) (actor op outcome : string) (rep : Reply)
    (sr : Server) (d : Disk) : Server * Disk * Reply :=
  let '(sr, d, failed) := audit io now actor op outcome sr d in (sr, d, default rep failed).

(** ** login *)

Definition minute : Z := 60 * 1000000000.
Definition session_lifetime : Z := 8 * 60 * 60 * 1000000000.

Definition login (r : Request) (w : World) (sr : Server) (d : Disk) : Server * Disk * Reply :=
  let sr := if minute <=? wd_now w - sr_loginWindow sr then with_login (wd_now w) 0 sr else sr in
  if 20 <=? sr_loginCount sr then
    (sr, d, {| rp_Status := 429; rp_Payload := Problem "login rate limit; retry in one minute";
               rp_Cookie := None; rp_RetryAfter := Some "60" |})
  else
    let sr := with_login (sr_loginWindow sr) (sr_loginCount sr + 1) sr in
    match decode credentials_Decode r with
    | Err _ => (sr, d, problem 400 "invalid login request")
    | Ok (name, password) =>
        if bool_decide (1024 < String.length password)%nat then (sr, d, problem 400 "invalid login request")
        else
          let users := readUsers (wd_users w) d in
          let u := default {| us_Role := ""; us_Salt := ""; us_Hash := "" |}
                     (match users with Ok m => m !! name | Err _ => None end) in
          if negb (is_ok users) || negb (verifyPassword u password) then
            audit_reply (wd_io1 w) (wd_audit1 w) "anonymous" "login" "rejected"
              (problem 401 "invalid username or password") sr d
          else if bool_decide (256 ≤ size (sr_sessions sr))%nat then (sr, d, problem 503 "session limit reached")
          else
            match audit (wd_io1 w) (wd_audit1 w) name "login" "ok" sr d with
            | (sr, d, Some rep) => (sr, d, rep)
            | (sr, d, None) =>
                let sess := {| se_Name := name; se_Role := us_Role u; se_Hash := us_Hash u;
                               se_CSRF := wd_csrf w; se_Expires := wd_now w + session_lifetime |} in
                let sessions := match rq_Cookie r with
                                | Some old => delete old (sr_sessions sr)
                                | None => sr_sessions sr
                                end in
                (with_sessions (<[wd_token w := sess]> sessions) sr, d,
                 {| rp_Status := 200; rp_Payload := Session (se_Name sess) (se_Role sess) (se_CSRF sess);
                    rp_Cookie := Some (wd_token w, 8 * 60 * 60); rp_RetryAfter := None |})
            end
    end.

(** ** Drafts *)

(** The first proxy with the ID gets the rules of the edit. *)
Fixpoint edit_proxy (id : string) (rules : list Rule) (ps : list Proxy) : option (list Proxy) :=
  match ps with
  | [] => None
  | p :: rest =>
      if p_ID p =s id then Some (set_Rules rules p :: rest)
      else (λ rest, p :: rest) <$> edit_proxy id rules rest
  end.

Fixpoint edit_proxies (edits : list ProxyDraft) (seen : gset string) (ps : list Proxy) : res failure (list Proxy) :=
  match edits with
  | [] => Ok ps
  | e :: rest =>
      fail_if bool_decide (pd_ID e ∈ seen) with Other "proxies: duplicate proxy" ;;
      match edit_proxy (pd_ID e) (pd_Rules e) ps with
      | None => Err (Other "proxies: unknown proxy")
      | Some ps => edit_proxies rest ({[pd_ID e]} ∪ seen) ps
      end
  end.

(** The active configuration; the active snapshot always has one. *)
Definition active_config (sr : Server) : Config :=
  default {| c_APIVersion := ""; c_Seed := 0; c_Runtime := DefaultRuntime; c_Proxies := [] |}
    (snapshot_config (sr_service sr) (Acquire (sr_service sr))).

Definition document (sr : Server) (dr : Draft) : res failure Document :=
  let c := active_config sr in
  fail_if negb (bool_decide (length (df_Proxies dr) = length (c_Proxies c)))
    with Other "proxies: all existing proxies are required" ;;
  ps ← edit_proxies (df_Proxies dr) ∅ (c_Proxies c);
  data ← Encode (set_Proxies ps c);
  Parse fs range marshal data (active_path fs (so_dir (sr_store sr))).

Definition configView (sr : Server) : ConfigView :=
  {| cv_Revision := service_revision sr;
     cv_Proxies := (λ p, {| pv_ID := p_ID p; pv_Protocol := p_Protocol p; pv_Listen := p_Listen p;
                            pv_Upstream := p_Upstream p; pv_Rules := p_Rules p |}) <$> c_Proxies (active_config sr);
     cv_LastApply := sa_LastApply (so_state (sr_store sr)) |}.

(** The server's status, the same code as the admin server's. *)
Definition server_status (listeners : list ListenerStatus) (sr : Server) : Status :=
  status (sr_service sr) (sr_records sr) listeners.

(** ** Serving *)

(** The control service's world is the store and the directory. *)
Definition persist (actor : string) (w : World) (doc : Document) (result : Result) (sd : Store * Disk) :
    Store * Disk * option string :=
  let '(s, d, err) := store_apply (wd_io1 w) (wd_audit1 w) actor doc result sd.1 sd.2 in
  (s, d, Error <$> err).

Definition record (e : Event) (w : World) (sr : Server) : Server :=
  with_records (Record_ e (wd_stamp w) (sr_records sr)) sr.

Definition serve_apply (sess : session) (doc : Document) (base : Z) (w : World) (sr : Server) (d : Disk) :
    Server * Disk * Reply :=
  let '(sv, (st, d), result) :=
    ApplyRevision (persist (se_Name sess) w) (sr_service sr) (sr_store sr, d) (Some doc) base (wd_service w) in
  let sr := with_service sv (with_store st sr) in
  match result with
  | Ok result =>
      (record (control_event (rs_Info result) "apply" "ok" "" (rs_Changed result)) w sr, d,
       reply 200 (ResultReply result))
  | Err err =>
      let sr := record (control_event (sn_info (Acquire (sr_service sr))) "apply" "rejected"
                          "managed_apply_failed" false) w sr in
      let rep := if err =s ErrConflict then problem 409 "config revision conflict"
                 else problem 503 "apply failed; refresh active revision before retrying" in
      if so_poisoned (sr_store sr) then (fail_with (Other err) sr, d, rep)
      else audit_reply (wd_io2 w) (wd_audit2 w) (se_Name sess) "apply" "failed" rep sr d
  end.

Definition serve_draft (sess : session) (op : string) (r : Request) (w : World) (sr : Server) (d : Disk) :
    Server * Disk * Reply :=
  let audited outcome rep := audit_reply (wd_io1 w) (wd_audit1 w) (se_Name sess) op outcome rep sr d in
  match decode draft_Decode r with
  | Err err => audited "invalid_request" (problem 400 err)
  | Ok dr =>
      if negb (df_BaseRevision dr =? service_revision sr)
      then
        let '(sr, d, failed) := audit (wd_io1 w) (wd_audit1 w) (se_Name sess) op "conflict" sr d in
        (sr, d, default (reply 409 (Conflict (configView sr))) failed)
      else
        match document sr dr with
        | Err err => audited "invalid_config" (problem 422 (Error err))
        | Ok doc =>
            if op =s "validate" then audited "ok" (reply 200 (Validated (df_BaseRevision dr)))
            else serve_apply sess doc (df_BaseRevision dr) w sr d
        end
  end.

Definition serve_toggle (sess : session) (op : string) (w : World) (sr : Server) (d : Disk) :
    Server * Disk * Reply :=
  match audit (wd_io1 w) (wd_audit1 w) (se_Name sess) op "ok" sr d with
  | (sr, d, Some rep) => (sr, d, rep)
  | (sr, d, None) =>
      let '(sv, result) := SetEnabled (sr_service sr) (op =s "enable") (wd_service w) in
      (record (control_event (rs_Info result) op "ok" "" (rs_Changed result)) w (with_service sv sr), d,
       reply 200 (ResultReply result))
  end.

(** A request with a valid session and CSRF token, whose cookie is [token]. *)
Definition serve_session (listeners : list ListenerStatus) (token : string) (sess : session)
    (r : Request) (w : World) (sr : Server) (d : Disk) : Server * Disk * Reply :=
  let get path := (rq_Path r =s path) && (rq_Method r =s "GET") in
  let op := operation (rq_Path r) in
  if get "/api/session" then (sr, d, reply 200 (Session (se_Name sess) (se_Role sess) (se_CSRF sess)))
  else if (rq_Path r =s "/api/logout") && (rq_Method r =s "POST") then
    match audit (wd_io1 w) (wd_audit1 w) (se_Name sess) "logout" "ok" sr d with
    | (sr, d, Some rep) => (sr, d, rep)
    | (sr, d, None) =>
        (with_sessions (delete token (sr_sessions sr)) sr, d,
         {| rp_Status := 200; rp_Payload := Done; rp_Cookie := Some ("", -1); rp_RetryAfter := None |})
    end
  else if get "/api/config" then (sr, d, reply 200 (ConfigReply (configView sr)))
  else if get "/api/status" then
    (sr, d, reply 200 (StatusReply (server_status listeners sr) (Outcomes (sr_records sr))))
  else if get "/api/audit" then (sr, d, reply 200 (AuditReply (sa_Audit (so_state (sr_store sr)))))
  else if get "/api/capabilities" then (sr, d, reply 200 (CapabilityReply capabilities))
  else if negb (rq_Method r =s "POST") || (op =s "unknown") then (sr, d, problem 404 "unknown API operation")
  else if negb (se_Role sess =s "editor") then
    audit_reply (wd_io1 w) (wd_audit1 w) (se_Name sess) op "forbidden" (problem 403 "editor role required") sr d
  else if (op =s "enable") || (op =s "disable") then serve_toggle sess op w sr d
  else if negb (op =s "apply") && negb (op =s "validate") then (sr, d, problem 404 "unknown API operation")
  else serve_draft sess op r w sr d.

(** The session of a request: the cookie names an unexpired session of an account
    whose hash and role are unchanged. *)
Definition authenticate (r : Request) (w : World) (sr : Server) (d : Disk) : option (string * session) :=
  token ← rq_Cookie r;
  sess ← sr_sessions sr !! token;
  match readUsers (wd_users w) d with
  | Err _ => None
  | Ok users =>
      u ← users !! se_Name sess;
      if (se_Name sess =s "") || negb (us_Hash u =s se_Hash sess) || negb (us_Role u =s se_Role sess)
      then None else Some (token, sess)
  end.

Definition purge (now : Z) (m : gmap string session) : gmap string session :=
  filter (λ p, now < se_Expires p.2) m.

Definition static (path : string) : bool :=
  bool_decide (path ∈ ["/"; "/app.js"; "/diff.js"; "/style.css"; "/favicon.svg"]).

Definition ServeHTTP (listeners : list ListenerStatus) (r : Request) (w : World) (sr : Server) (d : Disk) :
    Server * Disk * Reply :=
  if negb (rq_TLS r) then (sr, d, problem 400 "HTTPS required")
  else if negb (rq_Method r =s "GET") && nonempty (rq_Origin r) && negb (rq_Origin r =s "https://" +:+ rq_Host r)
  then (sr, d, problem 403 "cross-origin request rejected")
  else if static (rq_Path r) then
    (sr, d, if negb (rq_Method r =s "GET") then problem 405 "GET required" else reply 200 (Asset (rq_Path r)))
  else if so_poisoned (sr_store sr) then (sr, d, problem 503 "storage commit uncertain; restart required")
  else
    let sr := with_sessions (purge (wd_now w) (sr_sessions sr)) sr in
    if (rq_Path r =s "/api/login") && (rq_Method r =s "POST") then login r w sr d
    else
      match authenticate r w sr d with
      | None =>
          let sr := match rq_Cookie r with
                    | Some token => with_sessions (delete token (sr_sessions sr)) sr
                    | None => sr
                    end in
          let rep := problem 401 "login required" in
          if negb (rq_Method r =s "GET")
          then audit_reply (wd_io1 w) (wd_audit1 w) "anonymous" (operation (rq_Path r)) "unauthorized" rep sr d
          else (sr, d, rep)
      | Some (token, sess) =>
          if (rq_Method r =s "POST") && negb (rq_CSRFToken r =s se_CSRF sess) then
            audit_reply (wd_io1 w) (wd_audit1 w) (se_Name sess) (operation (rq_Path r)) "csrf_rejected"
              (problem 403 "CSRF token required") sr d
          else serve_session listeners token sess r w sr d
      end.
End server.

(** ** Starting *)

(** remote.New on an open store, with the recorder Start is given. *)
Definition New `{Json} (read_error : option string) (st : Store) (doc : Document) (records : Recorder) (d : Disk)
    (runID : string) (now : Z) : res string Server :=
  match readUsers read_error d with
  | Err _ => Err "create at least one account with faultline user before managed startup"
  | Ok users =>
      fail_if bool_decide (users = ∅)
        with "create at least one account with faultline user before managed startup" ;;
      s ← NewManaged (Some doc) (sa_Revision (so_state st)) true runID now;
      Ok {| sr_store := st; sr_service := s; sr_records := records; sr_sessions := ∅;
            sr_loginWindow := 0; sr_loginCount := 0; sr_errors := None |}
  end.
