(* ===== verification/RemoteSpec.v ===== *)
(** * Correctness of the remote control server

    Only an authenticated editor changes the service, and only after the change
    is in the durable audit trail; the server and its data directory refine an
    abstract ledger; sessions, logins and the audit trail are bounded. *)

From Stdlib Require Import Ascii.
From S2P Require Import Prelude GoLib GoUtf8 GoRand GoTime GoCrypto Config Validate ValidateSpec Engine Control ControlSpec Recorder Decode Load DecodeSpec LoadSpec Store StoreSpec Admin Remote.
Local Open Scope go_scope.

(** ** The abstract ledger *)

Record Ledger := {
  lg_Revision : Z;
  lg_Fingerprint : bytes;
  lg_Enabled : bool;
  lg_Audit : list Audit
}.

(** The entry of an operation at the ledger's revision. *)
Definition entry (now : Z) (actor op outcome : string) (rev : Z) : Audit :=
  {| au_Time := now; au_Actor := actor; au_Operation := op; au_Revision := rev; au_Outcome := outcome |}.

Definition noted (a : Audit) (l : Ledger) : Ledger :=
  {| lg_Revision := lg_Revision l; lg_Fingerprint := lg_Fingerprint l; lg_Enabled := lg_Enabled l;
     lg_Audit := keep_last (lg_Audit l ++ [a]) |}.

Definition toggled_to (b : bool) (l : Ledger) : Ledger :=
  {| lg_Revision := lg_Revision l; lg_Fingerprint := lg_Fingerprint l; lg_Enabled := b; lg_Audit := lg_Audit l |}.

Definition advanced (fp : bytes) (l : Ledger) : Ledger :=
  {| lg_Revision := u64 (lg_Revision l + 1); lg_Fingerprint := fp; lg_Enabled := lg_Enabled l;
     lg_Audit := lg_Audit l |}.

(** What one request may do to the ledger: nothing, leave a note, or make a
    change that is noted with the name of its author. *)
Inductive lstep (l : Ledger) : Ledger → Prop :=
| ls_stutter : lstep l l
| ls_note now actor op outcome : lstep l (noted (entry now actor op outcome (lg_Revision l)) l)
| ls_toggle now actor b :
    lstep l (toggled_to b (noted (entry now actor (if b : bool then "enable" else "disable") "ok" (lg_Revision l)) l))
| ls_apply now actor fp :
    lstep l (noted (entry now actor "apply" "ok" (u64 (lg_Revision l + 1))) (advanced fp l)).

Section remote.
Context `{Hyaml : Yaml} `{Hlaws : JsonLaws}.
Context (fs : Files) (range : gmap string string → list (string * string)).
Context (marshal : Config → gmap string bytes → option bytes).
Context (draft_Decode : bytes → option (Draft * bool)).
Context (credentials_Decode : bytes → option (string * string * bool)).

(** The stored text stands for a document. *)
Definition stands_for (dir : string) (data : bytes) (doc : Document) : Prop :=
  (Encode (d_config doc) = Ok data ∧ finished fs range marshal doc) ∨
  Parse fs range marshal data (active_path fs dir) = Ok doc.

(** The service and the store agree with the ledger, and the directory holds the
    store's state whatever happens next. *)
Record represents (st : Store) (sv : Service) (d : Disk) (l : Ledger) : Prop := {
  rp_certain : so_poisoned st = false;
  rp_durable : durable (so_state st) d;
  rp_managed : sv_managed sv = true;
  rp_revision : i_Revision (info sv) = lg_Revision l;
  rp_stored_revision : sa_Revision (so_state st) = lg_Revision l;
  rp_enabled : i_Enabled (info sv) = lg_Enabled l;
  rp_active : d_fingerprint <$> active_document sv = Some (lg_Fingerprint l);
  rp_config : ∃ doc, stands_for (so_dir st) (sa_Config (so_state st)) doc ∧ d_fingerprint doc = lg_Fingerprint l;
  rp_audit : sa_Audit (so_state st) = lg_Audit l;
  rp_version : sa_Version (so_state st) = 1
}.

(** A commit is uncertain: the service is as before, and a crash leaves the old
    state or the one being saved. *)
Definition in_doubt (st : Store) (sv : Service) (st' : Store) (sv' : Service) (d' : Disk) : Prop :=
  so_poisoned st' = true ∧ sv' = sv ∧ so_state st' = so_state st ∧ ∃ next, either (so_state st) next d'.

Definition refines (st : Store) (sv : Service) (l : Ledger) (st' : Store) (sv' : Service) (d' : Disk) : Prop :=
  (∃ l', lstep l l' ∧ represents st' sv' d' l') ∨ in_doubt st sv st' sv' d'.

Lemma represents_note st sv d l d' now actor op outcome :
  represents st sv d l →
  let a := entry now actor op outcome (lg_Revision l) in
  durable (appendAudit (so_state st) now actor op outcome (lg_Revision l)) d' →
  represents (set_so_state (appendAudit (so_state st) now actor op outcome (lg_Revision l)) st) sv d' (noted a l).
Proof.
  intros [] a Hd. constructor; try done. cbn. by rewrite rp_audit0.
Qed.

Lemma refines_same st sv d l : represents st sv d l → refines st sv l st sv d.
Proof. intros Hr. left. exists l. split; [constructor|done]. Qed.

(** ** Auditing *)

Inductive audit_outcome (sr : Server) (d : Disk) (l : Ledger) (now : Z) (actor op outcome : string) :
    Server * Disk * option Reply → Prop :=
| audit_ok st d' :
    represents st (sr_service sr) d' (noted (entry now actor op outcome (lg_Revision l)) l) →
    durable (so_state st) d' → last (sa_Audit (so_state st)) = Some (entry now actor op outcome (lg_Revision l)) →
    audit_outcome sr d l now actor op outcome (with_store st sr, d', None)
| audit_refused rep : audit_outcome sr d l now actor op outcome (sr, d, Some rep)
| audit_doubt st d' sr' rep :
    in_doubt (sr_store sr) (sr_service sr) st (sr_service sr) d' →
    sr_store sr' = st → sr_service sr' = sr_service sr → sr_sessions sr' = sr_sessions sr →
    sr_loginCount sr' = sr_loginCount sr →
    audit_outcome sr d l now actor op outcome (sr', d', Some rep).

Lemma with_store_eta sr : with_store (sr_store sr) sr = sr.
Proof. by destruct sr. Qed.

Lemma audit_cases io now actor op outcome sr d l :
  represents (sr_store sr) (sr_service sr) d l →
  audit_outcome sr d l now actor op outcome (audit io now actor op outcome sr d).
Proof using Hlaws.
  intros Hr. unfold audit, store_audit, service_revision. pose proof (rp_revision _ _ _ _ Hr) as Hrev.
  unfold info in Hrev. unfold Acquire. rewrite Hrev.
  pose proof (save_cases io (appendAudit (so_state (sr_store sr)) now actor op outcome (lg_Revision l)) (sr_store sr) d
                (rp_certain _ _ _ _ Hr) (rp_durable _ _ _ _ Hr)) as Hs.
  inversion Hs as [d' Hd Hu E|e E|d' e He Hu E]; cbn.
  - apply audit_ok; [by eapply represents_note|done|]. cbn. apply keep_last_last.
  - rewrite (rp_certain _ _ _ _ Hr), with_store_eta. constructor.
  - eapply audit_doubt; [|done..]. split_and!; [done..|]. eauto.
Qed.

(** ** One request *)

(** A change by [sess] is in the durable audit trail under its name. *)
Definition accountable (sess : session) (st : Store) (d : Disk) : Prop :=
  durable (so_state st) d ∧
  ∃ a, last (sa_Audit (so_state st)) = Some a ∧ au_Actor a = se_Name sess ∧ au_Outcome a = "ok".

(** A step refines the ledger, and changes the service only for [who], an
    accountable editor. *)
Definition step (sr : Server) (l : Ledger) (who : option session) (out : Server * Disk * Reply) : Prop :=
  let '(sr', d', _) := out in
  refines (sr_store sr) (sr_service sr) l (sr_store sr') (sr_service sr') d' ∧
  (sr_service sr' = sr_service sr ∨
   ∃ sess, who = Some sess ∧ se_Role sess = "editor" ∧ accountable sess (sr_store sr') d').

Lemma step_same sr d l who rep : represents (sr_store sr) (sr_service sr) d l → step sr l who (sr, d, rep).
Proof. intros Hr. split; [by apply refines_same|by left]. Qed.

Lemma step_with sr sr0 l who out :
  sr_store sr0 = sr_store sr → sr_service sr0 = sr_service sr → step sr0 l who out → step sr l who out.
Proof. destruct out as [[sr' d'] rep]. unfold step. by intros -> ->. Qed.

Lemma audit_reply_step io now actor op outcome rep sr d l who :
  represents (sr_store sr) (sr_service sr) d l → step sr l who (audit_reply io now actor op outcome rep sr d).
Proof using Hlaws.
  intros Hr. unfold audit_reply. pose proof (audit_cases io now actor op outcome sr d l Hr) as Ha.
  inversion Ha as [st d2 Hrep Hdur Hlast E|rep2 E|st d2 sr2 rep2 Hdoubt Hst Hsv Hss Hlc E]; subst; cbn.
  - split; [|by left]. left. eexists. split; [|done]. constructor.
  - split; [by apply refines_same|by left].
  - split; [|by left]. right. by rewrite Hsv.
Qed.

(** ** Changing the service *)

Lemma SetEnabled_represents st sv d l b now sv' r :
  represents st sv d l → SetEnabled sv b now = (sv', r) → represents st sv' d (toggled_to b l).
Proof.
  intros [] Hs. unfold SetEnabled in Hs. fold (info sv) in Hs. destruct (Bool.eqb (i_Enabled (info sv)) b) eqn:E; simplify_eq.
  - apply eqb_prop in E. by constructor.
  - by constructor.
Qed.

Lemma serve_toggle_step sess op w sr d l :
  represents (sr_store sr) (sr_service sr) d l → op = "enable" ∨ op = "disable" →
  se_Role sess = "editor" → step sr l (Some sess) (serve_toggle sess op w sr d).
Proof using Hlaws.
  intros Hr Hop Hed. unfold serve_toggle.
  pose proof (audit_cases (wd_io1 w) (wd_audit1 w) (se_Name sess) op "ok" sr d l Hr) as Ha.
  inversion Ha as [st d2 Hrep Hdur Hlast E|rep2 E|st d2 sr2 rep2 Hdoubt Hst Hsv Hss Hlc E].
  - cbn [with_store sr_service]. destruct (SetEnabled _ _ _) as [sv result] eqn:Es. cbn. split.
    + left. eexists. split; [|by eapply SetEnabled_represents].
      destruct Hop as [-> | ->]; [exact (ls_toggle l (wd_audit1 w) (se_Name sess) true)
                                 |exact (ls_toggle l (wd_audit1 w) (se_Name sess) false)].
    + right. exists sess. split_and!; [done..|]. split; [done|]. eexists. split_and!; [exact Hlast|done..].
  - by apply step_same.
  - split; [|by left]. right. subst st. by rewrite Hsv.
Qed.

(** ** Applying a document *)

Inductive persist_outcome (actor : string) (w : World) (doc : Document) (result : Result) (st : Store) (d : Disk) :
    Store * Disk * option string → Prop :=
| persist_saved data d' :
    Encode (d_config doc) = Ok data →
    let next := with_config data (i_Revision (rs_Info result)) result
                  (appendAudit (so_state st) (wd_audit1 w) actor "apply" "ok" (i_Revision (rs_Info result))) in
    durable next d' → persist_outcome actor w doc result st d (set_so_state next st, d', None)
| persist_refused e : persist_outcome actor w doc result st d (st, d, Some e)
| persist_doubt next d' e :
    either (so_state st) next d' → persist_outcome actor w doc result st d (set_so_poisoned true st, d', Some e).

Lemma persist_cases actor w doc result st d :
  so_poisoned st = false → durable (so_state st) d →
  persist_outcome actor w doc result st d (persist actor w doc result (st, d)).
Proof using Hlaws.
  intros Hp Hd. unfold persist, store_apply. cbn [fst snd].
  destruct (Encode (d_config doc)) as [data|err] eqn:Ee; [|constructor].
  pose proof (save_cases (wd_io1 w) (with_config data (i_Revision (rs_Info result)) result
                (appendAudit (so_state st) (wd_audit1 w) actor "apply" "ok" (i_Revision (rs_Info result)))) st d Hp Hd) as Hs.
  inversion Hs; cbn.
  - by apply persist_saved.
  - constructor.
  - by eapply persist_doubt.
Qed.

(** Recording what an apply stored: the ledger after it. *)
Lemma represents_applied st sv d l data doc d' sv' result now actor l' :
  represents st sv d l → Encode (d_config doc) = Ok data → finished fs range marshal doc →
  let rev := i_Revision (rs_Info result) in
  let next := with_config data rev result (appendAudit (so_state st) now actor "apply" "ok" rev) in
  durable next d' → lg_Audit l' = lg_Audit l →
  sv_managed sv' = true → i_Revision (info sv') = rev → lg_Revision l' = rev →
  i_Enabled (info sv') = lg_Enabled l' → d_fingerprint <$> active_document sv' = Some (lg_Fingerprint l') →
  d_fingerprint doc = lg_Fingerprint l' →
  represents (set_so_state next st) sv' d' (noted (entry now actor "apply" "ok" rev) l').
Proof.
  intros [] He Hfin rev next Hd Ha Hm Hi Hl Hen Hfp Hdoc. constructor; cbn; try done; try congruence.
  - exists doc. split; [|done]. by left.
  - by rewrite rp_audit0, Ha.
Qed.

Lemma apply_ledger st sv l st' sv' d' l' x :
  lstep l l' → represents st' sv' d' l' → last (lg_Audit l') = Some x →
  refines st sv l st' sv' d' ∧ ∃ l', lstep l l' ∧ represents st' sv' d' l' ∧ last (lg_Audit l') = Some x.
Proof. intros. split; [left|]; by exists l'. Qed.

Lemma ApplyRevision_refines actor w sv st d doc base l sv' st' d' result :
  represents st sv d l → finished fs range marshal doc →
  ApplyRevision (persist actor w) sv (st, d) (Some doc) base (wd_service w) = (sv', (st', d'), result) →
  refines st sv l st' sv' d' ∧
  match result with
  | Ok r => ∃ l', lstep l l' ∧ represents st' sv' d' l' ∧
      last (lg_Audit l') = Some (entry (wd_audit1 w) actor "apply" "ok" (i_Revision (rs_Info r)))
  | Err _ => sv' = sv ∧ (so_poisoned st' = false → st' = st ∧ d' = d)
  end.
Proof using Hlaws.
  intros Hr Hfin Ha. unfold ApplyRevision in Ha.
  pose proof (apply_cases (persist actor w) sv (st, d) (Some doc) (Some base) (wd_service w)) as Hc. rewrite Ha in Hc.
  inversion Hc as [e|dd r w' e Hd Hm Hp|dd w' Hd Heq Hx Hp|dd e w' Hd Hrc Heq Hx Hn Hp]; subst.
  - split; [by apply refines_same|done].
  - pose proof (persist_cases actor w dd r st d (rp_certain _ _ _ _ Hr) (rp_durable _ _ _ _ Hr)) as Ho. rewrite Hp in Ho.
    inversion Ho; subst.
    + split; [by apply refines_same|done].
    + split; [|done]. right. split_and!; [done..|]. eauto.
  - injection Hd as <-. unfold persist_if in Hp. rewrite (rp_managed _ _ _ _ Hr) in Hp.
    pose proof (persist_cases actor w doc {| rs_Changed := false; rs_Info := info sv' |} st d
                  (rp_certain _ _ _ _ Hr) (rp_durable _ _ _ _ Hr)) as Ho. rewrite Hp in Ho.
    inversion Ho as [data d2 He next Hdur E|e E|]; subst. eapply apply_ledger.
    + apply (ls_note l (wd_audit1 w) actor "apply" "ok").
    + rewrite <- (rp_revision _ _ _ _ Hr). eapply (represents_applied _ _ _ _ _ _ _ _ _ _ _ l Hr He Hfin Hdur); destruct Hr; cbn; try done.
      unfold Equal in Heq. destruct (active_document sv'); [|done]. cbn in *. bool_hyps. congruence.
    + cbn. rewrite (rp_revision _ _ _ _ Hr). apply keep_last_last.
  - injection Hd as <-. unfold persist_if in Hp. rewrite (rp_managed _ _ _ _ Hr) in Hp.
    pose proof (persist_cases actor w doc {| rs_Changed := true; rs_Info := next_info (info sv) (wd_service w) |} st d
                  (rp_certain _ _ _ _ Hr) (rp_durable _ _ _ _ Hr)) as Ho. rewrite Hp in Ho.
    inversion Ho as [data d2 He next Hdur E|e' E|]; subst. eapply apply_ledger.
    + apply (ls_apply l (wd_audit1 w) actor (d_fingerprint doc)).
    + rewrite <- (rp_revision _ _ _ _ Hr).
      eapply (represents_applied _ _ _ _ _ _ _ _ _ _ _ (advanced (d_fingerprint doc) l) Hr He Hfin Hdur); destruct Hr; cbn; try done.
      * by rewrite rp_revision0.
      * unfold active_document. cbn. by rewrite lookup_insert_eq.
    + cbn. rewrite (rp_revision _ _ _ _ Hr). apply keep_last_last.
Qed.

Lemma serve_apply_step sess doc base w sr d l :
  represents (sr_store sr) (sr_service sr) d l → finished fs range marshal doc → se_Role sess = "editor" →
  step sr l (Some sess) (serve_apply sess doc base w sr d).
Proof using Hlaws.
  intros Hr Hfin Hed. unfold serve_apply.
  destruct (ApplyRevision _ _ _ _ _ _) as [[sv [st d']] result] eqn:Ea.
  destruct (ApplyRevision_refines _ _ _ _ _ _ _ _ _ _ _ _ Hr Hfin Ea) as [Href Hres]. destruct result as [r|err].
  - destruct Hres as (l' & Hl & Hrep & Hlast). split; [done|]. right. exists sess. split_and!; [done..|].
    split; [exact (rp_durable _ _ _ _ Hrep)|]. eexists. cbn. rewrite (rp_audit _ _ _ _ Hrep). by split_and!.
  - destruct Hres as [-> Hsame]. cbn [record with_records with_service with_store sr_store].
    destruct (so_poisoned st) eqn:Ep; [by split; [|left]|].
    destruct (Hsame eq_refl) as [-> ->]. eapply step_with; [| |by apply audit_reply_step]; done.
Qed.

Lemma document_finished sr dr doc :
  document fs range marshal sr dr = Ok doc → finished fs range marshal doc.
Proof. unfold document. intros Hd. open_ok Hd. by eapply Parse_finished. Qed.

Lemma serve_draft_step sess op r w sr d l :
  represents (sr_store sr) (sr_service sr) d l → se_Role sess = "editor" →
  step sr l (Some sess) (serve_draft fs range marshal draft_Decode sess op r w sr d).
Proof using Hlaws.
  intros Hr Hed. unfold serve_draft. destruct (decode _ _) as [dr|err]; [|by apply audit_reply_step].
  destruct (negb _).
  { pose proof (audit_reply_step (wd_io1 w) (wd_audit1 w) (se_Name sess) op "conflict" (problem 0 "") sr d l (Some sess) Hr) as Hs.
    unfold audit_reply in Hs. by destruct (audit _ _ _ _ _ sr d) as [[sr1 d1] failed]. }
  destruct (document _ _ _ _ _) as [doc|err] eqn:Edoc; [|by apply audit_reply_step].
  destruct (str_eq op "validate"); [by apply audit_reply_step|]. apply serve_apply_step; [done| |done].
  by eapply document_finished.
Qed.

Lemma serve_session_step listeners token sess r w sr d l :
  represents (sr_store sr) (sr_service sr) d l →
  step sr l (Some sess) (serve_session fs range marshal draft_Decode listeners token sess r w sr d).
Proof using Hlaws.
  intros Hr. unfold serve_session. cbv zeta.
  destruct (str_eq (rq_Path r) "/api/session" && _); [by apply step_same|].
  destruct (str_eq (rq_Path r) "/api/logout" && _).
  { pose proof (audit_reply_step (wd_io1 w) (wd_audit1 w) (se_Name sess) "logout" "ok" (problem 0 "") sr d l (Some sess) Hr) as Hs.
    unfold audit_reply in Hs. by destruct (audit _ _ _ _ _ sr d) as [[sr1 d1] [rep|]]. }
  do 4 (destruct (_ && str_eq (rq_Method r) "GET"); [by apply step_same|]).
  destruct (negb _ || _); [by apply step_same|]. destruct (str_eq (se_Role sess) "editor") eqn:Ee; [|by apply audit_reply_step].
  bool_hyps. cbn [negb]. destruct (str_eq (operation (rq_Path r)) "enable" || _) eqn:Eo.
  { apply serve_toggle_step; [done| |done]. apply orb_true_iff in Eo as [Eo|Eo]; bool_hyps; auto. }
  destruct (negb _ && _); [by apply step_same|by apply serve_draft_step].
Qed.

Lemma login_step r w sr d l :
  represents (sr_store sr) (sr_service sr) d l → step sr l None (login credentials_Decode r w sr d).
Proof using Hlaws.
  intros Hr. unfold login. cbv zeta. set (sr0 := if _ <=? _ then _ else sr).
  assert (sr_store sr0 = sr_store sr ∧ sr_service sr0 = sr_service sr) as [E1 E2] by (subst sr0; by destruct (_ <=? _)).
  eapply (step_with sr sr0); [done..|]. rewrite <- E1, <- E2 in Hr. clearbody sr0. clear E1 E2 sr. rename sr0 into sr.
  destruct (20 <=? _); [by apply step_same|]. eapply step_with; [| |]; cycle 2.
  { destruct (decode _ _) as [[name password]|]; [|by apply step_same].
    destruct (bool_decide _); [by apply step_same|]. destruct (_ || _); [by apply audit_reply_step|].
    destruct (bool_decide _); [by apply step_same|].
    match goal with |- step ?sr1 _ _ (match audit ?io ?now _ _ _ _ _ with _ => _ end) =>
      pose proof (audit_reply_step io now name "login" "ok" (problem 0 "") sr1 d l None Hr) as Hs end.
    unfold audit_reply in Hs. by destruct (audit _ _ _ _ _ _ d) as [[sr1 d1] [rep|]]. }
  all: done.
Qed.

(** ** Authorisation *)

(** The session a request proves: over TLS, from the same origin, with the cookie
    of an unexpired session whose account still has the same hash and role. *)
Record authorised (r : Request) (w : World) (sr : Server) (d : Disk) (sess : session) : Prop := {
  az_TLS : rq_TLS r = true;
  az_Origin : rq_Method r = "GET" ∨ rq_Origin r = "" ∨ rq_Origin r = "https://" +:+ rq_Host r;
  az_Session : ∃ token, rq_Cookie r = Some token ∧ sr_sessions sr !! token = Some sess;
  az_Fresh : wd_now w < se_Expires sess;
  az_Account : ∃ users u, readUsers (wd_users w) d = Ok users ∧ users !! se_Name sess = Some u ∧
    us_Hash u = se_Hash sess ∧ us_Role u = se_Role sess;
  az_CSRF : rq_Method r = "POST" → rq_CSRFToken r = se_CSRF sess
}.

Lemma authenticate_spec r w sr d token sess :
  authenticate r w (with_sessions (purge (wd_now w) (sr_sessions sr)) sr) d = Some (token, sess) →
  rq_Cookie r = Some token ∧ sr_sessions sr !! token = Some sess ∧ wd_now w < se_Expires sess ∧
  ∃ users u, readUsers (wd_users w) d = Ok users ∧ users !! se_Name sess = Some u ∧
    us_Hash u = se_Hash sess ∧ us_Role u = se_Role sess.
Proof.
  unfold authenticate. intros (tok & Hc & Ha)%bind_Some. apply bind_Some in Ha as (se & Hs & Ha).
  cbn in Hs. unfold purge in Hs. apply map_lookup_filter_Some in Hs as [Hs Hf].
  destruct (readUsers _ d) as [users|]; [|done]. apply bind_Some in Ha as (u & Hu & Ha).
  destruct (_ || _ || _) eqn:E; [done|]. injection Ha as -> ->. bool_hyps. split_and!; try done. eauto 10.
Qed.

(** Every request is a step of the ledger, and one that changes the service comes
    from an authorised editor. *)
Lemma ServeHTTP_step listeners r w sr d l :
  represents (sr_store sr) (sr_service sr) d l →
  ∃ who, step sr l who (ServeHTTP fs range marshal draft_Decode credentials_Decode listeners r w sr d) ∧
    ∀ sess, who = Some sess → authorised r w sr d sess.
Proof using Hlaws.
  intros Hr. unfold ServeHTTP.
  destruct (rq_TLS r) eqn:Et; cbn [negb]; [|exists None; split; [by apply step_same|done]].
  destruct (_ && _ && _) eqn:Eo; [exists None; split; [by apply step_same|done]|].
  destruct (static (rq_Path r)); [exists None; split; [by apply step_same|done]|].
  destruct (so_poisoned (sr_store sr)); [exists None; split; [by apply step_same|done]|]. cbv zeta.
  set (sr0 := with_sessions _ sr).
  destruct (str_eq (rq_Path r) "/api/login" && _).
  { exists None. split; [|done]. eapply (step_with sr sr0); [done..|]. by apply login_step. }
  destruct (authenticate r w sr0 d) as [[token sess]|] eqn:Ea.
  - apply authenticate_spec in Ea as (Hc & Hs & Hf & users & u & Hu & Hn & Hh & Hro).
    destruct (str_eq (rq_Method r) "POST" && _) eqn:Ecsrf.
    + exists None. split; [|done]. eapply (step_with sr sr0); [done..|]. by apply audit_reply_step.
    + exists (Some sess). split; [eapply (step_with sr sr0); [done..|]; by apply serve_session_step|].
      intros ? [= <-]. constructor; [done| |eauto|done|eauto 10|].
      * rewrite !andb_false_iff, !negb_false_iff, nonempty_false, !str_eq_true in Eo. tauto.
      * intros Hpost. rewrite Hpost, str_eq_refl, andb_true_l, negb_false_iff, str_eq_true in Ecsrf. done.
  - exists None. split; [|done]. set (sr1 := match rq_Cookie r with Some _ => _ | None => sr0 end).
    assert (sr_store sr1 = sr_store sr ∧ sr_service sr1 = sr_service sr) as [E1 E2] by (subst sr1; by destruct (rq_Cookie r)).
    eapply (step_with sr sr1); [done..|]. rewrite <- E1, <- E2 in Hr.
    destruct (negb _); [by apply audit_reply_step|by apply step_same].
Qed.

Section served.
Context (listeners : list ListenerStatus).
Let serve := ServeHTTP fs range marshal draft_Decode credentials_Decode listeners.

(** C5. A request changes the control service only when it is authorised, by an
    editor, and the change is already in the durable audit trail under the
    editor's name. *)
Theorem ServeHTTP_authorised r w sr d l sr' d' rep :
  represents (sr_store sr) (sr_service sr) d l → serve r w sr d = (sr', d', rep) →
  sr_service sr' ≠ sr_service sr →
  ∃ sess, authorised r w sr d sess ∧ se_Role sess = "editor" ∧ accountable sess (sr_store sr') d'.
Proof using Hlaws.
  intros Hr Hs Hne. destruct (ServeHTTP_step listeners r w sr d l Hr) as (who & Hstep & Hwho).
  fold serve in Hstep. rewrite Hs in Hstep. destruct Hstep as [_ [Hsame|(sess & Hw & He & Ha)]]; [done|].
  exists sess. auto.
Qed.

(** ** Sequences of requests *)

Fixpoint serve_all (rs : list (Request * World)) (sr : Server) (d : Disk) : Server * Disk :=
  match rs with
  | [] => (sr, d)
  | (r, w) :: rest => let '(sr, d, _) := serve r w sr d in serve_all rest sr d
  end.

(** A poisoned server answers, but neither it nor the directory changes. *)
Lemma serve_poisoned r w sr d : so_poisoned (sr_store sr) = true → ∃ rep, serve r w sr d = (sr, d, rep).
Proof.
  intros Hp. unfold serve, ServeHTTP. destruct (negb _); [eauto|]. destruct (_ && _); [eauto|].
  destruct (static _); [eauto|]. rewrite Hp. eauto.
Qed.

Lemma serve_all_poisoned rs sr d : so_poisoned (sr_store sr) = true → serve_all rs sr d = (sr, d).
Proof.
  intros Hp. induction rs as [|[r w] rs IH]; [done|]. cbn. destruct (serve_poisoned r w sr d Hp) as [rep ->]. done.
Qed.

(** C4. The server and its directory refine the ledger: after any requests they stand
    for a ledger reached by its steps, or a commit is in doubt. Then the service
    is what the last ledger says, the store refuses to go on, and a crash leaves
    the ledger's state or the one being saved. *)
Theorem serve_all_refines rs sr d l sr' d' :
  represents (sr_store sr) (sr_service sr) d l → serve_all rs sr d = (sr', d') →
  ∃ l', rtc lstep l l' ∧
    (represents (sr_store sr') (sr_service sr') d' l' ∨
     ∃ st d0 next, represents st (sr_service sr') d0 l' ∧ so_poisoned (sr_store sr') = true ∧
       either (so_state st) next d').
Proof using Hlaws.
  revert sr d l. induction rs as [|[r w] rs IH]; intros sr d l Hr Hs; cbn in Hs.
  { simplify_eq. exists l. split; [done|by left]. }
  destruct (serve r w sr d) as [[sr1 d1] rep] eqn:E1.
  destruct (ServeHTTP_step listeners r w sr d l Hr) as (who & Hstep & _). fold serve in Hstep. rewrite E1 in Hstep.
  destruct Hstep as [[(l1 & Hl1 & Hr1)|(Hp & Hsv & Hst & next & He)] _].
  - destruct (IH _ _ _ Hr1 Hs) as (l' & Hl & Hout). exists l'. split; [by eapply rtc_l|done].
  - rewrite serve_all_poisoned in Hs by done. simplify_eq. exists l. split; [done|]. right.
    exists (sr_store sr), d, next. by rewrite Hsv.
Qed.
End served.

(** ** Starting and recovering *)

Definition fresh_directory (d : Disk) : Prop := dk_state d = {| f_live := None; f_crash := [None] |}.

Lemma NewManaged_fields doc rev runID now sv :
  NewManaged (Some doc) rev true runID now = Ok sv →
  sv_managed sv = true ∧ i_Revision (info sv) = rev ∧ i_Enabled (info sv) = false ∧ active_document sv = Some doc.
Proof.
  unfold NewManaged, Control.New. intros Hs. open_ok Hs. simplify_eq. destruct (_ || _); [done|].
  injection Hs as <-. open_ok Hb. injection Hb as <-. done.
Qed.

(** A server started on the directory stands for the ledger it holds. *)
Theorem start_represents a io now dir bootstrap d d' st doc read records runID now' sr :
  fresh_directory d ∨ (∃ st0, durable st0 d) →
  Open fs range marshal a io now dir bootstrap d = (d', Ok (st, doc)) →
  New read st doc records d' runID now' = Ok sr →
  represents (sr_store sr) (sr_service sr) d'
    {| lg_Revision := sa_Revision (so_state st); lg_Fingerprint := d_fingerprint doc; lg_Enabled := false;
       lg_Audit := sa_Audit (so_state st) |} ∧ sr_store sr = st.
Proof using Hlaws.
  intros Hd Ho Hn. unfold New in Hn. destruct (readUsers read d'); [|done]. open_ok Hn. simplify_eq. cbn.
  apply NewManaged_fields in Hb as (Hm & Hrev & Hen & Hact).
  assert (so_poisoned st = false ∧ durable (so_state st) d' ∧ stands_for (so_dir st) (sa_Config (so_state st)) doc ∧
          sa_Version (so_state st) = 1) as (Hp & Hdur & Hst & Hver).
  { destruct Hd as [Hf|[st0 Hf]].
    - destruct (Open_fresh fs range marshal a io now dir bootstrap d d' st doc) as (data & Hl & He & Hs & Hp & _ & Hdur);
        [by rewrite Hf..|done|]. rewrite Hs in *. split_and!; [done..| |done]. left. split; [done|by eapply Load_finished].
    - destruct (Open_durable fs range marshal a io now dir bootstrap st0 d d' st doc Hf Ho)
        as (Hs & Hp & Hdir & Hdur & _ & Hver & _ & Hparse). rewrite Hs, Hdir. split_and!; [done..| |done]. by right. }
  split; [|done]. constructor; try done; cbn; [by rewrite Hact|by exists doc].
Qed.

(** After a crash the directory reopens with exactly the ledger's revision and
    audit trail, and the configuration that was stored. *)
Theorem crash_recovery st sv d l d' a io now bootstrap d'' st' doc :
  represents st sv d l → crashes d d' →
  Open fs range marshal a io now (so_dir st) bootstrap d' = (d'', Ok (st', doc)) →
  so_state st' = so_state st ∧ sa_Revision (so_state st') = lg_Revision l ∧ sa_Audit (so_state st') = lg_Audit l ∧
  durable (so_state st') d'' ∧
  Parse fs range marshal (sa_Config (so_state st)) (active_path fs (so_dir st)) = Ok doc.
Proof.
  intros Hr Hc Ho. pose proof (durable_crash _ _ _ (rp_durable _ _ _ _ Hr) Hc) as Hd.
  destruct (Open_durable fs range marshal a io now (so_dir st) bootstrap (so_state st) d' d'' st' doc Hd Ho)
    as (Hs & _ & _ & Hdur & _ & _ & _ & Hp).
  rewrite Hs. destruct Hr. by split_and!.
Qed.

(** ** Bounds *)

(** At most 1000 audit entries, 256 sessions and 20 logins per window. *)
Record bounded (sr : Server) : Prop := {
  bd_audit : (length (sa_Audit (so_state (sr_store sr))) ≤ auditLimit)%nat;
  bd_sessions : (size (sr_sessions sr) ≤ 256)%nat;
  bd_logins : 0 ≤ sr_loginCount sr ≤ 20
}.

Lemma save_bounded io next s d s' d' err :
  (length (sa_Audit next) ≤ auditLimit)%nat → (length (sa_Audit (so_state s)) ≤ auditLimit)%nat →
  save io next s d = (s', d', err) → (length (sa_Audit (so_state s')) ≤ auditLimit)%nat.
Proof.
  intros Hn Hs. unfold save. destruct (so_poisoned s); [by intros [= <- <- <-]|].
  destruct (state_Marshal next); [|by intros [= <- <- <-]].
  destruct (atomicFile _ _ _) as [f [renamed [e|]]]; by intros [= <- <- <-].
Qed.

Lemma audit_bounded io now actor op outcome sr d sr' d' rep :
  bounded sr → audit io now actor op outcome sr d = (sr', d', rep) →
  bounded sr' ∧ sr_sessions sr' = sr_sessions sr.
Proof.
  intros [Ha Hss Hl]. unfold audit, store_audit. destruct (save _ _ _ _) as [[s d1] err] eqn:Es.
  apply save_bounded in Es; [|apply keep_last_length|done].
  destruct err as [e|]; [destruct (so_poisoned s)|]; intros [= <- <- <-]; (split; [|done]); by constructor.
Qed.

Lemma audit_reply_bounded io now actor op outcome rep sr d sr' d' rep' :
  bounded sr → audit_reply io now actor op outcome rep sr d = (sr', d', rep') → bounded sr'.
Proof.
  intros Hb. unfold audit_reply. destruct (audit _ _ _ _ _ sr d) as [[sr1 d1] f] eqn:E. intros [= <- <- <-].
  by eapply audit_bounded in E as [? _].
Qed.

Lemma with_sessions_bounded m sr : bounded sr → (size m ≤ 256)%nat → bounded (with_sessions m sr).
Proof. intros []. by constructor. Qed.

Lemma delete_bounded token sr : bounded sr → bounded (with_sessions (delete token (sr_sessions sr)) sr).
Proof.
  intros Hb. apply with_sessions_bounded; [done|]. destruct Hb. etrans; [|done].
  apply map_subseteq_size, delete_subseteq.
Qed.

Lemma purge_bounded now sr : bounded sr → bounded (with_sessions (purge now (sr_sessions sr)) sr).
Proof.
  intros Hb. apply with_sessions_bounded; [done|]. destruct Hb. etrans; [|done].
  apply map_subseteq_size, map_filter_subseteq.
Qed.

Lemma login_bounded r w sr d sr' d' rep :
  bounded sr → login credentials_Decode r w sr d = (sr', d', rep) → bounded sr'.
Proof.
  intros Hb. unfold login. cbv zeta. set (sr0 := if _ <=? _ then _ else sr).
  assert (bounded sr0) as Hb0 by (subst sr0; destruct (_ <=? _); [destruct Hb; by constructor|done]).
  clearbody sr0. clear Hb sr. destruct (20 <=? sr_loginCount sr0) eqn:Ec; [by intros [= <- <- <-]|]. bool_hyps.
  set (sr1 := with_login _ _ sr0).
  assert (bounded sr1) as Hb1 by (destruct Hb0; constructor; cbn; [done..|lia]). clearbody sr1. clear Hb0 Ec sr0.
  destruct (decode _ _) as [[name password]|]; [|by intros [= <- <- <-]].
  destruct (bool_decide _); [by intros [= <- <- <-]|]. destruct (_ || _); [by apply audit_reply_bounded|].
  destruct (bool_decide (256 ≤ _)%nat) eqn:Es; [by intros [= <- <- <-]|]. bool_hyps.
  destruct (audit _ _ _ _ _ sr1 d) as [[sr2 d2] f] eqn:Ea. apply audit_bounded in Ea as [Hb2 Hss]; [|done].
  destruct f as [rep'|]; intros [= <- <- <-]; [done|]. apply with_sessions_bounded; [done|].
  set (m := match rq_Cookie r with Some _ => _ | None => _ end).
  assert (size m ≤ size (sr_sessions sr2))%nat as Hm.
  { subst m. destruct (rq_Cookie r); [|done]. apply map_subseteq_size, delete_subseteq. }
  rewrite Hss in Hm. rewrite map_size_insert. destruct (m !! _); cbn; lia.
Qed.

Lemma persist_bounded actor w doc result st d st' d' err :
  (length (sa_Audit (so_state st)) ≤ auditLimit)%nat → persist actor w doc result (st, d) = (st', d', err) →
  (length (sa_Audit (so_state st')) ≤ auditLimit)%nat.
Proof.
  intros Hb. unfold persist, store_apply. cbn [fst snd]. destruct (Encode _); [|by intros [= <- <- <-]].
  destruct (save _ _ _ _) as [[s d1] e] eqn:Es. intros [= <- <- <-].
  eapply save_bounded; [|done|exact Es]. apply keep_last_length.
Qed.

Lemma ApplyRevision_bounded actor w sv st d doc base now sv' st' d' result :
  (length (sa_Audit (so_state st)) ≤ auditLimit)%nat →
  ApplyRevision (persist actor w) sv (st, d) doc base now = (sv', (st', d'), result) →
  (length (sa_Audit (so_state st')) ≤ auditLimit)%nat.
Proof.
  intros Hb Ha. pose proof (apply_cases (persist actor w) sv (st, d) doc (Some base) now) as Hc.
  unfold ApplyRevision in Ha. rewrite Ha in Hc.
  inversion Hc as [e|dd r w' e Hd Hm Hp|dd w' Hd Heq Hx Hp|dd e w' Hd Hrc Heq Hx Hn Hp]; subst; [done| | |];
    try unfold persist_if in Hp; try destruct (sv_managed _); try (by eapply persist_bounded); by simplify_eq.
Qed.

Lemma serve_session_bounded listeners token sess r w sr d sr' d' rep :
  bounded sr → serve_session fs range marshal draft_Decode listeners token sess r w sr d = (sr', d', rep) → bounded sr'.
Proof.
  intros Hb. unfold serve_session. cbv zeta. destruct (_ && _); [by intros [= <- <- <-]|]. destruct (_ && _).
  { destruct (audit _ _ _ _ _ sr d) as [[sr1 d1] f] eqn:Ea. apply audit_bounded in Ea as [Hb1 _]; [|done].
    destruct f; intros [= <- <- <-]; [done|by apply delete_bounded]. }
  do 4 (destruct (_ && _); [by intros [= <- <- <-]|]). destruct (_ || _); [by intros [= <- <- <-]|].
  destruct (negb _); [by apply audit_reply_bounded|]. destruct (_ || _).
  { unfold serve_toggle. destruct (audit _ _ _ _ _ sr d) as [[sr1 d1] f] eqn:Ea. apply audit_bounded in Ea as [[] _]; [|done].
    destruct f; [by intros [= <- <- <-]|]. destruct (SetEnabled _ _ _). intros [= <- <- <-]. by constructor. }
  destruct (_ && _); [by intros [= <- <- <-]|]. unfold serve_draft. cbv zeta.
  destruct (decode _ _) as [dr|]; [|by apply audit_reply_bounded]. destruct (negb _).
  { destruct (audit _ _ _ _ _ sr d) as [[sr1 d1] f] eqn:Ea. apply audit_bounded in Ea as [Hb1 _]; [|done]. by intros [= <- <- <-]. }
  destruct (document _ _ _ _ _); [|by apply audit_reply_bounded]. destruct (str_eq _ _); [by apply audit_reply_bounded|].
  unfold serve_apply. destruct (ApplyRevision _ _ _ _ _ _) as [[sv [st d1]] result] eqn:Ea.
  destruct Hb as [Hba Hbs Hbl]. eapply ApplyRevision_bounded in Ea; [|done].
  destruct result; [intros [= <- <- <-]; by constructor|]. cbv zeta. destruct (so_poisoned _).
  - intros [= <- <- <-]. by constructor.
  - apply audit_reply_bounded. by constructor.
Qed.

(** Whatever is requested, the audit trail, the sessions and the login counter
    stay within their limits. *)
Theorem serve_all_bounded listeners rs sr d sr' d' :
  bounded sr → serve_all listeners rs sr d = (sr', d') → bounded sr'.
Proof.
  revert sr d. induction rs as [|[r w] rs IH]; intros sr d Hb Hs; cbn in Hs; [by simplify_eq|].
  destruct (ServeHTTP _ _ _ _ _ _ r w sr d) as [[sr1 d1] rep] eqn:E. eapply IH; [|exact Hs]. clear IH Hs.
  revert E. unfold ServeHTTP. destruct (negb _); [by intros [= <- <- <-]|]. destruct (_ && _); [by intros [= <- <- <-]|].
  destruct (static _); [by intros [= <- <- <-]|]. destruct (so_poisoned _); [by intros [= <- <- <-]|]. cbv zeta.
  apply (purge_bounded (wd_now w)) in Hb. revert Hb. generalize (with_sessions (purge (wd_now w) (sr_sessions sr)) sr). intros sr0 Hb.
  destruct (_ && _); [by apply login_bounded|]. destruct (authenticate r w sr0 d) as [[token sess]|].
  - destruct (_ && _); [by apply audit_reply_bounded|by apply serve_session_bounded].
  - assert (bounded (match rq_Cookie r with Some token => with_sessions (delete token (sr_sessions sr0)) sr0 | None => sr0 end)) as Hb1
      by (destruct (rq_Cookie r); [by apply delete_bounded|done]).
    destruct (negb _); [by apply audit_reply_bounded|by intros [= <- <- <-]].
Qed.
End remote.
