(* ===== verification/RestartSpec.v ===== *)
(** * Restarting a managed instance

    The store keeps the encoded configuration, the server the document. With the
    round trip of NormalSpec the two are interchangeable: after a crash the
    directory opens again, and with the document that was active. *)

From Stdlib Require Import Ascii.
From S2P Require Import Prelude GoLib GoUtf8 GoRand GoTime GoCrypto Config Validate ValidateSpec Engine Control ControlSpec Recorder Decode Load DecodeSpec LoadSpec NetSpec NormalSpec RoundTrip Store StoreSpec Admin Remote RemoteSpec.
Local Open Scope go_scope.

(** The directory calls of one Open succeed. *)
Record quiet (a : directory) : Prop := {
  quiet_dir : privateDir a = None;
  quiet_lock : os_OpenLock a = None;
  quiet_flock : os_Flock a = None;
  quiet_read : os_Read a = None
}.

Section restart.
Context `{Hyaml : Yaml} `{Hlaws : JsonLaws}.
Context (fs : Files) (range : gmap string string → list (string * string)).
Context (marshal : Config → gmap string bytes → option bytes) (Hmarshal : marshal_law marshal).
Context (Henv : env_laws (fs_env fs)) (Hrange : enumerates range).
Context (Habs : ∀ name root, Abs fs name = Some root → IsAbs root = true) (Hyl : yaml_laws).
#[local] Set Default Proof Using "All".

Lemma active_path_nonempty dir : active_path fs dir ≠ "".
Proof. unfold active_path, Join. destruct dir; apply (law_Clean_nonempty _ Henv). Qed.

(** What the store holds, Parse reads as the document it stands for, the maps of
    headers made. *)
Lemma stands_for_parse dir data doc root :
  Abs fs (active_path fs dir) = Some root → stands_for fs range marshal dir data doc → text_config (d_config doc) = true →
  ∃ doc', Parse fs range marshal data (active_path fs dir) = Ok doc' ∧
    make_config (d_config doc') = make_config (d_config doc) ∧ d_restartFingerprint doc' = d_restartFingerprint doc ∧
    (tcp_headers (d_config doc) → doc' = doc).
Proof.
  intros Hr [[He Hf]|Hp] Htx; [|by exists doc]. pose proof Hf as (name & c & sources & root0 & _ & Hv)%id.
  destruct (finished_roundtrip fs range marshal Hmarshal Henv Hrange Habs doc data (active_path fs dir) root Hyl Hf Htx He
    (active_path_nonempty dir) Hr) as (doc' & Hp & Hc & Hrf & Hs).
  exists doc'. split_and!; [done|by rewrite Hc, make_config_idem|done|]. intros Ht. apply Hs.
  apply finish_validated in Hv as (c' & base & D & Hv). by eapply validate_made.
Qed.

Lemma Open_reads a io now dir bootstrap st d doc :
  quiet a → dk_locked d = false → durable st d → sa_Version st = 1 → sa_Revision st ≠ 0 →
  Parse fs range marshal (sa_Config st) (active_path fs dir) = Ok doc →
  Open fs range marshal a io now dir bootstrap d =
    (set_dk_locked true d, Ok ({| so_dir := dir; so_state := st; so_poisoned := false |}, doc)).
Proof.
  intros [Hd Hl Hf Hr] Hk (data & Hu & Hs) Hv Hn Hp. unfold Open. rewrite Hd, Hl, Hk, Hf. cbn [orb is_some]. unfold load. rewrite Hr.
  cbn [set_dk_locked dk_state]. rewrite Hs. cbn [f_live]. rewrite Hu, Hv. cbn [Z.eqb]. rewrite (proj2 (Z.eqb_neq _ _) Hn). cbn [negb orb Pos.eqb].
  cbn [set_so_state so_dir so_poisoned]. by rewrite Hp.
Qed.

(** C14. A crash of a managed instance loses nothing: unless the system fails again,
    the directory opens, with the ledger's revision and audit trail and with the
    configuration of the document that the ledger's fingerprint names and the stored
    text stands for, certificate files being as they were and its strings UTF-8. It is that very document unless a TCP rule came without
    headers, whose nil map is an empty one after the restart. *)
Theorem restart_recovers st sv d l doc d' a io now bootstrap root :
  represents fs range marshal st sv d l → stands_for fs range marshal (so_dir st) (sa_Config (so_state st)) doc →
  d_fingerprint doc = lg_Fingerprint l → text_config (d_config doc) = true → lg_Revision l ≠ 0 → crashes d d' →
  quiet a → Abs fs (active_path fs (so_dir st)) = Some root →
  ∃ d'' st' doc',
    Open fs range marshal a io now (so_dir st) bootstrap d' = (d'', Ok (st', doc')) ∧
    so_state st' = so_state st ∧ sa_Revision (so_state st') = lg_Revision l ∧ sa_Audit (so_state st') = lg_Audit l ∧
    loaded_ok doc' ∧ durable (so_state st') d'' ∧
    make_config (d_config doc') = make_config (d_config doc) ∧
    d_restartFingerprint doc' = d_restartFingerprint doc ∧ (tcp_headers (d_config doc) → doc' = doc).
Proof.
  intros Hr Hst Hfp Htx Hn Hc Hq Ha. pose proof (durable_crash _ _ _ (rp_durable _ _ _ _ _ _ _ Hr) Hc) as Hd. destruct Hc as (_ & _ & Hk).
  destruct (stands_for_parse _ _ _ _ Ha Hst Htx) as (doc' & Hp & Hmk & Hrf & Hs).
  exists (set_dk_locked true d'), {| so_dir := so_dir st; so_state := so_state st; so_poisoned := false |}, doc'. split.
  - apply Open_reads; try done; [apply Hr|]. by rewrite (rp_stored_revision _ _ _ _ _ _ _ Hr).
  - cbn. destruct Hr. split_and!; try done. by eapply Parse_sound.
Qed.
End restart.
