(* ===== verification/Grpc.v ===== *)
(** * gRPC framing of metadata and deadlines (internal/proxy/grpc/protocol.go)

    Request classification and the [grpc-timeout] header: decoding, encoding,
    and their round trip. Durations are int64 nanoseconds. *)

From Stdlib Require Import Ascii.
From S2P Require Import Prelude GoLib GoRand Config Engine.
Local Open Scope go_scope.

(** The parts of an http.Request the proxies read. Header keys are canonical. *)
Record Request := {
  rq_ProtoMajor : Z;
  rq_ProtoMinor : Z;
  rq_Method : string;
  rq_Path : string;
  rq_IsAbs : bool;
  rq_Header : gmap string (list string)
}.

Definition Header_Get (h : gmap string (list string)) (key : string) : string :=
  match h !! key with Some (v :: _) => v | _ => "" end.

Definition grpc_Metadata (r : Request) : Metadata * bool :=
  let content := (Cut ";" (Header_Get (rq_Header r) "Content-Type")).1.1 in
  let '(service, method, ok) := Cut "/" (TrimPrefix (rq_Path r) "/") in
  let valid := (rq_ProtoMajor r =? 2) && (rq_Method r =s "POST") &&
               ((content =s "application/grpc") || HasPrefix content "application/grpc+") &&
               ok && negb (service =s "") && negb (method =s "") &&
               negb (ContainsByte method "/") in
  ({| md_Method := method; md_Service := service; md_Path := rq_Path r;
      md_Headers := rq_Header r |}, valid).

(** ** Deadlines *)

Definition Nanosecond : Z := 1.
Definition Microsecond : Z := 1000.
Definition Millisecond : Z := 1000000.
Definition Second : Z := 1000000000.
Definition Minute : Z := 60 * Second.
Definition Hour : Z := 60 * Minute.

Definition timeout_unit (c : ascii) : option Z :=
  if Ascii.eqb c "H" then Some Hour
  else if Ascii.eqb c "M" then Some Minute
  else if Ascii.eqb c "S" then Some Second
  else if Ascii.eqb c "m" then Some Millisecond
  else if Ascii.eqb c "u" then Some Microsecond
  else if Ascii.eqb c "n" then Some Nanosecond
  else None.

Definition Timeout (value : string) : Z * bool :=
  let len := String.length value in
  if bool_decide (len < 2)%nat || bool_decide (9 < len)%nat then (0, false)
  else
    let digits := take_str (len - 1) value in
    if negb (all_chars is_digit digits) then (0, false)
    else
      match String.get (len - 1) value ≫= timeout_unit, ParseUint 32 digits with
      | Some unit, Some n =>
          if max_i64 / unit <? n then (max_i64, true) else (i64 (n * unit), true)
      | _, _ => (0, false)
      end.

(** strconv.FormatInt(n, 10) for 0 <= n < 10^20; an int64 has at most 19 digits. *)
Definition digit_char (d : Z) : ascii := ascii_of_N (Z.to_N (d + 48)).

Fixpoint format_digits (fuel : nat) (n : Z) (acc : string) : string :=
  match fuel with
  | O => acc
  | S fuel' =>
      let acc := String (digit_char (n mod 10)) acc in
      if n <? 10 then acc else format_digits fuel' (n / 10) acc
  end.

Definition FormatInt (n : Z) : string := format_digits 20 n "".

Definition timeout_units : list (Z * ascii) :=
  [(Nanosecond, "n"%char); (Microsecond, "u"%char); (Millisecond, "m"%char); (Second, "S"%char);
   (Minute, "M"%char); (Hour, "H"%char)].

Fixpoint timeout_header_loop (units : list (Z * ascii)) (duration : Z) : option string :=
  match units with
  | [] => None
  | (size, suffix) :: rest =>
      let n := Z.quot duration size in
      let n := if negb (Z.rem duration size =? 0) then n + 1 else n in
      if n <=? 99999999 then Some (FormatInt n +:+ String suffix "")
      else timeout_header_loop rest duration
  end.

(** [None] is the final panic. *)
Definition TimeoutHeader (duration : Z) : option string :=
  timeout_header_loop timeout_units (Z.max Nanosecond duration).

(** ** Decimal formatting *)

Lemma digit_char_val d : 0 ≤ d < 10 → digit_val (digit_char d) = d ∧ is_digit (digit_char d) = true.
Proof.
  intros Hd.
  assert (d = 0 ∨ d = 1 ∨ d = 2 ∨ d = 3 ∨ d = 4 ∨ d = 5 ∨ d = 6 ∨ d = 7 ∨ d = 8 ∨ d = 9) as Hc by lia.
  destruct_or! Hc; subst; split; vm_compute; reflexivity.
Qed.

Lemma format_digits_val fuel n acc :
  0 ≤ n < 10 ^ Z.of_nat fuel → digits_val 0 (format_digits fuel n acc) = digits_val n acc.
Proof.
  revert n acc. induction fuel as [|fuel IH]; intros n acc Hn.
  { simpl in *. f_equal. lia. }
  cbn [format_digits]. pose proof (Z.mod_pos_bound n 10 ltac:(lia)) as Hm.
  destruct (digit_char_val _ Hm) as [Hv _]. pose proof (Z.div_mod n 10 ltac:(lia)).
  destruct (Z.ltb_spec n 10) as [Hlt|Hge].
  - cbn [digits_val]. rewrite Hv. f_equal. rewrite Z.mod_small; lia.
  - rewrite IH.
    + cbn [digits_val]. rewrite Hv. f_equal. lia.
    + rewrite Nat2Z.inj_succ, Z.pow_succ_r in Hn by lia.
      split; [apply Z.div_pos; lia|apply Z.div_lt_upper_bound; lia].
Qed.

Lemma format_digits_digits fuel n acc :
  0 ≤ n → all_chars is_digit acc = true → all_chars is_digit (format_digits fuel n acc) = true.
Proof.
  revert n acc. induction fuel as [|fuel IH]; intros n acc Hn Ha; [done|]. cbn [format_digits].
  assert (all_chars is_digit (String (digit_char (n mod 10)) acc) = true) as Hd.
  { cbn. rewrite Ha. destruct (digit_char_val (n mod 10)) as [_ ->]; [|done].
    apply Z.mod_pos_bound. lia. }
  destruct (n <? 10); [done|]. apply IH; [apply Z.div_pos; lia|done].
Qed.

Lemma format_digits_length fuel k n acc :
  0 ≤ n < 10 ^ Z.of_nat k → (0 < k)%nat →
  (String.length (format_digits fuel n acc) ≤ k + String.length acc)%nat.
Proof.
  revert k n acc. induction fuel as [|fuel IH]; intros k n acc Hn Hk; [simpl; lia|].
  cbn [format_digits]. destruct (Z.ltb_spec n 10); [simpl; lia|].
  destruct k as [|[|k]]; [lia|simpl in Hn; lia|].
  rewrite Nat2Z.inj_succ, Z.pow_succ_r in Hn by lia.
  etrans; [apply (IH (S k))|simpl; lia]; [|lia].
  split; [apply Z.div_pos; lia|apply Z.div_lt_upper_bound; lia].
Qed.

Lemma format_digits_nonempty fuel n acc : (0 < fuel)%nat →
  (S (String.length acc) ≤ String.length (format_digits fuel n acc))%nat.
Proof.
  revert n acc. induction fuel as [|fuel IH]; intros n acc Hf; [lia|].
  cbn [format_digits]. destruct (n <? 10); [simpl; lia|]. destruct fuel; [simpl; lia|].
  etrans; [|apply IH; lia]. simpl. lia.
Qed.

Lemma get_append s c : String.get (String.length s) (s +:+ String c "") = Some c.
Proof. induction s as [|d s IH]; simpl; done. Qed.

Lemma FormatInt_spec n :
  0 ≤ n ≤ 99999999 →
  digits_val 0 (FormatInt n) = n ∧ all_chars is_digit (FormatInt n) = true ∧
  (1 ≤ String.length (FormatInt n) ≤ 8)%nat.
Proof.
  intros Hn. unfold FormatInt. split_and!.
  - rewrite format_digits_val; [done|]. change (10 ^ Z.of_nat 20) with 100000000000000000000. lia.
  - apply format_digits_digits; [lia|done].
  - apply (format_digits_nonempty 20 n ""). lia.
  - apply (format_digits_length 20 8 n ""); [|lia]. change (10 ^ Z.of_nat 8) with 100000000. lia.
Qed.

(** Decoding a well-formed header value. *)
Lemma Timeout_format n unit c :
  0 ≤ n ≤ 99999999 → timeout_unit c = Some unit → 0 < unit →
  Timeout (FormatInt n +:+ String c "") =
    (if max_i64 / unit <? n then max_i64 else i64 (n * unit), true).
Proof.
  intros Hn Hu Hpos. destruct (FormatInt_spec n Hn) as (Hv & Hd & Hl).
  unfold Timeout. rewrite length_append. cbn [String.length].
  rewrite !bool_decide_false by lia. cbn [orb].
  replace (String.length (FormatInt n) + 1 - 1)%nat with (String.length (FormatInt n)) by lia.
  rewrite take_str_app, Hd, get_append. cbn [negb mbind option_bind]. rewrite Hu.
  unfold ParseUint, all_digits. rewrite Hd, Hv.
  rewrite (proj2 (String.eqb_neq (FormatInt n) "")).
  2: { intros E. rewrite E in Hl. cbn in Hl. lia. }
  cbn [negb andb]. rewrite (proj2 (Z.ltb_lt n (2 ^ 32))) by lia.
  by destruct (max_i64 / unit <? n).
Qed.

(** ** Encoding a deadline *)

(** The count the loop tries for a unit: the duration rounded up. *)
Definition units_of (duration size : Z) : Z :=
  if negb (Z.rem duration size =? 0) then Z.quot duration size + 1 else Z.quot duration size.

Lemma units_of_bounds d size :
  0 < d → 0 < size → 0 ≤ units_of d size ∧ d ≤ units_of d size * size < d + size.
Proof.
  intros Hd Hs. unfold units_of. rewrite Z.quot_div_nonneg, Z.rem_mod_nonneg by lia.
  pose proof (Z.div_mod d size ltac:(lia)). pose proof (Z.mod_pos_bound d size ltac:(lia)).
  pose proof (Z.div_pos d size ltac:(lia) Hs).
  destruct (Z.eqb_spec (d mod size) 0); cbn [negb]; lia.
Qed.

(** One header value decodes to the rounded-up duration, saturated at the largest int64. *)
Lemma Timeout_units d unit c :
  0 < d ≤ max_i64 → timeout_unit c = Some unit → 0 < unit → units_of d unit ≤ 99999999 →
  Timeout (FormatInt (units_of d unit) +:+ String c "") =
    (Z.min max_i64 (units_of d unit * unit), true).
Proof.
  intros Hd Hu Hpos Hn. destruct (units_of_bounds d unit) as [Hn0 Hb]; [lia..|].
  rewrite (Timeout_format _ unit) by (done || lia). f_equal.
  destruct (Z.ltb_spec (max_i64 / unit) (units_of d unit)) as [Hlt|Hge].
  - pose proof (Z.mul_succ_div_gt max_i64 unit Hpos). nia.
  - pose proof (Z.mul_div_le max_i64 unit Hpos).
    assert (units_of d unit * unit ≤ max_i64) by nia.
    rewrite i64_small by (unfold max_i64 in *; lia). lia.
Qed.

Lemma timeout_header_loop_cons size suffix rest d :
  timeout_header_loop ((size, suffix) :: rest) d =
    if units_of d size <=? 99999999 then Some (FormatInt (units_of d size) +:+ String suffix "")
    else timeout_header_loop rest d.
Proof. reflexivity. Qed.

(** What an encoded deadline promises: it decodes, is never shorter than the
    duration, and is longer by at most one part in 99,999. *)
Definition deadline_ok (d : Z) (s : string) : Prop :=
  ∃ d', Timeout s = (d', true) ∧ d ≤ d' ≤ max_i64 ∧ (d' - d) * 99999 ≤ d.

(** Each unit decodes to its size, is at most a thousand times the unit before
    it, and the last one holds every int64 duration. *)
Fixpoint unit_chain (prev : Z) (units : list (Z * ascii)) : bool :=
  match units with
  | [] => max_i64 <=? 99999999 * prev
  | (size, suffix) :: rest =>
      bool_decide (timeout_unit suffix = Some size) && (0 <? size) && (size <=? 1000 * prev) &&
      unit_chain size rest
  end.

Lemma timeout_header_loop_ok units prev d :
  0 < d ≤ max_i64 → 99999999 * prev < d → unit_chain prev units = true →
  ∃ s, timeout_header_loop units d = Some s ∧ deadline_ok d s.
Proof.
  revert prev. induction units as [|[size suffix] units IH]; intros prev Hd Hprev Hc;
    cbn [unit_chain] in Hc; bool_hyps; [lia|].
  rewrite timeout_header_loop_cons.
  destruct (units_of_bounds d size) as [Hn0 Hb]; [lia..|].
  destruct (Z.leb_spec (units_of d size) 99999999).
  - eexists. split; [done|]. eexists. split; [apply Timeout_units; (done || lia)|]. lia.
  - apply (IH size); [done|nia|done].
Qed.

Lemma TimeoutHeader_ok d :
  d ≤ max_i64 → ∃ s, TimeoutHeader d = Some s ∧ deadline_ok (Z.max 1 d) s.
Proof.
  intros Hd. unfold TimeoutHeader, Nanosecond. set (m := Z.max 1 d).
  assert (0 < m ≤ max_i64) as Hm by (unfold max_i64 in *; lia). clearbody m.
  unfold timeout_units. rewrite timeout_header_loop_cons.
  destruct (units_of_bounds m Nanosecond) as [H0 Hb]; [unfold Nanosecond; lia..|].
  destruct (Z.leb_spec (units_of m Nanosecond) 99999999); unfold Nanosecond in *.
  - eexists. split; [done|]. eexists. split; [apply Timeout_units; (done || lia)|]. lia.
  - apply (timeout_header_loop_ok _ 1); [done| |vm_compute; reflexivity]. lia.
Qed.

(** Forwarded deadlines: for every int64 duration the encoder returns a
    header (it never reaches its panic) that the decoder accepts, and the
    decoded duration is never shorter than the encoded one (or one nanosecond,
    for expired deadlines) and longer by at most one part in 99,999. *)
Theorem TimeoutHeader_roundtrip (d : Z) (Hd : - 2 ^ 63 ≤ d ≤ max_i64) :
  ∃ s d', TimeoutHeader d = Some s ∧ Timeout s = (d', true) ∧
          Z.max 1 d ≤ d' ≤ max_i64 ∧ (d' - Z.max 1 d) * 99999 ≤ Z.max 1 d.
Proof.
  destruct (TimeoutHeader_ok d) as (s & Hs & d' & Ht & Hb & He); [lia|].
  by exists s, d'.
Qed.

Lemma TimeoutHeader_roundtrip_witness :
  TimeoutHeader 100000001 = Some "100001u" ∧
  ∃ s d', TimeoutHeader 100000001 = Some s ∧ Timeout s = (d', true) ∧
          Z.max 1 100000001 ≤ d' ≤ max_i64 ∧ (d' - Z.max 1 100000001) * 99999 ≤ Z.max 1 100000001.
Proof.
  split; [vm_compute; reflexivity|]. apply (TimeoutHeader_roundtrip 100000001). vm_compute. split; discriminate.
Defined.

(** ** Request classification *)

Definition grpc_content (value : string) : Prop :=
  let media := default "" (head (Split ";" value)) in
  media = "application/grpc" ∨ HasPrefix media "application/grpc+" = true.

Lemma Cut_head sep s : default "" (head (Split sep s)) = (Cut sep s).1.1.
Proof. rewrite Split_Cut. by destruct (Cut sep s) as [[before after] []]. Qed.

Lemma Cut_none sep s before after : Cut sep s = (before, after, false) → before = s.
Proof.
  revert before after. induction s as [|c s IH]; intros before after; simpl; [congruence|].
  destruct (Ascii.eqb c sep); [done|]. destruct (Cut sep s) as [[b a] f].
  intros [= <- <- ->]. f_equal. by eapply IH.
Qed.

(** The gRPC classifier accepts exactly the HTTP/2 POST requests with a
    gRPC media type whose path is one non-empty service segment and one
    non-empty method segment; the metadata it returns names these two segments. *)
Theorem grpc_Metadata_exact (r : Request) (md : Metadata) :
  grpc_Metadata r = (md, true) ↔
  rq_ProtoMajor r = 2 ∧ rq_Method r = "POST" ∧
  grpc_content (Header_Get (rq_Header r) "Content-Type") ∧
  ∃ service method, Split "/" (TrimPrefix (rq_Path r) "/") = [service; method] ∧
    service ≠ "" ∧ method ≠ "" ∧
    md = {| md_Method := method; md_Service := service; md_Path := rq_Path r;
            md_Headers := rq_Header r |}.
Proof.
  unfold grpc_Metadata, grpc_content. cbv zeta. rewrite Cut_head, Split_Cut.
  destruct (Cut "/" _) as [[service method] ok]. split.
  - intros [= <- Hv]. bool_hyps. destruct ok; [|done].
    split_and!; [done..| |].
    + match goal with H : _ || _ = true |- _ => apply orb_true_iff in H as [H|H] end;
        [left; by apply str_eq_true|by right].
    + exists service, method. split_and!; [|done..]. f_equal. by apply Split_single.
  - intros (Hp & Hm & Hc & s & m & Hs & Hsn & Hmn & ->). destruct ok; [|done].
    injection Hs as -> Hs'. assert (method = m ∧ ContainsByte m "/" = false) as [-> Hno].
    { rewrite Split_Cut in Hs'. destruct (Cut "/" method) as [[b a] []] eqn:E.
      - injection Hs' as -> Ha. by apply Split_nonempty in Ha.
      - injection Hs' as ->. assert (Split "/" method = [m]) as Hm' by by rewrite Split_Cut, E.
        apply Cut_none in E as ->. split; [done|]. by apply Split_single. }
    f_equal. rewrite Hp, Hm, str_eq_refl, Hno, (proj2 (str_eq_false s "") Hsn), (proj2 (str_eq_false m "") Hmn).
    destruct Hc as [->| ->]; [rewrite str_eq_refl|rewrite orb_true_r]; done.
Qed.
