(* ===== verification/GoIO.v ===== *)
(** * Go's io and context, as the adapters use them

    Errors as values, contexts with a cancellation time, the io.Reader contract
    as a class with a stream specification, io.ReadFull and the write loop the
    database adapters share. *)

From S2P Require Import Prelude.

(** The error values the sources return or compare. *)
Inductive error :=
| EOF
| ErrUnexpectedEOF
| ErrShortWrite
| ErrClosedPipe
| Canceled
| DeadlineExceeded
| ErrTimeout
| errProtocol
| errAction (action : string)
| errText (message : string).

#[export] Instance error_eq_dec : EqDecision error. Proof. solve_decision. Defined.

(** ** Contexts and timers *)

(** A context is described by the instant it is cancelled, if it ever is, and
    the error it then reports. *)
Record Context := { cx_done : option (Z * error) }.

Definition ctx_Err (ctx : Context) (now : Z) : option error :=
  match cx_done ctx with
  | Some (t, e) => if t <=? now then Some e else None
  | None => None
  end.

(** When a select on ctx.Done() and a timer of [duration] returns. *)
Definition wake (ctx : Context) (now duration : Z) : Z :=
  let fire := now + Z.max 0 duration in
  match cx_done ctx with
  | Some (t, _) => Z.min fire (Z.max now t)
  | None => fire
  end.

Lemma wake_bounds ctx now d : now ≤ wake ctx now d ≤ now + Z.max 0 d.
Proof. unfold wake. destruct (cx_done ctx) as [[t e]|]; lia. Qed.

(** The timer fired: the full duration has passed. *)
Lemma wake_full ctx now d :
  ctx_Err ctx (wake ctx now d) = None → wake ctx now d = now + Z.max 0 d.
Proof.
  unfold ctx_Err, wake. destruct (cx_done ctx) as [[t e]|]; [|done].
  destruct (Z.leb_spec t (Z.min (now + Z.max 0 d) (Z.max now t))); [done|lia].
Qed.

(** ** Readers *)

(** io.Reader: [stream r] is what the reader will still deliver and [terminal r]
    the error it ends with; [patience r] bounds its consecutive empty reads. *)
Class Reader (R : Type) := {
  read : nat → R → bytes * option error * R;
  stream : R → bytes;
  terminal : R → error;
  patience : R → nat;
  read_ok n r b e r' :
    read n r = (b, e, r') →
    (length b ≤ n)%nat ∧ stream r = b ++ stream r' ∧ terminal r' = terminal r ∧
    (patience r' ≤ patience r)%nat;
  read_err n r b e err r' :
    read n r = (b, e, r') → e = Some err → err = terminal r ∧ stream r' = [];
  read_progress n r r' :
    (0 < n)%nat → read n r = ([], None, r') → (patience r' < patience r)%nat
}.

(** A connection's incoming data cut into arbitrary pieces: one entry of the
    schedule per Read, then whatever fits. *)
Record chunks := { ck_data : bytes; ck_end : error; ck_schedule : list nat }.

Definition chunks_read (n : nat) (r : chunks) : bytes * option error * chunks :=
  match ck_data r with
  | [] => ([], Some (ck_end r), r)
  | _ =>
      let k := match ck_schedule r with [] => n | c :: _ => min c n end in
      (take k (ck_data r), None,
       {| ck_data := drop k (ck_data r); ck_end := ck_end r; ck_schedule := tail (ck_schedule r) |})
  end.

#[export] Program Instance chunks_Reader : Reader chunks := {
  read := chunks_read;
  stream := ck_data;
  terminal := ck_end;
  patience r := length (ck_schedule r)
}.
Next Obligation.
  intros n r b e r' H. unfold chunks_read in H.
  destruct (ck_data r) eqn:E; simplify_eq; cbn [ck_data ck_end ck_schedule].
  { rewrite E. split_and!; simpl; (done || lia). }
  rewrite take_drop, length_take. destruct (ck_schedule r); simpl; split_and!; (done || lia).
Qed.
Next Obligation.
  intros n r b e err r' H ->. unfold chunks_read in H. by destruct (ck_data r) eqn:E; simplify_eq.
Qed.
Next Obligation.
  intros n r r' Hn H. unfold chunks_read in H. destruct (ck_data r) as [|x l]; simplify_eq.
  cbn [ck_schedule]. destruct (ck_schedule r) as [|c s]; simpl in *; [by destruct n; [lia|]|lia].
Qed.

Section ReadFull.
Context `{Reader R}.

(** io.ReadFull, over a reader that may deliver in pieces. *)
Fixpoint read_full (fuel : nat) (n : nat) (got : bytes) (r : R) : option (res error bytes * R) :=
  if bool_decide (n ≤ length got)%nat then Some (Ok got, r)
  else
    match fuel with
    | O => None
    | S fuel' =>
        let '(b, e, r') := read (n - length got) r in
        let got := got ++ b in
        match e with
        | None => read_full fuel' n got r'
        | Some err =>
            if bool_decide (n ≤ length got)%nat then Some (Ok got, r')
            else Some (Err (match got, err with
                            | _ :: _, EOF => ErrUnexpectedEOF
                            | _, _ => err
                            end), r')
        end
    end.

Definition ReadFull (n : nat) (r : R) : option (res error bytes * R) :=
  read_full (n + patience r + 1) n [] r.

(** What ReadFull delivers, on the stream. *)
Definition full_result (n : nat) (s : bytes) (end_ : error) : res error bytes :=
  if bool_decide (n ≤ length s)%nat then Ok (take n s)
  else Err (match s, end_ with _ :: _, EOF => ErrUnexpectedEOF | _, _ => end_ end).

Lemma read_full_spec fuel n got r :
  (length got ≤ n)%nat → (n - length got + patience r < fuel)%nat →
  ∃ r', read_full fuel n got r = Some (full_result n (got ++ stream r) (terminal r), r') ∧
        terminal r' = terminal r ∧ stream r' = drop (n - length got) (stream r).
Proof.
  revert got r. induction fuel as [|fuel IH]; intros got r Hg Hf; [lia|].
  cbn [read_full]. unfold full_result.
  destruct (decide (n ≤ length got)%nat) as [Hn|Hn].
  { rewrite !bool_decide_true by (rewrite ?length_app; lia). exists r.
    replace n with (length got) by lia. rewrite take_app_length, Nat.sub_diag, drop_0. done. }
  rewrite (bool_decide_false (n ≤ length got)%nat) by done.
  destruct (read (n - length got) r) as [[b e] r1] eqn:E.
  destruct (read_ok _ _ _ _ _ E) as (Hb & Hs & Ht & Hp).
  destruct e as [err|].
  - destruct (read_err _ _ _ _ _ _ E eq_refl) as [-> Hnil]. rewrite Hs, Hnil, app_nil_r.
    destruct (decide (n ≤ length (got ++ b))%nat) as [Hle|Hgt].
    + rewrite !bool_decide_true by done. exists r1. rewrite length_app in Hle.
      rewrite take_ge by (rewrite length_app; lia). rewrite Hnil, drop_ge by lia. done.
    + rewrite !bool_decide_false by done. exists r1. rewrite length_app in Hgt.
      rewrite Hnil, drop_ge by lia. done.
  - assert (n - length (got ++ b) + patience r1 < fuel)%nat as Hf'.
    { rewrite length_app. destruct b as [|x b]; [|simpl in *; lia].
      apply read_progress in E; [simpl; lia|lia]. }
    destruct (IH (got ++ b) r1) as (r' & Hr & Ht' & Hs').
    + rewrite length_app. lia.
    + done.
    + exists r'. rewrite Hr, Hs, <- app_assoc, Ht. unfold full_result. split; [done|].
      split; [by rewrite Ht', Ht|]. rewrite Hs', length_app, drop_app_ge by lia. f_equal. lia.
Qed.

Lemma ReadFull_spec n r :
  ∃ r', ReadFull n r = Some (full_result n (stream r) (terminal r), r') ∧
        terminal r' = terminal r ∧ stream r' = drop n (stream r).
Proof.
  destruct (read_full_spec (n + patience r + 1) n [] r) as (r' & Hr & Ht & Hs); simpl; [lia..|].
  exists r'. split; [done|]. split; [done|]. by rewrite Hs, Nat.sub_0_r.
Qed.
End ReadFull.

(** ** Writers *)

(** The results of successive Write calls: bytes accepted and an error. *)
Definition writer_script := list (nat * option error).

(** writeAll: [None] when the script ends before the loop does. *)
Fixpoint writeAll (w : writer_script) (b : bytes) : option (bytes * option error) :=
  match b, w with
  | [], _ => Some ([], None)
  | _, [] => None
  | _, (n, err) :: w' =>
      match err with
      | Some e => Some (take n b, Some e)
      | None =>
          if bool_decide (n = 0)%nat then Some ([], Some ErrShortWrite)
          else '(sent, e) ← writeAll w' (drop n b); Some (take n b ++ sent, e)
      end
  end.

Lemma writeAll_spec w b sent err :
  writeAll w b = Some (sent, err) → sent `prefix_of` b ∧ (err = None → sent = b).
Proof.
  revert b sent err. induction w as [|[n e] w IH]; intros b sent err Hw.
  { destruct b; simplify_eq/=. done. }
  destruct b as [|x b]; [simplify_eq/=; done|]. cbn [writeAll] in Hw. destruct e as [e|].
  { injection Hw as <- <-. split; [apply prefix_take|done]. }
  case_bool_decide as Hn; [simplify_eq; split; [apply prefix_nil|done]|].
  apply bind_Some in Hw as ([sent' e'] & Hw & [= <- <-]).
  destruct (IH _ _ _ Hw) as [[rest Hp] Hok]. split.
  - exists rest. by rewrite <- app_assoc, <- Hp, take_drop.
  - intros E. by rewrite (Hok E), take_drop.
Qed.
