(* ===== verification/TlsConf.v ===== *)
(** * Transport security of listeners and upstreams

    proxy/http/tls.go, proxy/http/transport.go and [prepare] of the database
    adapters' server.go. A tls.Config is the record of the fields the program
    sets; certificate pools are the PEM text added to them. The functions of
    crypto/x509 are those of the validation environment; [Tls] adds what only the
    start of a server asks. *)

From Stdlib Require Import Ascii.
From S2P Require Import Prelude GoLib GoUtf8 GoRand Config Validate GoIO.
Local Open Scope go_scope.

Definition VersionTLS12 : Z := 771.

Record tls_Config := {
  tc_MinVersion : Z;
  tc_Certificate : option (string * string);
  tc_NextProtos : list string;
  tc_ServerName : string;
  tc_RootCAs : option bytes;
  tc_ClientCAs : option bytes;
  tc_RequireClientCert : bool;
  tc_VerifyH2 : bool
}.

(** http.Protocols *)
Record Protocols := { pr_HTTP1 : bool; pr_HTTP2 : bool; pr_UnencryptedHTTP2 : bool }.

(** The fields of http.Transport that transportFor sets; Proxy is nil. *)
Record Transport := {
  tr_Protocols : Protocols;
  tr_ForceAttemptHTTP2 : bool;
  tr_DisableKeepAlives : bool;
  tr_DisableCompression : bool;
  tr_TLS : tls_Config
}.

(** x509.SystemCertPool's error, and whether the first PEM block of a text has
    headers. *)
Record Tls := {
  tls_env : Env;
  SystemCertPool : option string;
  pem_Headers : bytes → bool
}.

Definition set_roots (data : bytes) (c : tls_Config) : tls_Config :=
  {| tc_MinVersion := tc_MinVersion c; tc_Certificate := tc_Certificate c; tc_NextProtos := tc_NextProtos c;
     tc_ServerName := tc_ServerName c; tc_RootCAs := Some data; tc_ClientCAs := tc_ClientCAs c;
     tc_RequireClientCert := tc_RequireClientCert c; tc_VerifyH2 := tc_VerifyH2 c |}.
Definition set_certificate (cert key : string) (c : tls_Config) : tls_Config :=
  {| tc_MinVersion := tc_MinVersion c; tc_Certificate := Some (cert, key); tc_NextProtos := tc_NextProtos c;
     tc_ServerName := tc_ServerName c; tc_RootCAs := tc_RootCAs c; tc_ClientCAs := tc_ClientCAs c;
     tc_RequireClientCert := tc_RequireClientCert c; tc_VerifyH2 := tc_VerifyH2 c |}.
Definition set_client_cas (data : bytes) (c : tls_Config) : tls_Config :=
  {| tc_MinVersion := tc_MinVersion c; tc_Certificate := tc_Certificate c; tc_NextProtos := tc_NextProtos c;
     tc_ServerName := tc_ServerName c; tc_RootCAs := tc_RootCAs c; tc_ClientCAs := Some data;
     tc_RequireClientCert := true; tc_VerifyH2 := tc_VerifyH2 c |}.

Definition plain_config (alpn : list string) (server : string) (h2 : bool) : tls_Config :=
  {| tc_MinVersion := VersionTLS12; tc_Certificate := None; tc_NextProtos := alpn; tc_ServerName := server;
     tc_RootCAs := None; tc_ClientCAs := None; tc_RequireClientCert := false; tc_VerifyH2 := h2 |}.

Definition protocols (protocol : string) (secure : bool) : Protocols :=
  if protocol =s "http1" then {| pr_HTTP1 := true; pr_HTTP2 := false; pr_UnencryptedHTTP2 := false |}
  else if secure then {| pr_HTTP1 := false; pr_HTTP2 := true; pr_UnencryptedHTTP2 := false |}
  else {| pr_HTTP1 := false; pr_HTTP2 := false; pr_UnencryptedHTTP2 := true |}.

Definition alpn (protocol : string) : list string := if protocol =s "http1" then ["http/1.1"] else ["h2"].

Section tls.
Context (t : Tls).
Let env := tls_env t.

(** CertPool.AppendCertsFromPEM: whether some block is a certificate that parses.
    Blocks of another type, with headers or that do not parse are skipped. [fuel]
    bounds the blocks; each is part of the text. *)
Fixpoint append_certs (fuel : nat) (data : bytes) : bool :=
  match fuel, data with
  | O, _ | _, [] => false
  | S fuel, _ =>
      match pem_Decode env data with
      | None => false
      | Some (ty, block, rest) =>
          if (ty =s "CERTIFICATE") && negb (pem_Headers t data) && ParseCertificate env block then true
          else append_certs fuel rest
      end
  end.
Definition AppendCertsFromPEM (data : bytes) : bool := append_certs (S (length data)) data.

(** The certificates of a file, if it holds any. *)
Definition read_pool (name : string) : option bytes :=
  data ← ReadFile env name; if AppendCertsFromPEM data then Some data else None.

Definition LoadX509KeyPair (cert key : string) : bool :=
  match ReadFile env cert, ReadFile env key with
  | Some c, Some k => X509KeyPair env c k
  | _, _ => false
  end.

(** The upstream's root certificates: the system pool and ca_file, or the default. *)
Definition load_roots (u : option UpstreamTLS) (message : string) (c : tls_Config) : res string tls_Config :=
  match u with
  | Some u =>
      if nonempty (ut_CAFile u) then
        match SystemCertPool t with
        | Some err => Err err
        | None => match read_pool (ut_CAFile u) with Some data => Ok (set_roots data c) | None => Err message end
        end
      else Ok c
  | None => Ok c
  end.

(** A listener's certificate and key. *)
Definition load_listener (l : option ListenerTLS) (message : string) (c : tls_Config) : res string (option tls_Config) :=
  match l with
  | Some l => if LoadX509KeyPair (lt_CertFile l) (lt_KeyFile l)
              then Ok (Some (set_certificate (lt_CertFile l) (lt_KeyFile l) c)) else Err message
  | None => Ok None
  end.

Definition transportFor (p : Proxy) : res string (Transport * option tls_Config) :=
  let client := plain_config (alpn (p_UpstreamProtocol p)) "" (p_UpstreamProtocol p =s "http2") in
  client ← match load_roots (p_UpstreamTLS p) "cannot load upstream CA" client with
           | Ok c => Ok c
           | Err e => Err (if is_some (SystemCertPool t) then "cannot load system CA pool" else e)
           end;
  client ← match p_UpstreamTLS p with
           | Some u =>
               if nonempty (ut_CertFile u) then
                 if LoadX509KeyPair (ut_CertFile u) (ut_KeyFile u)
                 then Ok (set_certificate (ut_CertFile u) (ut_KeyFile u) client)
                 else Err "cannot load upstream client certificate/key"
               else Ok client
           | None => Ok client
           end;
  listener ← load_listener (p_TLS p) "cannot load listener certificate/key" (plain_config (alpn (p_Protocol p)) "" false);
  listener ← match p_TLS p, listener with
             | Some l, Some c =>
                 if nonempty (lt_ClientCAFile l) then
                   match read_pool (lt_ClientCAFile l) with
                   | Some data => Ok (Some (set_client_cas data c))
                   | None => Err "cannot load listener client CA"
                   end
                 else Ok (Some c)
             | _, c => Ok c
             end;
  Ok ({| tr_Protocols := protocols (p_UpstreamProtocol p) (HasPrefix (p_Upstream p) "https://");
         tr_ForceAttemptHTTP2 := false; tr_DisableKeepAlives := true; tr_DisableCompression := true;
         tr_TLS := client |}, listener).

(** ** The database adapters *)

Record secure_endpoint := {
  en_proxy : Proxy;
  en_clientTLS : option tls_Config;
  en_upstreamTLS : option tls_Config;
  en_address : string
}.

(** [prepare] of package [name], whose TLS upstreams have the scheme [name]s.
    [None] is the nil dereference of an upstream that does not parse. *)
Definition prepare (name : string) (p : Proxy) : option (res string secure_endpoint) :=
  u ← url_Parse env (p_Upstream p);
  Some (
    client ← load_listener (p_TLS p) (name +:+ ": cannot load listener TLS") (plain_config [] "" false);
    upstream ← (if u_Scheme u =s name +:+ "s" then
                  c ← load_roots (p_UpstreamTLS p) (name +:+ ": cannot load upstream CA")
                        (plain_config [] (u_Hostname u) false);
                  Ok (Some c)
                else Ok None);
    Ok {| en_proxy := p; en_clientTLS := client; en_upstreamTLS := upstream; en_address := u_Host u |}).
End tls.

(** postgresql.prepare and mysql.prepare. *)
Definition pg_prepare (t : Tls) : Proxy → option (res string secure_endpoint) := prepare t "postgresql".
Definition mysql_prepare (t : Tls) : Proxy → option (res string secure_endpoint) := prepare t "mysql".

(** ** One attempt per request (transport.go) *)

(** What happened to a request's connection: the addresses dialled, the requests
    sent, the calls of its Close, the use of the body's sync.Once, and whether the
    request body is still open. *)
Record attempt := {
  at_dialled : list (string * string);
  at_requests : nat;
  at_closes : nat;
  at_once : bool;
  at_body_open : bool
}.

Definition target_address (u : URL) : string :=
  let port := u_Port u in
  let port := if port =s "" then if u_Scheme u =s "https" then "443" else "80" else port in
  JoinHostPort (u_Hostname u) port.

(** singleAttempt.RoundTrip, with the answers of NewClientConn and of
    ClientConn.RoundTrip. *)
Definition RoundTrip {A} (u : URL) (has_body : bool) (dial : res error unit) (send : res error A) (a : attempt) :
    res error A * attempt :=
  let dialled := at_dialled a ++ [(u_Scheme u, target_address u)] in
  match dial with
  | Err e => (Err e, {| at_dialled := dialled; at_requests := at_requests a; at_closes := at_closes a;
                        at_once := at_once a; at_body_open := at_body_open a && negb has_body |})
  | Ok _ => (send, {| at_dialled := dialled; at_requests := S (at_requests a);
                      at_closes := if is_ok send then at_closes a else S (at_closes a);
                      at_once := at_once a; at_body_open := at_body_open a |})
  end.

(** connectionBody.Close: the first call closes the connection. *)
Definition connection_Close (a : attempt) : attempt :=
  {| at_dialled := at_dialled a; at_requests := at_requests a;
     at_closes := if at_once a then at_closes a else S (at_closes a);
     at_once := true; at_body_open := at_body_open a |}.
