(* ===== verification/Listeners.v ===== *)
(** * Listeners: start, accept and shutdown of the protocol servers

    Start, accept, Listeners and Close of proxy/tcp/server.go,
    proxy/postgresql/server.go and proxy/mysql/server.go; Start, track, Listeners,
    Shutdown and Close of proxy/http/server.go. The four packages share their
    shape; [kind] says which one runs. A server is the state its goroutines share,
    and each label is one atomic action of a goroutine or of the network. *)

From Stdlib Require Import Ascii.
From S2P Require Import Prelude GoLib GoUtf8 GoRand GoTime Config Validate Engine Control Recorder Decode Load GoIO TlsConf Admin.
Local Open Scope go_scope.

Inductive kind := HTTP | PostgreSQL | MySQL | TCP.

#[export] Instance kind_eq_dec : EqDecision kind. Proof. solve_decision. Defined.

(** The proxies a package serves. *)
Definition serves (k : kind) (p : Proxy) : bool :=
  match k with
  | HTTP => negb ((p_Protocol p =s "postgresql") || (p_Protocol p =s "mysql") || (p_Protocol p =s "tcp"))
  | PostgreSQL => p_Protocol p =s "postgresql"
  | MySQL => p_Protocol p =s "mysql"
  | TCP => p_Protocol p =s "tcp"
  end.

(** An endpoint: the proxy, the bound address, whether the listener is open and
    whether its accept (or Serve) loop runs. *)
Record endpoint := {
  ep_id : string;
  ep_address : string;
  ep_open : bool;
  ep_looping : bool
}.

(** How far Close has come: not called, the flag set, the context cancelled and the
    first [n] listeners closed, waiting for the goroutines, returned. *)
Inductive closing := Running | Flagged | Cancelled (n : nat) | Waiting | Returned.

#[export] Instance closing_eq_dec : EqDecision closing. Proof. solve_decision. Defined.

(** [ls_pending] goroutines serve a connection (a request, for HTTP) without a slot,
    [ls_active] hold one; [ls_done]: the server's context is cancelled; [ls_errors] is
    the content of the error channel. *)
Record Server := {
  ls_endpoints : list endpoint;
  ls_flag : bool;
  ls_done : bool;
  ls_close : closing;
  ls_pending : nat;
  ls_active : nat;
  ls_slots : nat;
  ls_errors : list string;
  ls_errors_cap : nat
}.

Definition set_endpoints (l : list endpoint) (s : Server) : Server :=
  {| ls_endpoints := l; ls_flag := ls_flag s; ls_done := ls_done s; ls_close := ls_close s; ls_pending := ls_pending s;
     ls_active := ls_active s; ls_slots := ls_slots s; ls_errors := ls_errors s; ls_errors_cap := ls_errors_cap s |}.
Definition set_flows (pending active : nat) (s : Server) : Server :=
  {| ls_endpoints := ls_endpoints s; ls_flag := ls_flag s; ls_done := ls_done s; ls_close := ls_close s; ls_pending := pending;
     ls_active := active; ls_slots := ls_slots s; ls_errors := ls_errors s; ls_errors_cap := ls_errors_cap s |}.
Definition set_close (flag : bool) (c : closing) (s : Server) : Server :=
  {| ls_endpoints := ls_endpoints s; ls_flag := flag; ls_done := ls_done s; ls_close := c; ls_pending := ls_pending s;
     ls_active := ls_active s; ls_slots := ls_slots s; ls_errors := ls_errors s; ls_errors_cap := ls_errors_cap s |}.
Definition set_done (s : Server) : Server :=
  {| ls_endpoints := ls_endpoints s; ls_flag := ls_flag s; ls_done := true; ls_close := ls_close s; ls_pending := ls_pending s;
     ls_active := ls_active s; ls_slots := ls_slots s; ls_errors := ls_errors s; ls_errors_cap := ls_errors_cap s |}.
Definition set_errors (l : list string) (s : Server) : Server :=
  {| ls_endpoints := ls_endpoints s; ls_flag := ls_flag s; ls_done := ls_done s; ls_close := ls_close s; ls_pending := ls_pending s;
     ls_active := ls_active s; ls_slots := ls_slots s; ls_errors := l; ls_errors_cap := ls_errors_cap s |}.

Definition set_looping (b : bool) (e : endpoint) : endpoint :=
  {| ep_id := ep_id e; ep_address := ep_address e; ep_open := ep_open e; ep_looping := b |}.
Definition close_listener (e : endpoint) : endpoint :=
  {| ep_id := ep_id e; ep_address := ep_address e; ep_open := false; ep_looping := ep_looping e |}.

(** ctx.Err() != nil *)
Definition is_cancelled (s : Server) : bool := ls_done s.

(** ** Start *)

Section start.
Context (t : Tls) (bind : nat → string → res string string).

(** What a package does for a proxy before it binds: [None] is a panic. *)
Definition http_prepare (p : Proxy) : option (res string unit) :=
  Some (match transportFor t p with Ok _ => Ok tt | Err e => Err ("proxy " +:+ p_ID p +:+ ": " +:+ e) end).
Definition tcp_prepare (p : Proxy) : option (res string unit) :=
  _ ← url_Parse (tls_env t) (p_Upstream p); Some (Ok tt).
Definition db_prepare (name : string) (p : Proxy) : option (res string unit) :=
  r ← prepare t name p; Some (_ ← r; Ok tt).

Definition prepare_for (k : kind) : Proxy → option (res string unit) :=
  match k with
  | HTTP => http_prepare
  | PostgreSQL => db_prepare "postgresql"
  | MySQL => db_prepare "mysql"
  | TCP => tcp_prepare
  end.

Definition bind_error (k : kind) (p : Proxy) (err : string) : string :=
  match k with
  | HTTP | TCP => "proxy " +:+ p_ID p +:+ ": bind listener: " +:+ err
  | PostgreSQL | MySQL => err
  end.

(** The loop over the proxies: the endpoints bound so far, and the error it
    stopped at. [bind] is net.Listen, called for the n-th time. *)
Fixpoint bind_all (k : kind) (ps : list Proxy) (bound : list endpoint) : option (list endpoint * option string) :=
  match ps with
  | [] => Some (bound, None)
  | p :: ps =>
      if negb (serves k p) then bind_all k ps bound
      else
        r ← prepare_for k p;
        match r with
        | Err e => Some (bound, Some e)
        | Ok _ =>
            match bind (length bound) (p_Listen p) with
            | Err err => Some (bound, Some (bind_error k p err))
            | Ok address =>
                bind_all k ps (bound ++ [{| ep_id := p_ID p; ep_address := address; ep_open := true; ep_looping := false |}])
            end
        end
  end.

Definition new_server (c : Config) (bound : list endpoint) : Server :=
  {| ls_endpoints := bound; ls_flag := false; ls_done := false; ls_close := Running; ls_pending := 0; ls_active := 0;
     ls_slots := Z.to_nat (rt_MaxInflightRequests (c_Runtime c)); ls_errors := [];
     ls_errors_cap := length (c_Proxies c) |}.

(** Close before any goroutine runs. *)
Definition close_idle (s : Server) : Server :=
  set_done (set_close true Returned (set_endpoints (close_listener <$> ls_endpoints s) s)).

(** Start: the server, and the error after which it was closed again. *)
Definition Start (k : kind) (c : Config) : option (Server * option string) :=
  '(bound, err) ← bind_all k (c_Proxies c) [];
  Some (match err with
        | Some e => (close_idle (new_server c bound), Some e)
        | None => (new_server c (set_looping true <$> bound), None)
        end).
End start.

(** ** Running *)

Definition Listeners (s : Server) : list ListenerStatus :=
  (λ e, {| ls_ProxyID := ep_id e; ls_Address := ep_address e; ls_Ready := negb (ls_flag s) |}) <$> ls_endpoints s.

Definition handshakes (s : Server) : nat := ls_slots s + 16.

(** A connection is accepted: it takes a slot, or is closed at once. *)
Definition tcp_accept (s : Server) : Server :=
  if bool_decide (ls_active s < ls_slots s)%nat then set_flows (ls_pending s) (S (ls_active s)) s else s.

(** accept of the database packages: the connection takes a place among the
    handshakes, or is closed at once. *)
Definition db_accept (s : Server) : Server :=
  if bool_decide (ls_pending s + ls_active s < handshakes s)%nat then set_flows (S (ls_pending s)) (ls_active s) s
  else s.

(** track: a request that comes while the server closes is dropped; another is
    counted and goes to the handler, which takes a slot for it ([http_slot]). *)
Definition track (s : Server) : Server :=
  if ls_flag s then s else set_flows (S (ls_pending s)) (ls_active s) s.

Definition accept (k : kind) : Server → Server :=
  match k with HTTP => track | PostgreSQL | MySQL => db_accept | TCP => tcp_accept end.

(** The error a failed Accept (or Serve) reports. [closed] tells http.ErrServerClosed
    and net.ErrClosed from other errors. *)
Definition accept_error (k : kind) (e : endpoint) (err : string) (closed : bool) (s : Server) : option string :=
  match k with
  | HTTP => if closed then None else Some ("proxy " +:+ ep_id e +:+ ": " +:+ err)
  | PostgreSQL => if is_cancelled s then None else Some "postgresql: listener failed"
  | MySQL => if is_cancelled s then None else Some "mysql: listener failed"
  | TCP => if is_cancelled s then None else Some ("proxy " +:+ ep_id e +:+ ": listener: " +:+ err)
  end.

Inductive label :=
| Accepted (i : nat)
| AcceptFailed (i : nat) (err : string) (closed : bool)
| TakeSlot
| FlowEnd (active : bool)
| FlowCancelled (active : bool)
| CloseFlag
| CloseCancel
| CloseListener
| CloseWait
| ShutdownFlag
| ShutdownListener (i : nat)
| ReadError.

(** The accept loop ends with an error, which it reports when it must; a send on a
    full error channel waits. A closed listener answers net.ErrClosed. *)
Definition accept_failed (k : kind) (i : nat) (e : endpoint) (err : string) (closed : bool) (s : Server) : option Server :=
  let s' := set_endpoints (<[i := set_looping false e]> (ls_endpoints s)) s in
  match accept_error k e err closed s with
  | None => Some s'
  | Some e => if bool_decide (length (ls_errors s) < ls_errors_cap s)%nat
              then Some (set_errors (ls_errors s ++ [e]) s') else None
  end.

(** The select on the slots in serve of the database packages: without a free slot
    the connection is refused and done. *)
Definition take_slot (s : Server) : option Server :=
  match ls_pending s with
  | S n => Some (if bool_decide (ls_active s < ls_slots s)%nat then set_flows n (S (ls_active s)) s
                 else set_flows n (ls_active s) s)
  | O => None
  end.

(** The select on the slots in ServeHTTP of the HTTP handlers, which share one channel:
    without a free slot the request is answered with an error and done. *)
Definition http_slot (s : Server) : option Server :=
  if bool_decide (ls_pending s = O) then None
  else Some (set_flows (pred (ls_pending s))
               (if bool_decide (ls_active s < ls_slots s)%nat then S (ls_active s) else ls_active s) s).

(** The goroutine of a connection or request, with or without a slot, is done. It may
    be at any time ([FlowEnd]), and it is once the server's context is cancelled
    ([FlowCancelled]): the context of every flow is derived from it, and the callbacks
    a flow registers on that context close its connections. *)
Definition flow_end (active : bool) (s : Server) : option Server :=
  if active then match ls_active s with S n => Some (set_flows (ls_pending s) n s) | O => None end
  else match ls_pending s with S n => Some (set_flows n (ls_active s) s) | O => None end.

(** Close: the flag, the context, each listener, the wait. *)
Definition close_step (l : label) (s : Server) : option Server :=
  match l, ls_close s with
  | CloseFlag, Running => Some (set_close true Flagged s)
  | CloseCancel, Flagged => Some (set_done (set_close (ls_flag s) (Cancelled 0) s))
  | CloseListener, Cancelled n =>
      Some (match ls_endpoints s !! n with
            | Some e => set_close (ls_flag s) (Cancelled (S n)) (set_endpoints (<[n := close_listener e]> (ls_endpoints s)) s)
            | None => set_close (ls_flag s) Waiting s
            end)
  | CloseWait, Waiting =>
      if bool_decide (ls_pending s = O ∧ ls_active s = O) && forallb (λ e, negb (ep_looping e)) (ls_endpoints s)
      then Some (set_close (ls_flag s) Returned s) else None
  | _, _ => None
  end.

(** Shutdown of the HTTP server: the flag, and http.Server.Shutdown of each
    endpoint, which closes its listener; Close follows. *)
Definition shutdown_step (l : label) (s : Server) : option Server :=
  match l with
  | ShutdownFlag => Some (set_close true (ls_close s) s)
  | ShutdownListener i =>
      e ← ls_endpoints s !! i;
      if ls_flag s then Some (set_endpoints (<[i := close_listener e]> (ls_endpoints s)) s) else None
  | _ => None
  end.

(** One action; [None] where it cannot happen. The HTTP server gets requests of
    connections that are already open. *)
Definition lexec (k : kind) (l : label) (s : Server) : option Server :=
  match l with
  | Accepted i =>
      e ← ls_endpoints s !! i;
      if bool_decide (k = HTTP) || (ep_open e && ep_looping e) then Some (accept k s) else None
  | AcceptFailed i err closed =>
      e ← ls_endpoints s !! i;
      if ep_looping e && Bool.eqb closed (negb (ep_open e)) then accept_failed k i e err closed s else None
  | TakeSlot => match k with HTTP => http_slot s | PostgreSQL | MySQL => take_slot s | TCP => None end
  | FlowEnd active => flow_end active s
  | FlowCancelled active => if is_cancelled s then flow_end active s else None
  | ShutdownFlag | ShutdownListener _ => match k with HTTP => shutdown_step l s | _ => None end
  | ReadError => match ls_errors s with _ :: l => Some (set_errors l s) | [] => None end
  | _ => close_step l s
  end.

Fixpoint lexec_all (k : kind) (ls : list label) (s : Server) : option Server :=
  match ls with [] => Some s | l :: ls => s ← lexec k l s; lexec_all k ls s end.
