(* ===== verification/ListenersSpec.v ===== *)
(** * Correctness of the listeners

    Limits on concurrent work, error reports that never block, shutdown that
    terminates and leaves nothing behind, and starts that bind all the listeners
    of a package or none. *)

From Stdlib Require Import Ascii.
From S2P Require Import Prelude GoLib GoUtf8 GoRand GoTime Config Validate Engine Control Recorder Decode Load GoIO TlsConf Admin Listeners.
Local Open Scope go_scope.

(** ** Counting the accept loops *)

Definition loops (l : list endpoint) : nat := sum_list_with (λ e, Nat.b2n (ep_looping e)) l.

Lemma loops_insert l i e e' :
  l !! i = Some e → (loops (<[i := e']> l) + Nat.b2n (ep_looping e) = loops l + Nat.b2n (ep_looping e'))%nat.
Proof.
  revert i. induction l as [|x l IH]; intros [|i] Hi; simplify_eq/=; [lia|]. specialize (IH _ Hi). lia.
Qed.

Lemma loops_close l : loops (close_listener <$> l) = loops l.
Proof. unfold loops. induction l as [|x l IH]; [done|]. rewrite fmap_cons. cbn [sum_list_with]. by rewrite IH. Qed.

Lemma loops_zero l : loops l = 0%nat ↔ forallb (λ e, negb (ep_looping e)) l = true.
Proof.
  induction l as [|x l IH]; cbn; [done|]. rewrite andb_true_iff, <- IH. destruct (ep_looping x); cbn; [|by intuition].
  split; [lia|]. by intros [? _].
Qed.

Lemma loops_zero_lookup l i e : loops l = 0%nat → l !! i = Some e → ep_looping e = false.
Proof.
  intros Hz Hi. pose proof (loops_insert _ _ _ (set_looping false e) Hi) as Hl'. rewrite Hz in Hl'. destruct (ep_looping e); [cbn in Hl'; lia|done].
Qed.

Lemma loops_pos l : loops l ≠ 0%nat → ∃ i e, l !! i = Some e ∧ ep_looping e = true.
Proof.
  unfold loops. induction l as [|x l IH]; cbn; [done|]. destruct (ep_looping x) eqn:El; cbn; [by exists 0%nat, x|].
  intros Hn. destruct (IH Hn) as (i & e & ? & ?). by exists (S i), e.
Qed.

Lemma loops_length l : (loops l ≤ length l)%nat.
Proof. unfold loops. induction l as [|x l IH]; cbn; [done|]. destruct (ep_looping x); cbn; lia. Qed.

#[local] Arguments loops : simpl never.

(** ** The invariant *)

(** The listeners Close has closed by now. *)
Definition closed_by (c : closing) (l : list endpoint) : Prop :=
  match c with
  | Running | Flagged => True
  | Cancelled n => ∀ i e, l !! i = Some e → (i < n)%nat → ep_open e = false
  | Waiting | Returned => ∀ i e, l !! i = Some e → ep_open e = false
  end.

Definition within_limits (k : kind) (s : Server) : Prop :=
  match k with
  | HTTP => (ls_active s ≤ ls_slots s)%nat
  | TCP => ls_pending s = 0%nat ∧ (ls_active s ≤ ls_slots s)%nat
  | PostgreSQL | MySQL => (ls_active s ≤ ls_slots s)%nat ∧ (ls_pending s + ls_active s ≤ handshakes s)%nat
  end.

(** Whether Close has come past s.cancel(). *)
Definition cancelled_at (c : closing) : bool := match c with Running | Flagged => false | _ => true end.

Record inv (k : kind) (s : Server) : Prop := {
  inv_limits : within_limits k s;
  inv_errors : (length (ls_errors s) + loops (ls_endpoints s) ≤ ls_errors_cap s)%nat;
  inv_flag : ls_close s ≠ Running → ls_flag s = true;
  inv_done : ls_done s = cancelled_at (ls_close s);
  inv_closed : closed_by (ls_close s) (ls_endpoints s);
  inv_open : k ≠ HTTP → is_cancelled s = false → Forall (λ e, ep_open e = true) (ls_endpoints s);
  inv_returned : ls_close s = Returned →
    loops (ls_endpoints s) = 0%nat ∧ ls_pending s = 0%nat ∧ ls_active s = 0%nat
}.

Lemma closed_by_insert c l i e e' :
  closed_by c l → l !! i = Some e → (ep_open e = false → ep_open e' = false) → closed_by c (<[i := e']> l).
Proof.
  intros Hc Hi Ho. destruct c; cbn in *; try done; intros j x Hj; (destruct (decide (i = j)) as [->|Hne];
    [rewrite list_lookup_insert_eq in Hj by (by eapply lookup_lt_Some); simplify_eq; eauto
    |rewrite list_lookup_insert_ne in Hj by done; eauto]).
Qed.

(** Changes of flows, and of one endpoint, that keep the invariant. *)
Lemma inv_set_flows k s p a :
  inv k s → within_limits k (set_flows p a s) → (ls_close s = Returned → p = 0 ∧ a = 0)%nat → inv k (set_flows p a s).
Proof.
  intros [Hl He Hf Hd Hc Ho Hr] Hl' Hn. constructor; try done. intros Hret. cbn in *. destruct (Hr Hret) as (? & _). by destruct (Hn Hret).
Qed.

Lemma inv_set_endpoint k s i e e' :
  inv k s → ls_endpoints s !! i = Some e → (Nat.b2n (ep_looping e') ≤ Nat.b2n (ep_looping e))%nat →
  (ep_open e = false → ep_open e' = false) → (k ≠ HTTP → is_cancelled s = false → ep_open e' = true) →
  inv k (set_endpoints (<[i := e']> (ls_endpoints s)) s).
Proof.
  intros [Hl He Hf Hd Hc Ho Hr] Hi Hle Hop Hop'. pose proof (loops_insert _ _ _ e' Hi) as Hloops.
  constructor; cbn in *; try done; [lia|by eapply closed_by_insert| |].
  - intros Hk Hn. apply Forall_insert; auto.
  - intros Hret. destruct (Hr Hret) as (? & ? & ?). split_and!; try done. lia.
Qed.

Lemma inv_set_flag k s : inv k s → inv k (set_close true (ls_close s) s).
Proof. intros [Hl He Hf Hd Hc Ho Hr]. by constructor. Qed.

(** Close moves on. *)
Lemma inv_set_close k s c :
  inv k s → ls_flag s = true → closed_by c (ls_endpoints s) → ls_done s = cancelled_at c →
  (c = Returned → loops (ls_endpoints s) = 0%nat ∧ ls_pending s = 0%nat ∧ ls_active s = 0%nat) →
  inv k (set_close true c s).
Proof. intros [Hl He Hf Hd Hc Ho Hr] Hfl Hcl Hn Hret. by constructor. Qed.

Lemma accept_inv k s i e :
  inv k s → ls_endpoints s !! i = Some e → bool_decide (k = HTTP) || (ep_open e && ep_looping e) = true →
  inv k (accept k s).
Proof.
  intros Hi He Hb.
  assert (k ≠ HTTP → ls_close s ≠ Returned) as Hrun.
  { intros Hk Hr. rewrite bool_decide_false in Hb by done. cbn in Hb. apply andb_true_iff in Hb as [_ Hlo].
    pose proof (loops_insert _ _ _ (set_looping false e) He) as Hl. rewrite Hlo in Hl. cbn in Hl.
    destruct (inv_returned _ _ Hi Hr) as (Hz & _). lia. }
  pose proof (inv_limits _ _ Hi) as Hl. clear Hb. destruct k; cbn in *.
  - unfold track. destruct (ls_flag s) eqn:Ef; [done|]. apply inv_set_flows; [done|done|].
    intros Hr. pose proof (inv_flag _ _ Hi) as Hf. rewrite Hr, Ef in Hf. by specialize (Hf ltac:(done)).
  - unfold db_accept. case_bool_decide; [|done]. apply inv_set_flows; [done|cbn; unfold handshakes in *; cbn; lia|]. intros Hr. by destruct Hrun.
  - unfold db_accept. case_bool_decide; [|done]. apply inv_set_flows; [done|cbn; unfold handshakes in *; cbn; lia|]. intros Hr. by destruct Hrun.
  - unfold tcp_accept. case_bool_decide; [|done]. apply inv_set_flows; [done|cbn; lia|]. intros Hr. by destruct Hrun.
Qed.

Lemma accept_failed_inv k s i e err closed s' :
  inv k s → ls_endpoints s !! i = Some e → ep_looping e = true → accept_failed k i e err closed s = Some s' → inv k s'.
Proof.
  intros Hi He Hlo Hs. unfold accept_failed in Hs.
  assert (inv k (set_endpoints (<[i := set_looping false e]> (ls_endpoints s)) s)) as Hi'.
  { eapply inv_set_endpoint; [done..|cbn; lia|done|]. intros Hk Hn. pose proof (inv_open _ _ Hi Hk Hn) as Ho.
    exact (Forall_lookup_1 _ _ _ _ Ho He). }
  destruct (accept_error k e err closed s) as [m|]; [|by simplify_eq]. case_bool_decide; [|done]. simplify_eq.
  pose proof (inv_errors _ _ Hi) as Herr. pose proof (loops_insert _ _ _ (set_looping false e) He) as Hl. rewrite Hlo in Hl. cbn in Hl.
  destruct Hi'. constructor; try done. cbn in *. rewrite length_app. cbn. lia.
Qed.

Lemma closed_by_step n l e :
  closed_by (Cancelled n) l → l !! n = Some e → closed_by (Cancelled (S n)) (<[n := close_listener e]> l).
Proof.
  intros Hc Hn i x Hi Hlt. destruct (decide (n = i)) as [->|Hne].
  - rewrite list_lookup_insert_eq in Hi by (by eapply lookup_lt_Some). by simplify_eq.
  - rewrite list_lookup_insert_ne in Hi by done. apply (Hc i x Hi). lia.
Qed.

Lemma close_step_inv k l s s' : inv k s → close_step l s = Some s' → inv k s'.
Proof.
  intros Hi Hs. pose proof (inv_flag _ _ Hi) as Hf. pose proof (inv_closed _ _ Hi) as Hc.
  destruct l; try done; destruct (ls_close s) as [| |n| |] eqn:Ec; try done; cbn in Hs; rewrite Ec in Hs; try done;
    try rewrite (Hf ltac:(done)) in Hs; cbn in Hc.
  - simplify_eq. destruct Hi as [Hl He _ Hd _ Ho Hr]. constructor; cbn; try done. by rewrite Hd, Ec.
  - simplify_eq. destruct Hi as [Hl He _ Hd _ Ho Hr]. constructor; cbn; try done. intros; lia.
  - assert (ls_done s = true) as Hd by (by rewrite (inv_done _ _ Hi), Ec).
    destruct (ls_endpoints s !! n) as [e|] eqn:En; simplify_eq.
    + apply inv_set_close; cbn; [|auto|by apply closed_by_step|done|done].
      eapply inv_set_endpoint; [done..| |]; cbn; try done. intros _. unfold is_cancelled. by rewrite Hd.
    + apply inv_set_close; [done|auto| |done|done]. cbn. intros i e Hi'. eapply Hc; [done|]. apply lookup_lt_Some in Hi'.
      apply lookup_ge_None in En. lia.
  - destruct (bool_decide _) eqn:Eb; [|done]. apply bool_decide_eq_true in Eb as [Hp Ha].
    destruct (forallb _ _) eqn:El; [|done]. injection Hs as <-.
    apply inv_set_close; [done|auto|done|by rewrite (inv_done _ _ Hi), Ec|]. intros _. by rewrite (proj2 (loops_zero _) El).
Qed.

Lemma http_slot_take s : http_slot s = take_slot s.
Proof.
  unfold http_slot, take_slot. destruct (ls_pending s) eqn:E; [by rewrite bool_decide_true|]. rewrite bool_decide_false by done.
  by case_bool_decide.
Qed.

Lemma take_slot_inv k s s' : k ≠ TCP → inv k s → take_slot s = Some s' → inv k s'.
Proof.
  intros Hk Hi Ht. pose proof (inv_limits _ _ Hi) as Hw. unfold take_slot in Ht. destruct (ls_pending s) as [|n] eqn:Ep; [done|].
  assert (ls_close s ≠ Returned) as Hrun by (intros Hr; destruct (inv_returned _ _ Hi Hr) as (_ & ? & _); lia).
  case_bool_decide; simplify_eq; apply inv_set_flows; try done; destruct k; cbn in *; unfold handshakes in *; cbn; rewrite ?Ep in Hw; (done || lia).
Qed.

Lemma flow_end_inv k b s s' : inv k s → flow_end b s = Some s' → inv k s'.
Proof.
  intros Hi Hs. pose proof (inv_limits _ _ Hi) as Hl. unfold flow_end in Hs. destruct b.
  - destruct (ls_active s) as [|n] eqn:Ea; [done|]. simplify_eq. apply inv_set_flows; [done| |].
    + destruct k; cbn in *; unfold handshakes in *; cbn; rewrite ?Ea in *; try done; lia.
    + intros Hr. destruct (inv_returned _ _ Hi Hr) as (_ & _ & ?). lia.
  - destruct (ls_pending s) as [|n] eqn:Ea; [done|]. simplify_eq. apply inv_set_flows; [done| |].
    + destruct k; cbn in *; unfold handshakes in *; cbn; rewrite ?Ea in *; try done; lia.
    + intros Hr. destruct (inv_returned _ _ Hi Hr) as (_ & ? & _). lia.
Qed.

Lemma lexec_inv k l s s' : inv k s → lexec k l s = Some s' → inv k s'.
Proof.
  intros Hi Hs. pose proof (inv_limits _ _ Hi) as Hl. destruct l; cbn [lexec] in Hs; try (by eapply close_step_inv).
  - destruct (ls_endpoints s !! i) as [e|] eqn:Ee; [|done]. cbn in Hs. destruct (_ || _) eqn:Eb; [|done]. simplify_eq.
    by eapply accept_inv.
  - destruct (ls_endpoints s !! i) as [e|] eqn:Ee; [|done]. cbn in Hs. destruct (ep_looping e) eqn:Elo; [|done].
    destruct (Bool.eqb _ _); [|done]. cbn [andb] in Hs. by eapply accept_failed_inv.
  - apply (take_slot_inv k s s'); destruct k; rewrite ?http_slot_take in Hs; done.
  - by eapply flow_end_inv.
  - destruct (is_cancelled s); [|done]. by eapply flow_end_inv.
  - destruct k; [|done..]. injection Hs as <-. by apply inv_set_flag.
  - destruct k; [|done..]. cbn in Hs. destruct (ls_endpoints s !! i) as [e|] eqn:Ee; [|done]. cbn in Hs.
    destruct (ls_flag s); [|done]. simplify_eq. by eapply inv_set_endpoint.
  - destruct (ls_errors s) as [|x errs] eqn:Er; [done|]. simplify_eq. destruct Hi as [H1 H2 H3 H4 H5 H6 H7]. constructor; try done.
    rewrite Er in H2. cbn in *. lia.
Qed.

Lemma lexec_all_inv k ls s s' : inv k s → lexec_all k ls s = Some s' → inv k s'.
Proof.
  revert s. induction ls as [|l ls IH]; intros s Hi Hs; cbn in Hs; [by simplify_eq|].
  destruct (lexec k l s) as [s1|] eqn:E1; [|done]. eapply IH; [|done]. by eapply lexec_inv.
Qed.

(** ** Start *)

Section start.
Context (t : Tls) (bind : nat → string → res string string).

Definition bound_to (p : Proxy) (e : endpoint) : Prop := ep_id e = p_ID p ∧ ep_open e = true ∧ ep_looping e = false.

Lemma bind_all_ok k ps bound bound' err :
  bind_all t bind k ps bound = Some (bound', err) →
  ∃ more, bound' = bound ++ more ∧ Forall (λ e, ep_open e = true ∧ ep_looping e = false) more ∧
    (length more ≤ length ps)%nat ∧ (err = None → Forall2 bound_to (filter (λ p, serves k p = true) ps) more).
Proof.
  revert bound. induction ps as [|p ps IH]; intros bound Hb; cbn [bind_all] in Hb.
  { simplify_eq. exists []. rewrite app_nil_r. cbn. by split_and!. }
  rewrite filter_cons. destruct (serves k p) eqn:Es; cbn [negb] in Hb.
  - rewrite decide_True by done. destruct (prepare_for t k p) as [[]|]; [| |done]; cbn in Hb.
    + destruct (bind _ _); [|simplify_eq; exists []; rewrite app_nil_r; cbn; split_and!; (done || lia)].
      apply IH in Hb as (more & -> & Hf & Hle & Hok). eexists. rewrite <- (assoc_L (++)). split; [done|]. cbn.
      split_and!; [by constructor|lia|]. intros Hn. constructor; [done|auto].
    + simplify_eq. exists []. rewrite app_nil_r. cbn. split_and!; (done || lia).
  - rewrite decide_False by congruence. apply IH in Hb as (more & -> & Hf & Hle & Hok). exists more. cbn. split_and!; auto with lia.
Qed.

Lemma Start_inv k c s : Start t bind k c = Some (s, None) → inv k s.
Proof.
  unfold Start. destruct (bind_all _ _ _ _ _) as [[bound err]|] eqn:Eb; [|done]. cbn. destruct err; [done|]. intros [= <-].
  apply bind_all_ok in Eb as (more & -> & Hf & Hle & _). cbn [app]. constructor; try done; cbn.
  - destruct k; cbn; split_and?; lia.
  - pose proof (loops_length (set_looping true <$> more)) as Hl. rewrite length_fmap in Hl. lia.
  - intros _ _. apply Forall_fmap. eapply Forall_impl; [done|]. by intros e [? _].
Qed.

(** Start is all or nothing: with an error no listener is left open and no loop
    runs; without one, every proxy of the package, in the order of the
    configuration, is bound and served. *)
Theorem Start_all_or_nothing k c s err :
  Start t bind k c = Some (s, err) →
  match err with
  | Some _ => Forall (λ e, ep_open e = false ∧ ep_looping e = false) (ls_endpoints s)
  | None => Forall2 (λ p e, ep_id e = p_ID p ∧ ep_open e = true ∧ ep_looping e = true)
              (filter (λ p, serves k p = true) (c_Proxies c)) (ls_endpoints s)
  end.
Proof.
  unfold Start. destruct (bind_all _ _ _ _ _) as [[bound err']|] eqn:Eb; [|done]. cbn. intros [= Hs].
  apply bind_all_ok in Eb as (more & -> & Hf & _ & Hok). destruct err' as [e|]; simplify_eq; cbn [app] in *.
  - apply Forall_fmap. eapply Forall_impl; [done|]. by intros x [_ ?].
  - cbn. apply Forall2_fmap_r. eapply Forall2_impl; [by apply Hok|]. by intros p e (? & ? & _).
Qed.
End start.

(** ** Limits, errors, shutdown *)

Section reachable.
Context (t : Tls) (bind : nat → string → res string string) (k : kind) (c : Config).

Definition reachable (s : Server) : Prop :=
  ∃ s0 ls, Start t bind k c = Some (s0, None) ∧ lexec_all k ls s0 = Some s.

Lemma listening_inv s : reachable s → inv k s.
Proof. intros (s0 & ls & Hs & Hl). eapply lexec_all_inv; [|done]. by eapply Start_inv. Qed.

Lemma accept_slots s : ls_slots (accept k s) = ls_slots s.
Proof. destruct k; cbn; unfold track, db_accept, tcp_accept; by case_match. Qed.

Lemma lexec_slots l s s' : lexec k l s = Some s' → ls_slots s' = ls_slots s.
Proof.
  destruct l as [i| | | | | | | | | | |].
  { cbn. destruct (ls_endpoints s !! i); [|done]. cbn. destruct (_ || _); [|done]. intros [= <-]. apply accept_slots. }
  all: cbn; unfold accept_failed, http_slot, take_slot, flow_end; intros Hs; repeat (case_match; simplify_option_eq; try done).
Qed.

Lemma lexec_all_slots ls s s' : lexec_all k ls s = Some s' → ls_slots s' = ls_slots s.
Proof.
  revert s. induction ls as [|l ls IH]; intros s Hs; cbn in Hs; [by simplify_eq|].
  destruct (lexec k l s) eqn:E; [|done]. apply lexec_slots in E. rewrite <- E. by apply IH.
Qed.

Lemma Start_slots s : Start t bind k c = Some (s, None) → ls_slots s = Z.to_nat (rt_MaxInflightRequests (c_Runtime c)).
Proof. unfold Start. destruct (bind_all _ _ _ _ _) as [[? []]|]; [done| |done]. by intros [= <-]. Qed.

(** C35. Under every interleaving of connections, requests, failures and shutdown, no
    more flows hold a slot of a server than max_inflight_requests: connections of the
    TCP and database servers, requests that have passed the slot check of the handler
    for the HTTP server, over all its listeners together. A TCP connection has its slot
    from the start, and a database server has at most 16 connections more than slots.
    When Close has returned, every listener is closed, no accept loop runs and no
    connection or request is served. *)
Theorem listeners_bounded s :
  reachable s →
  let limit := Z.to_nat (rt_MaxInflightRequests (c_Runtime c)) in
  (ls_active s ≤ limit)%nat ∧
  (k ∈ [PostgreSQL; MySQL] → (ls_pending s + ls_active s ≤ limit + 16)%nat) ∧
  (k = TCP → ls_pending s = 0%nat) ∧
  (ls_close s = Returned →
     Forall (λ e, ep_open e = false ∧ ep_looping e = false) (ls_endpoints s) ∧
     ls_pending s = 0%nat ∧ ls_active s = 0%nat).
Proof.
  intros Hr limit. pose proof (listening_inv _ Hr) as Hi. destruct Hr as (s0 & ls & Hs & Hl).
  apply lexec_all_slots in Hl. apply Start_slots in Hs.
  assert (ls_slots s = limit) as Hlim by (unfold limit; congruence). pose proof (inv_limits _ _ Hi) as Hw. clear Hs Hl.
  split_and!.
  - destruct k; cbn in Hw; lia.
  - intros Hk. destruct k; cbn in Hw; unfold handshakes in Hw; try lia; set_solver.
  - intros ->. apply Hw.
  - intros Hc. destruct (inv_returned _ _ Hi Hc) as (Hz & ? & ?). split_and!; try done.
    pose proof (inv_closed _ _ Hi) as Hcl. rewrite Hc in Hcl. cbn in Hcl. apply Forall_lookup. intros i e He. split; [eauto|].
    by eapply loops_zero_lookup.
Qed.

(** An accept loop whose listener fails always ends: the error channel has room
    for its report. *)
Theorem accept_never_blocks s i e err :
  reachable s → ls_endpoints s !! i = Some e → ep_looping e = true →
  ∃ s', lexec k (AcceptFailed i err (negb (ep_open e))) s = Some s' ∧
    ls_endpoints s' !! i = Some (set_looping false e).
Proof.
  intros Hr He Hlo. apply listening_inv in Hr. cbn. rewrite He. cbn. rewrite Hlo, Bool.eqb_reflx. cbn [andb].
  unfold accept_failed. pose proof (inv_errors _ _ Hr) as Herr.
  pose proof (loops_insert _ _ _ (set_looping false e) He) as Hl. rewrite Hlo in Hl. cbn in Hl.
  assert (∀ l, length l = length (ls_endpoints s) → l = <[i := set_looping false e]> (ls_endpoints s) →
    l !! i = Some (set_looping false e)) as Hin.
  { intros l Hlen ->. apply list_lookup_insert_eq. by eapply lookup_lt_Some. }
  destruct (accept_error _ _ _ _ _); [rewrite bool_decide_true by lia|]; eexists; (split; [done|]);
    apply Hin; cbn; by rewrite ?length_insert.
Qed.

(** A shutdown is silent: as long as no listener fails by itself, no error is ever
    reported, however Close is interleaved with the accept loops. *)
Theorem shutdown_silent s0 ls s :
  Start t bind k c = Some (s0, None) → lexec_all k ls s0 = Some s →
  (∀ i err, AcceptFailed i err false ∉ ls) → ls_errors s = [].
Proof.
  intros Hs Hl Hn.
  assert (ls_errors s0 = []) as He.
  { revert Hs. unfold Start. destruct (bind_all _ _ _ _ _) as [[? []]|]; [done| |done]. by intros [= <-]. }
  apply Start_inv in Hs. revert s0 Hs He Hl. induction ls as [|l ls IH]; intros s0 Hi He Hl; cbn in Hl; [by simplify_eq|].
  destruct (lexec k l s0) as [s1|] eqn:E1; [|done].
  apply (IH (λ i err Hin, Hn i err (list_elem_of_further _ _ _ Hin)) s1); [by eapply lexec_inv| |done]. clear IH Hl.
  assert (∀ i err, l ≠ AcceptFailed i err false) as Hl by (intros i err ->; by apply (Hn i err), list_elem_of_here).
  destruct l as [i|i err closed| | | | | | | | | |]; cbn [lexec] in E1.
  2: { destruct (ls_endpoints s0 !! i) as [e|] eqn:Ee; [|done]. cbn in E1. destruct (ep_looping e); [|done].
       destruct closed; [|by edestruct Hl]. destruct (ep_open e) eqn:Eo; [done|]. cbn [negb Bool.eqb andb] in E1.
       assert (accept_error k e err true s0 = None) as Hnone; [|unfold accept_failed in E1; rewrite Hnone in E1; by simplify_eq].
       assert (k ≠ HTTP → is_cancelled s0 = true) as Hc.
       { intros Hk. destruct (is_cancelled s0) eqn:Ec; [done|]. pose proof (inv_open _ _ Hi Hk Ec) as Ho.
         pose proof (Forall_lookup_1 _ _ _ _ Ho Ee) as Ho'. cbn in Ho'. congruence. }
       destruct k; cbn; try done; by rewrite Hc. }
  all: try (unfold close_step, shutdown_step, http_slot, take_slot, flow_end in E1; repeat (case_match; simplify_option_eq; try done); done).
  destruct (ls_endpoints s0 !! i); [|done]. cbn in E1. destruct (_ || _); [|done]. simplify_eq.
  destruct k; cbn; unfold track, db_accept, tcp_accept; by case_match.
Qed.

(** What is left to do once Close waits. *)
Definition work (s : Server) : nat :=
  (loops (ls_endpoints s) + 2 * ls_pending s + ls_active s + length (ls_errors s) +
   match ls_close s with Returned => 0 | _ => 1 end)%nat.

Definition late (s : Server) : Prop := ls_close s = Waiting ∨ ls_close s = Returned.

Lemma late_facts s : inv k s → late s → ls_flag s = true ∧ is_cancelled s = true ∧
  ∀ i e, ls_endpoints s !! i = Some e → ep_open e = false.
Proof.
  intros Hi Hl. pose proof (inv_closed _ _ Hi) as Hc. pose proof (inv_flag _ _ Hi) as Hf.
  pose proof (inv_done _ _ Hi) as Hd. unfold is_cancelled. destruct Hl as [Hl|Hl]; rewrite Hl in *; cbn in Hc; auto.
Qed.

Lemma close_listener_closed e : ep_open e = false → close_listener e = e.
Proof. destruct e. cbn. by intros ->. Qed.

Lemma late_accept s i s' : inv k s → late s → lexec k (Accepted i) s = Some s' → s' = s.
Proof.
  intros Hi Hl. destruct (late_facts s Hi Hl) as (Hf & _ & Ho). cbn. destruct (ls_endpoints s !! i) as [e|] eqn:Ee; [|done].
  cbn. rewrite (Ho i e Ee). cbn. rewrite orb_false_r. case_bool_decide as Hk; [|done]. intros [= <-]. rewrite Hk. cbn. unfold track. by rewrite Hf.
Qed.

Lemma late_accept_failed s i err closed s' :
  inv k s → late s → lexec k (AcceptFailed i err closed) s = Some s' → late s' ∧ (work s' < work s)%nat.
Proof.
  intros Hi Hl. destruct (late_facts s Hi Hl) as (_ & Hc & Ho). cbn. destruct (ls_endpoints s !! i) as [e|] eqn:Ee; [|done].
  cbn. rewrite (Ho i e Ee). destruct (ep_looping e) eqn:El; [|done]. destruct closed; [|done]. cbn [negb Bool.eqb andb].
  unfold accept_failed. assert (accept_error k e err true s = None) as -> by (destruct k; cbn; by rewrite ?Hc).
  intros [= <-]. split; [done|]. unfold work. cbn.
  pose proof (loops_insert _ _ _ (set_looping false e) Ee) as Hloops. rewrite El in Hloops. cbn in Hloops. lia.
Qed.

(** Every step after the listeners are closed is a dropped request or progress. *)
Lemma late_step l s s' :
  inv k s → late s → lexec k l s = Some s' → late s' ∧ (s' = s ∨ (work s' < work s)%nat).
Proof.
  intros Hi Hl Hs. destruct (late_facts s Hi Hl) as (Hf & _ & Ho).
  assert (∀ b, flow_end b s = Some s' → late s' ∧ (s' = s ∨ (work s' < work s)%nat)) as Hend.
  { intros b Hb. unfold flow_end in Hb. unfold work.
    destruct b; [destruct (ls_active s) eqn:Ea|destruct (ls_pending s) eqn:Ea]; simplify_eq; (split; [done|]); right; cbn; rewrite ?Ea; lia. }
  destruct l as [i|i err closed| |b|b| | | | | |i|].
  - by rewrite (late_accept s i s' Hi Hl Hs); auto.
  - apply late_accept_failed in Hs as [? ?]; auto.
  - assert (take_slot s = Some s') as Ht by (destruct k; cbn in Hs; rewrite ?http_slot_take in Hs; done). unfold take_slot in Ht. destruct (ls_pending s) eqn:Ep; [done|].
    unfold work. case_bool_decide; simplify_eq; (split; [done|]); right; cbn; rewrite Ep; lia.
  - cbn in Hs. by eapply Hend.
  - cbn in Hs. destruct (is_cancelled s); [|done]. by eapply Hend.
  - cbn in Hs. destruct Hl as [Hl|Hl]; by rewrite Hl in Hs.
  - cbn in Hs. destruct Hl as [Hl|Hl]; by rewrite Hl in Hs.
  - cbn in Hs. destruct Hl as [Hl|Hl]; by rewrite Hl in Hs.
  - cbn in Hs. destruct (ls_close s) eqn:Ec; try done. destruct (_ && _); [|done]. injection Hs as <-. split; [by right|].
    right. unfold work. cbn. rewrite Ec. lia.
  - destruct k; [|done..]. injection Hs as <-. split; [done|]. left. destruct s. cbn in *. by subst.
  - destruct k; [|done..]. cbn in Hs. destruct (ls_endpoints s !! i) as [e|] eqn:Ee; [|done]. cbn in Hs. rewrite Hf in Hs. injection Hs as <-.
    rewrite close_listener_closed by eauto. rewrite list_insert_id by done. destruct s; auto.
  - cbn in Hs. destruct (ls_errors s) eqn:Ee; [done|]. injection Hs as <-. split; [done|]. right. unfold work. cbn. rewrite Ee. cbn. lia.
Qed.

(** The steps of a run that change the server. *)
Fixpoint changes (ls : list label) (s : Server) : nat :=
  match ls with
  | [] => 0
  | l :: ls => match lexec k l s with
               | None => 0
               | Some s' => (if decide (work s' = work s) then 0 else 1) + changes ls s'
               end
  end%nat.

Lemma late_bounded ls s : inv k s → late s → (changes ls s ≤ work s)%nat.
Proof.
  revert s. induction ls as [|l ls IH]; intros s Hi Hl; cbn; [lia|]. destruct (lexec k l s) as [s'|] eqn:Es; [|lia].
  destruct (late_step l s s' Hi Hl Es) as [Hl' Hw]. specialize (IH s' ltac:(by eapply lexec_inv) Hl').
  destruct (decide _); [lia|]. destruct Hw as [->|]; [done|lia].
Qed.

(** The steps the program itself owes: those of Close, the accept loop of a closed
    listener, and the end of a flow whose context is cancelled. *)
Definition owed (l : label) : bool :=
  match l with
  | AcceptFailed _ _ true | FlowCancelled _ | CloseFlag | CloseCancel | CloseListener | CloseWait => true
  | _ => false
  end.

Lemma late_finish s :
  inv k s → late s →
  ∃ ls s', lexec_all k ls s = Some s' ∧ ls_close s' = Returned ∧ (length ls ≤ work s)%nat ∧ Forall (λ l, owed l = true) ls.
Proof.
  remember (work s) as n eqn:Hn. revert s Hn. induction n as [n IH] using lt_wf_ind. intros s -> Hi Hl.
  destruct (decide (ls_close s = Returned)) as [Hr|Hr]; [exists [], s; split_and!; [done..|cbn; lia|done]|].
  assert (∃ l s1, lexec k l s = Some s1 ∧ (work s1 < work s)%nat ∧ owed l = true) as (l & s1 & E1 & Hw & Ho).
  { assert (ls_close s = Waiting) as Hc by (by destruct Hl).
    destruct (late_facts s Hi Hl) as (_ & Hcan & Ho).
    destruct (decide (loops (ls_endpoints s) = 0%nat)) as [Hz|Hz].
    - apply loops_zero in Hz. destruct (ls_pending s) as [|p] eqn:Ep; [destruct (ls_active s) as [|a] eqn:Ea|].
      + eexists CloseWait, _. cbn. rewrite Hc, Ep, Ea, Hz. cbn. split; [done|]. split; [|done]. unfold work. cbn. rewrite Hc. lia.
      + eexists (FlowCancelled true), _. cbn. rewrite Hcan, Ea. split; [done|]. split; [|done]. unfold work. cbn. rewrite Ea. lia.
      + eexists (FlowCancelled false), _. cbn. rewrite Hcan, Ep. split; [done|]. split; [|done]. unfold work. cbn. rewrite Ep. lia.
    - apply loops_pos in Hz as (i & e & He & Hlo). exists (AcceptFailed i "" true).
      destruct (lexec k (AcceptFailed i "" true) s) as [s1|] eqn:E1.
      + exists s1. split; [done|]. split; [|done]. by eapply late_accept_failed.
      + exfalso. cbn in E1. rewrite He in E1. cbn in E1.
        rewrite Hlo, (Ho i e He) in E1. cbn in E1. unfold accept_failed in E1.
        assert (accept_error k e "" true s = None) as Hn by (destruct k; cbn; by rewrite ?Hcan). by rewrite Hn in E1. }
  destruct (late_step l s s1 Hi Hl E1) as [Hl1 _].
  destruct (IH (work s1) Hw s1 eq_refl ltac:(by eapply lexec_inv) Hl1) as (ls & s' & Hall & Hret & Hlen & Hf).
  exists (l :: ls), s'. cbn. rewrite E1. split_and!; [done..|lia|by constructor].
Qed.

Lemma late_run ls s s' : inv k s → late s → lexec_all k ls s = Some s' → inv k s' ∧ late s'.
Proof.
  revert s. induction ls as [|l ls IH]; intros s Hi Hl Hs; cbn in Hs; [by simplify_eq|].
  destruct (lexec k l s) as [s1|] eqn:E1; [|done]. destruct (late_step l s s1 Hi Hl E1) as [Hl1 _].
  eapply IH; [by eapply lexec_inv|done|done].
Qed.

(** C22. Once Close waits with its context cancelled and its listeners closed, it
    returns: every run from there has at most [work] steps that change the server,
    whatever their order, and from every state of such a run steps the program owes
    lead to the return: accept loops of closed listeners end, and so do the flows,
    whose contexts are cancelled; no connection has to end by itself. *)
Theorem Close_returns s ls s' :
  reachable s → ls_close s = Waiting → lexec_all k ls s = Some s' →
  (changes ls s ≤ work s)%nat ∧
  ∃ ls' s'', lexec_all k ls' s' = Some s'' ∧ ls_close s'' = Returned ∧ (length ls' ≤ work s')%nat ∧
    Forall (λ l, owed l = true) ls'.
Proof.
  intros Hr Hw Hs. apply listening_inv in Hr. split; [apply late_bounded; [done|by left]|].
  destruct (late_run ls s s' Hr (or_introl Hw) Hs) as [Hi Hl]. by apply late_finish.
Qed.
End reachable.
