(* ===== verification/TlsSpec.v ===== *)
(** * A loaded configuration starts

    What validation checked of certificates, keys and upstreams is what the servers
    ask for when they start, with one exception: a CA file whose PEM blocks have
    headers. With the files unchanged, a server starts unless an address cannot be
    bound, the system's certificates cannot be loaded, or a CA file is such a file. *)

From Stdlib Require Import Ascii.
From S2P Require Import Prelude GoLib GoUtf8 GoRand GoTime Config Validate ValidateSpec Engine EngineSpec Control Recorder Decode DecodeSpec Load LoadSpec GoIO TlsConf Admin Listeners ListenersSpec.
Local Open Scope go_scope.

Lemma pretty_N_go_cons x c s : ∃ c' s', pretty_N_go x (String c s) = String c' s'.
Proof.
  revert c s. induction (N.lt_wf_0 x) as [x _ IH]. intros c s.
  destruct (decide (x = 0)%N) as [->|Hx]; [rewrite pretty_N_go_0; eauto|].
  rewrite pretty_N_go_step by lia. apply IH. apply N.div_lt; lia.
Qed.

Lemma Itoa_nonempty n : nonempty (Itoa n) = true.
Proof.
  assert (∀ x : N, ∃ c s, pretty x = String c s) as Hp.
  { intros x. unfold pretty, pretty_N. destruct (decide (x = 0)%N); [by eexists _, _|]. rewrite pretty_N_go_step by lia. apply pretty_N_go_cons. }
  unfold Itoa. destruct n as [|p|p]; [done| |done]. destruct (Hp (N.pos p)) as (c & s & E).
  change (pretty (Z.pos p)) with (pretty (N.pos p)). by rewrite E.
Qed.

Section tls.
Context (t : Tls).
Let env := tls_env t.

(** A file whose first PEM block has headers: validateCA does not look at them,
    AppendCertsFromPEM skips such blocks. *)
Definition headed (name : string) : Prop := ∃ data, ReadFile env name = Some data ∧ pem_Headers t data = true.

(** What is relied on of URLs: url.Parse reads back a normalised origin. *)
Definition schemes : list string := ["tcp"; "postgresql"; "postgresqls"; "mysql"; "mysqls"].

Definition url_law : Prop := ∀ scheme host n,
  scheme ∈ schemes → hostname (ParseIP env) host = true → port_ok n = true →
  ∃ u, url_Parse env (scheme +:+ "://" +:+ JoinHostPort (ToLower host) (Itoa n)) = Some u ∧
    u_Scheme u = scheme ∧ u_Host u = JoinHostPort (ToLower host) (Itoa n).

(** ** Files that were validated *)

Definition pair_ok (cert key : string) : Prop := LoadX509KeyPair t cert key = true.
Definition pool_ok (name : string) : Prop := (∃ data, read_pool t name = Some data) ∨ headed name.

Record tls_ready (p : Proxy) : Prop := {
  rd_listener : ∀ l, p_TLS p = Some l →
    pair_ok (lt_CertFile l) (lt_KeyFile l) ∧ (nonempty (lt_ClientCAFile l) = true → pool_ok (lt_ClientCAFile l));
  rd_upstream : ∀ u, p_UpstreamTLS p = Some u →
    (nonempty (ut_CAFile u) = true → pool_ok (ut_CAFile u)) ∧
    (nonempty (ut_CertFile u) = true → pair_ok (ut_CertFile u) (ut_KeyFile u))
}.

Lemma tls_read_file base name field D name' data D' :
  tls_read env base name field D = Ok (name', data, D') → ReadFile env name' = Some data.
Proof. unfold tls_read. intros Hr. open_ok Hr. destruct (ReadFile _ _) eqn:E; [|done]. by simplify_eq. Qed.

Lemma validateCA_pool base name field D name' D' :
  validateCA env base name field D = Ok (name', D') → pool_ok name'.
Proof.
  intros Hv. unfold validateCA in Hv. open_ok Hv. destruct x as [[n data] D1]. open_ok Hv. simplify_eq.
  apply tls_read_file in Hb. destruct (pem_Headers t data) eqn:Eh; [right; by exists data|left]. exists data. unfold read_pool. fold env. rewrite Hb. cbn [mbind option_bind].
  unfold AppendCertsFromPEM. cbn [append_certs ca_loop] in *. destruct data as [|b data]; [done|].
  fold env. destruct (pem_Decode env (b :: data)) as [[[ty block] rest]|]; [|done]. open_ok Hb0. bool_hyps.
  rewrite Hg, Eh, Hg0. done.
Qed.

Lemma pair_read cert key c k : ReadFile env cert = Some c → ReadFile env key = Some k → X509KeyPair env c k = true → pair_ok cert key.
Proof. intros Hc Hk Hx. unfold pair_ok, LoadX509KeyPair. fold env. by rewrite Hc, Hk. Qed.

Lemma listener_ready l base path D l' D' :
  validate_listener_tls env l base path D = Ok (l', D') →
  pair_ok (lt_CertFile l') (lt_KeyFile l') ∧ (nonempty (lt_ClientCAFile l') = true → pool_ok (lt_ClientCAFile l')).
Proof.
  intros Hv. unfold validate_listener_tls in Hv. open_ok Hv. destruct x as [[cf c] D1]. open_ok Hv.
  destruct x as [[kf k] D2]. open_ok Hv. destruct x as [ca D3]. simplify_eq. bool_hyps. cbn.
  split; [by eapply pair_read; [eapply tls_read_file..|]|]. intros Hne.
  destruct (nonempty (lt_ClientCAFile l)) eqn:En; [by eapply validateCA_pool|]. simplify_eq. congruence.
Qed.

Lemma upstream_ready p u base path D u' D' :
  validate_upstream_tls env p u base path D = Ok (u', D') →
  (nonempty (ut_CAFile u') = true → pool_ok (ut_CAFile u')) ∧
  (nonempty (ut_CertFile u') = true → pair_ok (ut_CertFile u') (ut_KeyFile u')).
Proof.
  intros Hv. unfold validate_upstream_tls in Hv. open_ok Hv. destruct x as [ca D1].
  assert (nonempty ca = true → pool_ok ca) as Hca.
  { intros Hne. destruct (nonempty (ut_CAFile u)) eqn:En; [by eapply validateCA_pool|]. simplify_eq. congruence. }
  destruct (_ || _) eqn:Eo; [|simplify_eq; cbn; split; [done|]; intros Hc; by rewrite Hc in Eo].
  open_ok Hv. destruct x as [[cf c] D2]. open_ok Hv. destruct x as [[kf k] D3]. open_ok Hv. simplify_eq. bool_hyps. cbn.
  split; [done|]. intros _. by eapply pair_read; [eapply tls_read_file..|].
Qed.

Lemma validateTLS_ready p base path D p' D' :
  validateTLS env p base path D = Ok (p', D') →
  tls_ready p' ∧ p_Upstream p' = p_Upstream p ∧ p_Protocol p' = p_Protocol p ∧
  (p_Protocol p = "mysql" → is_some (p_TLS p') = HasPrefix (p_Upstream p) "mysqls://").
Proof.
  intros Hv. unfold validateTLS in Hv. open_ok Hv. destruct x as [l D1]. open_ok Hv. destruct x as [u D2]. simplify_eq. cbn.
  split_and!; [|done|done|].
  - constructor; cbn.
    + intros l' ->. destruct (p_TLS p); [|done]. open_ok Hb. destruct x as [l1 D3]. simplify_eq. by eapply listener_ready.
    + intros u' ->. destruct (p_UpstreamTLS p); [|done]. open_ok Hb0. destruct x as [u1 D3]. simplify_eq. by eapply upstream_ready.
  - intros Hm. rewrite Hm, str_eq_refl in Hg0. cbn in Hg0. bool_hyps. apply Bool.eqb_prop in Hg0. rewrite <- Hg0.
    destruct (p_TLS p); [|by simplify_eq]. open_ok Hb. destruct x as [l1 D3]. by simplify_eq.
Qed.

(** ** The start of each package *)

(** What can stop a validated proxy before its listener is bound, with the error that
    Start returns. *)
Definition pool_error (k : kind) (p : Proxy) (err : string) : string :=
  match k with HTTP => "proxy " +:+ p_ID p +:+ ": cannot load system CA pool" | _ => err end.
Definition ca_error (k : kind) (p : Proxy) : string :=
  match k with
  | HTTP => "proxy " +:+ p_ID p +:+ ": cannot load upstream CA"
  | PostgreSQL => "postgresql: cannot load upstream CA"
  | MySQL => "mysql: cannot load upstream CA"
  | TCP => ""
  end.

Inductive tls_obstacle (k : kind) (p : Proxy) : string → Prop :=
| ob_pool u err :
    p_UpstreamTLS p = Some u → nonempty (ut_CAFile u) = true → SystemCertPool t = Some err →
    tls_obstacle k p (pool_error k p err)
| ob_upstream u :
    p_UpstreamTLS p = Some u → nonempty (ut_CAFile u) = true → headed (ut_CAFile u) → tls_obstacle k p (ca_error k p)
| ob_client l :
    k = HTTP → p_TLS p = Some l → nonempty (lt_ClientCAFile l) = true → headed (lt_ClientCAFile l) →
    tls_obstacle k p ("proxy " +:+ p_ID p +:+ ": cannot load listener client CA").

Lemma load_roots_cases p message c :
  tls_ready p →
  (∃ c', load_roots t (p_UpstreamTLS p) message c = Ok c') ∨
  ∃ u, p_UpstreamTLS p = Some u ∧ nonempty (ut_CAFile u) = true ∧
    ((∃ err, SystemCertPool t = Some err ∧ load_roots t (p_UpstreamTLS p) message c = Err err) ∨
     (SystemCertPool t = None ∧ headed (ut_CAFile u) ∧ load_roots t (p_UpstreamTLS p) message c = Err message)).
Proof.
  intros [_ Hu]. unfold load_roots. destruct (p_UpstreamTLS p) as [u|]; [|eauto]. destruct (nonempty _) eqn:En; [|eauto].
  destruct (SystemCertPool t) as [err|]; [right; exists u; eauto 6|]. destruct (read_pool t (ut_CAFile u)) as [data|] eqn:Er; [eauto|].
  right. exists u. split_and!; [done..|]. right. split_and!; [done| |done]. destruct (Hu u eq_refl) as [Hp _].
  destruct (Hp En) as [[data Hd]|]; [congruence|done].
Qed.

Lemma load_listener_ready l message c :
  (∀ l', l = Some l' → pair_ok (lt_CertFile l') (lt_KeyFile l')) →
  ∃ c', load_listener t l message c = Ok c' ∧ is_some c' = is_some l.
Proof. intros Hl. unfold load_listener. destruct l as [l|]; [|by eexists]. rewrite (Hl l eq_refl). by eexists. Qed.

Lemma transportFor_ready p :
  tls_ready p → http_prepare t p = Some (Ok tt) ∨ ∃ e, http_prepare t p = Some (Err e) ∧ tls_obstacle HTTP p e.
Proof.
  intros Hr. pose proof Hr as [Hl Hu]. unfold http_prepare, transportFor. cbv zeta.
  destruct (load_roots_cases p "cannot load upstream CA"
    (plain_config (alpn (p_UpstreamProtocol p)) "" (str_eq (p_UpstreamProtocol p) "http2")) Hr)
    as [[c ->]|(u & Eu & En & [(err & Es & ->)|(Es & Hh & ->)])]; cbn [mbind res_bind].
  2: { right. eexists. rewrite Es. split; [done|]. by eapply (ob_pool HTTP p u err). }
  2: { right. eexists. rewrite Es. split; [done|]. by eapply (ob_upstream HTTP p u). }
  assert (∃ c', match p_UpstreamTLS p with
    | Some u => if nonempty (ut_CertFile u) then
        if LoadX509KeyPair t (ut_CertFile u) (ut_KeyFile u) then Ok (set_certificate (ut_CertFile u) (ut_KeyFile u) c)
        else Err "cannot load upstream client certificate/key" else Ok c
    | None => Ok c end = Ok c') as [c' ->].
  { destruct (p_UpstreamTLS p) as [u|]; [|eauto]. destruct (nonempty (ut_CertFile u)) eqn:En; [|eauto].
    destruct (Hu u eq_refl) as [_ Hpair]. rewrite (Hpair En). eauto. }
  cbn [mbind res_bind].
  destruct (load_listener_ready (p_TLS p) "cannot load listener certificate/key"
    (plain_config (alpn (p_Protocol p)) "" false)) as (l & -> & _); [intros l' El; by apply Hl|]. cbn [mbind res_bind].
  destruct (p_TLS p) as [lt|] eqn:Et; [|by left]. destruct l as [l|]; [|by left]. destruct (nonempty _) eqn:En; [|by left].
  destruct (read_pool t (lt_ClientCAFile lt)) as [data|] eqn:Ep; [by left|right]. eexists. split; [done|].
  destruct (Hl lt eq_refl) as [_ Hpool]. destruct (Hpool En) as [[data Hd]|Hh]; [congruence|]. by eapply (ob_client HTTP p lt).
Qed.

Lemma prepare_ready k name p u :
  k = PostgreSQL ∧ name = "postgresql" ∨ k = MySQL ∧ name = "mysql" →
  tls_ready p → url_Parse env (p_Upstream p) = Some u →
  db_prepare t name p = Some (Ok tt) ∨ ∃ e, db_prepare t name p = Some (Err e) ∧ tls_obstacle k p e.
Proof.
  intros Hk Hr Hp. pose proof Hr as [Hl _]. unfold db_prepare, prepare. fold env. rewrite Hp. cbn [mbind option_bind].
  destruct (load_listener_ready (p_TLS p) (name +:+ ": cannot load listener TLS") (plain_config [] "" false)) as (l & -> & _);
    [intros l' El; by apply Hl|]. cbn [mbind res_bind]. destruct (str_eq _ _); [|by left].
  destruct (load_roots_cases p (name +:+ ": cannot load upstream CA") (plain_config [] (u_Hostname u) false) Hr)
    as [[c ->]|(u' & Eu & En & [(err & Es & ->)|(Es & Hh & ->)])]; cbn [mbind res_bind]; [by left|right..]; eexists; (split; [done|]).
  - pose proof (ob_pool k p u' err Eu En Es) as Ho. by destruct Hk as [[-> ->]|[-> ->]].
  - pose proof (ob_upstream k p u' Eu En Hh) as Ho. by destruct Hk as [[-> ->]|[-> ->]].
Qed.

Lemma prepare_legs name p u e :
  url_Parse env (p_Upstream p) = Some u → prepare t name p = Some (Ok e) →
  is_some (en_clientTLS e) = is_some (p_TLS p) ∧ is_some (en_upstreamTLS e) = str_eq (u_Scheme u) (name +:+ "s").
Proof.
  intros Hp. unfold prepare. fold env. rewrite Hp. cbn [mbind option_bind]. intros [= He]. open_ok He. open_ok He. simplify_eq. cbn. split.
  - unfold load_listener in Hb. destruct (p_TLS p); [|by simplify_eq]. destruct (LoadX509KeyPair _ _ _); by simplify_eq.
  - destruct (str_eq _ _); [open_ok Hb0|]; by simplify_eq.
Qed.

(** ** Validated upstreams *)

Definition origin (scheme host : string) (n : Z) : string := scheme +:+ "://" +:+ JoinHostPort (ToLower host) (Itoa n).

(** The upstream of a database or TCP proxy after validation. *)
Definition normal_upstream (protocol upstream : string) : Prop :=
  ∃ scheme host n, upstream = origin scheme host n ∧ (scheme = protocol ∨ (protocol ≠ "tcp" ∧ scheme = protocol +:+ "s")) ∧
    hostname (ParseIP env) host = true ∧ port_ok n = true.

Lemma tcp_normal p listen path up :
  tcp_upstream env p listen path = Ok up → normal_upstream "tcp" up.
Proof.
  unfold tcp_upstream. destruct (url_Parse _ _) as [u|]; [|done]. intros Hu. open_ok Hu. destruct (Atoi _) as [n|]; [|done].
  open_ok Hu. simplify_eq. bool_hyps. exists "tcp", (u_Hostname u), n. by split_and!; auto.
Qed.

Lemma db_normal p path up :
  is_db (p_Protocol p) = true → origin_upstream env p path = Ok up → normal_upstream (p_Protocol p) up.
Proof.
  intros Hdb. unfold origin_upstream. rewrite Hdb. destruct (url_Parse _ _) as [u|]; [|done]. cbv zeta. intros Hu. open_ok Hu.
  bool_hyps. unfold validUpstreamScheme in H. fold (is_db (p_Protocol p)) in H. rewrite Hdb in H.
  assert (u_Scheme u = p_Protocol p ∨ u_Scheme u = p_Protocol p +:+ "s") as Hsc
    by (apply orb_true_iff in H as [H|H]; bool_hyps; auto).
  assert (∃ n, x = Itoa n ∧ port_ok n = true) as (n & -> & Hn).
  { set (port := if _ && _ && _ then _ else u_Port u) in Hb. destruct (nonempty port) eqn:Ep.
    - destruct (Atoi port) as [n|]; [|done]. open_ok Hb. bool_hyps. simplify_eq. by exists n.
    - destruct (HasSuffix (u_Host u) ":") eqn:Eh; [done|]. exfalso. unfold port in Ep.
      destruct (nonempty (u_Port u)) eqn:Eu; cbn in Ep; [congruence|]. by destruct (str_eq _ "mysql"). }
  clear Hb.
  assert ((u_Scheme u =s "http") = false ∧ (u_Scheme u =s "https") = false) as [E1 E2].
  { unfold is_db in Hdb. apply orb_true_iff in Hdb as [Hd|Hd]; apply str_eq_true in Hd; rewrite Hd in Hsc; by destruct Hsc as [-> | ->]. }
  rewrite E1, E2, !andb_false_r in Hu. cbn [orb] in Hu. rewrite Itoa_nonempty in Hu. simplify_eq.
  exists (u_Scheme u), (u_Hostname u), n. split; [done|]. split; [|done].
  destruct Hsc as [->| ->]; [by left|right]. split; [|done]. intros Ht. by rewrite Ht in Hdb.
Qed.

Lemma normal_parse protocol upstream :
  url_law → protocol ∈ ["tcp"; "postgresql"; "mysql"] → normal_upstream protocol upstream →
  ∃ u, url_Parse env upstream = Some u ∧ (u_Scheme u =s protocol +:+ "s") = HasPrefix upstream (protocol +:+ "s://").
Proof.
  intros Hlaw Hp (scheme & host & n & -> & Hs & Hh & Hn).
  destruct (Hlaw scheme host n) as (u & Hu & Hsc & _); [|done|done|].
  { unfold schemes. rewrite !elem_of_cons in Hp. destruct Hp as [->|[->|[->|Hp]]]; [..|by apply not_elem_of_nil in Hp];
      destruct Hs as [->|[Ht ->]]; try done; cbn; rewrite !elem_of_cons; tauto. }
  exists u. split; [done|]. rewrite Hsc. unfold origin.
  rewrite !elem_of_cons in Hp. destruct Hp as [->|[->|[->|Hp]]]; [..|by apply not_elem_of_nil in Hp];
    destruct Hs as [->|[Ht ->]]; try done; rewrite str_eq_refl; symmetry;
    [exact (HasPrefix_app "postgresqls://" _)|exact (HasPrefix_app "mysqls://" _)].
Qed.

(** ** What validation establishes of each proxy *)

Record startable (p : Proxy) : Prop := {
  sb_ready : p_Protocol p ≠ "tcp" → tls_ready p;
  sb_upstream : p_Protocol p ∈ ["tcp"; "postgresql"; "mysql"] → normal_upstream (p_Protocol p) (p_Upstream p);
  sb_mysql : p_Protocol p = "mysql" → is_some (p_TLS p) = HasPrefix (p_Upstream p) "mysqls://"
}.

Lemma validate_proxy_startable range base i p st p' st' :
  validate_proxy env range base i p st = Ok (p', st') → startable p'.
Proof.
  destruct st as [L D]. unfold validate_proxy. cbv zeta. intros H. open_ok H.
  match goal with Hm : _ = Ok ?q |- _ => is_var q; destruct q as [p1 D1] end.
  open_ok H. simplify_eq. clear Hb2. destruct (str_eq (p_Protocol p) "tcp") eqn:Et; open_ok Hb1.
  - simplify_eq. apply str_eq_true in Et. apply tcp_normal in Hb2. constructor; cbn; rewrite Et; done.
  - apply validateTLS_ready in Hb1 as (Hr & Hu & Hpr & Hm). cbn in Hu, Hpr, Hm.
    constructor; cbn; [by destruct Hr|rewrite Hpr|by rewrite Hpr, Hu].
    intros Hin. rewrite Hu. apply db_normal in Hb2; [done|]. apply str_eq_false in Et. unfold is_db.
    rewrite !elem_of_cons in Hin. destruct Hin as [Hin|[->|[->|Hin]]]; [done..|by apply not_elem_of_nil in Hin].
Qed.

Lemma validate_startable range c base c' D :
  validate env range c base = Ok (c', D) → Forall startable (c_Proxies c').
Proof.
  unfold validate. intros H. open_ok H. destruct x as [ps st]. simplify_eq. cbn.
  eapply (mapi_state_Ok (λ _, True) startable); [done| |exact Hb].
  intros i p s p' s' _ Hv. split; [done|]. by eapply validate_proxy_startable.
Qed.

(** What can stop a validated proxy, its listener included. *)
Definition obstacle (bind : nat → string → res string string) (k : kind) (p : Proxy) (e : string) : Prop :=
  (∃ n err, bind n (p_Listen p) = Err err ∧ e = bind_error k p err) ∨ tls_obstacle k p e.

(** A startable proxy passes the preparation of the package that serves it, or meets
    an obstacle. *)
Lemma startable_prepare k p :
  url_law → startable p → serves k p = true →
  prepare_for t k p = Some (Ok tt) ∨ ∃ e, prepare_for t k p = Some (Err e) ∧ tls_obstacle k p e.
Proof.
  intros Hlaw [Hr Hn _] Hk. destruct k; cbn in *.
  - apply negb_true_iff in Hk. bool_hyps. apply transportFor_ready. by apply Hr.
  - apply str_eq_true in Hk. destruct (normal_parse "postgresql" (p_Upstream p)) as (u & Hu & _); [done|set_solver|rewrite <- Hk; apply Hn; set_solver|].
    eapply prepare_ready; [by left|apply Hr; by rewrite Hk|done].
  - apply str_eq_true in Hk. destruct (normal_parse "mysql" (p_Upstream p)) as (u & Hu & _); [done|set_solver|rewrite <- Hk; apply Hn; set_solver|].
    eapply prepare_ready; [by right|apply Hr; by rewrite Hk|done].
  - apply str_eq_true in Hk. destruct (normal_parse "tcp" (p_Upstream p)) as (u & Hu & _); [done|set_solver|rewrite <- Hk; apply Hn; set_solver|].
    left. unfold tcp_prepare. fold env. by rewrite Hu.
Qed.

Lemma bind_all_startable bind k ps bound :
  url_law → Forall startable ps →
  ∃ bound' err, bind_all t bind k ps bound = Some (bound', err) ∧
    ∀ e, err = Some e → ∃ p, p ∈ ps ∧ serves k p = true ∧ obstacle bind k p e.
Proof.
  intros Hlaw Hf. revert bound. induction Hf as [|p ps Hp Hf IH]; intros bound; cbn; [eexists _, None; by split|].
  assert (∀ b, ∃ bound' err, bind_all t bind k ps b = Some (bound', err) ∧
    ∀ e, err = Some e → ∃ q, q ∈ p :: ps ∧ serves k q = true ∧ obstacle bind k q e) as IH'.
  { intros b. destruct (IH b) as (bound' & err & Hb & He). exists bound', err. split; [done|]. intros e Ee.
    destruct (He e Ee) as (q & Hq & ?). exists q. split; [by apply list_elem_of_further|done]. }
  destruct (serves k p) eqn:Ek; cbn [negb]; [|apply IH'].
  destruct (startable_prepare k p Hlaw Hp Ek) as [->|(e & -> & Ho)]; cbn [mbind option_bind].
  - destruct (bind (length bound) (p_Listen p)) as [b|err] eqn:Eb; [apply IH'|]. eexists _, _. split; [done|].
    intros e [= <-]. exists p. split; [apply list_elem_of_here|]. split; [done|]. left. eauto.
  - eexists _, _. split; [done|]. intros e' [= <-]. exists p. split; [apply list_elem_of_here|]. split; [done|]. by right.
Qed.
End tls.

(** ** Starting what was loaded *)

Section loaded.
Context `{Yaml} (fs : Files) (range : gmap string string → list (string * string)).
Context (marshal : Config → gmap string bytes → option bytes).
Context (t : Tls) (bind : nat → string → res string string).

Lemma Load_startable filename d :
  tls_env t = fs_env fs → Load fs range marshal filename = Ok d → Forall (startable t) (c_Proxies (d_config d)).
Proof.
  intros He Hl. apply Load_validated in Hl as (c & base & D & Hv). rewrite <- He in Hv. by eapply validate_startable.
Qed.

Lemma Parse_startable data filename d :
  tls_env t = fs_env fs → Parse fs range marshal data filename = Ok d → Forall (startable t) (c_Proxies (d_config d)).
Proof.
  intros He Hl. apply Parse_validated in Hl as (c & base & D & Hv). rewrite <- He in Hv. by eapply validate_startable.
Qed.

(** Starting startable proxies does not panic, whatever the system answers. *)
Lemma Start_calm k c : url_law t → Forall (startable t) (c_Proxies c) → is_Some (Start t bind k c).
Proof.
  intros Hlaw Hf. unfold Start. destruct (bind_all_startable t bind k (c_Proxies c) [] Hlaw Hf) as (bound & err & -> & _). by eexists.
Qed.

(** C23. Starting a configuration that Load accepted, with the files as they were when it
    was loaded: each package's Start returns. Either every proxy of the package is
    bound and served, in the order of the configuration; or none is left bound, and
    the error names an obstacle of one of its proxies, of which there are three:
    net.Listen failed for its address; it names an upstream CA file and the system's
    certificate pool cannot be loaded; or a CA file it names begins with a PEM block
    with headers, which validation accepts and x509 skips. In particular neither a
    certificate, a key nor an upstream that was validated is refused. Every proxy is
    served by exactly one package. *)
Theorem Load_starts filename d :
  tls_env t = fs_env fs → url_law t → Load fs range marshal filename = Ok d →
  (∀ k, ∃ s err, Start t bind k (d_config d) = Some (s, err) ∧
     match err with
     | None => Forall2 (λ p e, ep_id e = p_ID p ∧ ep_open e = true ∧ ep_looping e = true)
                 (filter (λ p, serves k p = true) (c_Proxies (d_config d))) (ls_endpoints s)
     | Some e => Forall (λ x, ep_open x = false ∧ ep_looping x = false) (ls_endpoints s) ∧
                 ∃ p, p ∈ c_Proxies (d_config d) ∧ serves k p = true ∧ obstacle t bind k p e
     end) ∧
  Forall (λ p, ∃ k, serves k p = true ∧ ∀ k', serves k' p = true → k' = k) (c_Proxies (d_config d)).
Proof.
  intros He Hlaw Hl. apply (Load_startable _ _ He) in Hl. split.
  - intros k. destruct (Start t bind k (d_config d)) as [[s err]|] eqn:Es.
    2: { destruct (Start_calm k (d_config d) Hlaw Hl). congruence. }
    exists s, err. split; [done|]. pose proof (Start_all_or_nothing t bind k (d_config d) s err Es) as Hall.
    destruct err as [e|]; [|done]. split; [done|].
    destruct (bind_all_startable t bind k (c_Proxies (d_config d)) [] Hlaw Hl) as (bound & err & Hb & Ho). unfold Start in Es.
    rewrite Hb in Es. destruct err as [e'|]; cbn in Es; [|done]. simplify_eq. by apply Ho.
  - apply Forall_forall. intros p _. unfold serves.
    destruct (p_Protocol p =s "postgresql") eqn:E1; [exists PostgreSQL|destruct (p_Protocol p =s "mysql") eqn:E2;
      [exists MySQL|destruct (p_Protocol p =s "tcp") eqn:E3; [exists TCP|exists HTTP]]];
      (split; [done|]); intros []; cbn; try done; bool_hyps; try (intros; bool_hyps; congruence).
Qed.

(** A MySQL proxy of a loaded configuration that starts never joins a TLS leg to a
    plaintext leg. *)
Theorem mysql_legs filename d p e :
  tls_env t = fs_env fs → url_law t → Load fs range marshal filename = Ok d → p ∈ c_Proxies (d_config d) → p_Protocol p = "mysql" →
  mysql_prepare t p = Some (Ok e) → is_some (en_clientTLS e) = is_some (en_upstreamTLS e).
Proof.
  intros He Hlaw Hl Hin Hm Hp. apply (Load_startable _ _ He) in Hl. rewrite Forall_forall in Hl.
  destruct (Hl p Hin) as [Hr Hn Hlegs]. rewrite Hm in *.
  destruct (normal_parse t "mysql" (p_Upstream p)) as (u & Hu & Hsch); [done|set_solver|apply Hn; set_solver|].
  destruct (prepare_legs t "mysql" p u e Hu Hp) as [Hc Hup]. by rewrite Hc, Hup, Hsch, Hlegs.
Qed.
End loaded.

