(* ===== verification/Main.v ===== *)
(** * The command line (cmd/faultline/main.go, user.go) and the admin client

    [run] on the arguments of the process. What the process asks the machine is
    the record [Machine]; the flag package's results are arguments of [run]. A
    serving process is the trace of what it opens, closes and records, with the
    deferred calls in the order they run. [None] is a panic. *)

From Stdlib Require Import Ascii.
From S2P Require Import Prelude GoLib GoUtf8 GoRand GoTime GoCrypto Config Validate Engine Control Recorder Decode Load GoIO TlsConf Store Admin Remote Listeners.
Local Open Scope go_scope.

(** ** Flags *)

(** FlagSet.Parse: -help was asked for, an error, or the values. *)
Inductive parsed (A : Type) := Help | Bad (err : string) | Parsed (f : A).
Arguments Help {A}.
Arguments Bad {A}.
Arguments Parsed {A}.

Record Flags := {
  fg_config : string;
  fg_socket : string;
  fg_dataDir : string;
  fg_apiListen : string;
  fg_apiCert : string;
  fg_apiKey : string;
  fg_enabled : bool;
  fg_eventBuffer : Z;
  fg_timeout : Z;
  fg_NArg : nat
}.
Record UserFlags := { uf_dir : string; uf_name : string; uf_role : string; uf_remove : bool; uf_NArg : nat }.
Record ConfigureFlags := { cf_dir : string; cf_config : string; cf_NArg : nat }.

(** ** The admin client (control/admin/client.go) *)

Record CallRequest := { cr_Method : string; cr_Path : string; cr_Body : option bytes }.

Section client.
Context (path_Marshal : string → option bytes) (json_Valid : bytes → bool) (json_Error : bytes → string).

Definition response_limit : Z := 4 * 1048576.

Definition call_request (operation config : string) : res string CallRequest :=
  if operation =s "status" then Ok {| cr_Method := "GET"; cr_Path := "/status"; cr_Body := None |}
  else if operation =s "reload" then
    match path_Marshal config with
    | Some data => Ok {| cr_Method := "POST"; cr_Path := "/reload"; cr_Body := Some data |}
    | None => Err "json: marshal"
    end
  else Ok {| cr_Method := "POST"; cr_Path := "/" +:+ operation; cr_Body := None |}.

(** Call: [answer] is the response to the request: its status, and its body or the
    error of reading it. *)
Definition Call (answer : CallRequest → res string (Z * res string bytes)) (operation config : string) : res string bytes :=
  r ← call_request operation config;
  match answer r with
  | Err e => Err (if operation =s "status" then "admin status failed: " +:+ e
                  else "admin " +:+ operation +:+ " failed (mutation may already have applied; check status): " +:+ e)
  | Ok (status, body) =>
      data ← body;
      fail_if negb (Z.of_nat (length data) <=? response_limit) || negb (json_Valid data) with "invalid admin response" ;;
      fail_if negb (status =? 200) with "admin " +:+ operation +:+ ": " +:+ json_Error data ;;
      Ok data
  end.
End client.

(** ** The machine *)

Record Machine := {
  mc_tls : Tls;
  mc_bind : kind → nat → string → res string string;
  mc_dir : directory;
  mc_io : commit;
  mc_io2 : commit;
  mc_salt : res string bytes;
  mc_stdin_mode : res string bool;
  mc_stdin : res string bytes;
  mc_users : option string;
  mc_runID : string;
  mc_now : Z;
  mc_admin_mkdir : option string;
  mc_admin_stat : res string (bool * Z);
  mc_admin_listen : option string;
  mc_admin_chmod : option string;
  mc_api_listen : option string;
  mc_stop : option string;
  mc_call : string → CallRequest → res string (Z * res string bytes)
}.

(** admin.Start: a private directory, then the socket. *)
Definition admin_Start (m : Machine) : option string :=
  match mc_admin_mkdir m with
  | Some e => Some ("admin directory: " +:+ e)
  | None =>
      match mc_admin_stat m with
      | Ok (isDir, mode) =>
          if negb isDir || negb (Z.land (Z.land mode 511) 63 =? 0) then Some "admin socket requires a private directory (0700)"
          else match mc_admin_listen m with
               | Some e => Some ("bind admin socket: " +:+ e)
               | None => mc_admin_chmod m
               end
      | Err _ => Some "admin socket requires a private directory (0700)"
      end
  end.

(** remote.Server.Start *)
Definition managed_Start (m : Machine) (cert key : string) : option string :=
  if negb (LoadX509KeyPair (mc_tls m) cert key) then Some "tls: cannot load certificate/key" else mc_api_listen m.

(** ** The life of a serving process *)

Inductive resource := RStore | RRecorder | RServer (k : kind) | RAdmin | RManaged.

#[export] Instance resource_eq_dec : EqDecision resource. Proof. solve_decision. Defined.

(** [Closed] is a call of Close (of Shutdown for the HTTP server in an orderly
    shutdown), which is idempotent. *)
Inductive action :=
| Opened (r : resource)
| Closed (r : resource)
| Recorded (operation outcome : string).

#[export] Instance action_eq_dec : EqDecision action. Proof. solve_decision. Defined.

(** Start [r], [rest] while it runs, then the deferred [release]; nothing of it
    when the start fails. *)
Definition stage (r : resource) (err : option string) (release : list action)
    (rest : list action * option string) : list action * option string :=
  match err with
  | Some e => ([], Some e)
  | None => (Opened r :: rest.1 ++ release, rest.2)
  end.

(** The deferred function that stops the admin server. *)
Definition shutdown : list action :=
  [Closed RAdmin; Closed (RServer MySQL); Closed (RServer TCP); Closed (RServer PostgreSQL); Closed (RServer HTTP);
   Recorded "shutdown" "stopped"].

(** From recorder.New to the return: the errors of each start, and what the final
    select received. *)
Definition serve_body (managed : bool) (errs : kind → option string) (admin_err managed_err stop : option string) :
    list action * option string :=
  let server k := stage (RServer k) (errs k) [Closed (RServer k)] in
  let ready := ([Recorded "serve" "ready"], stop) in
  stage RRecorder None [Closed RRecorder]
    (server HTTP (server PostgreSQL (server MySQL (server TCP
      (stage RAdmin admin_err shutdown
        (if managed then stage RManaged managed_err [Closed RManaged] ready else ready)))))).

Record Outcome := {
  oc_stdout : list string;
  oc_trace : list action;
  oc_disk : Disk;
  oc_service : option Service;
  oc_err : option string
}.

Definition output (out : list string) (d : Disk) (err : option string) : Outcome :=
  {| oc_stdout := out; oc_trace := []; oc_disk := d; oc_service := None; oc_err := err |}.

(** ** The commands *)

Section run.
Context `{Yaml} `{Json}.
Context (fs : Files) (range : gmap string string → list (string * string)).
Context (marshal : Config → gmap string bytes → option bytes).
Context (path_Marshal : string → option bytes) (json_Valid : bytes → bool) (json_Error : bytes → string).
Context (flags_Parse : string → list string → parsed Flags) (user_Parse : list string → parsed UserFlags)
  (configure_Parse : list string → parsed ConfigureFlags).
(** fmt's %q *)
Context (quote : string → string).
Context (m : Machine).

(** The password on standard input, with one line end removed. *)
Definition read_password : res string string :=
  tty ← mc_stdin_mode m;
  fail_if tty with "read password securely into a shell variable and pipe it to stdin; see tester guide" ;;
  data ← mc_stdin m;
  Ok (TrimSuffix (TrimSuffix (to_string (take 1026 data)) (String (ascii_of_nat 10) "")) (String (ascii_of_nat 13) "")).

Definition runUser (args : list string) (d : Disk) : Outcome :=
  match user_Parse args with
  | Help => output [] d None
  | Bad e => output [] d (Some e)
  | Parsed f =>
      if (uf_dir f =s "") || (uf_name f =s "") || negb (bool_decide (uf_NArg f = 0%nat))
      then output [] d (Some "user requires --data-dir and --name")
      else
        match (if uf_remove f then Ok "" else read_password) with
        | Err e => output [] d (Some e)
        | Ok password =>
            match SetUser (mc_dir m) (mc_io m) (mc_salt m) (uf_name f) (uf_role f) password (uf_remove f) d with
            | (d, Some err) => output [] d (Some (Error err))
            | (d, None) => output ["Account updated; existing sessions for this account are revoked."] d None
            end
        end
  end.

Definition runConfigure (args : list string) (d : Disk) : Outcome :=
  match configure_Parse args with
  | Help => output [] d None
  | Bad e => output [] d (Some e)
  | Parsed f =>
      if (cf_dir f =s "") || (cf_config f =s "") || negb (bool_decide (cf_NArg f = 0%nat))
      then output [] d (Some "configure requires --data-dir and --config")
      else
        match Configure fs range marshal (mc_dir m) (mc_io m) (mc_io2 m) (mc_now m) (cf_dir f) (cf_config f) d with
        | (d, Some err) => output [] d (Some (Error err))
        | (d, None) => output ["Managed config saved. Start the instance to use it; injection defaults to disabled."] d None
        end
  end.

(** serve, once the service exists: injection is set, the servers start in order. *)
Definition serve (f : Flags) (managed : bool) (service : Service) (d : Disk) : option Outcome :=
  let '(service, _) := SetEnabled service (fg_enabled f) (mc_now m) in
  c ← snapshot_config service (Acquire service);
  let start k := snd <$> Start (mc_tls m) (mc_bind m k) k c in
  http ← start HTTP;
  pg ← (if is_some http then Some None else start PostgreSQL);
  mysql ← (if is_some http || is_some pg then Some None else start MySQL);
  tcp ← (if is_some http || is_some pg || is_some mysql then Some None else start TCP);
  let errs k := match k with HTTP => http | PostgreSQL => pg | MySQL => mysql | TCP => tcp end in
  let '(trace, err) := serve_body managed errs (admin_Start m) (managed_Start m (fg_apiCert f) (fg_apiKey f)) (mc_stop m) in
  Some {| oc_stdout := []; oc_trace := if managed then Opened RStore :: trace ++ [Closed RStore] else trace;
          oc_disk := if managed then store_Close d else d; oc_service := Some service; oc_err := err |}.

(** validate and serve, after the flags. *)
Definition run_local (command : string) (f : Flags) (d : Disk) : option Outcome :=
  if (command =s "serve") && nonempty (fg_dataDir f) then
    if (fg_apiCert f =s "") || (fg_apiKey f =s "") || (fg_apiListen f =s "")
    then Some (output [] d (Some "managed mode requires --api-cert, --api-key and --api-listen"))
    else
      match Open fs range marshal (mc_dir m) (mc_io m) (mc_now m) (fg_dataDir f) (fg_config f) d with
      | (d, Err e) => Some (output [] d (Some (Error e)))
      | (d, Ok (store, doc)) =>
          match Remote.New (mc_users m) store doc (Recorder.New (Z.to_nat (fg_eventBuffer f))) d (mc_runID m) (mc_now m) with
          | Err e => Some (output [] (store_Close d) (Some e))
          | Ok sr => serve f true (sr_service sr) d
          end
      end
  else
    match Load fs range marshal (fg_config f) with
    | Err e => Some (output [] d (Some (Error e)))
    | Ok doc =>
        if command =s "validate" then Some (output ["Configuration valid"] d None)
        else
          match Control.New (Some doc) (mc_runID m) (mc_now m) with
          | Err e => Some (output [] d (Some e))
          | Ok service => serve f false service d
          end
    end.

(** The commands that talk to a running instance. *)
Definition run_remote (command : string) (f : Flags) (d : Disk) : Outcome :=
  match (if command =s "reload"
         then match Abs fs (fg_config f) with Some a => Ok a | None => Err "cannot resolve filename" end
         else Ok (fg_config f)) with
  | Err e => output [] d (Some e)
  | Ok filename =>
      match Call path_Marshal json_Valid json_Error (mc_call m (fg_socket f)) command filename with
      | Err e => output [] d (Some e)
      | Ok data => output [to_string data] d None
      end
  end.

Definition needs_config (command : string) : bool :=
  (command =s "serve") || (command =s "validate") || (command =s "reload").

Definition usage : string := "Usage: faultline <validate|serve|reload|enable|disable|status|user|configure> [flags]

validate/serve/reload require --config FILE.
serve supports --start-enabled, --admin-socket PATH and --event-buffer N.
Runtime commands support --admin-socket PATH and --timeout DURATION.
Managed API/UI: serve --data-dir DIR --api-listen HOST:PORT --api-cert PEM --api-key PEM.
Accounts: user --data-dir DIR --name NAME --role viewer|editor (password from stdin), or --delete.
Offline infrastructure: configure --data-dir DIR --config FILE (instance must be stopped).".

Definition run (args : list string) (d : Disk) : option Outcome :=
  match args with
  | [] => Some (output [usage] d None)
  | command :: rest =>
      if (command =s "--help") || (command =s "-h") then Some (output [usage] d None)
      else if command =s "configure" then Some (runConfigure rest d)
      else if command =s "user" then Some (runUser rest d)
      else if negb (bool_decide (command ∈ ["validate"; "serve"; "reload"; "enable"; "disable"; "status"]))
      then Some (output [] d (Some ("unknown command " +:+ quote command +:+ "; use --help")))
      else
        match flags_Parse command rest with
        | Help => Some (output [] d None)
        | Bad e => Some (output [] d (Some e))
        | Parsed f =>
            if negb (bool_decide (fg_NArg f = 0%nat)) || (needs_config command && (fg_config f =s ""))
            then Some (output [] d (Some "--config FILE is required; positional arguments are unsupported"))
            else if (fg_socket f =s "") || (fg_eventBuffer f <=? 0) || (fg_timeout f <=? 0)
            then Some (output [] d (Some "admin socket must be nonempty; timeout and event buffer must be positive"))
            else if negb (command =s "validate") && negb (command =s "serve") then Some (run_remote command f d)
            else run_local command f d
        end
  end.
End run.
