(* ===== verification/MainSpec.v ===== *)
(** * Correctness of the command line

    A serving process closes what it opened, in an order in which nothing is
    recorded after the recorder is closed; no command panics on a file the program
    accepts; accounts are created with the password that was typed. *)

From Stdlib Require Import Ascii.
From S2P Require Import Prelude GoLib GoUtf8 GoRand GoTime GoCrypto Config Validate ValidateSpec Engine EngineSpec Control ControlSpec Recorder Decode DecodeSpec Load LoadSpec GoIO TlsConf Store StoreSpec Admin AdminSpec Remote RemoteSpec Listeners ListenersSpec TlsSpec Main.
Local Open Scope go_scope.

(** ** Traces *)

(** Every resource that is opened is closed later. *)
Fixpoint balanced (tr : list action) : bool :=
  match tr with
  | [] => true
  | Opened r :: tr => bool_decide (Closed r ∈ tr) && balanced tr
  | _ :: tr => balanced tr
  end.

(** Once the recorder is closed only the data directory is released. *)
Fixpoint recorder_last (tr : list action) : bool :=
  match tr with
  | [] => true
  | a :: tr => (if decide (a = Closed RRecorder) then forallb (λ b, bool_decide (b = Closed RStore)) tr else true) &&
               recorder_last tr
  end.

(** What a serving process must have open to be ready. *)
Definition needed (managed : bool) : list resource :=
  (RServer <$> [HTTP; PostgreSQL; MySQL; TCP]) ++ [RAdmin; RRecorder] ++ (if managed then [RStore; RManaged] else []).

(** [r] is open after the actions [past]: opened and not closed since. *)
Definition is_open (past : list action) (r : resource) : bool :=
  bool_decide (Opened r ∈ past) && negb (bool_decide (Closed r ∈ past)).

(** At the moment the process reports ready, everything it needs is open; at the
    moment it reports its shutdown, which it does later, the admin server and all
    listeners have been closed. *)
Fixpoint ready_means (managed : bool) (past tr : list action) : bool :=
  match tr with
  | [] => true
  | a :: tr =>
      (if decide (a = Recorded "serve" "ready")
       then forallb (is_open past) (needed managed) && bool_decide (Recorded "shutdown" "stopped" ∈ tr) else true) &&
      (if decide (a = Recorded "shutdown" "stopped")
       then forallb (λ r, bool_decide (Closed r ∈ past)) (RAdmin :: (RServer <$> [HTTP; PostgreSQL; MySQL; TCP])) else true) &&
      ready_means managed (past ++ [a]) tr
  end.

Definition trace_ok (managed : bool) (tr : list action) : bool :=
  balanced tr && recorder_last tr && ready_means managed [] tr.

Lemma serve_body_ok managed errs admin_err managed_err stop :
  let tr := (serve_body managed errs admin_err managed_err stop).1 in
  trace_ok managed (if managed then Opened RStore :: tr ++ [Closed RStore] else tr) = true.
Proof.
  unfold serve_body, stage. destruct (errs HTTP), (errs PostgreSQL), (errs MySQL), (errs TCP), admin_err, managed, managed_err;
    by vm_compute.
Qed.

(** ** The instance lock *)

Section lock.
Context `{Yaml} `{Json}.
Context (fs : Files) (range : gmap string string → list (string * string)).
Context (marshal : Config → gmap string bytes → option bytes).

Lemma save_locked io next s d : dk_locked (save io next s d).1.2 = dk_locked d.
Proof.
  unfold save. destruct (so_poisoned s); [done|]. destruct (state_Marshal next); [|done].
  destruct (atomicFile _ _ _) as [f [renamed []]]; done.
Qed.

Lemma load_locked a io now bootstrap s d : dk_locked (load fs range marshal a io now bootstrap s d).1.2 = dk_locked d.
Proof.
  unfold load. destruct (os_Read a); [done|]. destruct (f_live _) as [data|].
  - destruct (state_Unmarshal data); [|done]. cbv zeta. by destruct (_ || _).
  - destruct (Load _ _ _ _) as [doc|]; [|done]. destruct (Encode _) as [bs|]; [|done].
    pose proof (save_locked io (bootstrap_state bs now) s d) as Hs. destruct (save _ _ _ _) as [[s' d'] []]; done.
Qed.

Lemma Open_lock a io now dir bootstrap d d' e :
  dk_locked d = false → Open fs range marshal a io now dir bootstrap d = (d', Err e) → dk_locked d' = false.
Proof.
  intros Hl. unfold Open. destruct (privateDir a); [by intros [= <- _]|]. destruct (os_OpenLock a); [by intros [= <- _]|].
  destruct (_ || _); [by intros [= <- _]|]. destruct (load _ _ _ _ _ _ _ _ _) as [[s d1] []]; [done|]. by intros [= <- _].
Qed.

Lemma Configure_lock a io1 io2 now dir filename d :
  dk_locked d = false → dk_locked (Configure fs range marshal a io1 io2 now dir filename d).1 = false.
Proof.
  intros Hl. unfold Configure. destruct (Open _ _ _ _ _ _ _ _ _) as [d' [[s current]|e]] eqn:Eo; [|by apply Open_lock in Eo].
  destruct (Load _ _ _ _); [|done]. destruct (Equal _ _).
  - by destruct (store_audit _ _ _ _ _ _ _ _) as [[? ?] ?].
  - destruct (Encode _); [|done]. cbv zeta. by destruct (save _ _ _ _) as [[? ?] ?].
Qed.

Lemma SetUser_lock a io salt name role password remove d :
  dk_locked (SetUser a io salt name role password remove d).1 = dk_locked d.
Proof.
  unfold SetUser. repeat (case_match; try done).
  all: by destruct (atomicFile _ _ _) as [f []].
Qed.
End lock.

Section run.
Context `{Yaml} `{Json}.
Context (fs : Files) (range : gmap string string → list (string * string)).
Context (marshal : Config → gmap string bytes → option bytes).
Context (path_Marshal : string → option bytes) (json_Valid : bytes → bool) (json_Error : bytes → string).
Context (flags_Parse : string → list string → parsed Flags) (user_Parse : list string → parsed UserFlags)
  (configure_Parse : list string → parsed ConfigureFlags).
Context (quote : string → string) (m : Machine).

Let run := run fs range marshal path_Marshal json_Valid json_Error flags_Parse user_Parse configure_Parse quote m.

(** Whether the arguments ask for a managed instance: serve with a data directory. *)
Definition managed_mode (args : list string) : bool :=
  match args with
  | command :: rest =>
      (command =s "serve") && match flags_Parse command rest with Parsed f => nonempty (fg_dataDir f) | _ => false end
  | [] => false
  end.

(** What holds of every outcome. *)
Record lifecycle (managed : bool) (d : Disk) (o : Outcome) : Prop := {
  lc_balanced : balanced (oc_trace o) = true;
  lc_recorder : recorder_last (oc_trace o) = true;
  lc_ready : ready_means managed [] (oc_trace o) = true;
  lc_lock : dk_locked d = false → dk_locked (oc_disk o) = false
}.

Lemma output_lifecycle managed d out d' err :
  (dk_locked d = false → dk_locked d' = false) → lifecycle managed d (output out d' err).
Proof. by constructor. Qed.

Lemma serve_lifecycle f managed service d d0 o :
  (managed = false → d = d0) → serve m f managed service d = Some o → lifecycle managed d0 o.
Proof.
  intros Hd. unfold serve. destruct (SetEnabled _ _ _) as [sv r]. intros Hs.
  repeat match type of Hs with (_ ≫= _) = _ => apply bind_Some in Hs as (? & _ & Hs) end.
  match type of Hs with context [serve_body managed ?errs ?a ?b ?c] =>
    pose proof (serve_body_ok managed errs a b c) as Hok; destruct (serve_body managed errs a b c) as [tr err] end.
  injection Hs as <-. cbn in Hok. unfold trace_ok in Hok. apply andb_true_iff in Hok as [[Hb Hr]%andb_true_iff Hm].
  constructor; try done. destruct managed; [done|]. cbn. by rewrite (Hd eq_refl).
Qed.

Ltac plain_output := intros [= <-]; apply output_lifecycle; auto.

Lemma configure_lifecycle managed args d : lifecycle managed d (runConfigure fs range marshal configure_Parse m args d).
Proof.
  unfold runConfigure. destruct (configure_Parse args) as [|e|f]; try (apply output_lifecycle; auto).
  destruct (_ || _); [apply output_lifecycle; auto|].
  pose proof (Configure_lock fs range marshal (mc_dir m) (mc_io m) (mc_io2 m) (mc_now m) (cf_dir f) (cf_config f) d) as Hl.
  destruct (Configure _ _ _ _ _ _ _ _ _ _) as [d' []]; by apply output_lifecycle.
Qed.

Lemma user_lifecycle managed args d : lifecycle managed d (runUser user_Parse m args d).
Proof.
  unfold runUser. destruct (user_Parse args) as [|e|f]; try (apply output_lifecycle; auto).
  destruct (_ || _); [apply output_lifecycle; auto|]. destruct (if uf_remove f then _ else _) as [pw|]; [|apply output_lifecycle; auto].
  pose proof (SetUser_lock (mc_dir m) (mc_io m) (mc_salt m) (uf_name f) (uf_role f) pw (uf_remove f) d) as Hl.
  destruct (SetUser _ _ _ _ _ _ _ _) as [d' []]; apply output_lifecycle; cbn in Hl; by rewrite Hl.
Qed.

Lemma local_lifecycle command f d o :
  run_local fs range marshal m command f d = Some o → lifecycle ((command =s "serve") && nonempty (fg_dataDir f)) d o.
Proof.
  unfold run_local. destruct (_ && _).
  - destruct (_ || _); [plain_output|].
    destruct (Open _ _ _ _ _ _ _ _ _) as [d' [[store doc]|e]] eqn:Eo.
    + destruct (New _ _ _ _ _ _ _) as [sr|]; [intros Hs; by apply (serve_lifecycle f true (sr_service sr) d')|]. plain_output.
    + intros [= <-]. apply output_lifecycle. intros Hl. by eapply Open_lock.
  - destruct (Load _ _ _ _) as [doc|]; [|plain_output]. destruct (str_eq command "validate"); [plain_output|].
    destruct (Control.New _ _ _) as [sv|]; [intros Hs; by apply (serve_lifecycle f false sv d)|]. plain_output.
Qed.

(** C24. The whole life of the process: whatever fails and whatever stops it, what was
    opened is closed again and nothing is recorded once the recorder is closed. When
    it reports ready, all four servers, the admin socket and the recorder are open,
    and so are the data directory and the HTTPS API when the arguments ask for a
    managed instance (serve with a data directory); when it reports its shutdown,
    which it then does, the admin server and all servers have been closed. The
    instance lock is free at the end if it was free before. *)
Theorem run_lifecycle args d o : run args d = Some o → lifecycle (managed_mode args) d o.
Proof.
  unfold run, Main.run, managed_mode. destruct args as [|command rest]; [plain_output|]. destruct (_ || _); [plain_output|].
  destruct (str_eq command "configure"); [intros [= <-]; apply configure_lifecycle|].
  destruct (str_eq command "user"); [intros [= <-]; apply user_lifecycle|].
  destruct (negb (bool_decide _)); [plain_output|]. destruct (flags_Parse command rest) as [|e|f]; [plain_output..|].
  destruct (_ || _); [plain_output|]. destruct (_ || _); [plain_output|].
  destruct (negb _ && negb _); [|apply local_lifecycle]. intros [= <-]. unfold run_remote.
  destruct (if str_eq command "reload" then _ else _) as [fn|]; [|apply output_lifecycle; auto].
  destruct (Call _ _ _ _ _ _); apply output_lifecycle; auto.
Qed.

(** ** No panic *)

Section total.
Context (Henv : tls_env (mc_tls m) = fs_env fs) (Hurl : url_law (mc_tls m)).

Lemma serve_total f managed service d doc :
  active_document service = Some doc → Forall (startable (mc_tls m)) (c_Proxies (d_config doc)) →
  is_Some (serve m f managed service d).
Proof using Hurl.
  intros Ha Hf. unfold serve. destruct (SetEnabled _ _ _) as [sv r] eqn:Es.
  assert (snapshot_config sv (Acquire sv) = Some (d_config doc)) as ->.
  { unfold active_document in Ha. unfold snapshot_config, Acquire. revert Es. unfold SetEnabled.
    destruct (Bool.eqb _ _); intros [= <- _]; cbn; destruct (sv_heap service !! _); cbn in *; by simplify_eq. }
  cbn [mbind option_bind].
  assert (∀ k, is_Some (snd <$> Start (mc_tls m) (mc_bind m k) k (d_config doc))) as Hst.
  { intros k. destruct (Start_calm (mc_tls m) (mc_bind m k) k (d_config doc)) as [x ->]; [done..|]. by eexists. }
  destruct (Hst HTTP) as [http ->]. cbn [mbind option_bind].
  assert (∀ b k, ∃ e, (if b : bool then Some None else snd <$> Start (mc_tls m) (mc_bind m k) k (d_config doc)) = Some e) as Hst'
    by (intros [] k; [by eexists|apply Hst]).
  repeat match goal with |- context [if ?b then Some None else snd <$> Start _ _ ?k _] =>
    let e := fresh "e" in destruct (Hst' b k) as [e ->]; cbn [mbind option_bind] end.
  destruct (serve_body _ _ _ _ _). by eexists.
Qed.

Lemma Open_startable a io now dir bootstrap d d' st doc :
  Open fs range marshal a io now dir bootstrap d = (d', Ok (st, doc)) → Forall (startable (mc_tls m)) (c_Proxies (d_config doc)).
Proof using Henv.
  unfold Open. destruct (privateDir a); [done|]. destruct (os_OpenLock a); [done|]. destruct (_ || _); [done|].
  destruct (load _ _ _ _ _ _ _ _ _) as [[s d1] [doc'|]] eqn:El; [|done]. intros [= _ _ ->]. revert El.
  unfold load. destruct (os_Read a); [done|]. destruct (f_live _) as [data|].
  - destruct (state_Unmarshal data) as [st'|]; [|done]. cbv zeta. destruct (_ || _); [done|]. intros [= _ _ Hp]. by eapply Parse_startable.
  - destruct (Load _ _ _ _) as [doc'|] eqn:El; [|done]. destruct (Encode _) as [bs|]; [|done].
    destruct (save _ _ _ _) as [[s' d''] []]; [done|]. intros [= _ _ <-]. by eapply Load_startable.
Qed.

Lemma New_document doc runID now sv : Control.New (Some doc) runID now = Ok sv → active_document sv = Some doc.
Proof. unfold Control.New. intros Hn. open_ok Hn. by simplify_eq. Qed.

(** With the files the configuration was validated against, no command panics: it
    returns for every argument list and every state of the data directory, whatever
    the system answers. *)
Theorem run_returns args d : ∃ o, run args d = Some o.
Proof using All.
  unfold run, Main.run. destruct args as [|command rest]; [eauto|]. destruct (_ || _); [eauto|].
  destruct (str_eq command "configure"); [eauto|]. destruct (str_eq command "user"); [eauto|].
  destruct (negb (bool_decide _)); [eauto|]. destruct (flags_Parse command rest) as [|e|f]; [eauto..|].
  destruct (_ || _); [eauto|]. destruct (_ || _); [eauto|]. destruct (_ && _); [eauto|]. unfold run_local. destruct (_ && _).
  - destruct (_ || _); [eauto|]. destruct (Open _ _ _ _ _ _ _ _ _) as [d' [[store doc]|e]] eqn:Eo; [|eauto].
    destruct (New _ _ _ _ _ _ _) as [sr|] eqn:En; [|eauto]. apply Open_startable in Eo.
    apply (serve_total _ _ _ _ doc); [|done]. revert En. unfold New. destruct (readUsers _ _); [|done]. intros En. open_ok En.
    simplify_eq. by apply NewManaged_fields in Hb as (_ & _ & _ & Hdoc).
  - destruct (Load _ _ _ _) as [doc|] eqn:El; [|eauto]. destruct (str_eq command "validate"); [eauto|].
    destruct (Control.New _ _ _) as [sv|] eqn:En; [|eauto]. apply (serve_total _ _ _ _ doc); [by eapply New_document|by eapply Load_startable].
Qed.
End total.

(** ** The client and the admin server *)

Section client.
Context {W : Type} (persist : Document → Result → W → W * option string).
Context (reload_Decode : bytes → option (string * bool)).
Context (Hjson : ∀ path data, path_Marshal path = Some data → reload_Decode data = Some (path, true)).

(** The request as the admin server receives it. *)
Definition received (r : CallRequest) : Admin.Request :=
  {| Admin.rq_Origin := ""; Admin.rq_Path := cr_Path r; Admin.rq_Method := cr_Method r;
     Admin.rq_Body := default [] (cr_Body r); Admin.rq_Done := false |}.

Ltac hstep :=
  unfold nonempty; cbn [received Admin.rq_Origin Admin.rq_Path Admin.rq_Method Admin.rq_Body Admin.rq_Done cr_Path cr_Method cr_Body];
  decide_strings.

(** A command of the client is carried out: the admin server of an unmanaged
    instance enables or disables injection, or reloads exactly the file the client
    named, and answers with the result or the reload's error. *)
Theorem command_carried_out operation config r listeners now stamp s w records :
  operation ∈ ["enable"; "disable"; "reload"] →
  call_request path_Marshal operation config = Ok r →
  IsAbs config = true → Z.of_nat (length (default [] (cr_Body r))) ≤ Admin.body_limit →
  let '(s', w', _, rep) := handle fs range marshal persist reload_Decode false listeners (received r) now stamp s w records in
  if operation =s "reload" then
    ∃ result, ReloadFile fs range marshal persist s w config now = (s', w', result) ∧
      rep = match result with Ok x => ReplyResult x | Err e => ReplyError 400 e end
  else w' = w ∧ ∃ x, SetEnabled s (operation =s "enable") now = (s', x) ∧ rep = ReplyResult x.
Proof using Hjson.
  intros Hop Hr Ha Hlen. rewrite !elem_of_cons in Hop. destruct Hop as [->|[->|[->|Hop]]]; [| | |by apply not_elem_of_nil in Hop].
  - injection Hr as <-. unfold handle. hstep. destruct (SetEnabled s true now) as [s' x]. eauto.
  - injection Hr as <-. unfold handle. hstep. destruct (SetEnabled s false now) as [s' x]. eauto.
  - unfold call_request in Hr. cbn in Hr. destruct (path_Marshal config) as [data|] eqn:Em; [|done]. injection Hr as <-.
    unfold handle, reload_path. cbn [cr_Body] in Hlen. hstep. change (default [] (Some data)) with data in Hlen |- *.
    rewrite take_ge by (unfold Admin.body_limit in *; lia). rewrite (Hjson _ _ Em), Ha. hstep. rewrite (proj2 (Z.leb_le _ _)) by done. cbn [negb andb].
    destruct (ReloadFile _ _ _ _ _ _ _ _) as [[s' w'] []]; eexists; (split; [done|]); done.
Qed.
End client.

(** ** Accounts *)

Definition LF : string := String (ascii_of_nat 10) "".
Definition CR : string := String (ascii_of_nat 13) "".

Lemma line_end password ending :
  ending ∈ [""; LF; CR +:+ LF] → HasSuffix password LF = false → HasSuffix password CR = false →
  TrimSuffix (TrimSuffix (password +:+ ending) LF) CR = password.
Proof.
  rewrite !elem_of_cons. intros [->|[->|[->|He]]] Hl Hc; [| | |by apply not_elem_of_nil in He].
  - rewrite append_nil, (TrimSuffix_none password LF) by done. by apply TrimSuffix_none.
  - rewrite TrimSuffix_app. by apply TrimSuffix_none.
  - by rewrite append_assoc, !TrimSuffix_app.
Qed.

(** The account a user command creates accepts the password that was piped in,
    whether its line ends in LF, in CR LF or not at all. *)
Theorem user_password `{!JsonLaws} args f password ending d :
  user_Parse args = Parsed f → uf_remove f = false → mc_stdin_mode m = Ok false →
  mc_stdin m = Ok (of_string (password +:+ ending)) → ending ∈ [""; LF; CR +:+ LF] →
  (String.length password ≤ 1024)%nat → HasSuffix password LF = false → HasSuffix password CR = false →
  (∀ bs, mc_salt m = Ok bs → length bs = 16%nat) →
  let o := runUser user_Parse m args d in
  oc_err o = None →
  ∃ users u, readUsers None (oc_disk o) = Ok users ∧ users !! uf_name f = Some u ∧
    us_Role u = uf_role f ∧ verifyPassword u password = true.
Proof.
  intros Hp Hr Htty Hin He Hlen Hl Hc Hsalt o. unfold o, runUser. rewrite Hp, Hr. destruct (_ || _); [done|].
  assert (read_password m = Ok password) as ->.
  { unfold read_password. rewrite Htty, Hin. cbn [mbind res_bind guard_err]. f_equal.
    rewrite take_ge, to_of_string; [by apply line_end|].
    rewrite length_of_string, length_append.
    assert (String.length ending ≤ 2)%nat; [|lia].
    rewrite !elem_of_cons in He. destruct He as [->|[->|[->|He]]]; [vm_compute; lia..|by apply not_elem_of_nil in He]. }
  destruct (SetUser _ _ _ _ _ _ _ _) as [d' [err|]] eqn:Es; [done|]. intros _. cbn.
  apply SetUser_effect in Es as (users & users' & _ & Hu & _ & u & Hu' & ? & ?); [|done]. eauto 10.
Qed.
End run.
