(* ===== verification/ServeLoop.v ===== *)
(** * The serving goroutines of the control servers

    The goroutine Start leaves behind, Errors and Close of control/admin/server.go
    and control/remote/server.go, and [fail], which the handlers of the remote server
    call. One label is one atomic action of the goroutine, of Close, of a handler or
    of the receiver of Errors. *)

From S2P Require Import Prelude GoLib.
Local Open Scope go_scope.

Inductive side := AdminSide | RemoteSide.

Definition ErrServerClosed : string := "http: Server closed".
Definition ErrClosed : string := "use of closed network connection".

(** The goroutine: in Serve, about to report, about to close [done], gone. *)
Inductive goroutine := Serving | Reporting (err : string) | Exiting | Exited.

(** How far Close is. *)
Inductive closing := Open | ServerClosed | Waiting | Returned.

#[export] Instance loop_closing_eq_dec : EqDecision closing. Proof. solve_decision. Defined.

(** [lp_started]: Start has set s.server and started the goroutine; [lp_errors]: the
    content of the channel, of capacity 1. *)
Record loop := {
  lp_started : bool;
  lp_go : goroutine;
  lp_closing : closing;
  lp_errors : list string
}.

Definition set_go (g : goroutine) (s : loop) : loop :=
  {| lp_started := lp_started s; lp_go := g; lp_closing := lp_closing s; lp_errors := lp_errors s |}.
Definition set_closing (c : closing) (s : loop) : loop :=
  {| lp_started := lp_started s; lp_go := lp_go s; lp_closing := c; lp_errors := lp_errors s |}.
Definition set_errors (l : list string) (s : loop) : loop :=
  {| lp_started := lp_started s; lp_go := lp_go s; lp_closing := lp_closing s; lp_errors := l |}.

(** [ServeReturns err]: Serve gives up; [Send]: the goroutine's report; [Fail err]: a
    handler; [Receive]: the receiver of Errors. *)
Inductive label := ServeReturns (err : string) | Send | Exit | Fail_ (err : string) | Receive | Close.

Section loop.
Context (k : side).

(** Errors that are part of a shutdown. *)
Definition expected (err : string) : bool :=
  match k with AdminSide => (err =s ErrServerClosed) || (err =s ErrClosed) | RemoteSide => err =s ErrServerClosed end.

(** http.Server.Serve returns ErrServerClosed once Close was called, and only then. *)
Definition serve_error (s : loop) (err : string) : bool :=
  Bool.eqb (err =s ErrServerClosed) (negb (bool_decide (lp_closing s = Open))).

(** fail: a select with a default. *)
Definition fail (err : string) (s : loop) : loop := match lp_errors s with [] => set_errors [err] s | _ => s end.

(** The report: a plain send on the admin side, which blocks when the channel is
    full, [fail] on the remote side. *)
Definition send (err : string) (s : loop) : option loop :=
  match k with
  | AdminSide => match lp_errors s with [] => Some (set_errors [err] s) | _ => None end
  | RemoteSide => Some (fail err s)
  end.

Definition close_step (s : loop) : option loop :=
  match lp_closing s with
  | Open =>
      match k with
      | AdminSide => Some (set_closing ServerClosed s)
      | RemoteSide => Some (set_closing (if lp_started s then Waiting else Returned) s)
      end
  | ServerClosed => Some (set_closing Waiting s)
  | Waiting => match lp_go s with Exited => Some (set_closing Returned s) | _ => None end
  | Returned => None
  end.

Definition sstep (l : label) (s : loop) : option loop :=
  match l with
  | ServeReturns err =>
      match lp_go s with
      | Serving =>
          if lp_started s && serve_error s err then Some (set_go (if expected err then Exiting else Reporting err) s) else None
      | _ => None
      end
  | Send => match lp_go s with Reporting err => s' ← send err s; Some (set_go Exiting s') | _ => None end
  | Exit => match lp_go s with Exiting => Some (set_go Exited s) | _ => None end
  | Fail_ err => match k with AdminSide => None | RemoteSide => if lp_started s then Some (fail err s) else None end
  | Receive => match lp_errors s with _ :: l => Some (set_errors l s) | [] => None end
  | Close => close_step s
  end.

Fixpoint srun (ls : list label) (s : loop) : option loop :=
  match ls with
  | [] => Some s
  | l :: ls' => s' ← sstep l s; srun ls' s'
  end.

Definition started (b : bool) : loop := {| lp_started := b; lp_go := Serving; lp_closing := Open; lp_errors := [] |}.

(** ** Shutdown *)

Record loop_inv (s : loop) : Prop := {
  lv_started : k = AdminSide → lp_started s = true;
  lv_single : k = AdminSide → match lp_go s with Serving | Reporting _ => lp_errors s = [] | _ => True end;
  lv_capacity : (length (lp_errors s) ≤ 1)%nat;
  lv_report : match lp_go s with Reporting err => err ≠ ErrServerClosed | _ => True end;
  lv_side : lp_closing s = ServerClosed → k = AdminSide;
  lv_waiting : lp_closing s = Waiting → lp_started s = true
}.

Lemma started_inv b : (k = AdminSide → b = true) → loop_inv (started b).
Proof. intros Hb. split; cbn; try done; auto. Qed.

Ltac settle := split; cbn in *; intros; simplify_eq; try done; auto; try congruence; try lia;
  try (match goal with H : ?x = ?x → ?P |- ?P => exact (H eq_refl) end).

Lemma sstep_inv l s s' : loop_inv s → sstep l s = Some s' → loop_inv s'.
Proof.
  intros [Ha Hs Hc Hr Hd Hw] Hstep. destruct l as [err| | |err| |]; cbn in Hstep.
  - destruct (lp_go s) eqn:Eg; try done. destruct (lp_started s && serve_error s err) eqn:Ee; [|done]. injection Hstep as <-.
    destruct (expected err) eqn:Ex; settle. intros ->. unfold expected in Ex. by destruct k.
  - destruct (lp_go s) as [|err| |] eqn:Eg; try done. apply bind_Some in Hstep as (s1 & Hsend & [= <-]). unfold send, fail in Hsend.
    destruct k eqn:Ek, (lp_errors s) eqn:El; simplify_eq; settle; by rewrite El.
  - destruct (lp_go s) eqn:Eg; try done. injection Hstep as <-. settle.
  - destruct k eqn:Ek; [done|]. destruct (lp_started s) eqn:Est; [|done]. injection Hstep as <-. unfold fail.
    destruct (lp_errors s) eqn:El; settle; by rewrite ?El.
  - destruct (lp_errors s) as [|e l] eqn:El; [done|]. injection Hstep as <-. settle. specialize (Hs eq_refl). by destruct (lp_go s).
  - unfold close_step in Hstep. destruct (lp_closing s) eqn:Ec; try done.
    + destruct k eqn:Ek; simplify_eq; settle; by destruct (lp_started s).
    + injection Hstep as <-. settle.
    + destruct (lp_go s) eqn:Eg; simplify_eq. settle; by rewrite Eg.
Qed.

Lemma srun_inv ls s s' : loop_inv s → srun ls s = Some s' → loop_inv s'.
Proof.
  revert s. induction ls as [|l ls IH]; intros s Hi Hr; cbn in Hr; [by simplify_eq|].
  apply bind_Some in Hr as (s1 & Hs & Hr). eapply IH; [|done]. by eapply sstep_inv.
Qed.

(** What Close still has to wait for, at most. *)
Definition left_to_do (s : loop) : nat :=
  match lp_closing s with Open => 3 | ServerClosed => 2 | Waiting => 1 | Returned => 0 end +
  match lp_go s with Serving => 3 | Reporting _ => 2 | Exiting => 1 | Exited => 0 end.

(** In every interleaving of the goroutine, the handlers, the receiver of Errors and
    Close: the report of the goroutine never blocks, ErrServerClosed is never
    reported, the channel holds one error at most; and until Close has returned
    there is a step, of Close or of the goroutine, that brings it closer, whether or
    not anyone receives. *)
Theorem control_Close_returns b ls s :
  (k = AdminSide → b = true) → srun ls (started b) = Some s →
  (length (lp_errors s) ≤ 1)%nat ∧
  (∀ err, lp_go s = Reporting err → err ≠ ErrServerClosed ∧ is_Some (sstep Send s)) ∧
  (lp_closing s = Returned ∨
   ∃ l s', match l with ServeReturns _ | Send | Exit | Close => True | _ => False end ∧
     sstep l s = Some s' ∧ (left_to_do s' < left_to_do s)%nat).
Proof.
  intros Hb Hr. destruct (srun_inv _ _ _ (started_inv b Hb) Hr) as [Ha Hs Hc Hp Hd Hw].
  assert (∀ err, lp_go s = Reporting err → ∃ s', send err s = Some s' ∧ lp_closing s' = lp_closing s) as Hsend.
  { intros err Eg. rewrite Eg in Hs. unfold send, fail. destruct k eqn:Ek; [rewrite (Hs eq_refl)|destruct (lp_errors s)]; by eexists. }
  split_and!; [done| |].
  - intros err Eg. rewrite Eg in Hp. destruct (Hsend err Eg) as (s' & Hs' & _). split; [done|]. cbn. rewrite Eg, Hs'. by eexists.
  - destruct (lp_closing s) eqn:Ec; [right|right|right|by left].
    1,2: exists Close; cbn; unfold close_step; rewrite Ec; destruct k eqn:Ek; eexists; (split; [done|]); (split; [done|]);
         unfold left_to_do; cbn; rewrite Ec; try destruct (lp_started s); lia.
    destruct (lp_go s) as [|err| |] eqn:Eg.
    + exists (ServeReturns ErrServerClosed). cbn. rewrite Eg, (Hw eq_refl). unfold serve_error. rewrite Ec. cbn.
      eexists. split; [done|]. split; [done|]. assert (expected ErrServerClosed = true) as -> by (unfold expected; by destruct k).
      unfold left_to_do. cbn. rewrite Ec, Eg. lia.
    + destruct (Hsend err eq_refl) as (s1 & Hs1 & Hc1). exists Send. cbn. rewrite Eg, Hs1. eexists. split; [done|]. split; [done|].
      unfold left_to_do. cbn. rewrite Hc1, Ec, Eg. lia.
    + exists Exit. cbn. rewrite Eg. eexists. split; [done|]. split; [done|]. unfold left_to_do. cbn. rewrite Ec, Eg. lia.
    + exists Close. cbn. unfold close_step. rewrite Ec, Eg. eexists. split; [done|]. split; [done|]. unfold left_to_do. cbn. rewrite Ec, Eg. lia.
Qed.
End loop.

(** A listener that fails, and nobody receives. *)
Definition failing : list label := [ServeReturns "accept: too many open files"; Close; Send; Close].

Lemma control_Close_returns_witness :
  ∃ s, srun AdminSide failing (started true) = Some s ∧ (length (lp_errors s) ≤ 1)%nat.
Proof.
  eexists. split; [vm_compute; reflexivity|]. refine (proj1 (control_Close_returns AdminSide true failing _ _ _)); [done|vm_compute; reflexivity].
Defined.
