(* ===== verification/Fault.v ===== *)
(** * Fault execution (internal/fault: executor.go, builtin.go, body.go)

    [Execute] drives an adapter's capabilities, [Body] cuts or paces a message
    body. Time is an integer clock in nanoseconds passed through; the context
    says when it is cancelled. A nil dereference or an out-of-range slice is
    [None]. *)

From S2P Require Import Prelude GoLib GoRand Config Validate ValidateSpec GoIO.
Local Open Scope go_scope.

Definition ErrUnavailable : error := errText "fault executor is not implemented".
Definition ErrTruncated : error := errText "body truncated by fault".

(** fault.Capabilities with its two optional interfaces. *)
Class Capabilities (F : Type) := {
  CancelUpstream : F → F;
  Respond : Z → string → F → F * option error;
  CloseConnection : F → F * option error;
  EndStream : option (F → F * option error);
  FaultApplied : option (F → F)
}.

Definition wait (ctx : Context) (duration now : Z) : Z * option error :=
  let t := wake ctx now duration in (t, ctx_Err ctx t).

Section Execute.
Context `{Capabilities F}.

Definition applied (flow : F) : F :=
  match FaultApplied with Some observe => observe flow | None => flow end.

Definition end_stream (flow : F) : F * option error :=
  match EndStream with Some f => f flow | None => CloseConnection flow end.

(** (applied, err), the flow and the clock afterwards. *)
Definition Execute (ctx : Context) (action : Fault) (flow : F) (now : Z) :
    option (bool * option error * F * Z) :=
  match ctx_Err ctx now with
  | Some e => Some (false, Some e, flow, now)
  | None =>
      if f_Action action =s "delay" then
        let flow := applied flow in
        d ← f_Duration action;
        let '(now, err) := wait ctx d now in
        Some (true, err, flow, now)
      else if f_Action action =s "respond" then
        let flow := applied flow in
        status ← f_Status action;
        body ← f_Body action;
        let '(flow, err) := Respond status body flow in
        Some (true, err, flow, now)
      else if f_Action action =s "close_connection" then
        let flow := CancelUpstream flow in
        let '(flow, err) := CloseConnection flow in
        match err with
        | None => Some (true, None, applied flow, now)
        | Some e => Some (false, Some e, flow, now)
        end
      else if (f_Action action =s "hold_request") || (f_Action action =s "hold_response") then
        let flow := CancelUpstream flow in
        let flow := applied flow in
        d ← f_MaxDuration action;
        let '(now, err) := wait ctx d now in
        let '(flow, closeErr) := end_stream flow in
        Some (true, match err with Some e => Some e | None => closeErr end, flow, now)
      else Some (false, Some (errAction (f_Action action)), flow, now)
  end.
End Execute.

(** ** Bodies *)

(** [b_applied] counts the onApplied calls. *)
Record Body (R : Type) := {
  b_source : R;
  b_action : Fault;
  b_remaining : Z;
  b_applied : nat
}.
Arguments b_source {R}.
Arguments b_action {R}.
Arguments b_remaining {R}.
Arguments b_applied {R}.

Definition WrapBody {R} (source : R) (action : Fault) : Body R :=
  {| b_source := source; b_action := action;
     b_remaining := default 0 (f_Bytes action); b_applied := 0 |}.

Definition set_body {R} (s : R) (remaining : Z) (n : nat) (b : Body R) : Body R :=
  {| b_source := s; b_action := b_action b; b_remaining := remaining; b_applied := n |}.

(** The pause after [n] bytes at [rate] bytes per second. *)
Definition throttle_pause (n rate : Z) : Z :=
  Z.max 1 (int_of_float64
    (SFmul 53 1024 (SFdiv 53 1024 (float64_of_int n) (float64_of_int rate))
       (float64_of_int 1000000000))).

Definition throttle_chunk (rate : Z) : Z := Z.min 16384 (Z.max 1 (Z.quot rate 10)).

Section Body.
Context `{Reader R}.

(** Read with a buffer of [p] bytes at time [now]; the data returned is what
    the caller may use, the first result of the Go call being its length. *)
Definition body_Read (ctx : Context) (p : nat) (now : Z) (b : Body R) :
    option (bytes * option error * Body R * Z) :=
  if bool_decide (p = 0)%nat then Some ([], None, b, now)
  else
    match ctx_Err ctx now with
    | Some e => Some ([], Some e, b, now)
    | None =>
        if f_Action (b_action b) =s "truncate" then
          if b_remaining b =? 0 then
            let '(probe, err, src) := read 1 (b_source b) in
            match probe with
            | _ :: _ => Some ([], Some ErrTruncated, set_body src 0 (S (b_applied b)) b, now)
            | [] => Some ([], err, set_body src 0 (b_applied b) b, now)
            end
          else if b_remaining b <? 0 then None
          else
            let '(data, err, src) := read (min p (Z.to_nat (b_remaining b))) (b_source b) in
            Some (data, err, set_body src (b_remaining b - Z.of_nat (length data)) (b_applied b) b, now)
        else
          rate ← f_BytesPerSecond (b_action b);
          let '(data, err, src) := read (min p (Z.to_nat (throttle_chunk rate))) (b_source b) in
          match data with
          | [] => Some (data, err, set_body src (b_remaining b) (b_applied b) b, now)
          | _ =>
              let b := set_body src (b_remaining b) (S (b_applied b)) b in
              let '(now, waitErr) := wait ctx (throttle_pause (Z.of_nat (length data)) rate) now in
              match waitErr with
              | Some e => Some ([], Some e, b, now)
              | None => Some (data, err, b, now)
              end
          end
    end.

(** A consumer reading until the first error, with the given buffer sizes. *)
Fixpoint read_all (ctx : Context) (ps : list nat) (now : Z) (b : Body R) :
    option (bytes * option error * Body R * Z) :=
  match ps with
  | [] => Some ([], None, b, now)
  | p :: ps' =>
      '(data, err, b, now) ← body_Read ctx p now b;
      match err with
      | Some e => Some (data, Some e, b, now)
      | None =>
          '(more, err, b, now) ← read_all ctx ps' now b;
          Some (data ++ more, err, b, now)
      end
  end.
End Body.

Example pause_100 : throttle_pause 10 100 = 100000000.
Proof. vm_compute. reflexivity. Qed.
