(* ===== verification/FaultSpec.v ===== *)
(** * Correctness of fault execution

    The executor's protocol with its adapter, for every validated action, and
    what a consumer of a truncated or throttled body receives. *)

From S2P Require Import Prelude GoLib GoRand Config Validate ValidateSpec GoIO Fault.
Local Open Scope go_scope.

(** ** The executor against an observing adapter *)

Inductive cap_call :=
| CCancel
| CRespond (status : Z) (body : string)
| CClose
| CEnd
| CApplied.

#[export] Instance cap_call_eq_dec : EqDecision cap_call. Proof. solve_decision. Defined.

(** An adapter that logs its calls; its fallible calls return [tf_result]. *)
Record trace_flow := { tf_log : list cap_call; tf_result : option error }.

Definition log_call (c : cap_call) (f : trace_flow) : trace_flow :=
  {| tf_log := tf_log f ++ [c]; tf_result := tf_result f |}.

#[export] Instance trace_Capabilities : Capabilities trace_flow := {
  CancelUpstream := log_call CCancel;
  Respond st body f := (log_call (CRespond st body) f, tf_result f);
  CloseConnection f := (log_call CClose f, tf_result f);
  EndStream := Some (λ f, (log_call CEnd f, tf_result f));
  FaultApplied := Some (log_call CApplied)
}.

(** The calls a fault makes and how long it may block, from the action table. *)
Definition expected_calls (f : Fault) (result : option error) : list cap_call :=
  if f_Action f =s "delay" then [CApplied]
  else if f_Action f =s "respond" then
    [CApplied; CRespond (default 0 (f_Status f)) (default "" (f_Body f))]
  else if f_Action f =s "close_connection" then
    [CCancel; CClose] ++ (match result with None => [CApplied] | Some _ => [] end)
  else [CCancel; CApplied; CEnd].

Definition blocking_time (f : Fault) : Z :=
  default 0 (if f_Action f =s "delay" then f_Duration f else f_MaxDuration f).

(** Faults the executor runs: all but the two body actions. *)
Definition executable (f : Fault) : Prop :=
  http_fault f ∧ f_Action f ≠ "truncate" ∧ f_Action f ≠ "throttle" ∧
  (f_Action f = "respond" → is_Some (f_Body f)).

(** C39. For every validated non-body fault, on a live context, the executor
    returns without a nil dereference; it makes exactly the calls of the action
    table, in order (the upstream is cancelled before the client is held or
    closed); it reports applied exactly when the observer was told, once; it
    blocks no longer than the configured duration, and for exactly that long
    when the context is still live at the end. *)
Theorem Execute_contract (ctx : Context) (f : Fault) (result : option error) (now : Z)
    (Hf : executable f) (Hctx : ctx_Err ctx now = None) :
  ∃ ok err now', 
    Execute ctx f {| tf_log := []; tf_result := result |} now =
      Some (ok, err, {| tf_log := expected_calls f result; tf_result := result |}, now') ∧
    ok = bool_decide (CApplied ∈ expected_calls f result) ∧
    now ≤ now' ≤ now + blocking_time f ∧
    (ctx_Err ctx now' = None → now' = now + blocking_time f ∧
       (err = None ∨ err = result)).
Proof.
  destruct Hf as (Hf & Ht & Hth & Hbody). unfold Execute. rewrite Hctx.
  destruct Hf as [ph d ? Hd|st body ?|d Hd|d Hd|dir ph n|dir ph n|ph]; try done;
    unfold http_fields, expected_calls, blocking_time, end_stream, wait in *;
    fault_fields; decide_strings; cbn.
  1, 3, 4: pose proof (wake_bounds ctx now d); eexists true, _, _;
    split_and!; [done|done|lia|lia|]; intros E; split; [rewrite (wake_full _ _ _ E); lia|rewrite E; auto].
  - destruct Hbody as [b ->]; [done|]. eexists true, _, now. split_and!; [done|done|lia|lia|].
    intros _. split; [lia|auto].
  - destruct result as [e|].
    + eexists false, _, now. split_and!; [done|done|lia|lia|]. intros _. split; [lia|auto].
    + eexists true, _, now. split_and!; [done|done|lia|lia|]. intros _. split; [lia|auto].
Qed.

(** ** Bodies *)

Section truncate.
Context `{Reader R}.

(** What a consumer of a body cut at [limit] has received when it stops:
    nothing else yet, the cut, the source's own end, or a cancellation. *)
Inductive cut_result (limit : nat) (s : bytes) (end_ : error) (cancel : option error) :
    bytes → option error → nat → Prop :=
| cut_open out : out `prefix_of` take limit s → cut_result limit s end_ cancel out None 0
| cut_truncated : (limit < length s)%nat →
    cut_result limit s end_ cancel (take limit s) (Some ErrTruncated) 1
| cut_natural : (length s ≤ limit)%nat → cut_result limit s end_ cancel s (Some end_) 0
| cut_canceled out e : out `prefix_of` take limit s → cancel = Some e →
    cut_result limit s end_ cancel out (Some e) 0.

(** A delivered piece in front of what follows. *)
Lemma cut_result_cons data limit s end_ cancel out e n :
  (length data ≤ limit)%nat → cut_result (limit - length data) s end_ cancel out e n →
  cut_result limit (data ++ s) end_ cancel (data ++ out) e n.
Proof.
  intros Hd Hc. assert (take limit (data ++ s) = data ++ take (limit - length data) s) as Ht.
  { rewrite take_app, take_ge by lia. done. }
  destruct Hc as [out Hp|Hl|Hl|out e Hp Hx].
  - apply cut_open. rewrite Ht. by apply prefix_app.
  - rewrite <- Ht. apply cut_truncated. rewrite length_app. lia.
  - apply cut_natural. rewrite length_app. lia.
  - apply cut_canceled; [|done]. rewrite Ht. by apply prefix_app.
Qed.

Lemma truncate_step ctx p now (b : Body R) :
  f_Action (b_action b) = "truncate" → 0 ≤ b_remaining b → (0 < p)%nat →
  ∃ data e b', body_Read ctx p now b = Some (data, e, b', now) ∧
    b_action b' = b_action b ∧ 0 ≤ b_remaining b' ∧
    match e with
    | Some err => cut_result (Z.to_nat (b_remaining b)) (stream (b_source b)) (terminal (b_source b))
                    (ctx_Err ctx now) data (Some err) (b_applied b' - b_applied b) ∧
                  (b_applied b ≤ b_applied b')%nat
    | None => (length data ≤ Z.to_nat (b_remaining b))%nat ∧
              b_remaining b' = b_remaining b - Z.of_nat (length data) ∧
              stream (b_source b) = data ++ stream (b_source b') ∧
              terminal (b_source b') = terminal (b_source b) ∧ b_applied b' = b_applied b ∧
              ctx_Err ctx now = None ∧
              (length (stream (b_source b')) + patience (b_source b') <
               length (stream (b_source b)) + patience (b_source b))%nat
    end.
Proof.
  intros Ha Hr Hp. unfold body_Read. rewrite bool_decide_false by lia.
  destruct (ctx_Err ctx now) as [ce|] eqn:Ec.
  { eexists _, _, b. split; [done|]. rewrite Nat.sub_diag. split_and!; [done..| |lia].
    apply cut_canceled; [apply prefix_nil|done]. }
  rewrite Ha, str_eq_refl. destruct (Z.eqb_spec (b_remaining b) 0) as [H0|H0].
  - destruct (read 1 (b_source b)) as [[probe err] src] eqn:E.
    destruct (read_ok _ _ _ _ _ E) as (_ & Hs & Ht & Hpat). rewrite H0.
    destruct probe as [|x probe].
    + eexists _, _, _. split; [done|]. cbn. split_and!; [done..|]. destruct err as [err|].
      * destruct (read_err _ _ _ _ _ _ E eq_refl) as [-> Hnil]. rewrite Nat.sub_diag, Hs, Hnil.
        split; [|lia]. by apply (cut_natural 0).
      * apply read_progress in E; [|lia]. rewrite Hs. split_and!; (done || simpl; lia).
    + eexists _, _, _. split; [done|]. cbn. split_and!; [done..| |lia].
      replace (S (b_applied b) - b_applied b)%nat with 1%nat by lia.
      rewrite Hs. apply (cut_truncated 0). simpl. lia.
  - rewrite (proj2 (Z.ltb_ge _ 0)) by done.
    destruct (read _ (b_source b)) as [[data err] src] eqn:E.
    destruct (read_ok _ _ _ _ _ E) as (Hl & Hs & Ht & Hpat).
    eexists _, _, _. split; [done|]. cbn. split_and!; [done|lia|]. destruct err as [err|].
    + destruct (read_err _ _ _ _ _ _ E eq_refl) as [-> Hnil]. rewrite Nat.sub_diag, Hs, Hnil, app_nil_r.
      split; [|lia]. apply cut_natural. lia.
    + split_and!; [lia|done..|]. rewrite Hs, length_app. destruct data as [|x data]; [|simpl; lia].
      apply read_progress in E; [simpl; lia|lia].
Qed.

Lemma truncate_reads ctx ps now (b : Body R) :
  f_Action (b_action b) = "truncate" → 0 ≤ b_remaining b → Forall (λ p, 0 < p)%nat ps →
  ∃ out e b', read_all ctx ps now b = Some (out, e, b', now) ∧ (b_applied b ≤ b_applied b')%nat ∧
    cut_result (Z.to_nat (b_remaining b)) (stream (b_source b)) (terminal (b_source b))
      (ctx_Err ctx now) out e (b_applied b' - b_applied b) ∧
    ((length (stream (b_source b)) + patience (b_source b) < length ps)%nat → e ≠ None).
Proof.
  intros Ha Hr Hps. revert b Ha Hr. induction Hps as [|p ps Hp Hps IH]; intros b Ha Hr.
  { eexists _, _, b. split; [done|]. rewrite Nat.sub_diag. split_and!; [lia| |simpl; lia].
    apply cut_open, prefix_nil. }
  destruct (truncate_step ctx p now b Ha Hr Hp) as (data & e & b1 & Hrd & Ha1 & Hr1 & Hstep).
  cbn [read_all]. rewrite Hrd. cbn [mbind option_bind]. destruct e as [e|].
  { destruct Hstep. eexists _, _, _. split; [done|]. done. }
  destruct Hstep as (Hl & Hrem & Hs & Ht & Happ & Hctx & Hm).
  destruct (IH b1) as (out & e & b2 & Hra & Hle & Hc & Hfin); [by rewrite Ha1|done|].
  rewrite Hra. cbn [mbind option_bind]. eexists _, _, _. split; [done|].
  rewrite Happ in *. split_and!; [done| |intros; apply Hfin; simpl in *; lia].
  rewrite Hs. apply cut_result_cons; [done|]. rewrite Ht in Hc.
  by replace (Z.to_nat (b_remaining b) - length data)%nat with (Z.to_nat (b_remaining b1)) by lia.
Qed.
End truncate.

(** C10. A truncated body, while the request's context lasts: however the source
    splits its data and whatever sizes, none of them zero, the buffers of the
    consumer have, a consumer reading until the first error
    gets exactly the first [limit] bytes and the truncation error when the body
    is longer, the whole body and the source's own end otherwise; the fault is
    reported applied once in the first case and never in the second. Reading is
    never stuck: enough reads reach an error. *)
Theorem truncate_exact `{Reader R} (src : R) (f : Fault) (limit now : Z) (ps : list nat)
    (Hf : http_fault f) (Ha : f_Action f = "truncate") (Hb : f_Bytes f = Some limit)
    (Hps : Forall (λ p, 0 < p)%nat ps)
    (Hlen : (length (stream src) + patience src < length ps)%nat) :
  ∃ b', read_all {| cx_done := None |} ps now (WrapBody src f) =
    Some (if Z.of_nat (length (stream src)) <=? limit
          then (stream src, Some (terminal src), b', now)
          else (take (Z.to_nat limit) (stream src), Some ErrTruncated, b', now)) ∧
    b_applied b' = if Z.of_nat (length (stream src)) <=? limit then 0%nat else 1%nat.
Proof.
  assert (0 ≤ limit) as Hl by (destruct Hf; simplify_eq/=; done).
  destruct (truncate_reads {| cx_done := None |} ps now (WrapBody src f))
    as (out & e & b' & Hr & _ & Hc & Hfin); [done|cbn; rewrite Hb; done|done|].
  exists b'. rewrite Hr. cbn in Hc, Hfin. rewrite Hb, Nat.sub_0_r in Hc. cbn in Hc.
  specialize (Hfin Hlen). inversion Hc; subst; [done| | |done].
  - rewrite (proj2 (Z.leb_gt _ _)) by lia. done.
  - rewrite (proj2 (Z.leb_le _ _)) by lia. done.
Qed.

Section throttle.
Context `{Reader R} (rate : Z).

Definition live : Context := {| cx_done := None |}.

Lemma throttle_pause_pos n : 1 ≤ throttle_pause n rate.
Proof. unfold throttle_pause. lia. Qed.

Lemma throttle_chunk_range : 1 ≤ throttle_chunk rate ≤ 16384.
Proof. unfold throttle_chunk. lia. Qed.

Lemma throttle_step p now (b : Body R) :
  f_Action (b_action b) = "throttle" → f_BytesPerSecond (b_action b) = Some rate → (0 < p)%nat →
  ∃ data e b' now', body_Read live p now b = Some (data, e, b', now') ∧
    b_action b' = b_action b ∧ Z.of_nat (length data) ≤ throttle_chunk rate ∧
    stream (b_source b) = data ++ stream (b_source b') ∧
    terminal (b_source b') = terminal (b_source b) ∧
    now' = (if bool_decide (data = []) then now else now + throttle_pause (Z.of_nat (length data)) rate) ∧
    b_applied b' = (b_applied b + if bool_decide (data = []) then 0 else 1)%nat ∧
    match e with
    | Some err => err = terminal (b_source b) ∧ stream (b_source b') = []
    | None => (length (stream (b_source b')) + patience (b_source b') <
               length (stream (b_source b)) + patience (b_source b))%nat
    end.
Proof.
  intros Ha Hb Hp. unfold body_Read. rewrite bool_decide_false by lia. cbn [live ctx_Err cx_done].
  rewrite Ha, Hb. decide_strings. cbn [mbind option_bind].
  pose proof throttle_chunk_range.
  destruct (read _ (b_source b)) as [[data err] src] eqn:E.
  destruct (read_ok _ _ _ _ _ E) as (Hl & Hs & Ht & Hpat).
  assert (match err with
          | Some err => err = terminal (b_source b) ∧ stream src = []
          | None => (length (stream src) + patience src <
                     length (stream (b_source b)) + patience (b_source b))%nat
          end).
  { destruct err as [err|]; [by apply (read_err _ _ _ _ _ _ E)|]. rewrite Hs, length_app.
    destruct data; [|simpl; lia]. apply read_progress in E; [simpl; lia|lia]. }
  destruct data as [|x data].
  - eexists _, _, _, _. split; [done|]. cbn. rewrite Nat.add_0_r. split_and!; (done || lia).
  - pose proof (throttle_pause_pos (Z.of_nat (length (x :: data)))).
    eexists _, _, _, _. split; [done|]. cbn [set_body b_source b_action b_applied].
    unfold wake, live, cx_done. rewrite bool_decide_false by done.
    split_and!; [done|lia|done|done|lia|lia|done].
Qed.

Lemma throttle_reads ps now (b : Body R) :
  f_Action (b_action b) = "throttle" → f_BytesPerSecond (b_action b) = Some rate →
  Forall (λ p, 0 < p)%nat ps →
  (length (stream (b_source b)) + patience (b_source b) < length ps)%nat →
  ∃ b' now', read_all live ps now b = Some (stream (b_source b), Some (terminal (b_source b)), b', now') ∧
    now + (Z.of_nat (b_applied b') - Z.of_nat (b_applied b)) ≤ now' ∧
    (b_applied b ≤ b_applied b')%nat ∧
    Z.of_nat (length (stream (b_source b))) ≤
      throttle_chunk rate * (Z.of_nat (b_applied b') - Z.of_nat (b_applied b)).
Proof.
  intros Ha Hb Hps. revert now b Ha Hb.
  induction Hps as [|p ps Hp Hps IH]; intros now b Ha Hb Hlen; [simpl in Hlen; lia|].
  destruct (throttle_step p now b Ha Hb Hp)
    as (data & e & b1 & now1 & Hrd & Ha1 & Hl & Hs & Ht & Hn & Happ & Hstep).
  assert (Z.of_nat (length data) ≤ throttle_chunk rate * (Z.of_nat (b_applied b1) - Z.of_nat (b_applied b)) ∧
          now + (Z.of_nat (b_applied b1) - Z.of_nat (b_applied b)) ≤ now1 ∧
          (b_applied b ≤ b_applied b1)%nat) as (Hc1 & Hc2 & Hc3).
  { pose proof (throttle_pause_pos (Z.of_nat (length data))).
    rewrite Happ, Hn. case_bool_decide; subst; simpl; lia. }
  cbn [read_all]. rewrite Hrd. cbn [mbind option_bind]. destruct e as [e|].
  { destruct Hstep as [-> Hnil]. rewrite Hs, Hnil, app_nil_r in *. eexists b1, now1. done. }
  destruct (IH now1 b1) as (b2 & now2 & Hra & Hn2 & Ha2 & Hc); [by rewrite Ha1|by rewrite Ha1|simpl in *; lia|].
  exists b2, now2. rewrite Hra. cbn [mbind option_bind]. rewrite Hs, Ht, length_app.
  split_and!; [done|lia|lia|lia].
Qed.
End throttle.

(** A throttled body: the consumer receives every byte of the source and
    its end, unchanged, spread over at least length/chunk paced reads (a chunk
    is a tenth of a second of the rate, at least one byte and at most 16 KiB);
    every one of them is reported as applied and takes at least a nanosecond. *)
Theorem throttle_exact `{Reader R} (src : R) (f : Fault) (rate now : Z) (ps : list nat)
    (Hf : http_fault f) (Ha : f_Action f = "throttle") (Hb : f_BytesPerSecond f = Some rate)
    (Hps : Forall (λ p, 0 < p)%nat ps)
    (Hlen : (length (stream src) + patience src < length ps)%nat) :
  ∃ b' now', read_all live ps now (WrapBody src f) = Some (stream src, Some (terminal src), b', now') ∧
    now + Z.of_nat (b_applied b') ≤ now' ∧
    Z.of_nat (length (stream src)) ≤ throttle_chunk rate * Z.of_nat (b_applied b').
Proof.
  destruct (throttle_reads rate ps now (WrapBody src f)) as (b' & now' & Hr & Hn & _ & Hc);
    [done..|].
  exists b', now'. cbn in *. split_and!; [done|lia|lia].
Qed.

(** ** Witnesses *)

Definition example_delay : Fault :=
  http_fields BeforeUpstreamRequest "delay" (Some 5) None None None "" None None.
Definition example_truncate : Fault :=
  http_fields AfterUpstreamHeaders "truncate" None None None None "response" (Some 2) None.
Definition example_throttle : Fault :=
  http_fields AfterUpstreamHeaders "throttle" None None None None "response" None (Some 20).
Definition example_source : chunks :=
  {| ck_data := of_string "abcd"; ck_end := EOF; ck_schedule := [1; 0; 2]%nat |}.

Lemma Execute_contract_witness :
  ∃ ok err now',
    Execute {| cx_done := Some (9, Canceled) |} example_delay {| tf_log := []; tf_result := None |} 1 =
      Some (ok, err, {| tf_log := [CApplied]; tf_result := None |}, now') ∧
    ok = bool_decide (CApplied ∈ expected_calls example_delay None) ∧
    1 ≤ now' ≤ 1 + 5 ∧
    (ctx_Err {| cx_done := Some (9, Canceled) |} now' = None → now' = 1 + 5 ∧ (err = None ∨ err = None)).
Proof.
  apply (Execute_contract {| cx_done := Some (9, Canceled) |} example_delay None 1); [|reflexivity].
  split_and!; [apply hf_delay; [by left|lia]|discriminate|discriminate|discriminate].
Defined.

Lemma truncate_exact_witness :
  ∃ b', read_all {| cx_done := None |} (replicate 9 3%nat) 0 (WrapBody example_source example_truncate) =
          Some (of_string "ab", Some ErrTruncated, b', 0) ∧ b_applied b' = 1%nat.
Proof.
  destruct (truncate_exact example_source example_truncate 2 0 (replicate 9 3%nat)) as (b' & Hr & Ha);
    try reflexivity.
  - apply hf_truncate; [right|lia].
  - by repeat constructor.
  - vm_compute. lia.
  - exists b'. split; [rewrite Hr|rewrite Ha]; vm_compute; reflexivity.
Defined.

Lemma throttle_exact_witness :
  ∃ b' now', read_all live (replicate 9 3%nat) 0 (WrapBody example_source example_throttle) =
      Some (stream example_source, Some (terminal example_source), b', now') ∧ 0 + Z.of_nat (b_applied b') ≤ now' ∧
    Z.of_nat (length (stream example_source)) ≤ throttle_chunk 20 * Z.of_nat (b_applied b').
Proof.
  apply (throttle_exact example_source example_throttle 20 0 (replicate 9 3%nat)); try reflexivity.
  - apply hf_throttle; [right|lia].
  - by repeat constructor.
  - vm_compute. lia.
Defined.
