(* ===== verification/BodyClose.v ===== *)
(** * Body.Close and concurrent reads (internal/fault/body.go)

    The transport may still read a wrapped body while another goroutine closes it.
    Read holds the mutex of the body throughout, Close closes the source and then
    takes the mutex once. [Fault] models one Read as a function; here are any number
    of readers and one closer, with a step per action of the mutex, the source and
    the pause. *)

From S2P Require Import Prelude GoLib GoRand Config Fault.
Local Open Scope go_scope.

(** A goroutine that reads: not in Read, waiting for the mutex with a buffer of [p]
    bytes, holding it, in a call of source.Read for [k] bytes that began while the
    source was open ([live]) or after it was closed, in the pause after [n] bytes,
    about to return [n] bytes. *)
Inductive reader :=
| Idle | Locking (p : nat) | Holding (p : nat) | Asking (k : nat) (live : bool) | Pacing (n : nat) | Unlocking (n : nat).

(** How far Close is. *)
Inductive closer := NotClosed | SourceClosed | Joined | Returned.

#[export] Instance closer_eq_dec : EqDecision closer. Proof. solve_decision. Defined.

(** [sh_open]: the source is open; [sh_done]: the context has ended; [sh_mutex]: the
    mutex is held; [sh_applied] and [sh_delivered] count onApplied calls and bytes
    returned. *)
Record shared := {
  sh_remaining : Z;
  sh_open : bool;
  sh_done : bool;
  sh_mutex : bool;
  sh_readers : list reader;
  sh_closer : closer;
  sh_applied : nat;
  sh_delivered : nat
}.

Definition set_reader (i : nat) (r : reader) (mutex : bool) (s : shared) : shared :=
  {| sh_remaining := sh_remaining s; sh_open := sh_open s; sh_done := sh_done s; sh_mutex := mutex;
     sh_readers := <[i := r]> (sh_readers s); sh_closer := sh_closer s; sh_applied := sh_applied s; sh_delivered := sh_delivered s |}.
Definition set_counts (remaining : Z) (applied delivered : nat) (s : shared) : shared :=
  {| sh_remaining := remaining; sh_open := sh_open s; sh_done := sh_done s; sh_mutex := sh_mutex s; sh_readers := sh_readers s;
     sh_closer := sh_closer s; sh_applied := applied; sh_delivered := delivered |}.
Definition set_closer (c : closer) (open mutex : bool) (s : shared) : shared :=
  {| sh_remaining := sh_remaining s; sh_open := open; sh_done := sh_done s; sh_mutex := mutex; sh_readers := sh_readers s;
     sh_closer := c; sh_applied := sh_applied s; sh_delivered := sh_delivered s |}.
Definition set_done (s : shared) : shared :=
  {| sh_remaining := sh_remaining s; sh_open := sh_open s; sh_done := true; sh_mutex := sh_mutex s; sh_readers := sh_readers s;
     sh_closer := sh_closer s; sh_applied := sh_applied s; sh_delivered := sh_delivered s |}.

(** [Ask i]: reader [i] checks its arguments and calls source.Read; [Body i n]: the
    source returns [n] bytes to it. *)
Inductive label :=
| Call (i p : nat)
| Lock (i : nat)
| Ask (i : nat)
| Body (i n : nat)
| Pace (i : nat)
| Unlock (i : nat)
| Close
| Cancel.

Section body.
Context (action : Config.Fault).

(** How many bytes Read asks the source for; [None] is a nil dereference or a slice
    out of range. *)
Definition ask (p : nat) (remaining : Z) : option nat :=
  if f_Action action =s "truncate" then
    if remaining =? 0 then Some 1%nat else if remaining <? 0 then None else Some (min p (Z.to_nat remaining))
  else rate ← f_BytesPerSecond action; Some (min p (Z.to_nat (throttle_chunk rate))).

(** Read once the source has returned [n] bytes. *)
Definition after_source (i n : nat) (s : shared) : shared :=
  if f_Action action =s "truncate" then
    if sh_remaining s =? 0
    then set_reader i (Unlocking 0) true (set_counts 0 (if (n =? 0)%nat then sh_applied s else S (sh_applied s)) (sh_delivered s) s)
    else set_reader i (Unlocking n) true (set_counts (sh_remaining s - Z.of_nat n) (sh_applied s) (sh_delivered s) s)
  else if (n =? 0)%nat then set_reader i (Unlocking 0) true s
  else set_reader i (Pacing n) true (set_counts (sh_remaining s) (S (sh_applied s)) (sh_delivered s) s).

(** Body.Read with the mutex, up to the call of source.Read. *)
Definition ask_step (i p : nat) (s : shared) : option shared :=
  if (p =? 0)%nat || sh_done s then Some (set_reader i (Unlocking 0) true s)
  else k ← ask p (sh_remaining s); Some (set_reader i (Asking k (sh_open s)) true s).

(** source.Read returns: a call that began on a closed source has no bytes, one that
    overlaps source.Close may have some. *)
Definition read_step (i n k : nat) (live : bool) (s : shared) : option shared :=
  if (n <=? (if live then k else 0))%nat then Some (after_source i n s) else None.

(** Body.Close: source.Close, mu.Lock, mu.Unlock. *)
Definition close_step (s : shared) : option shared :=
  match sh_closer s with
  | NotClosed => Some (set_closer SourceClosed false (sh_mutex s) s)
  | SourceClosed => if sh_mutex s then None else Some (set_closer Joined (sh_open s) true s)
  | Joined => Some (set_closer Returned (sh_open s) false s)
  | Returned => None
  end.

Definition bstep (l : label) (s : shared) : option shared :=
  match l with
  | Call i p => match sh_readers s !! i with Some Idle => Some (set_reader i (Locking p) (sh_mutex s) s) | _ => None end
  | Lock i =>
      match sh_readers s !! i with
      | Some (Locking p) => if sh_mutex s then None else Some (set_reader i (Holding p) true s)
      | _ => None
      end
  | Ask i => match sh_readers s !! i with Some (Holding p) => ask_step i p s | _ => None end
  | Body i n => match sh_readers s !! i with Some (Asking k live) => read_step i n k live s | _ => None end
  | Pace i =>
      match sh_readers s !! i with
      | Some (Pacing n) => Some (set_reader i (Unlocking (if sh_done s then 0 else n)) true s)
      | _ => None
      end
  | Unlock i =>
      match sh_readers s !! i with
      | Some (Unlocking n) => Some (set_reader i Idle false (set_counts (sh_remaining s) (sh_applied s) (sh_delivered s + n) s))
      | _ => None
      end
  | Close => close_step s
  | Cancel => Some (set_done s)
  end.

Fixpoint brun (ls : list label) (s : shared) : option shared :=
  match ls with
  | [] => Some s
  | l :: ls' => s' ← bstep l s; brun ls' s'
  end.

(** A body just wrapped, [n] goroutines about to read it. *)
Definition wrapped (n : nat) : shared :=
  {| sh_remaining := default 0 (f_Bytes action); sh_open := true; sh_done := false; sh_mutex := false; sh_readers := replicate n Idle;
     sh_closer := NotClosed; sh_applied := 0; sh_delivered := 0 |}.

(** ** The invariant *)

(** Whether a reader holds the mutex, and the bytes it has taken from the source and
    not yet returned. *)
Definition holds (r : reader) : nat := match r with Idle | Locking _ => 0 | _ => 1 end.
Definition taken (r : reader) : nat := match r with Pacing n | Unlocking n => n | _ => 0 end.
(** A call of source.Read that may still return bytes. *)
Definition reads (r : reader) : nat := match r with Asking _ true => 1 | _ => 0 end.
(** What the budget still allows a reader. *)
Definition within (remaining : Z) (r : reader) : Prop :=
  match r with Asking k _ => remaining = 0 ∨ Z.of_nat k ≤ remaining | _ => True end.
Definition closer_holds (c : closer) : nat := match c with Joined => 1 | _ => 0 end.
Definition total (f : reader → nat) (l : list reader) : nat := sum_list_with f l.
#[local] Arguments total : simpl never.

Record body_inv (s : shared) : Prop := {
  bi_mutex : (total holds (sh_readers s) + closer_holds (sh_closer s) = if sh_mutex s then 1 else 0)%nat;
  bi_open : sh_open s = match sh_closer s with NotClosed => true | _ => false end;
  bi_joined : sh_closer s = Joined ∨ sh_closer s = Returned → (total taken (sh_readers s) + total reads (sh_readers s) = 0)%nat;
  bi_budget : f_Action action = "truncate" → 0 ≤ sh_remaining s ∧
    (∀ i r, sh_readers s !! i = Some r → within (sh_remaining s) r) ∧
    sh_remaining s + Z.of_nat (sh_delivered s + total taken (sh_readers s)) ≤ default 0 (f_Bytes action)
}.

Lemma total_insert f l i r r' : l !! i = Some r → (total f (<[i := r']> l) + f r = total f l + f r')%nat.
Proof.
  unfold total. revert i. induction l as [|x l IH]; intros [|i] Hi; [done|done|injection Hi as ->; cbn; lia|].
  specialize (IH _ Hi). change (<[S i := r']> (x :: l)) with (x :: <[i := r']> l). cbn [sum_list_with]. lia.
Qed.

Lemma total_le f l i r : l !! i = Some r → (f r ≤ total f l)%nat.
Proof.
  unfold total. revert i. induction l as [|x l IH]; intros [|i] Hi; [done|done|injection Hi as ->; cbn; lia|].
  specialize (IH _ Hi). cbn [sum_list_with]. lia.
Qed.

(** A reader that holds the mutex is the only one. *)
Lemma only_holder l i j r r' :
  l !! i = Some r → holds r = 1%nat → (total holds l ≤ 1)%nat → l !! j = Some r' → i ≠ j → holds r' = 0%nat.
Proof.
  intros Hi Hh Ht Hj Hne. pose proof (total_insert holds l i r Idle Hi) as Hins. cbn in Hins.
  assert (<[i := Idle]> l !! j = Some r') as Hj' by (by rewrite list_lookup_insert_ne). pose proof (total_le holds _ _ _ Hj'). lia.
Qed.

Lemma wrapped_inv n : 0 ≤ default 0 (f_Bytes action) → body_inv (wrapped n).
Proof.
  intros Hb. assert (∀ f, f Idle = 0%nat → total f (replicate n Idle) = 0%nat) as Ht.
  { intros f Hf. unfold total. induction n as [|k IH]; [done|]. cbn. by rewrite Hf, IH. }
  split; cbn; rewrite ?Ht by done; try done. intros _. split_and!; [done| |lia]. by intros i r [-> _]%lookup_replicate.
Qed.

(** What a step of one reader must respect. *)
Record moves (r r' : reader) (m : bool) (rem : Z) (dl : nat) (s : shared) : Prop := {
  mv_mutex : (holds r' + Nat.b2n (sh_mutex s) = holds r + Nat.b2n m)%nat;
  mv_joined : sh_closer s = Joined ∨ sh_closer s = Returned → (taken r + reads r = 0)%nat → (taken r' + reads r' = 0)%nat;
  mv_alone : rem = sh_remaining s ∨ holds r = 1%nat;
  mv_budget : f_Action action = "truncate" → 0 ≤ sh_remaining s → within (sh_remaining s) r → 0 ≤ rem ∧ within rem r' ∧
    rem + Z.of_nat (dl + taken r') ≤ sh_remaining s + Z.of_nat (sh_delivered s + taken r)
}.

Lemma move_inv i r r' m rem ap dl s :
  body_inv s → sh_readers s !! i = Some r → moves r r' m rem dl s → body_inv (set_reader i r' m (set_counts rem ap dl s)).
Proof.
  intros [Hm Ho Hj Hb] Hi [Em Ej Ea Eb].
  pose proof (total_insert holds _ _ _ r' Hi) as T1. pose proof (total_insert taken _ _ _ r' Hi) as T2. pose proof (total_insert reads _ _ _ r' Hi) as T3.
  pose proof (total_le holds _ _ _ Hi). pose proof (total_le taken _ _ _ Hi). pose proof (total_le reads _ _ _ Hi).
  split; cbn.
  - destruct m, (sh_mutex s); cbn in *; lia.
  - done.
  - intros Hc. specialize (Hj Hc). specialize (Ej Hc). lia.
  - intros Ht. destruct (Hb Ht) as (Hz & Hw & Hle). destruct (Eb Ht Hz (Hw _ _ Hi)) as (Hz' & Hr' & Hle'). split_and!; [done| |lia].
    intros j x Hx. destruct (decide (i = j)) as [<-|Hne].
    + rewrite list_lookup_insert_eq in Hx by (by eapply lookup_lt_Some). by simplify_eq.
    + rewrite list_lookup_insert_ne in Hx by done. destruct Ea as [->|Ea]; [by eapply Hw|].
      assert (holds x = 0%nat) as Hx0 by (eapply only_holder; [exact Hi|done| |exact Hx|done]; destruct (sh_mutex s); lia).
      by destruct x.
Qed.

Lemma set_counts_id s : set_counts (sh_remaining s) (sh_applied s) (sh_delivered s) s = s.
Proof. by destruct s. Qed.

Lemma move_inv' i r r' m s :
  body_inv s → sh_readers s !! i = Some r → moves r r' m (sh_remaining s) (sh_delivered s) s → body_inv (set_reader i r' m s).
Proof. intros Hi Hr Hm. rewrite <- (set_counts_id s) at 1. by eapply move_inv. Qed.

(** The holder of the mutex finds it locked. *)
Lemma holder_locked i r s : body_inv s → sh_readers s !! i = Some r → holds r = 1%nat → sh_mutex s = true.
Proof. intros [Hm _ _ _] Hi Hh. pose proof (total_le holds _ _ _ Hi). destruct (sh_mutex s); [done|lia]. Qed.

Lemma ask_inv i p s s' : body_inv s → sh_readers s !! i = Some (Holding p) → ask_step i p s = Some s' → body_inv s'.
Proof.
  intros Hv Hi Hs. pose proof (holder_locked _ _ _ Hv Hi eq_refl) as Hl. unfold ask_step in Hs. destruct (_ || _).
  - injection Hs as <-. eapply move_inv'; [done..|]. split; cbn; rewrite ?Hl; try done; auto; intros; split_and?; (done || lia).
  - apply bind_Some in Hs as (k & Hk & Hs). injection Hs as <-. eapply move_inv'; [done..|]. split; cbn; rewrite ?Hl; try done; auto.
    + intros Hc _. rewrite (bi_open _ Hv). by destruct Hc as [->| ->].
    + intros Ht H0 _. split_and!; [done| |lia]. unfold ask in Hk. rewrite Ht in Hk. cbn in Hk.
      destruct (sh_remaining s =? 0) eqn:E0; [left; lia|]. destruct (sh_remaining s <? 0); [done|]. injection Hk as <-. right. lia.
Qed.

Lemma read_inv i n k live s s' :
  body_inv s → sh_readers s !! i = Some (Asking k live) → read_step i n k live s = Some s' → body_inv s'.
Proof.
  intros Hv Hi Hs. pose proof (holder_locked _ _ _ Hv Hi eq_refl) as Hl. unfold read_step in Hs.
  destruct (n <=? _)%nat eqn:En; [|done]. injection Hs as <-. apply Nat.leb_le in En.
  assert (n ≤ k ∧ (live = false → n = 0))%nat as [Hnk Hn] by (destruct live; split; (done || lia)).
  assert (reads (Asking k live) = 0%nat → n = 0%nat) as Hz by (cbn; destruct live; [done|auto]).
  unfold after_source. destruct (str_eq (f_Action action) "truncate") eqn:Et.
  - apply str_eq_true in Et. destruct (sh_remaining s =? 0) eqn:Er; eapply move_inv; try done; split; cbn; rewrite ?Hl; try done; auto.
    + intros. split_and!; (done || lia).
    + intros _ Hr. rewrite Hz by (cbn; lia). done.
    + intros _ H0 [Hw|Hw]; split_and!; (done || lia).
  - apply str_eq_false in Et. destruct (n =? 0)%nat eqn:E0; [eapply move_inv'|eapply move_inv]; try done; split; cbn; rewrite ?Hl; try done; auto.
    intros _ Hr. rewrite Hz by (cbn; lia). done.
Qed.

Lemma bstep_inv l s s' : body_inv s → bstep l s = Some s' → body_inv s'.
Proof.
  intros Hv Hs. destruct l as [i p|i|i|i n|i|i| |]; cbn in Hs; [destruct (sh_readers s !! i) as [[]|] eqn:Hi; try done..| |].
  - injection Hs as <-. eapply move_inv'; [done..|]. split; cbn; auto; intros; split_and?; (done || lia).
  - destruct (sh_mutex s) eqn:Em; [done|]. injection Hs as <-. eapply move_inv'; [done..|]. split; cbn; rewrite ?Em; auto; intros; split_and?; (done || lia).
  - by eapply ask_inv.
  - by eapply read_inv.
  - pose proof (holder_locked _ _ _ Hv Hi eq_refl) as Hl. injection Hs as <-. eapply move_inv'; [done..|].
    split; cbn; rewrite ?Hl; auto; intros; destruct (sh_done s); split_and?; (done || lia).
  - pose proof (holder_locked _ _ _ Hv Hi eq_refl) as Hl. injection Hs as <-. eapply move_inv; [done..|].
    split; cbn; rewrite ?Hl; auto; intros; split_and?; (done || lia).
  - destruct Hv as [Hm Ho Hj Hb]. unfold close_step in Hs.
    destruct (sh_closer s) eqn:Ec; [|destruct (sh_mutex s) eqn:Em| |]; simplify_eq; split; cbn in *; try done; try lia.
    + by intros [?|?].
    + intros _. assert (total holds (sh_readers s) = 0)%nat as Hz by lia. clear -Hz. unfold total in *. induction (sh_readers s) as [|r l IH]; [done|].
      cbn in *. destruct r; cbn in *; try lia; rewrite IH; lia.
    + destruct (sh_mutex s); lia.
    + intros _. apply Hj. by left.
  - injection Hs as <-. destruct Hv. by split.
Qed.

Lemma brun_app ls ls' s : brun (ls ++ ls') s = brun ls s ≫= brun ls'.
Proof. revert s. induction ls as [|l ls IH]; intros s; [done|]. cbn. destruct (bstep l s); [apply IH|done]. Qed.

Lemma brun_inv ls s s' : body_inv s → brun ls s = Some s' → body_inv s'.
Proof.
  revert s. induction ls as [|l ls IH]; intros s Hi Hr; cbn in Hr; [by simplify_eq|].
  apply bind_Some in Hr as (s1 & Hs & Hr). eapply IH; [|done]. by eapply bstep_inv.
Qed.

(** ** Close joins the reads *)

Definition is_joined (c : closer) : bool := match c with Joined | Returned => true | _ => false end.

(** A read that has the mutex keeps it until it returns, and Close waits for it. *)
Lemma holder_step l i r s s' :
  body_inv s → sh_readers s !! i = Some r → holds r = 1%nat → is_joined (sh_closer s) = false → bstep l s = Some s' →
  l = Unlock i ∨ (∃ r', sh_readers s' !! i = Some r' ∧ holds r' = 1%nat) ∧ is_joined (sh_closer s') = false.
Proof.
  intros Hv Hi Hh Hc Hs. pose proof (holder_locked _ _ _ Hv Hi Hh) as Hl.
  assert (∀ j r', holds r' = 1%nat ∨ j ≠ i → ∃ x, <[j := r']> (sh_readers s) !! i = Some x ∧ holds x = 1%nat) as Hset.
  { intros j r' Hr. destruct (decide (j = i)) as [->|Hne].
    - exists r'. rewrite list_lookup_insert_eq by (by eapply lookup_lt_Some). destruct Hr as [?|?]; done.
    - exists r. by rewrite list_lookup_insert_ne. }
  destruct l as [j p|j|j|j n|j|j| |]; cbn in Hs; [destruct (sh_readers s !! j) as [x|] eqn:Hj; [|done]; destruct x; try done..| |].
  - injection Hs as <-. right. split; [|done]. apply Hset. right. intros ->. rewrite Hi in Hj. by simplify_eq.
  - by rewrite Hl in Hs.
  - right. unfold ask_step in Hs. destruct (_ || _); [|apply bind_Some in Hs as (? & _ & Hs)]; injection Hs as <-; (split; [|done]); apply Hset; by left.
  - right. unfold read_step in Hs. destruct (_ <=? _)%nat; [|done]. injection Hs as <-. unfold after_source.
    destruct (str_eq _ _); [destruct (sh_remaining s =? 0)|destruct (n =? 0)%nat]; (split; [|done]); apply Hset; by left.
  - right. injection Hs as <-. split; [|done]. apply Hset. by left.
  - injection Hs as <-. destruct (decide (j = i)) as [->|Hne]; [by left|right]. split; [|done]. apply Hset. by right.
  - right. unfold close_step in Hs. rewrite Hl in Hs. destruct (sh_closer s); try done. injection Hs as <-. split; [by exists r|done].
  - right. injection Hs as <-. split; [by exists r|done].
Qed.

Lemma holder_returns ls i r s s' :
  body_inv s → sh_readers s !! i = Some r → holds r = 1%nat → is_joined (sh_closer s) = false →
  brun ls s = Some s' → is_joined (sh_closer s') = true → Unlock i ∈ ls.
Proof.
  revert r s. induction ls as [|l ls IH]; intros r s Hv Hi Hh Hc Hr Hj; cbn in Hr; [simplify_eq; congruence|].
  apply bind_Some in Hr as (s1 & Hs & Hr). destruct (holder_step l i r s s1) as [->|[(r' & Hi' & Hh') Hc']]; [done..|apply list_elem_of_here|].
  apply list_elem_of_further. eapply IH; [by eapply bstep_inv|done..].
Qed.

(** With the source closed and the reads before joined, a step changes neither
    count. *)
Lemma closed_step l s s' :
  body_inv s → sh_closer s = Returned → bstep l s = Some s' →
  sh_closer s' = Returned ∧ sh_applied s' = sh_applied s ∧ sh_delivered s' = sh_delivered s.
Proof.
  intros [_ Ho Hj _] Hc Hs. rewrite Hc in Ho. specialize (Hj (or_intror Hc)).
  destruct l as [i p|i|i|i n|i|i| |]; cbn in Hs; [destruct (sh_readers s !! i) as [[]|] eqn:Hi; try done..| |].
  - by injection Hs as <-.
  - destruct (sh_mutex s); [done|]. by injection Hs as <-.
  - unfold ask_step in Hs. destruct (_ || _); [|apply bind_Some in Hs as (? & _ & Hs)]; by injection Hs as <-.
  - pose proof (total_le reads _ _ _ Hi) as Hle. cbn in Hle. destruct live; [lia|]. unfold read_step in Hs. destruct n; [|done].
    injection Hs as <-. unfold after_source. by repeat case_match.
  - by injection Hs as <-.
  - injection Hs as <-. pose proof (total_le taken _ _ _ Hi) as Hle. cbn in Hle |- *. split_and!; [done..|lia].
  - unfold close_step in Hs. by rewrite Hc in Hs.
  - by injection Hs as <-.
Qed.

Lemma closed_run later s s' :
  body_inv s → sh_closer s = Returned → brun later s = Some s' → sh_applied s' = sh_applied s ∧ sh_delivered s' = sh_delivered s.
Proof.
  revert s. induction later as [|l later IH]; intros s Hi Hc Hl; cbn in Hl; [by simplify_eq|]. apply bind_Some in Hl as (s1 & Hs & Hl).
  destruct (closed_step _ _ _ Hi Hc Hs) as (Hc1 & Ha & Hd). rewrite <- Ha, <- Hd. apply IH; [by eapply bstep_inv|done|done].
Qed.

(** C34. Close joins the active reads: a Read that has the mutex at some point before
    Close has returned, in whatever it does there (calling the source, which may
    overlap source.Close, pausing, about to return), has returned by the time Close
    returns. A Read that does not have the mutex then, because it still waits for it
    or is called later, finds the source closed: from then on no Read delivers a byte
    or reports the fault applied, in any interleaving. *)
Theorem body_Close_joins n ls s more s' :
  0 ≤ default 0 (f_Bytes action) → brun ls (wrapped n) = Some s → sh_closer s ≠ Returned →
  brun more s = Some s' → sh_closer s' = Returned →
  (∀ i r, sh_readers s !! i = Some r → holds r = 1%nat → Unlock i ∈ more) ∧
  (∀ i k live, sh_readers s' !! i = Some (Asking k live) → live = false) ∧
  ∀ later s'', brun later s' = Some s'' → sh_applied s'' = sh_applied s' ∧ sh_delivered s'' = sh_delivered s'.
Proof.
  intros Hb Hr Hn Hm Hc. pose proof (brun_inv _ _ _ (wrapped_inv n Hb) Hr) as Hi. pose proof (brun_inv _ _ _ Hi Hm) as Hi'. split_and!.
  - intros i r Hl Hh. eapply (holder_returns more i r s s'); [done..| |done|by rewrite Hc]. destruct (sh_closer s) eqn:Ec; try done.
    pose proof (bi_mutex _ Hi) as Hx. pose proof (total_le holds _ _ _ Hl). rewrite Ec in Hx. cbn in Hx. destruct (sh_mutex s); lia.
  - intros i k live Hl. pose proof (bi_joined _ Hi' (or_intror Hc)). pose proof (total_le reads _ _ _ Hl) as Hle. destruct live; [cbn in Hle; lia|done].
  - intros later s'' Hl. by apply (closed_run later).
Qed.

(** The mutex makes the budget of a truncated body one for all its readers. *)
Theorem truncate_budget n ls s :
  f_Action action = "truncate" → 0 ≤ default 0 (f_Bytes action) → brun ls (wrapped n) = Some s →
  Z.of_nat (sh_delivered s) ≤ default 0 (f_Bytes action).
Proof. intros Ht Hb Hr. destruct (bi_budget _ (brun_inv _ _ _ (wrapped_inv n Hb) Hr) Ht) as (? & _ & ?). lia. Qed.

(** ** Close returns *)

Lemma holder l : (0 < total holds l)%nat → ∃ i r, l !! i = Some r ∧ holds r = 1%nat.
Proof.
  unfold total. induction l as [|x l IH]; cbn; [lia|]. intros Hl. destruct (decide (holds x = 1)%nat) as [E|E]; [by exists 0%nat, x|].
  destruct IH as (i & r & Hi & Hr); [destruct x; cbn in *; lia|]. by exists (S i), r.
Qed.

Definition action_ok : Prop := 0 ≤ default 0 (f_Bytes action) ∧ (f_Action action = "truncate" ∨ is_Some (f_BytesPerSecond action)).

(** Whoever holds the mutex of a closed body comes closer to giving it back. *)
Definition hold_rank (r : reader) : nat :=
  match r with Idle | Locking _ => 0 | Unlocking _ => 1 | Pacing _ => 2 | Asking _ _ => 3 | Holding _ => 4 end.

Lemma release_step i r s :
  action_ok → body_inv s → sh_readers s !! i = Some r → holds r = 1%nat → hold_rank r ≠ 1%nat →
  ∃ l s' r', bstep l s = Some s' ∧ sh_closer s' = sh_closer s ∧ sh_readers s' !! i = Some r' ∧ holds r' = 1%nat ∧ (hold_rank r' < hold_rank r)%nat.
Proof.
  intros [Hb Ha] Hi Hr Hh Hk. assert (i < length (sh_readers s))%nat as Hlen by (by eapply lookup_lt_Some).
  destruct r as [|p|p|k live|m|m]; try done.
  - assert (∃ s' r', ask_step i p s = Some s' ∧ sh_closer s' = sh_closer s ∧ sh_readers s' !! i = Some r' ∧ holds r' = 1%nat ∧ (hold_rank r' < 4)%nat)
      as (s' & r' & E & H1 & H2 & H3 & H4).
    { unfold ask_step. destruct (_ || _).
      - eexists _, (Unlocking 0). split; [done|]. split; [done|]. split; [by apply list_lookup_insert_eq|]. split; [done|cbn; lia].
      - assert (is_Some (ask p (sh_remaining s))) as [k ->].
        { unfold ask. destruct (str_eq (f_Action action) "truncate") eqn:Et.
          - apply str_eq_true in Et. destruct (bi_budget _ Hi Et) as [Hrem _]. destruct (sh_remaining s =? 0); [done|].
            by rewrite (proj2 (Z.ltb_ge _ _) Hrem).
          - destruct Ha as [Ha|[rate ->]]; [by apply str_eq_false in Et|done]. }
        eexists _, (Asking k (sh_open s)). split; [done|]. split; [done|]. split; [by apply list_lookup_insert_eq|]. split; [done|cbn; lia]. }
    exists (Ask i), s', r'. cbn. by rewrite Hr.
  - eexists (Body i 0), _, (Unlocking 0). cbn. rewrite Hr. split; [done|]. unfold after_source. cbn [Nat.eqb].
    destruct (str_eq _ _); [destruct (sh_remaining s =? 0)|]; (split; [done|]); (split; [by apply list_lookup_insert_eq|]); (split; [done|lia]).
  - eexists (Pace i), _, _. cbn. rewrite Hr. split; [done|]. split; [done|]. split; [by apply list_lookup_insert_eq|]. split; [done|cbn; lia].
Qed.

Lemma release i r s :
  action_ok → body_inv s → sh_closer s = SourceClosed → sh_readers s !! i = Some r → holds r = 1%nat →
  ∃ ls s', (length ls ≤ hold_rank r)%nat ∧ brun ls s = Some s' ∧ sh_closer s' = SourceClosed ∧ sh_mutex s' = false.
Proof.
  intros Hok. remember (hold_rank r) as n eqn:En. revert r s En. induction n as [n IH] using lt_wf_ind. intros r s -> Hi Hc Hr Hh.
  destruct (decide (hold_rank r = 1%nat)) as [E|E].
  - destruct r; try done. eexists [Unlock i], _. cbn. rewrite Hr. split_and!; [lia|done..].
  - destruct (release_step i r s) as (l & s1 & r1 & Hs & Hc1 & Hr1 & Hh1 & Hlt); [done..|].
    destruct (IH (hold_rank r1) Hlt r1 s1) as (ls & s' & Hlen & Hrun & Hc' & Hm'); [done|by eapply bstep_inv|congruence|done..|].
    exists (l :: ls), s'. cbn [brun]. rewrite Hs. split_and!; [cbn; lia|done..].
Qed.

(** Close never waits forever: with the source closed, source.Read returns, so whoever
    holds the mutex gives it back after at most four steps of its own, whatever the
    other readers do, and Close takes three. *)
Theorem body_Close_returns n ls s :
  action_ok → brun ls (wrapped n) = Some s →
  ∃ more s', (length more ≤ 7)%nat ∧ brun more s = Some s' ∧ sh_closer s' = Returned.
Proof.
  intros Hok Hr. pose proof (brun_inv _ _ _ (wrapped_inv n (proj1 Hok)) Hr) as Hi.
  assert (∀ s, sh_closer s = SourceClosed → sh_mutex s = false → ∃ s', brun [Close; Close] s = Some s' ∧ sh_closer s' = Returned) as Hfree.
  { intros s0 Hc Hm. cbn. unfold close_step. rewrite Hc, Hm. by eexists. }
  assert (∀ s, body_inv s → sh_closer s = SourceClosed →
    ∃ more s', (length more ≤ 6)%nat ∧ brun more s = Some s' ∧ sh_closer s' = Returned) as Hclosed.
  { intros s0 Hi0 Hc. destruct (sh_mutex s0) eqn:Em.
    - pose proof (bi_mutex _ Hi0) as Hm. rewrite Em, Hc in Hm. destruct (holder (sh_readers s0)) as (i & r & Hl & Hh); [cbn in Hm; lia|].
      destruct (release i r s0 Hok Hi0 Hc Hl Hh) as (l1 & s1 & Hlen & H1 & Hc1 & Hm1). destruct (Hfree s1 Hc1 Hm1) as (s2 & H2 & Hc2).
      assert (hold_rank r ≤ 4)%nat by (destruct r; cbn; lia).
      exists (l1 ++ [Close; Close]), s2. split; [rewrite length_app; cbn; lia|]. split; [|done]. by rewrite brun_app, H1.
    - destruct (Hfree s0 Hc Em) as (s2 & H2 & Hc2). exists [Close; Close], s2. split; [cbn; lia|done]. }
  destruct (sh_closer s) eqn:Ec.
  - destruct (bstep Close s) as [s1|] eqn:E1; cbn in E1; unfold close_step in E1; rewrite Ec in E1; [|done].
    assert (bstep Close s = Some s1) as Hs1 by (cbn; unfold close_step; by rewrite Ec).
    destruct (Hclosed s1) as (more & s' & Hlen & Hm & Hc); [by eapply bstep_inv|by simplify_eq|].
    exists (Close :: more), s'. split; [cbn; lia|]. split; [|done]. cbn [brun]. by rewrite Hs1.
  - destruct (Hclosed s Hi Ec) as (more & s' & Hlen & Hm & Hc). exists more, s'. split; [lia|done].
  - exists [Close], (set_closer Returned (sh_open s) false s). split; [cbn; lia|]. split; [|done]. cbn. unfold close_step. by rewrite Ec.
  - exists [], s. split; [cbn; lia|done].
Qed.
End body.

(** ** Two readers and a closer *)

Definition cut3 : Config.Fault :=
  {| f_Phase := ""; f_Action := "truncate"; f_Duration := None; f_MaxDuration := None; f_Status := None; f_Body := None; f_Direction := "";
     f_Bytes := Some 3; f_BytesPerSecond := None; f_AfterBytes := None; f_AfterDuration := None; f_TriggerDirection := "" |}.
(** The first reader is in the source when Close closes it, and still gets its bytes;
    the second waits for the mutex. *)
Definition begun : list label := [Call 0 2; Call 1 8; Lock 0; Ask 0].
Definition racing : shared := default (wrapped cut3 0) (brun cut3 begun (wrapped cut3 2)).
Definition ending : list label := [Close; Body 0 2; Unlock 0; Close; Close].
Definition raced : shared := default racing (brun cut3 ending racing).
Definition read_again : shared := default raced (brun cut3 [Lock 1; Ask 1; Body 1 0; Unlock 1] raced).

Lemma body_Close_joins_witness :
  Unlock 0 ∈ ending ∧ sh_applied read_again = sh_applied raced ∧ sh_delivered read_again = sh_delivered raced.
Proof.
  destruct (body_Close_joins cut3 2 begun racing ending raced) as (Hj & _ & Hl).
  - done.
  - vm_compute. reflexivity.
  - vm_compute. discriminate.
  - vm_compute. reflexivity.
  - vm_compute. reflexivity.
  - split; [apply (Hj 0%nat (Asking 2 true)); vm_compute; reflexivity|].
    apply (Hl [Lock 1; Ask 1; Body 1 0; Unlock 1] read_again). vm_compute. reflexivity.
Defined.

Lemma truncate_budget_witness : Z.of_nat (sh_delivered racing) ≤ 3.
Proof. apply (truncate_budget cut3 2 begun racing); [done|done|vm_compute; reflexivity]. Defined.

Lemma body_Close_returns_witness :
  ∃ more s', (length more ≤ 7)%nat ∧ brun cut3 more racing = Some s' ∧ sh_closer s' = Returned.
Proof. apply (body_Close_returns cut3 2 begun racing); [split; [done|by left]|vm_compute; reflexivity]. Defined.
