(* ===== verification/Adapter.v ===== *)
(** * What the protocol adapters share

    The interface of runtime control seen from an adapter (acquire a snapshot,
    decide through it) with its laws as a class, the instance for the control
    service, the recorder events an adapter builds, and the commit fault both
    database adapters apply (postgresql/session.go, mysql/session.go: apply). *)

From stdpp Require Import relations.
From S2P Require Import Prelude GoLib GoRand Config Validate ValidateSpec Engine EngineSpec Control ControlSpec Recorder GoIO.
Local Open Scope go_scope.

(** ** The interface *)

Class Decisions (D S : Type) := {
  acquire : D → S;
  snap_info : S → Info;
  decide_at : D → S → string → Metadata → option (D * (Decision * option string))
}.

(** What an adapter for proxy [pid] relies on: snapshots stay usable whatever
    other goroutines do ([rely]), decisions return, and a selected fault is one
    the adapter can execute. *)
Class DecisionsOk (D S : Type) `{Decisions D S} (pid : string) (fault_ok : Fault → Prop) := {
  good : D → Prop;
  held : D → S → Prop;
  rely : D → D → Prop;
  rely_refl d : rely d d;
  acquire_held d : good d → held d (acquire d);
  rely_good d d' : good d → rely d d' → good d';
  rely_held d d' s : rely d d' → held d s → held d' s;
  decide_ok d s md :
    good d → held d s →
    ∃ d' dec err, decide_at d s pid md = Some (d', (dec, err)) ∧ good d' ∧
      (∀ s', held d s' → held d' s') ∧
      (dc_Selected dec = true → fault_ok (dc_Fault dec))
}.

(** The faults validation leaves to the adapter of a protocol. *)
Definition adapter_fault (protocol : string) (f : Fault) : Prop :=
  if is_db protocol then commit_fault f
  else if str_eq protocol "tcp" then tcp_fault f
  else http_fault f ∧ (f_Action f = "respond" → is_Some (f_Body f)).

Lemma rule_wf_fault protocol r : rule_wf protocol r → adapter_fault protocol (r_Fault r).
Proof. by intros (_ & _ & H). Qed.

(** ** The control service implements it *)

#[export] Instance service_Decisions : Decisions Service Snapshot := {
  acquire := Acquire;
  snap_info := sn_info;
  decide_at := snapshot_Decide
}.

Section service.
Context {W : Type} (persist : Document → Result → W → W * option string).
Context (pid protocol : string).

(** The rules of a revision: selectors never panic, proxy [pid] speaks [protocol]. *)
Definition rule_good (pid' : string) (r : Rule) : Prop :=
  selector_ok (r_Select r) ∧ (pid' = pid → rule_wf protocol r).

Definition service_good (s : Service) : Prop :=
  is_Some (sv_heap s !! sn_revision (sv_active s)) ∧
  ∀ a v, sv_heap s !! a = Some v → rules_all rule_good (rv_engine v).

Definition service_held (s : Service) (sn : Snapshot) : Prop :=
  is_Some (sv_heap s !! sn_revision sn).

(** Documents that keep the protocol of the proxy, as a compatible reload does. *)
Definition document_keeps (d : Document) : Prop :=
  document_ok d ∧ ∀ p, p ∈ c_Proxies (d_config d) → p_ID p = pid → p_Protocol p = protocol.

Definition op_keeps (o : op) : Prop :=
  match o with OpApply (Some d) _ _ => document_keeps d | _ => True end.

(** One control operation or decision of another goroutine, and any number. *)
Definition service_step (s s' : Service) : Prop :=
  ∃ o w w' r, op_keeps o ∧ exec persist o (s, w) = Some (s', w', r).
Definition service_rely : relation Service := rtc service_step.

Lemma document_rules_good d e :
  document_keeps d → Engine.New (Some d) = Ok e → rules_all rule_good e.
Proof.
  intros [Hd Hp] He pid' rules st Hl Hin.
  destruct (New_rules_all d e Hd He pid' rules st Hl Hin) as (p & Hpin & Hid & _ & Hwf).
  split; [apply Hwf|]. intros ->. by rewrite <- (Hp p Hpin Hid).
Qed.

Lemma service_decide s sn pid' md :
  service_good s → service_held s sn →
  ∃ s' dec err, snapshot_Decide s sn pid' md = Some (s', (dec, err)) ∧ service_good s' ∧
    (∀ sn', service_held s sn' → service_held s' sn') ∧
    (pid' = pid → dc_Selected dec = true → adapter_fault protocol (dc_Fault dec)).
Proof.
  intros [Hact Hall] [v Hv]. unfold snapshot_Decide. rewrite Hv. cbn [mbind option_bind].
  destruct (Decide_total rule_good (rv_engine v) pid' md (i_Enabled (sn_info sn)))
    as (e & dec & err & He & Hgood & _ & Hsel); [by eapply Hall|by intros ?? []|].
  rewrite He. eexists _, dec, err. split_and!; [done|split| |]; cbn.
  - destruct (decide (sn_revision sn = sn_revision (sv_active s))) as [E|E].
    + rewrite E, lookup_insert_eq. eauto.
    + by rewrite lookup_insert_ne.
  - intros a v' Ha. destruct (decide (sn_revision sn = a)) as [<-|Hne].
    + rewrite lookup_insert_eq in Ha. by injection Ha as <-.
    + rewrite lookup_insert_ne in Ha by done. by eapply Hall.
  - intros sn' [v' Hv']. unfold service_held. cbn.
    destruct (decide (sn_revision sn = sn_revision sn')) as [E|E].
    + rewrite E, lookup_insert_eq. eauto.
    + rewrite lookup_insert_ne by done. eauto.
  - intros -> Hs. destruct Hsel as (_ & r & [_ Hr] & _ & _ & _ & -> & _); [by right|].
    by apply rule_wf_fault, Hr.
Qed.

Lemma service_step_good s s' : service_good s → service_step s s' → service_good s'.
Proof.
  intros Hg (o & w & w' & r & Hk & He). destruct o as [b now|d x now|sn pid' md]; cbn in He.
  - destruct Hg as [Hact Hall]. unfold SetEnabled in He. destruct (Bool.eqb _ _); by simplify_eq.
  - destruct (apply persist s w d x now) as [[s1 w1] r1] eqn:E. simplify_eq.
    pose proof (apply_cases persist s w d x now) as Hc. rewrite E in Hc.
    inversion Hc; subst; [done..|]. cbn in Hk. destruct Hg as [Hact Hall]. split.
    + cbn. rewrite lookup_insert_eq. eauto.
    + intros a v Ha. cbn in Ha. destruct (decide (a = fresh (dom (sv_heap s)))) as [->|Hne].
      * rewrite lookup_insert_eq in Ha. injection Ha as <-. by eapply document_rules_good.
      * rewrite lookup_insert_ne in Ha by done. by eapply Hall.
  - apply bind_Some in He as ([s1 dd] & Hd & He). injection He as <- <- <-.
    assert (service_held s sn) as Hh.
    { unfold snapshot_Decide in Hd. apply bind_Some in Hd as (v & Hv & _). by exists v. }
    destruct (service_decide s sn pid' md Hg Hh) as (s2 & dec & err & Hd2 & Hg2 & _).
    rewrite Hd in Hd2. by simplify_eq.
Qed.

Lemma service_rely_good s s' : service_good s → service_rely s s' → service_good s'.
Proof. intros Hg Hr. induction Hr; [done|]. eauto using service_step_good. Qed.

Lemma service_rely_held s s' sn : service_rely s s' → service_held s sn → service_held s' sn.
Proof.
  intros Hr. induction Hr as [|s1 s2 s3 (o & w & w' & r & _ & He) _ IH]; [done|].
  intros [v Hv]. apply IH.
  destruct (exec_heap persist _ _ _ _ _ _ _ _ He Hv) as (v' & ? & _). by exists v'.
Qed.

Lemma service_decide_own s sn md :
  service_good s → service_held s sn →
  ∃ s' dec err, decide_at s sn pid md = Some (s', (dec, err)) ∧ service_good s' ∧
    (∀ sn', service_held s sn' → service_held s' sn') ∧
    (dc_Selected dec = true → adapter_fault protocol (dc_Fault dec)).
Proof.
  intros Hg Hh. destruct (service_decide s sn pid md Hg Hh) as (s' & dec & err & ? & ? & ? & ?).
  exists s', dec, err. eauto.
Qed.

#[export] Instance service_DecisionsOk : DecisionsOk Service Snapshot pid (adapter_fault protocol) := {
  good := service_good;
  held := service_held;
  rely := service_rely;
  rely_refl := rtc_refl service_step;
  acquire_held s H := proj1 H;
  rely_good := service_rely_good;
  rely_held := service_rely_held;
  decide_ok := service_decide_own
}.
End service.

(** ** Events *)

Definition selector_name (s : Selector) (previous : string) : string :=
  match s_Probability s, s_Nth s, s_Every s with
  | Some _, _, _ => "probability"
  | None, Some _, _ => "nth"
  | None, None, Some _ => "every"
  | None, None, None => previous
  end.

Definition start_event (info : Info) (flow pid protocol : string) (now : Z) : Event :=
  {| ev_Info := info; ev_Type := "flow_started"; ev_Time := 0; ev_FlowID := flow; ev_ProxyID := pid;
     ev_Protocol := protocol; ev_StartedAt := now; ev_FinishedAt := 0; ev_RuleID := "";
     ev_EligibleSequence := 0; ev_Selector := ""; ev_Probability := None; ev_Nth := None;
     ev_Every := None; ev_Selected := false; ev_Reached := false; ev_Applied := false;
     ev_NotReached := false; ev_Phase := ""; ev_Action := ""; ev_Outcome := ""; ev_ErrorKind := "";
     ev_CommitConfirmed := false; ev_GRPCStatus := ""; ev_UpstreamStatus := 0; ev_Operation := "";
     ev_ClientBytes := 0; ev_UpstreamBytes := 0; ev_Changed := false; ev_Counters := None |}.

(** The decision's fields copied into the event. *)
Definition decision_event (d : Decision) (commit : bool) (e : Event) : Event :=
  {| ev_Info := ev_Info e; ev_Type := "decision"; ev_Time := ev_Time e; ev_FlowID := ev_FlowID e;
     ev_ProxyID := ev_ProxyID e; ev_Protocol := ev_Protocol e; ev_StartedAt := ev_StartedAt e;
     ev_FinishedAt := ev_FinishedAt e; ev_RuleID := dc_RuleID d;
     ev_EligibleSequence := dc_EligibleSequence d;
     ev_Selector := selector_name (dc_Selector d) (ev_Selector e);
     ev_Probability := s_Probability (dc_Selector d); ev_Nth := s_Nth (dc_Selector d);
     ev_Every := s_Every (dc_Selector d); ev_Selected := dc_Selected d; ev_Reached := ev_Reached e;
     ev_Applied := ev_Applied e; ev_NotReached := ev_NotReached e; ev_Phase := f_Phase (dc_Fault d);
     ev_Action := f_Action (dc_Fault d); ev_Outcome := ev_Outcome e; ev_ErrorKind := ev_ErrorKind e;
     ev_CommitConfirmed := commit || ev_CommitConfirmed e; ev_GRPCStatus := ev_GRPCStatus e;
     ev_UpstreamStatus := ev_UpstreamStatus e; ev_Operation := ev_Operation e;
     ev_ClientBytes := ev_ClientBytes e; ev_UpstreamBytes := ev_UpstreamBytes e;
     ev_Changed := ev_Changed e; ev_Counters := ev_Counters e |}.

Definition applied_event (e : Event) : Event :=
  {| ev_Info := ev_Info e; ev_Type := "fault_applied"; ev_Time := ev_Time e; ev_FlowID := ev_FlowID e;
     ev_ProxyID := ev_ProxyID e; ev_Protocol := ev_Protocol e; ev_StartedAt := ev_StartedAt e;
     ev_FinishedAt := ev_FinishedAt e; ev_RuleID := ev_RuleID e;
     ev_EligibleSequence := ev_EligibleSequence e; ev_Selector := ev_Selector e;
     ev_Probability := ev_Probability e; ev_Nth := ev_Nth e; ev_Every := ev_Every e;
     ev_Selected := ev_Selected e; ev_Reached := true; ev_Applied := true;
     ev_NotReached := ev_NotReached e; ev_Phase := ev_Phase e; ev_Action := ev_Action e;
     ev_Outcome := ev_Outcome e; ev_ErrorKind := ev_ErrorKind e;
     ev_CommitConfirmed := ev_CommitConfirmed e; ev_GRPCStatus := ev_GRPCStatus e;
     ev_UpstreamStatus := ev_UpstreamStatus e; ev_Operation := ev_Operation e;
     ev_ClientBytes := ev_ClientBytes e; ev_UpstreamBytes := ev_UpstreamBytes e;
     ev_Changed := ev_Changed e; ev_Counters := ev_Counters e |}.

Definition finish_event (outcome : string) (now : Z) (not_reached : bool) (e : Event) : Event :=
  {| ev_Info := ev_Info e; ev_Type := "flow_finished"; ev_Time := ev_Time e; ev_FlowID := ev_FlowID e;
     ev_ProxyID := ev_ProxyID e; ev_Protocol := ev_Protocol e; ev_StartedAt := ev_StartedAt e;
     ev_FinishedAt := now; ev_RuleID := ev_RuleID e; ev_EligibleSequence := ev_EligibleSequence e;
     ev_Selector := ev_Selector e; ev_Probability := ev_Probability e; ev_Nth := ev_Nth e;
     ev_Every := ev_Every e; ev_Selected := ev_Selected e; ev_Reached := ev_Reached e;
     ev_Applied := ev_Applied e; ev_NotReached := not_reached; ev_Phase := ev_Phase e;
     ev_Action := ev_Action e; ev_Outcome := outcome; ev_ErrorKind := ev_ErrorKind e;
     ev_CommitConfirmed := ev_CommitConfirmed e; ev_GRPCStatus := ev_GRPCStatus e;
     ev_UpstreamStatus := ev_UpstreamStatus e; ev_Operation := ev_Operation e;
     ev_ClientBytes := ev_ClientBytes e; ev_UpstreamBytes := ev_UpstreamBytes e;
     ev_Changed := ev_Changed e; ev_Counters := ev_Counters e |}.

(** ** The commit fault *)

(** [fired]: the timer won the select against ctx.Done(). True lets the
    acknowledgement through; [None] is the nil duration. *)
Definition commit_apply (f : Fault) (fired : bool) : option bool :=
  if f_Action f =s "close_connection" then Some false
  else
    _ ← (if f_Action f =s "hold_response" then f_MaxDuration f else f_Duration f);
    Some (if fired then f_Action f =s "delay" else false).

(** A validated commit fault never panics, and only an expired delay lets the
    acknowledgement through. *)
Lemma commit_apply_ok f fired :
  commit_fault f → commit_apply f fired = Some (fired && (f_Action f =s "delay")).
Proof. by intros [d|d|]; destruct fired. Qed.

(** ** Well-bracketed flows *)

(** The shapes a flow's events may have, for a recorder log read left to right:
    outside any flow, or inside flow [id] before and after its decision. *)
Inductive phase :=
| Outside
| Started (id : string)
| Decided (id : string) (selected : bool)
| Applied_ (id : string).

Definition phase_step (p : phase) (e : Event) : option phase :=
  match p with
  | Outside => if ev_Type e =s "flow_started" then Some (Started (ev_FlowID e)) else None
  | Started id =>
      if negb (ev_FlowID e =s id) then None
      else if ev_Type e =s "decision" then Some (Decided id (ev_Selected e))
      else if ev_Type e =s "flow_finished" then
        if ev_Applied e || ev_Selected e then None else Some Outside
      else None
  | Decided id selected =>
      if negb (ev_FlowID e =s id) then None
      else if selected then if ev_Type e =s "fault_applied" then Some (Applied_ id) else None
      else if (ev_Type e =s "flow_finished") && negb (ev_Applied e) then Some Outside else None
  | Applied_ id =>
      if (ev_FlowID e =s id) && (ev_Type e =s "flow_finished") && ev_Applied e then Some Outside else None
  end.

Definition phase_run (p : phase) (log : list Event) : option phase :=
  fold_left (λ p e, p ← p; phase_step p e) log (Some p).

Arguments phase_run : simpl never.

Lemma phase_run_app p l1 l2 : phase_run p (l1 ++ l2) = phase_run p l1 ≫= λ p, phase_run p l2.
Proof.
  unfold phase_run. rewrite fold_left_app. destruct (fold_left _ l1 _); [done|]. simpl.
  induction l2; simpl; done.
Qed.

Lemma phase_run_snoc p log e : phase_run p (log ++ [e]) = phase_run p log ≫= λ p, phase_step p e.
Proof. rewrite phase_run_app. by destruct (phase_run p log). Qed.

(** A freshly started service satisfies the adapter's invariant. *)
Lemma New_service_good pid protocol d runID now s :
  document_keeps pid protocol d → Control.New (Some d) runID now = Ok s → service_good pid protocol s.
Proof.
  intros Hd H. unfold Control.New in H. open_ok H. simplify_eq. split; cbn.
  - rewrite lookup_singleton_eq. eauto.
  - intros a v (<- & <-)%lookup_singleton_Some. by eapply document_rules_good.
Qed.
