(* ===== verification/Samples.v ===== *)
(** * Sample configurations

    Small documents, one per adapter family, with the proof that they satisfy
    what validation guarantees. They instantiate the hypotheses of the theorems
    on documents, services and sessions. *)

From S2P Require Import Prelude GoLib GoRand Config Validate ValidateSpec Engine EngineSpec Control Adapter.

Definition sample_rule (sel : Selector) (f : Fault) : Rule :=
  {| r_ID := "r1"; r_Enabled := true; r_Match := any_match; r_Select := sel; r_Fault := f |}.

Definition sample_proxy (protocol : string) (r : Rule) : Proxy :=
  {| p_ID := "p1"; p_Protocol := protocol; p_UpstreamProtocol := ""; p_Listen := "127.0.0.1:7000";
     p_Upstream := "up:7001"; p_TLS := None; p_UpstreamTLS := None; p_Rules := [r] |}.

Definition sample_config (p : Proxy) : Config :=
  {| c_APIVersion := APIVersion; c_Seed := 7; c_Runtime := DefaultRuntime; c_Proxies := [p] |}.

Definition sample_document (p : Proxy) : Document :=
  {| d_config := sample_config p; d_valid := true; d_fingerprint := of_string "full";
     d_restartFingerprint := of_string "restart" |}.

Definition every (k : Z) : Selector := {| s_Probability := None; s_Nth := None; s_Every := Some k |}.
Definition nth_ (k : Z) : Selector := {| s_Probability := None; s_Nth := Some k; s_Every := None |}.

Definition sample_close : Fault := http_fields AfterCommit "close_connection" None None None None "" None None.
Definition sample_delay : Fault :=
  http_fields BeforeUpstreamRequest "delay" (Some 5) None None None "" None None.

Definition pg_document : Document := sample_document (sample_proxy "postgresql" (sample_rule (every 1) sample_close)).
Definition mysql_document : Document := sample_document (sample_proxy "mysql" (sample_rule (every 1) sample_close)).
Definition http_document (sel : Selector) : Document :=
  sample_document (sample_proxy "http1" (sample_rule sel sample_delay)).

Lemma sample_document_ok protocol r :
  known_protocol protocol = true → rule_wf protocol r →
  document_ok (sample_document (sample_proxy protocol r)).
Proof.
  intros Hp Hr. split; [done| |by repeat constructor; intros ?%not_elem_of_nil].
  split; cbn; [done|done|done| |by repeat constructor; intros ?%not_elem_of_nil].
  repeat constructor; (done || apply Hr).
Qed.

Lemma sample_keeps protocol r :
  known_protocol protocol = true → rule_wf protocol r →
  document_keeps "p1" protocol (sample_document (sample_proxy protocol r)).
Proof.
  intros Hp Hr. split; [by apply sample_document_ok|].
  intros p [->|?%not_elem_of_nil]%elem_of_cons; done.
Qed.

Lemma close_rule_wf protocol : is_db protocol = true → rule_wf protocol (sample_rule (every 1) sample_close).
Proof.
  intros Hdb. unfold rule_wf. rewrite Hdb. split_and!; cbn.
  - by apply sel_every.
  - rewrite (Actions_db _ Hdb). vm_compute. by repeat constructor.
  - constructor.
Qed.

(** A service running a document, with faults enabled. *)
Definition enabled_service (d : Document) : Service :=
  match Control.New (Some d) "run" 1 with
  | Ok s => (SetEnabled s true 2).1
  | Err _ => {| sv_active := {| sn_info := zero_info; sn_revision := 0 |}; sv_heap := ∅; sv_managed := false |}
  end.

Lemma enabled_service_good pid protocol d :
  document_keeps pid protocol d → service_good pid protocol (enabled_service d).
Proof.
  intros Hd. unfold enabled_service.
  destruct (Control.New (Some d) "run" 1) as [s|e] eqn:E.
  - pose proof (New_service_good pid protocol d _ _ _ Hd E) as [Ha Hall].
    unfold SetEnabled. destruct (Bool.eqb _ _); by split.
  - unfold Control.New in E. destruct (Engine.New (Some d)) as [ev|] eqn:En; [done|].
    unfold Engine.New in En. by rewrite (doc_valid d (proj1 Hd)) in En.
Qed.

(** The control service seen by a database adapter for proxy p1. *)
Definition store_nothing (d : Document) (r : Result) (w : unit) : unit * option string := (w, None).
