(* ===== verification/Http.v ===== *)
(** * The HTTP and gRPC proxy handler (internal/proxy/http/handler.go)

    One request, from net/http's call of the handler to its return or panic. The
    flow is the executor's view of the exchange and instantiates [Capabilities].
    What happens outside the handler is in [Exchange]: the request's context, the
    clock, the transport, the reads httputil.ReverseProxy makes of the bodies, and
    the results of closing and writing to the client. A nil dereference is [None].
    The deferred calls are written out in the order they run. *)

From Stdlib Require Import Ascii.
From S2P Require Import Prelude GoLib GoUtf8 GoRand Config Validate Engine Control Recorder Grpc GoIO Fault Adapter.
Local Open Scope go_scope.

(** ** Reports and events *)

Record Report := {
  ho_Protocol : string;
  ho_GRPCStatus : string;
  ho_FlowID : string;
  ho_Info : Info;
  ho_Decision : Decision;
  ho_Reached : bool;
  ho_Applied : bool;
  ho_NotReached : bool;
  ho_Outcome : string;
  ho_Err : option error;
  ho_StartedAt : Z;
  ho_FinishedAt : Z;
  ho_UpstreamStatus : Z;
  ho_ErrorKind : string
}.

Definition zero_fault : Fault :=
  {| f_Phase := ""; f_Action := ""; f_Duration := None; f_MaxDuration := None; f_Status := None; f_Body := None;
     f_Direction := ""; f_Bytes := None; f_BytesPerSecond := None; f_AfterBytes := None; f_AfterDuration := None;
     f_TriggerDirection := "" |}.
Definition zero_decision : Decision :=
  {| dc_ProxyID := ""; dc_RuleID := ""; dc_EligibleSequence := 0; dc_Selected := false;
     dc_Selector := {| s_Probability := None; s_Nth := None; s_Every := None |}; dc_Fault := zero_fault |}.

Definition event_outcome (kind : string) (r : Report) : string :=
  if negb (kind =s "flow_finished") then ""
  else if ho_Outcome r =s "completed" then if ho_Applied r then "fault_applied" else "pass_through"
  else if ho_Outcome r =s "canceled" then ho_ErrorKind r
  else ho_Outcome r.

Definition event (kind : string) (r : Report) (proxyID : string) : Event :=
  let d := ho_Decision r in
  {| ev_Info := ho_Info r; ev_Type := kind; ev_Time := 0; ev_FlowID := ho_FlowID r; ev_ProxyID := proxyID;
     ev_Protocol := ho_Protocol r; ev_StartedAt := ho_StartedAt r; ev_FinishedAt := ho_FinishedAt r;
     ev_RuleID := dc_RuleID d; ev_EligibleSequence := dc_EligibleSequence d;
     ev_Selector := selector_name (dc_Selector d) ""; ev_Probability := s_Probability (dc_Selector d);
     ev_Nth := s_Nth (dc_Selector d); ev_Every := s_Every (dc_Selector d); ev_Selected := dc_Selected d;
     ev_Reached := ho_Reached r; ev_Applied := ho_Applied r; ev_NotReached := ho_NotReached r;
     ev_Phase := f_Phase (dc_Fault d); ev_Action := f_Action (dc_Fault d); ev_Outcome := event_outcome kind r;
     ev_ErrorKind := ho_ErrorKind r; ev_CommitConfirmed := false; ev_GRPCStatus := ho_GRPCStatus r;
     ev_UpstreamStatus := ho_UpstreamStatus r; ev_Operation := ""; ev_ClientBytes := 0; ev_UpstreamBytes := 0;
     ev_Changed := false; ev_Counters := None |}.

(** appliedEvent: the fault_applied event with Applied set. *)
Definition set_ev_Applied (e : Event) : Event :=
  {| ev_Info := ev_Info e; ev_Type := ev_Type e; ev_Time := ev_Time e; ev_FlowID := ev_FlowID e;
     ev_ProxyID := ev_ProxyID e; ev_Protocol := ev_Protocol e; ev_StartedAt := ev_StartedAt e;
     ev_FinishedAt := ev_FinishedAt e; ev_RuleID := ev_RuleID e; ev_EligibleSequence := ev_EligibleSequence e;
     ev_Selector := ev_Selector e; ev_Probability := ev_Probability e; ev_Nth := ev_Nth e;
     ev_Every := ev_Every e; ev_Selected := ev_Selected e; ev_Reached := ev_Reached e; ev_Applied := true;
     ev_NotReached := ev_NotReached e; ev_Phase := ev_Phase e; ev_Action := ev_Action e;
     ev_Outcome := ev_Outcome e; ev_ErrorKind := ev_ErrorKind e; ev_CommitConfirmed := ev_CommitConfirmed e;
     ev_GRPCStatus := ev_GRPCStatus e; ev_UpstreamStatus := ev_UpstreamStatus e; ev_Operation := ev_Operation e;
     ev_ClientBytes := ev_ClientBytes e; ev_UpstreamBytes := ev_UpstreamBytes e; ev_Changed := ev_Changed e;
     ev_Counters := ev_Counters e |}.

Definition hasUpgrade (h : gmap string (list string)) : bool :=
  existsb (λ value, existsb (λ token, ToLower (to_string (GoUtf8.TrimSpace (of_string token))) =s "upgrade")
                      (Split "," value))
    (default [] (h !! "Connection")).

(** ** The flow *)

(** What the client is sent: an early response with its Content-Length, a
    plain-text error, a reply of headers alone, or the upstream response as far as it was copied. *)
Inductive sent :=
| Early (status : Z) (length : option Z) (body : string)
| HTTPError (status : Z) (message : string) (close : bool)
| HeadersOnly (status : Z) (headers : list (string * string))
| Forwarded (status : Z) (data : bytes).

(** grpcproxy.Error. *)
Definition GRPCError (code message : string) : sent :=
  HeadersOnly 200 [("Content-Type", "application/grpc"); ("Grpc-Status", code); ("Grpc-Message", message)].

Record flow := {
  fl_method : string;
  fl_http2 : bool;
  fl_terminal : bool;
  fl_disconnected : bool;
  fl_cancelled : bool;
  fl_body_open : bool;
  fl_conn_closed : bool;
  fl_applied : bool;
  fl_appliedEvent : Event;
  fl_sent : list sent;
  fl_log : list Event;
  fl_close_err : option error;
  fl_write_err : option error
}.

Definition fl_end (terminal disconnected closed : bool) (sent : list sent) (f : flow) : flow :=
  {| fl_method := fl_method f; fl_http2 := fl_http2 f; fl_terminal := terminal; fl_disconnected := disconnected;
     fl_cancelled := fl_cancelled f; fl_body_open := fl_body_open f; fl_conn_closed := closed;
     fl_applied := fl_applied f; fl_appliedEvent := fl_appliedEvent f; fl_sent := sent; fl_log := fl_log f;
     fl_close_err := fl_close_err f; fl_write_err := fl_write_err f |}.
Definition fl_upstream (cancelled body_open : bool) (f : flow) : flow :=
  {| fl_method := fl_method f; fl_http2 := fl_http2 f; fl_terminal := fl_terminal f;
     fl_disconnected := fl_disconnected f; fl_cancelled := cancelled; fl_body_open := body_open;
     fl_conn_closed := fl_conn_closed f; fl_applied := fl_applied f; fl_appliedEvent := fl_appliedEvent f;
     fl_sent := fl_sent f; fl_log := fl_log f; fl_close_err := fl_close_err f; fl_write_err := fl_write_err f |}.
Definition fl_events (applied : bool) (ev : Event) (log : list Event) (f : flow) : flow :=
  {| fl_method := fl_method f; fl_http2 := fl_http2 f; fl_terminal := fl_terminal f;
     fl_disconnected := fl_disconnected f; fl_cancelled := fl_cancelled f; fl_body_open := fl_body_open f;
     fl_conn_closed := fl_conn_closed f; fl_applied := applied; fl_appliedEvent := ev;
     fl_sent := fl_sent f; fl_log := log; fl_close_err := fl_close_err f; fl_write_err := fl_write_err f |}.

Definition send (s : sent) (f : flow) : flow :=
  fl_end (fl_terminal f) (fl_disconnected f) (fl_conn_closed f) (fl_sent f ++ [s]) f.
Definition log (e : Event) (f : flow) : flow := fl_events (fl_applied f) (fl_appliedEvent f) (fl_log f ++ [e]) f.

(** f.onApplied: the compare-and-swap records the event once. *)
Definition flow_FaultApplied (f : flow) : flow :=
  if fl_applied f then f else fl_events true (fl_appliedEvent f) (fl_log f ++ [fl_appliedEvent f]) f.

Definition flow_CancelUpstream (f : flow) : flow := fl_upstream true false f.

Definition errCompleted : error := errText "flow already completed".

Definition flow_Respond (status : Z) (body : string) (f : flow) : flow * option error :=
  if fl_terminal f then (f, Some errCompleted)
  else
    let f := fl_end true (fl_disconnected f) (fl_conn_closed f) (fl_sent f) f in
    if (status =? 204) || (status =? 304) || (status =? 205) then
      (send (Early status (if status =? 205 then Some 0 else None) "") f, None)
    else
      let length := Some (Z.of_nat (String.length body)) in
      if fl_method f =s "HEAD" then (send (Early status length "") f, None)
      else (send (Early status length body) f, fl_write_err f).

Definition flow_CloseConnection (f : flow) : flow * option error :=
  if fl_http2 f then (f, Some (errText "connection closure is unavailable for HTTP/2"))
  else if fl_terminal f then (f, Some errCompleted)
  else (fl_end true true true (fl_sent f) f, fl_close_err f).

Definition flow_EndStream (f : flow) : flow * option error :=
  if negb (fl_http2 f) then flow_CloseConnection f
  else (fl_end true true (fl_conn_closed f) (fl_sent f) f, None).

#[export] Instance flow_Capabilities : Capabilities flow := {
  CancelUpstream := flow_CancelUpstream;
  Respond := flow_Respond;
  CloseConnection := flow_CloseConnection;
  EndStream := Some flow_EndStream;
  FaultApplied := Some flow_FaultApplied
}.

(** ** The environment *)

Record Response (R : Type) := {
  up_StatusCode : Z;
  up_Header : gmap string (list string);
  up_Trailer : gmap string (list string);
  up_NoBody : bool;
  up_Body : R
}.
Arguments up_StatusCode {R}.
Arguments up_Header {R}.
Arguments up_Trailer {R}.
Arguments up_NoBody {R}.
Arguments up_Body {R}.

(** [x_upload_complete] and [x_upload_done]: the upload has reached io.EOF when
    the handler starts, when it ends. The transport answers from the Grpc-Timeout
    header it is given and the error its reads of a faulted upload end with.
    [x_copy_reads] are the reads of the response body before the client stops
    accepting data. The [Z] fields are clock readings and delays. *)
Record Exchange (R : Type) := {
  x_request : Request;
  x_parent : Context;
  x_flow : string;
  x_started : Z;
  x_now : Z;
  x_close_err : option error;
  x_write_err : option error;
  x_upload_complete : bool;
  x_upload_done : bool;
  x_upload : R;
  x_upload_reads : list nat;
  x_transport : option string → option error → res error (Response R);
  x_latency : Z;
  x_copy_reads : list nat;
  x_end : Z;
  x_finished : Z;
  x_shutdown : bool
}.
Arguments x_request {R}.
Arguments x_parent {R}.
Arguments x_flow {R}.
Arguments x_started {R}.
Arguments x_now {R}.
Arguments x_close_err {R}.
Arguments x_write_err {R}.
Arguments x_upload_complete {R}.
Arguments x_upload_done {R}.
Arguments x_upload {R}.
Arguments x_upload_reads {R}.
Arguments x_transport {R}.
Arguments x_latency {R}.
Arguments x_copy_reads {R}.
Arguments x_end {R}.
Arguments x_finished {R}.
Arguments x_shutdown {R}.

(** The parts of the handler's state that do not change: Options.Executor and
    Options.Recorder are present or nil, and the transport may speak HTTP/2. *)
Record handler := {
  h_proxyID : string;
  h_protocol : string;
  h_RequestTimeout : Z;
  h_slots : nat;
  h_executor : bool;
  h_recorder : bool
}.

(** context.WithTimeout. *)
Definition WithTimeout (parent : Context) (now timeout : Z) : Context :=
  let deadline := now + timeout in
  match cx_done parent with
  | Some (t, e) => if t <=? deadline then parent else {| cx_done := Some (deadline, DeadlineExceeded) |}
  | None => {| cx_done := Some (deadline, DeadlineExceeded) |}
  end.

(** What the closures of ServeHTTP share: the flow, the report and the clock. *)
Record run := { rn_flow : flow; rn_report : Report; rn_now : Z }.

Definition set_flow (f : flow) (s : run) : run := {| rn_flow := f; rn_report := rn_report s; rn_now := rn_now s |}.
Definition set_report (r : Report) (s : run) : run := {| rn_flow := rn_flow s; rn_report := r; rn_now := rn_now s |}.
Definition set_now (t : Z) (s : run) : run := {| rn_flow := rn_flow s; rn_report := rn_report s; rn_now := t |}.

Definition ho_result (outcome : string) (err : option error) (kind : string) (r : Report) : Report :=
  {| ho_Protocol := ho_Protocol r; ho_GRPCStatus := ho_GRPCStatus r; ho_FlowID := ho_FlowID r; ho_Info := ho_Info r;
     ho_Decision := ho_Decision r; ho_Reached := ho_Reached r; ho_Applied := ho_Applied r;
     ho_NotReached := ho_NotReached r; ho_Outcome := outcome; ho_Err := err; ho_StartedAt := ho_StartedAt r;
     ho_FinishedAt := ho_FinishedAt r; ho_UpstreamStatus := ho_UpstreamStatus r; ho_ErrorKind := kind |}.
Definition ho_decided (d : Decision) (reached applied notReached : bool) (r : Report) : Report :=
  {| ho_Protocol := ho_Protocol r; ho_GRPCStatus := ho_GRPCStatus r; ho_FlowID := ho_FlowID r; ho_Info := ho_Info r;
     ho_Decision := d; ho_Reached := reached; ho_Applied := applied; ho_NotReached := notReached;
     ho_Outcome := ho_Outcome r; ho_Err := ho_Err r; ho_StartedAt := ho_StartedAt r;
     ho_FinishedAt := ho_FinishedAt r; ho_UpstreamStatus := ho_UpstreamStatus r; ho_ErrorKind := ho_ErrorKind r |}.
Definition ho_upstream (status : Z) (grpc : string) (r : Report) : Report :=
  {| ho_Protocol := ho_Protocol r; ho_GRPCStatus := grpc; ho_FlowID := ho_FlowID r; ho_Info := ho_Info r;
     ho_Decision := ho_Decision r; ho_Reached := ho_Reached r; ho_Applied := ho_Applied r;
     ho_NotReached := ho_NotReached r; ho_Outcome := ho_Outcome r; ho_Err := ho_Err r;
     ho_StartedAt := ho_StartedAt r; ho_FinishedAt := ho_FinishedAt r; ho_UpstreamStatus := status;
     ho_ErrorKind := ho_ErrorKind r |}.
Definition ho_finished (t : Z) (r : Report) : Report :=
  {| ho_Protocol := ho_Protocol r; ho_GRPCStatus := ho_GRPCStatus r; ho_FlowID := ho_FlowID r; ho_Info := ho_Info r;
     ho_Decision := ho_Decision r; ho_Reached := ho_Reached r; ho_Applied := ho_Applied r;
     ho_NotReached := dc_Selected (ho_Decision r) && negb (ho_Reached r); ho_Outcome := ho_Outcome r;
     ho_Err := ho_Err r; ho_StartedAt := ho_StartedAt r; ho_FinishedAt := t;
     ho_UpstreamStatus := ho_UpstreamStatus r; ho_ErrorKind := ho_ErrorKind r |}.

(** The response, the events, and whether the handler panics with
    http.ErrAbortHandler. *)
Record Served := {
  sv_report : Report;
  sv_sent : list sent;
  sv_log : list Event;
  sv_panic : bool;
  sv_closed : bool
}.

Definition errTerminal : error := errText "flow completed by executor".
Definition ErrAbortHandler : error := errText "net/http: abort Handler".
Definition errUpgrade : error := errText "upstream protocol upgrade is unsupported".

Definition body_action (f : Fault) : bool := (f_Action f =s "truncate") || (f_Action f =s "throttle").

Section handler.
Context (h : handler) {R D Sn : Type} `{Reader R} `{Decisions D Sn}.

(** errors.As with the x509 errors, and net.Error with Timeout(). *)
Context (is_tls is_timeout : error → bool).

Definition errorKind (err : error) (fallback : string) : string :=
  if is_tls err then "upstream_tls" else if is_timeout err then "upstream_timeout" else fallback.

Definition record (kind : string) (s : run) : run :=
  set_flow (log (event kind (rn_report s) (h_proxyID h)) (rn_flow s)) s.

(** *** The closures of ServeHTTP *)

Section exchange.
Context (x : Exchange R) (ctx : Context).
Let r := x_request x.
Let http1 := rq_ProtoMajor r =? 1.

Definition apply (phase : string) (s : run) : option (run * option error) :=
  let d := ho_Decision (rn_report s) in
  if negb (dc_Selected d) || negb (f_Phase (dc_Fault d) =s phase) then Some (s, None)
  else
    let s := set_report (ho_decided d true (ho_Applied (rn_report s)) (ho_NotReached (rn_report s)) (rn_report s)) s in
    let s := record "fault_reached" s in
    let ev := set_ev_Applied (event "fault_applied" (rn_report s) (h_proxyID h)) in
    let s := set_flow (fl_events (fl_applied (rn_flow s)) ev (fl_log (rn_flow s)) (rn_flow s)) s in
    if body_action (dc_Fault d) then Some (s, None)
    else if negb (h_executor h) then Some (s, Some ErrUnavailable)
    else
      '(wasApplied, err, f, now) ← Execute (F := flow) ctx (dc_Fault d) (rn_flow s) (rn_now s);
      let f := if wasApplied : bool then flow_FaultApplied f else f in
      let s := set_now now (set_flow f s) in
      match err with
      | Some e => Some (set_report (ho_result "executor_error" (Some e) (ho_ErrorKind (rn_report s)) (rn_report s)) s, Some e)
      | None => Some (s, if fl_terminal f then Some errTerminal else None)
      end.

(** The error handler: the run, and whether it panics. *)
Definition fail (err : error) (s : run) : run * bool :=
  let f := rn_flow s in
  let rep := rn_report s in
  if bool_decide (err = errTerminal) then (s, fl_http2 f && fl_disconnected f)
  else
    match ctx_Err ctx (rn_now s) with
    | Some e =>
        let s := set_report (ho_result (ho_Outcome rep) (Some e) (ho_ErrorKind rep) rep) s in
        if fl_http2 f then (s, true) else (set_flow (flow_CloseConnection f).1 s, false)
    | None =>
        let unavailable := bool_decide (err = ErrUnavailable) in
        let status := if unavailable then 501 else 502 in
        let outcome := if unavailable then "executor_unavailable"
                       else if ho_Outcome rep =s "completed" then "upstream_error" else ho_Outcome rep in
        let s := set_report (ho_result outcome (Some err) (ho_ErrorKind rep) rep) s in
        if fl_terminal f then (s, false)
        else if h_protocol h =s "grpc" then (set_flow (send (GRPCError "14" "upstream unavailable") f) s, false)
        else (set_flow (send (HTTPError status (if unavailable then "Not Implemented" else "Bad Gateway") http1) f) s, false)
    end.

(** Whether reads of a faulted body applied it. *)
Definition note_applied (n : nat) (s : run) : run :=
  if bool_decide (n = 0)%nat then s else set_flow (flow_FaultApplied (rn_flow s)) s.

(** The transport's reads of a request body wrapped by a fault. *)
Definition upload (s : run) : option (run * option error) :=
  let d := ho_Decision (rn_report s) in
  if dc_Selected d && body_action (dc_Fault d) && (f_Direction (dc_Fault d) =s "request") then
    '(_, err, b, now) ← read_all ctx (x_upload_reads x) (rn_now s) (WrapBody (x_upload x) (dc_Fault d));
    Some (set_now now (note_applied (b_applied b) s), err)
  else Some (s, None).

Definition ModifyResponse (res : Response R) (s : run) : option (run * option error) :=
  let s := set_report (ho_upstream (up_StatusCode res) (ho_GRPCStatus (rn_report s)) (rn_report s)) s in
  let s := set_flow (fl_upstream (fl_cancelled (rn_flow s)) true (rn_flow s)) s in
  if up_StatusCode res =? 101 then Some (s, Some errUpgrade) else apply AfterUpstreamHeaders s.

(** io.Copy over a plain reader: what was read, and the error it stopped with. *)
Fixpoint copy_plain (ps : list nat) (src : R) : bytes * option error :=
  match ps with
  | [] => ([], None)
  | p :: ps =>
      let '(data, err, src) := read p src in
      match err with
      | Some e => (data, Some e)
      | None => let '(more, err) := copy_plain ps src in (data ++ more, err)
      end
  end.

(** The reverse proxy copies the response to the client; anything but io.EOF
    aborts the handler. *)
Definition forward (res : Response R) (s : run) : option (run * bool) :=
  let d := ho_Decision (rn_report s) in
  let faulted := dc_Selected d && body_action (dc_Fault d) && (f_Direction (dc_Fault d) =s "response") &&
                 negb (rq_Method r =s "HEAD") && negb (up_NoBody res) in
  '(data, err, s) ←
    (if faulted then
       '(data, err, b, now) ← read_all ctx (x_copy_reads x) (rn_now s) (WrapBody (up_Body res) (dc_Fault d));
       Some (data, err, set_now now (note_applied (b_applied b) s))
     else let '(data, err) := copy_plain (x_copy_reads x) (up_Body res) in Some (data, err, s));
  Some (set_flow (send (Forwarded (up_StatusCode res) data) (rn_flow s)) s, negb (bool_decide (err = Some EOF))).

(** httputil.ReverseProxy.ServeHTTP with the handler's hooks; the response when
    ModifyResponse has kept it. *)
Definition proxy_ServeHTTP (timeout : Z) (s : run) : option (run * bool * option (Response R)) :=
  header ← (if h_protocol h =s "grpc" then Some <$> TimeoutHeader (x_now x + timeout - rn_now s) else Some None);
  '(s, upload_err) ← upload s;
  let s := set_now (rn_now s + Z.max 0 (x_latency x)) s in
  match x_transport x header upload_err with
  | Err e => let '(s, panics) := fail e s in Some (s, panics, None)
  | Ok res =>
      '(s, err) ← ModifyResponse res s;
      let kept := if up_StatusCode res =? 101 then None else Some res in
      match err with
      | Some e => let '(s, panics) := fail e s in Some (s, panics, kept)
      | None => '(s, panics) ← forward res s; Some (s, panics, kept)
      end
  end.

(** The last statements of ServeHTTP, after the reverse proxy returned. *)
Definition grpc_status (res : option (Response R)) (rep : Report) : Report :=
  match res with
  | Some res =>
      if h_protocol h =s "grpc" then
        let trailer := Header_Get (up_Trailer res) "Grpc-Status" in
        let status := if trailer =s "" then Header_Get (up_Header res) "Grpc-Status" else trailer in
        let rep := ho_upstream (ho_UpstreamStatus rep) status rep in
        if status =s "0" then rep else ho_result "rpc_error" (ho_Err rep) "upstream_rpc" rep
      else rep
  | None => rep
  end.

(** The deferred cleanup, with the connection closed by the context's AfterFunc or
    because the upload is unfinished. *)
Definition cleanup (s : run) : run :=
  let now := rn_now s + Z.max 0 (x_end x) in
  let closing := http1 && (negb (x_upload_done x) || is_some (ctx_Err ctx now)) in
  let f := rn_flow s in
  let f := fl_end (fl_terminal f) (fl_disconnected f) (closing || fl_conn_closed f) (fl_sent f) f in
  let f := flow_CancelUpstream f in
  let rep := rn_report s in
  let rep := ho_decided (ho_Decision rep) (ho_Reached rep) (fl_applied f) (ho_NotReached rep) rep in
  let rep :=
    match ctx_Err ctx now with
    | Some e =>
        if negb (fl_disconnected f) || is_some (ho_Err rep) then
          ho_result "canceled" (Some e)
            (if x_shutdown x then "shutdown"
             else if bool_decide (e = DeadlineExceeded) then "proxy_timeout" else "client_canceled") rep
        else rep
    | None => rep
    end in
  let rep :=
    match ho_Err rep with
    | Some e => if ho_ErrorKind rep =s "" then ho_result (ho_Outcome rep) (Some e) (errorKind e (ho_Outcome rep)) rep
                else rep
    | None => rep
    end in
  {| rn_flow := f; rn_report := rep; rn_now := now |}.
End exchange.

(** *** ServeHTTP *)

Definition new_flow (x : Exchange R) : flow :=
  {| fl_method := rq_Method (x_request x); fl_http2 := rq_ProtoMajor (x_request x) =? 2; fl_terminal := false;
     fl_disconnected := false; fl_cancelled := false; fl_body_open := false; fl_conn_closed := false;
     fl_applied := false; fl_appliedEvent := zero_event; fl_sent := []; fl_log := [];
     fl_close_err := x_close_err x; fl_write_err := x_write_err x |}.

Definition start (x : Exchange R) (i : Info) : run :=
  record "flow_started"
    {| rn_flow := new_flow x;
       rn_report := {| ho_Protocol := h_protocol h; ho_GRPCStatus := ""; ho_FlowID := x_flow x; ho_Info := i;
                       ho_Decision := zero_decision; ho_Reached := false; ho_Applied := false;
                       ho_NotReached := false; ho_Outcome := "completed"; ho_Err := None;
                       ho_StartedAt := x_started x; ho_FinishedAt := 0; ho_UpstreamStatus := 0;
                       ho_ErrorKind := "" |};
       rn_now := x_now x |}.

(** The outermost deferred function. *)
Definition finish (x : Exchange R) (s : run) (panics : bool) : Served :=
  let s := set_report (ho_finished (x_finished x) (rn_report s)) s in
  let s := record "flow_finished" s in
  {| sv_report := rn_report s; sv_sent := fl_sent (rn_flow s);
     sv_log := if h_recorder h then fl_log (rn_flow s) else []; sv_panic := panics;
     sv_closed := fl_conn_closed (rn_flow s) |}.

Definition unsupported (r : Request) : bool :=
  ((h_protocol h =s "http1") && (negb (rq_ProtoMajor r =? 1) || negb (rq_ProtoMinor r =? 1))) ||
  (negb (h_protocol h =s "http1") && negb (rq_ProtoMajor r =? 2)) || (rq_Method r =s "CONNECT") ||
  nonempty (Header_Get (rq_Header r) "Upgrade") || hasUpgrade (rq_Header r) || rq_IsAbs r.

(** A request refused before any decision. *)
Definition refuse (x : Exchange R) (outcome : string) (reply : sent) (s : run) : Served :=
  finish x (set_flow (send reply (rn_flow s)) (set_report (ho_result outcome None outcome (rn_report s)) s)) false.

(** The body of ServeHTTP once a slot is held and the deadline is known. *)
Definition serve_flow (x : Exchange R) (timeout : Z) (md : Metadata) (snapshot : Sn) (d : D) (s : run) :
    option (D * Served) :=
  let ctx := WithTimeout (x_parent x) (x_now x) timeout in
  '(d, (dec, err)) ← decide_at d snapshot (h_proxyID h) md;
  let rep := rn_report s in
  let s := record "decision" (set_report (ho_decided dec (ho_Reached rep) (ho_Applied rep) (ho_NotReached rep) rep) s) in
  match err with
  | Some e =>
      let s := set_report (ho_result "proxy_error" (Some (errText e)) "" (rn_report s)) s in
      let s := set_flow (send (HTTPError 500 "proxy decision failed" false) (rn_flow s)) s in
      Some (d, finish x (cleanup x ctx s) false)
  | None =>
      '(s, err) ← apply ctx BeforeUpstreamRequest s;
      match err with
      | Some e => let '(s, panics) := fail x ctx e s in Some (d, finish x (cleanup x ctx s) panics)
      | None =>
          '(s, panics, kept) ← proxy_ServeHTTP x ctx timeout s;
          let s := if panics : bool
                   then set_report (ho_result "stream_error" (Some ErrAbortHandler) (ho_ErrorKind (rn_report s)) (rn_report s)) s
                   else set_report (grpc_status kept (rn_report s)) s in
          Some (d, finish x (cleanup x ctx s) panics)
      end
  end.

(** ServeHTTP: the snapshot is taken from [d0]; other goroutines act on the service
    until the decision is asked for, when it is [d]. [used] slots are taken by other
    requests; the slot this one takes is given back when it returns. *)
Definition ServeHTTP (x : Exchange R) (used : nat) (d0 d : D) : option (D * Served) :=
  let r := x_request x in
  let snapshot := acquire d0 in
  let s := start x (snap_info snapshot) in
  let http1 := rq_ProtoMajor r =? 1 in
  let grpc := h_protocol h =s "grpc" in
  if unsupported r then
    Some (d, refuse x "unsupported_request" (HTTPError 501 "unsupported reverse proxy request" http1) s)
  else
    let '(md, valid) := if grpc then grpc_Metadata r
                        else ({| md_Method := rq_Method r; md_Service := ""; md_Path := rq_Path r;
                                 md_Headers := rq_Header r |}, true) in
    if negb valid then Some (d, refuse x "unsupported_request" (GRPCError "12" "invalid gRPC request") s)
    else if bool_decide (h_slots h ≤ used)%nat then
      Some (d, refuse x "proxy_overload"
                 (if grpc then GRPCError "8" "proxy inflight limit reached"
                  else HTTPError 503 "proxy inflight limit reached" http1) s)
    else
      let header := Header_Get (rq_Header r) "Grpc-Timeout" in
      let '(timeout, valid) :=
        if grpc && nonempty header then
          let '(t, valid) := Timeout header in (Z.min (h_RequestTimeout h) t, valid)
        else (h_RequestTimeout h, true) in
      if negb valid then Some (d, refuse x "unsupported_request" (GRPCError "3" "invalid grpc-timeout") s)
      else serve_flow x timeout md snapshot d s.
End handler.
