(* ===== verification/HttpSpec.v ===== *)
(** * Correctness of the HTTP and gRPC handler

    Every request returns; its events have the documented shape, its report
    agrees with them, and the client is answered at most once. Requests that are
    refused decide nothing; unselected ones are forwarded unchanged; a respond
    fault answers by itself. *)

From Stdlib Require Import Ascii.
From S2P Require Import Prelude GoLib GoUtf8 GoRand Config Validate ValidateSpec Engine EngineSpec Control Recorder Grpc GoIO Fault FaultSpec Adapter Http.
Local Open Scope go_scope.

(** ** Bodies *)

Section bodies.
Context `{Reader R}.

(** A body wrapper whose reads return. *)
Definition body_ok (b : Body R) : Prop :=
  (f_Action (b_action b) = "truncate" ∧ 0 ≤ b_remaining b) ∨
  (f_Action (b_action b) = "throttle" ∧ is_Some (f_BytesPerSecond (b_action b))).

Lemma wrap_ok (src : R) f : http_fault f → body_action f = true → body_ok (WrapBody src f).
Proof.
  intros Hf Ha. destruct Hf; cbn in Ha; unfold body_action in Ha; cbn in Ha; try discriminate.
  - left. split; [done|]. cbn. lia.
  - right. split; [done|]. eauto.
Qed.

Lemma body_Read_total ctx p now b :
  body_ok b → ∃ data e b' now', body_Read ctx p now b = Some (data, e, b', now') ∧ body_ok b' ∧ now ≤ now'.
Proof.
  intros Hb. unfold body_Read. destruct (bool_decide _); [eexists _, _, _, _; split_and!; [done..|lia]|].
  destruct (ctx_Err ctx now); [eexists _, _, _, _; split_and!; [done..|lia]|].
  destruct Hb as [[Ha Hr]|[Ha [rate Hr]]]; rewrite Ha.
  - cbn [str_eq]. rewrite str_eq_refl. destruct (b_remaining b =? 0) eqn:E0.
    + destruct (read 1 (b_source b)) as [[probe e] src].
      destruct probe; eexists _, _, _, _; (split; [done|]); (split; [left; by split|lia]).
    + rewrite (proj2 (Z.ltb_ge _ _)) by done. bool_hyps.
      destruct (read _ (b_source b)) as [[data e] src] eqn:E. destruct (read_ok _ _ _ _ _ E) as (Hl & _).
      eexists _, _, _, _. split; [done|]. split; [left; split; [done|cbn; lia]|lia].
  - rewrite (proj2 (str_eq_false "throttle" "truncate")) by done. rewrite Hr. cbn [mbind option_bind].
    destruct (read _ (b_source b)) as [[data e] src]. destruct data as [|c data].
    + eexists _, _, _, _. split; [done|]. split; [right; eauto|lia].
    + unfold wait. pose proof (wake_bounds ctx now (throttle_pause (Z.of_nat (length (c :: data))) rate)).
      destruct (ctx_Err ctx _); eexists _, _, _, _; (split; [done|]); (split; [right; eauto|lia]).
Qed.

Lemma read_all_total ctx ps now b :
  body_ok b → ∃ data e b' now', read_all ctx ps now b = Some (data, e, b', now') ∧ now ≤ now'.
Proof.
  revert now b. induction ps as [|p ps IH]; intros now b Hb; [eexists _, _, _, _; split; [done|lia]|].
  destruct (body_Read_total ctx p now b Hb) as (data & e & b1 & now1 & Hr & Hb1 & Hn). cbn [read_all]. rewrite Hr.
  cbn [mbind option_bind]. destruct e as [e|]; [eexists _, _, _, _; split; [done|lia]|].
  destruct (IH now1 b1 Hb1) as (more & e & b2 & now2 & -> & Hn2). eexists _, _, _, _. split; [done|lia].
Qed.

(** A plain copy that ends in an error has read the whole stream. *)
Lemma copy_plain_end ps (src : R) data e :
  copy_plain ps src = (data, Some e) → data = stream src ∧ e = terminal src.
Proof.
  revert src data. induction ps as [|p ps IH]; intros src data Hc; [done|]. cbn in Hc.
  destruct (read p src) as [[d err] src'] eqn:E. destruct (read_ok _ _ _ _ _ E) as (_ & Hs & Ht & _).
  destruct err as [e'|].
  - simplify_eq. destruct (read_err _ _ _ _ _ _ E eq_refl) as [-> Hn]. by rewrite Hs, Hn, app_nil_r.
  - destruct (copy_plain ps src') as [more err] eqn:Ec. simplify_eq. destruct (IH _ _ Ec) as [-> ->]. by rewrite Hs, Ht.
Qed.
End bodies.

(** ** The executor on a flow *)

Section execute.
Context (P : flow → Prop).
Context (Papplied : ∀ f, P f → P (flow_FaultApplied f)) (Pcancel : ∀ f, P f → P (flow_CancelUpstream f)).
Context (Prespond : ∀ st body f, P f → P (flow_Respond st body f).1).
Context (Pclose : ∀ f, P f → P (flow_CloseConnection f).1) (Pend : ∀ f, P f → P (flow_EndStream f).1).

(** Executing a validated fault returns and keeps what every capability keeps. *)
Lemma Execute_keeps ctx a f now :
  executable a → P f → ∃ ok err f' now', Execute ctx a f now = Some (ok, err, f', now') ∧ P f' ∧ now ≤ now'.
Proof using All.
  intros (Hf & Ht & Hth & Hbody) HP. unfold Execute.
  destruct (ctx_Err ctx now) as [e|]; [eexists _, _, _, _; split_and!; [done..|lia]|].
  destruct Hf as [ph d ? Hd|st body ?|d Hd|d Hd|dir ph n|dir ph n|ph]; try done;
    unfold http_fields, end_stream, wait in *; fault_fields; decide_strings; cbn [mbind option_bind orb].
  - pose proof (wake_bounds ctx now d). eexists _, _, _, _. split_and!; [done|by apply Papplied|lia].
  - destruct Hbody as [b ->]; [done|]. cbn [mbind option_bind Respond flow_Capabilities].
    destruct (flow_Respond _ _ _) as [f' e] eqn:E. eexists _, _, _, _. split_and!; [done| |lia].
    change f' with (f', e).1. rewrite <- E. by apply Prespond, Papplied.
  - pose proof (wake_bounds ctx now d). cbn [EndStream flow_Capabilities].
    destruct (flow_EndStream _) as [f' e] eqn:E. eexists _, _, _, _. split_and!; [done| |lia].
    change f' with (f', e).1. rewrite <- E. by apply Pend, Papplied, Pcancel.
  - pose proof (wake_bounds ctx now d). cbn [EndStream flow_Capabilities].
    destruct (flow_EndStream _) as [f' e] eqn:E. eexists _, _, _, _. split_and!; [done| |lia].
    change f' with (f', e).1. rewrite <- E. by apply Pend, Papplied, Pcancel.
  - cbn [CloseConnection CancelUpstream flow_Capabilities].
    destruct (flow_CloseConnection _) as [f' e] eqn:E.
    assert (P f') as HP' by (change f' with (f', e).1; rewrite <- E; by apply Pclose, Pcancel).
    destruct e; eexists _, _, _, _; (split; [done|]); (split; [auto|lia]).
Qed.
End execute.

(** ** Events and answers of a flow *)

Definition applied_types (f : flow) : list string := if fl_applied f then ["fault_applied"] else [].

(** The log of a flow whose earlier events have types [base]. *)
Record logged (id : string) (base : list string) (f : flow) : Prop := {
  lo_types : ev_Type <$> fl_log f = base ++ applied_types f;
  lo_ids : Forall (λ e, ev_FlowID e = id) (fl_log f);
  lo_event : ev_Type (fl_appliedEvent f) = "fault_applied" ∧ ev_FlowID (fl_appliedEvent f) = id
}.

(** The client has been sent nothing, or the one answer that ends the flow. *)
Definition answered (f : flow) : Prop := fl_sent f = [] ∨ fl_terminal f = true ∧ ∃ s, fl_sent f = [s].

Lemma logged_applied id base f : logged id base f → logged id base (flow_FaultApplied f).
Proof.
  intros [Ht Hi [He1 He2]]. unfold flow_FaultApplied. destruct (fl_applied f) eqn:Ea; [by constructor|].
  unfold applied_types in Ht. rewrite Ea, app_nil_r in Ht. constructor; cbn; [|by apply Forall_app_2; [|by constructor]|done].
  by rewrite fmap_app, Ht; cbn; rewrite He1.
Qed.

Lemma answered_applied f : answered f → answered (flow_FaultApplied f).
Proof. unfold flow_FaultApplied. by destruct (fl_applied f). Qed.

Definition fine (id : string) (base : list string) (f : flow) : Prop := logged id base f ∧ answered f.

Lemma fine_applied id base f : fine id base f → fine id base (flow_FaultApplied f).
Proof. intros []. split; [by apply logged_applied|by apply answered_applied]. Qed.

Lemma fine_cancel id base f : fine id base f → fine id base (flow_CancelUpstream f).
Proof. intros [[] ?]. by split; [constructor|]. Qed.

Lemma fine_respond id base status body f : fine id base f → fine id base (flow_Respond status body f).1.
Proof.
  intros [[Ht Hi He] Ha]. unfold flow_Respond. destruct (fl_terminal f) eqn:Et; [by split; [constructor|]|].
  destruct Ha as [Ha|[? _]]; [|congruence].
  destruct (_ || _ || _); [|destruct (str_eq _ _)]; (split; [by constructor|]); right; cbn; rewrite Ha; eauto.
Qed.

Lemma fine_close id base f : fine id base f → fine id base (flow_CloseConnection f).1.
Proof.
  intros [[Ht Hi He] Ha]. unfold flow_CloseConnection. destruct (fl_http2 f); [by split; [constructor|]|].
  destruct (fl_terminal f) eqn:Et; [by split; [constructor|]|]. split; [by constructor|].
  destruct Ha as [Ha|[? _]]; [|congruence]. by left.
Qed.

Lemma fine_end id base f : fine id base f → fine id base (flow_EndStream f).1.
Proof.
  intros Hf. unfold flow_EndStream. destruct (negb _); [by apply fine_close|]. destruct Hf as [[Ht Hi He] Ha].
  split; [by constructor|]. destruct Ha as [Ha|[_ Ha]]; [by left|by right].
Qed.

(** ** Runs *)

Definition before : list string := ["flow_started"; "decision"].
Definition reached : list string := before ++ ["fault_reached"].

Section runs.
Context (h : handler) {R : Type} `{Reader R} (is_tls is_timeout : error → bool).
Context (x : Exchange R).
Let id := x_flow x.

(** Between the decision and the end: the fault has not been reached and nothing
    was done, or it has. *)
Inductive stage (s : run) : Prop :=
| stage_pending :
    ho_Reached (rn_report s) = false → fl_applied (rn_flow s) = false →
    ev_Type <$> fl_log (rn_flow s) = before → Forall (λ e, ev_FlowID e = id) (fl_log (rn_flow s)) →
    answered (rn_flow s) → stage s
| stage_reached :
    ho_Reached (rn_report s) = true → dc_Selected (ho_Decision (rn_report s)) = true →
    fine id reached (rn_flow s) → stage s.

(** What does not change after the decision. *)
Definition same (s s' : run) : Prop :=
  ho_Decision (rn_report s') = ho_Decision (rn_report s) ∧ ho_FlowID (rn_report s') = ho_FlowID (rn_report s) ∧
  rn_now s ≤ rn_now s'.

Definition fault_valid (d : Decision) : Prop :=
  dc_Selected d = true → http_fault (dc_Fault d) ∧ (f_Action (dc_Fault d) = "respond" → is_Some (f_Body (dc_Fault d))).

(** A fault is due in a phase. *)
Definition due (phase : string) (s : run) : bool :=
  dc_Selected (ho_Decision (rn_report s)) && (f_Phase (dc_Fault (ho_Decision (rn_report s))) =s phase).

Lemma apply_stage ctx phase s :
  stage s → fault_valid (ho_Decision (rn_report s)) → ho_FlowID (rn_report s) = id →
  (due phase s = true → ho_Reached (rn_report s) = false) → fl_terminal (rn_flow s) = false →
  ∃ s' err, apply h ctx phase s = Some (s', err) ∧ stage s' ∧ same s s' ∧
    (err = None → fl_terminal (rn_flow s') = false) ∧
    if due phase s then ho_Reached (rn_report s') = true else s' = s ∧ err = None.
Proof.
  intros Hs Hv Hid Hdue Hterm. unfold apply. unfold due in *.
  destruct (dc_Selected (ho_Decision (rn_report s))) eqn:Esel; cbn [negb orb andb] in *.
  2:{ exists s, None. by split_and!. }
  destruct (str_eq (f_Phase (dc_Fault (ho_Decision (rn_report s)))) phase) eqn:Eph; cbn [negb].
  2:{ exists s, None. by split_and!. }
  destruct Hs as [Hr Ha Ht Hi Hans|Hr]; [|rewrite Hdue in Hr; done].
  cbv zeta. set (f0 := fl_events _ _ _ _).
  assert (fine id reached f0) as Hf0.
  { split.
    - constructor; cbn.
      + rewrite fmap_app, Ht. unfold applied_types. cbn. by rewrite Ha.
      + apply Forall_app_2; [done|]. constructor; [|done]. done.
      + done.
    - destruct Hans as [Hans|[? _]]; [|congruence]. by left. }
  destruct (body_action _) eqn:Eb.
  { eexists _, _. split; [done|]. split_and!; try done. by apply stage_reached. }
  destruct (negb (h_executor h)).
  { eexists _, _. split; [done|]. split_and!; try done. by apply stage_reached. }
  destruct (Hv Esel) as [Hhf Hresp].
  assert (executable (dc_Fault (ho_Decision (rn_report s)))) as Hex.
  { unfold body_action in Eb. bool_hyps. done. }
  destruct (Execute_keeps (fine id reached) (fine_applied _ _) (fine_cancel _ _) (fine_respond _ _) (fine_close _ _)
              (fine_end _ _) ctx _ f0 (rn_now s) Hex Hf0) as (ok & err & f1 & now' & HE & Hf1 & Hn).
  cbn [rn_flow rn_now set_flow record set_report] in HE |- *. rewrite HE. cbn [mbind option_bind].
  assert (fine id reached (if ok then flow_FaultApplied f1 else f1)) as Hf2 by (destruct ok; [by apply fine_applied|done]).
  destruct err as [e|].
  - eexists _, _. split; [done|]. split_and!; try done. by apply stage_reached.
  - eexists _, _. split; [done|]. split_and!; try done; [by apply stage_reached|].
    intros Hnone. by destruct (fl_terminal (if ok then _ else _)) eqn:Et; [|exact Et].
Qed.

(** The client's answers when the flow is over. *)
Definition single (f : flow) : Prop := (length (fl_sent f) ≤ 1)%nat.

Lemma answered_single f : answered f → single f.
Proof. unfold single. intros [->|[_ [s ->]]]; cbn; lia. Qed.

(** A stage whose answer may have been sent without ending the flow. *)
Definition over (s : run) : Prop :=
  (∃ f, fl_log f = fl_log (rn_flow s) ∧ fl_applied f = fl_applied (rn_flow s) ∧ stage (set_flow f s)) ∧ single (rn_flow s).

Lemma stage_over s : stage s → over s.
Proof.
  intros Hs. split; [exists (rn_flow s); by destruct s|].
  destruct Hs as [? ? ? ? Ha|? ? [_ Ha]]; by apply answered_single.
Qed.

Lemma over_report s rep :
  over s → ho_Reached rep = ho_Reached (rn_report s) → ho_Decision rep = ho_Decision (rn_report s) →
  over (set_report rep s).
Proof.
  intros [(f & Hl & Ha & Hs) H1] Hr Hd. split; [|done]. exists f. split_and!; try done.
  destruct Hs as [Hr' ? ? ? ?|Hr' Hsel Hf].
  - apply stage_pending; [by cbn; rewrite Hr|done..].
  - apply stage_reached; [by cbn; rewrite Hr|by cbn; rewrite Hd|done].
Qed.

Lemma stage_report s rep :
  stage s → ho_Reached rep = ho_Reached (rn_report s) → ho_Decision rep = ho_Decision (rn_report s) →
  stage (set_report rep s).
Proof.
  intros [Hr' ? ? ? ?|Hr' Hsel Hf] Hr Hd.
  - apply stage_pending; [by cbn; rewrite Hr|done..].
  - apply stage_reached; [by cbn; rewrite Hr|by cbn; rewrite Hd|done].
Qed.

Lemma stage_answered s : stage s → answered (rn_flow s).
Proof. by intros [? ? ? ? Ha|? ? [_ Ha]]. Qed.

(** Sending an answer on an open flow. *)
Lemma over_send s a : stage s → fl_terminal (rn_flow s) = false → over (set_flow (send a (rn_flow s)) s).
Proof.
  intros Hs Ht. split.
  - exists (rn_flow s). split_and!; [done..|]. by destruct s.
  - unfold single. cbn. destruct (stage_answered s Hs) as [->|[? _]]; [done|congruence].
Qed.

Lemma stage_close s : stage s → stage (set_flow (flow_CloseConnection (rn_flow s)).1 s).
Proof.
  intros [Hr Ha Ht Hi Hans|Hr Hsel Hf].
  - apply stage_pending; unfold flow_CloseConnection; cbn [rn_flow set_flow rn_report];
      destruct (fl_http2 (rn_flow s)); try done; destruct (fl_terminal (rn_flow s)) eqn:Et; try done.
    destruct Hans as [Hans|[? _]]; [by left|congruence].
  - apply stage_reached; [done..|]. by apply fine_close.
Qed.

Lemma fail_over ctx err s s' panics :
  stage s → fail h x ctx err s = (s', panics) →
  over s' ∧ same s s' ∧ ho_Reached (rn_report s') = ho_Reached (rn_report s).
Proof.
  intros Hs. unfold fail. cbv zeta. destruct (bool_decide (err = errTerminal)).
  { intros [= <- <-]. split; [by apply stage_over|done]. }
  destruct (ctx_Err ctx (rn_now s)) as [e|].
  - destruct (fl_http2 (rn_flow s)); intros [= <- <-]; (split; [|done]).
    + apply over_report; [by apply stage_over|done..].
    + apply stage_over, (stage_close (set_report _ s)). by apply stage_report.
  - destruct (fl_terminal (rn_flow s)) eqn:Et.
    { intros [= <- <-]. split; [|done]. apply over_report; [by apply stage_over|done..]. }
    destruct (str_eq _ "grpc"); intros [= <- <-]; (split; [|done]); (apply (over_send (set_report _ s)); [by apply stage_report|done]).
Qed.

(** *** Bodies and the reverse proxy *)

Lemma stage_flow s f :
  stage s → fl_log f = fl_log (rn_flow s) → fl_applied f = fl_applied (rn_flow s) →
  fl_appliedEvent f = fl_appliedEvent (rn_flow s) → answered f → stage (set_flow f s).
Proof.
  intros [Hr Ha Ht Hi Hans|Hr Hsel [[Ht Hi He] _]] El Ea Ee Hf.
  - apply stage_pending; cbn; by rewrite ?El, ?Ea.
  - apply stage_reached; [done..|]. split; [|done]. constructor; cbn; unfold applied_types; by rewrite ?El, ?Ea, ?Ee.
Qed.

Lemma stage_now s t : stage s → stage (set_now t s).
Proof. by intros [? ? ? ? ?|? ? ?]; [apply stage_pending|apply stage_reached]. Qed.

Lemma note_applied_stage n s :
  stage s → (n ≠ 0%nat → ho_Reached (rn_report s) = true) →
  stage (note_applied n s) ∧ rn_report (note_applied n s) = rn_report s ∧ rn_now (note_applied n s) = rn_now s ∧
  fl_terminal (rn_flow (note_applied n s)) = fl_terminal (rn_flow s).
Proof.
  intros Hs Hn. unfold note_applied. destruct (bool_decide (n = 0%nat)) eqn:E; [done|]. bool_hyps. split_and!; try done.
  - destruct Hs as [Hr ? ? ? ?|Hr Hsel Hf]; [by rewrite Hn in Hr|]. apply stage_reached; [done..|]. by apply fine_applied.
  - cbn. unfold flow_FaultApplied. by destruct (fl_applied _).
Qed.

(** The reads of a faulted body, in either direction. *)
Lemma faulted_reads ctx ps (src : R) s :
  stage s → fault_valid (ho_Decision (rn_report s)) → dc_Selected (ho_Decision (rn_report s)) = true →
  body_action (dc_Fault (ho_Decision (rn_report s))) = true → ho_Reached (rn_report s) = true →
  ∃ data e b now, read_all ctx ps (rn_now s) (WrapBody src (dc_Fault (ho_Decision (rn_report s)))) = Some (data, e, b, now) ∧
    stage (set_now now (note_applied (b_applied b) s)) ∧ same s (set_now now (note_applied (b_applied b) s)) ∧
    rn_report (note_applied (b_applied b) s) = rn_report s ∧
    fl_terminal (rn_flow (note_applied (b_applied b) s)) = fl_terminal (rn_flow s).
Proof.
  intros Hs Hv Hsel Hb Hr. destruct (Hv Hsel) as [Hf _].
  destruct (read_all_total ctx ps (rn_now s) _ (wrap_ok src _ Hf Hb)) as (data & e & b & now & HE & Hn).
  destruct (note_applied_stage (b_applied b) s Hs) as (Hs' & Hrep & Hnow & Ht); [done|].
  exists data, e, b, now. split_and!; try done; [by apply stage_now|]. unfold same. cbn. by rewrite Hrep.
Qed.

(** A body fault is due in the phase of its direction. *)
Lemma direction_phase f dir :
  http_fault f → body_action f = true → f_Direction f = dir →
  (dir = "request" → f_Phase f = BeforeUpstreamRequest) ∧ (dir = "response" → f_Phase f = AfterUpstreamHeaders).
Proof.
  intros Hf Ha Hd. destruct Hf as [| | | |d ph n Hp|d ph n Hp|]; unfold body_action in Ha; cbn in *; try discriminate;
    subst; by destruct Hp.
Qed.

Lemma upload_stage ctx s :
  stage s → fault_valid (ho_Decision (rn_report s)) → ho_Reached (rn_report s) = due BeforeUpstreamRequest s →
  ∃ s' err, upload x ctx s = Some (s', err) ∧ stage s' ∧ same s s' ∧ rn_report s' = rn_report s ∧
    fl_terminal (rn_flow s') = fl_terminal (rn_flow s).
Proof.
  intros Hs Hv Hr. unfold upload. cbv zeta. destruct (_ && _ && _) eqn:E; [|by exists s, None].
  bool_hyps. match goal with Hd : f_Direction _ = "request" |- _ => rename Hd into Hdir end.
  match goal with Hd : dc_Selected _ = true |- _ => rename Hd into Hsel end.
  match goal with Hd : body_action _ = true |- _ => rename Hd into Hb end.
  destruct (faulted_reads ctx (x_upload_reads x) (x_upload x) s) as (data & e & b & now & HE & Hs' & Hsame & Hrep & Ht); try done.
  { rewrite Hr. unfold due. rewrite Hsel. destruct (Hv Hsel) as [Hf _].
    destruct (direction_phase _ _ Hf Hb eq_refl) as [Hp _]. rewrite Hp by done. done. }
  rewrite HE. cbn [mbind option_bind]. eexists _, _. split; [done|]. done.
Qed.

Lemma ModifyResponse_stage ctx (res : Response R) s :
  stage s → fault_valid (ho_Decision (rn_report s)) → ho_FlowID (rn_report s) = id →
  ho_Reached (rn_report s) = due BeforeUpstreamRequest s → fl_terminal (rn_flow s) = false →
  ∃ s' err, ModifyResponse h ctx res s = Some (s', err) ∧ stage s' ∧ same s s' ∧
    (err = None → fl_terminal (rn_flow s') = false ∧
       (due AfterUpstreamHeaders s = true → ho_Reached (rn_report s') = true)).
Proof.
  intros Hs Hv Hid Hr Ht. unfold ModifyResponse. cbv zeta.
  set (s1 := set_report _ s). set (s2 := set_flow _ s1).
  assert (stage s2) as Hs2.
  { apply stage_flow; [by apply stage_report|done..|]. apply (stage_answered _ Hs). }
  destruct (up_StatusCode res =? 101); [by eexists s2, _|].
  destruct (apply_stage ctx AfterUpstreamHeaders s2) as (s' & err & HE & Hs' & Hsame & Hterm & Hdue); try done.
  { intros Hd. cbn. rewrite Hr. unfold due in *. apply andb_true_iff in Hd as [_ Hd%str_eq_true]. cbn in Hd.
    rewrite Hd. apply andb_false_r. }
  exists s', err. split_and!; try done; try apply Hsame. intros Hnone. split; [by apply Hterm|]. intros Hd.
  change (due AfterUpstreamHeaders s2 = true) in Hd. by rewrite Hd in Hdue.
Qed.

Lemma forward_over ctx (res : Response R) s :
  stage s → fault_valid (ho_Decision (rn_report s)) → fl_terminal (rn_flow s) = false →
  (due AfterUpstreamHeaders s = true → ho_Reached (rn_report s) = true) →
  ∃ s' panics, forward x ctx res s = Some (s', panics) ∧ over s' ∧ same s s'.
Proof.
  intros Hs Hv Ht Hr. unfold forward. cbv zeta. destruct (_ && _ && _ && _ && _) eqn:E.
  - bool_hyps. match goal with Hd : f_Direction _ = "response" |- _ => rename Hd into Hdir end.
    match goal with Hd : dc_Selected _ = true |- _ => rename Hd into Hsel end.
    match goal with Hd : body_action _ = true |- _ => rename Hd into Hb end.
    destruct (faulted_reads ctx (x_copy_reads x) (up_Body res) s) as (data & e & b & now & HE & Hs' & Hsame & Hrep & Hterm); try done.
    { apply Hr. unfold due. rewrite Hsel. destruct (Hv Hsel) as [Hf _].
      destruct (direction_phase _ _ Hf Hb eq_refl) as [_ Hp]. rewrite Hp by done. done. }
    rewrite HE. cbn [mbind option_bind]. eexists _, _. split; [done|]. split; [|done].
    apply over_send; [done|]. cbn. by rewrite Hterm.
  - destruct (copy_plain _ _) as [data err]. cbn [mbind option_bind]. eexists _, _. split; [done|]. split; [|done].
    by apply over_send.
Qed.

Lemma proxy_over ctx timeout s :
  stage s → fault_valid (ho_Decision (rn_report s)) → ho_FlowID (rn_report s) = id →
  ho_Reached (rn_report s) = due BeforeUpstreamRequest s → fl_terminal (rn_flow s) = false →
  x_now x + timeout - rn_now s ≤ max_i64 →
  ∃ s' panics kept, proxy_ServeHTTP h x ctx timeout s = Some (s', panics, kept) ∧ over s' ∧ same s s'.
Proof.
  intros Hs Hv Hid Hr Ht Hmax. unfold proxy_ServeHTTP.
  assert (∃ header, (if str_eq (h_protocol h) "grpc" then Some <$> TimeoutHeader (x_now x + timeout - rn_now s) else Some None)
            = Some header) as [header ->].
  { destruct (str_eq _ _); [|eauto]. destruct (TimeoutHeader_ok _ Hmax) as (t & -> & _). eauto. }
  destruct (upload_stage ctx s Hs Hv Hr) as (s1 & e1 & HE & Hs1 & (Hd1 & Hi1 & Hn1) & Hrep1 & Ht1). cbn [mbind option_bind]. rewrite HE.
  cbn [mbind option_bind]. set (s2 := set_now _ s1).
  assert (stage s2 ∧ same s s2) as [Hs2 (Hd2 & Hi2 & Hn2)].
  { split; [by apply stage_now|]. split_and!; [done..|]. cbn. lia. }
  destruct (x_transport x header e1) as [res|e].
  - destruct (ModifyResponse_stage ctx res s2) as (s3 & err & HM & Hs3 & (Hd3 & Hi3 & Hn3) & Hok); [done|by rewrite Hd2|congruence| |by cbn; rewrite Ht1|].
    { cbn. rewrite Hrep1, Hr. unfold due. cbn. by rewrite Hrep1. }
    rewrite HM. cbn [mbind option_bind]. destruct err as [e|].
    + destruct (fail h x ctx e s3) as [s4 panics] eqn:Ef. destruct (fail_over _ _ _ _ _ Hs3 Ef) as (Ho & (Hd4 & Hi4 & Hn4) & _).
      eexists _, _, _. split; [done|]. split; [done|]. split_and!; [congruence..|lia].
    + destruct Hok as [Ht3 Hr3]; [done|].
      destruct (forward_over ctx res s3 Hs3) as (s4 & panics & HF & Ho & (Hd4 & Hi4 & Hn4)); [by rewrite Hd3, Hd2|done| |].
      { intros Hdue. apply Hr3. unfold due in *. by rewrite <- Hd3. }
      rewrite HF. cbn [mbind option_bind]. eexists _, _, _. split; [done|]. split; [done|]. split_and!; [congruence..|lia].
  - destruct (fail h x ctx e s2) as [s4 panics] eqn:Ef. destruct (fail_over _ _ _ _ _ Hs2 Ef) as (Ho & (Hd4 & Hi4 & Hn4) & _).
    eexists _, _, _. split; [done|]. split; [done|]. split_and!; [congruence..|lia].
Qed.

(** *** The end of a flow *)

(** The types of the events of a flow, from its report. *)
Definition event_types (decided : bool) (rep : Report) : list string :=
  ["flow_started"] ++ (if decided then ["decision"] else []) ++ (if ho_Reached rep then ["fault_reached"] else []) ++
  (if ho_Applied rep then ["fault_applied"] else []) ++ ["flow_finished"].

(** What is promised of every request. *)
Record flow_ok (decided : bool) (out : Served) : Prop := {
  ok_types : h_recorder h = true → ev_Type <$> sv_log out = event_types decided (sv_report out);
  ok_ids : Forall (λ e, ev_FlowID e = id) (sv_log out);
  ok_applied : ho_Applied (sv_report out) = true → ho_Reached (sv_report out) = true;
  ok_reached : ho_Reached (sv_report out) = true → dc_Selected (ho_Decision (sv_report out)) = true;
  ok_not_reached : ho_NotReached (sv_report out) =
    dc_Selected (ho_Decision (sv_report out)) && negb (ho_Reached (sv_report out));
  ok_single : (length (sv_sent out) ≤ 1)%nat
}.

Lemma cleanup_fields ctx s :
  let s' := cleanup is_tls is_timeout x ctx s in
  ho_Reached (rn_report s') = ho_Reached (rn_report s) ∧ ho_Decision (rn_report s') = ho_Decision (rn_report s) ∧
  ho_FlowID (rn_report s') = ho_FlowID (rn_report s) ∧ ho_Applied (rn_report s') = fl_applied (rn_flow s) ∧
  fl_log (rn_flow s') = fl_log (rn_flow s) ∧ fl_sent (rn_flow s') = fl_sent (rn_flow s).
Proof.
  unfold cleanup. cbv zeta. cbn [rn_report rn_flow].
  destruct (ctx_Err ctx _) as [e|]; [destruct (_ || _)|]; cbn;
    try (destruct (ho_Err (rn_report s)); cbn); try destruct (str_eq _ ""); done.
Qed.

Lemma finish_ok ctx s panics :
  over s → ho_FlowID (rn_report s) = id → flow_ok true (finish h x (cleanup is_tls is_timeout x ctx s) panics).
Proof.
  intros [(f & Hl & Ha & Hs) H1] Hid. destruct (cleanup_fields ctx s) as (Er & Ed & Ei & Ea & El & Es).
  set (s' := cleanup _ _ _ _ _) in *. unfold finish. cbv zeta.
  assert (Forall (λ e, ev_FlowID e = id) (fl_log (rn_flow s')) ∧
          (ho_Applied (rn_report s') = true → ho_Reached (rn_report s') = true) ∧
          (ho_Reached (rn_report s') = true → dc_Selected (ho_Decision (rn_report s')) = true) ∧
          (ev_Type <$> fl_log (rn_flow s')) ++ ["flow_finished"] = event_types true (rn_report s')) as (Hi & Hap & Hre & Hty).
  { rewrite El, <- Hl, Er, Ed, Ea. unfold event_types. rewrite Er, Ea, <- Ha.
    destruct Hs as [Hr Hap Ht Hi _|Hr Hsel [[Ht Hi _] _]]; cbn in *.
    - rewrite Hr, Ha in *. rewrite Hap. by rewrite Ht.
    - rewrite Hr, Ht. unfold applied_types. by destruct (fl_applied f). }
  constructor; cbn; try done.
  - intros Hrec. rewrite Hrec, fmap_app. exact Hty.
  - destruct (h_recorder h); [|done]. apply Forall_app_2; [done|]. constructor; [|done]. change (ho_FlowID (rn_report s') = id). by rewrite Ei.
Qed.

Lemma refuse_ok outcome a i : flow_ok false (refuse h x outcome a (start h x i)).
Proof.
  unfold refuse, finish, start. constructor; cbn; try done.
  - by intros ->.
  - destruct (h_recorder h); [|done]. by repeat constructor.
Qed.
End runs.

(** ** ServeHTTP *)

Section serve.
Context (h : handler) {R D Sn : Type} `{Reader R} `{Decisions D Sn} (is_tls is_timeout : error → bool).
Context `{!DecisionsOk D Sn (h_proxyID h) (adapter_fault (h_protocol h))}.
Context (Hprotocol : h_protocol h ∈ ["http1"; "http2"; "grpc"]) (Htimeout : h_RequestTimeout h ≤ max_i64).

Lemma adapter_valid dec :
  (dc_Selected dec = true → adapter_fault (h_protocol h) (dc_Fault dec)) → fault_valid dec.
Proof using Hprotocol.
  intros Hf Hs. specialize (Hf Hs). unfold adapter_fault in Hf.
  rewrite !elem_of_cons in Hprotocol. destruct Hprotocol as [E|[E|[E|E]]]; [..|by apply not_elem_of_nil in E];
    by rewrite E in Hf.
Qed.

Lemma decided_stage (x : Exchange R) i dec :
  let s := start h x i in
  let rep := rn_report s in
  stage x (record h "decision" (set_report (ho_decided dec (ho_Reached rep) (ho_Applied rep) (ho_NotReached rep) rep) s)).
Proof. apply stage_pending; cbn; [done..|by repeat constructor|by left]. Qed.

Lemma serve_flow_ok (x : Exchange R) timeout md sn d i :
  good d → held d sn → timeout ≤ max_i64 →
  ∃ d' out, serve_flow h is_tls is_timeout x timeout md sn d (start h x i) = Some (d', out) ∧
    good d' ∧ flow_ok h x true out.
Proof using All.
  intros Hg Hh Ht. unfold serve_flow. cbv zeta.
  destruct (decide_ok d sn md Hg Hh) as (d' & dec & err & Hdec & Hg' & _ & Hfault).
  rewrite Hdec. cbn [mbind option_bind]. apply adapter_valid in Hfault.
  pose proof (decided_stage x i dec) as Hs. cbv zeta in Hs. set (s0 := record h "decision" _) in *.
  set (ctx := WithTimeout _ _ _). destruct err as [e|].
  { eexists _, _. split; [done|]. split; [done|]. apply finish_ok; [|done].
    apply (over_send x (set_report _ s0)); [by apply stage_report|done]. }
  destruct (apply_stage h x ctx BeforeUpstreamRequest s0) as (s1 & err & HE & Hs1 & (Hd1 & Hi1 & Hn1) & Hterm & Hdue); try done.
  rewrite HE. cbn [mbind option_bind]. destruct err as [e|].
  - destruct (fail h x ctx e s1) as [s2 panics] eqn:Ef. destruct (fail_over _ _ _ _ _ _ _ Hs1 Ef) as (Ho & (Hd2 & Hi2 & Hn2) & _).
    eexists _, _. split; [done|]. split; [done|]. apply finish_ok; [done|]. by rewrite Hi2, Hi1.
  - destruct (proxy_over h x ctx timeout s1) as (s2 & panics & kept & HP & Ho & (Hd2 & Hi2 & Hn2)); [done|by rewrite Hd1|exact Hi1| |by apply Hterm| |].
    { unfold due in *. rewrite Hd1. destruct (_ && _); [done|]. by destruct Hdue as [-> _]. }
    { cbn in Hn1. lia. }
    rewrite HP. cbn [mbind option_bind]. eexists _, _. split; [done|]. split; [done|]. apply finish_ok.
    + destruct panics; apply over_report; try done; unfold grpc_status; destruct kept; try done;
        destruct (str_eq _ "grpc"); try done; by destruct (str_eq _ "0").
    + destruct panics; cbn; [by rewrite Hi2, Hi1|]. unfold grpc_status. destruct kept; [|by rewrite Hi2, Hi1].
      destruct (str_eq _ "grpc"); [|by rewrite Hi2, Hi1]. destruct (str_eq _ "0"); cbn; by rewrite Hi2, Hi1.
Qed.

(** C6. Every request to an HTTP or gRPC listener is served to the end; see [flow_ok]
    for what its report, events and answers promise, whatever other goroutines do to
    the service between its snapshot and its decision. One that is refused leaves the
    decisions of later requests as they were. *)
Theorem ServeHTTP_flow (x : Exchange R) used d0 d :
  good d0 → rely d0 d →
  ∃ d' out decided, ServeHTTP h is_tls is_timeout x used d0 d = Some (d', out) ∧ good d' ∧
    flow_ok h x decided out ∧ (decided = false → d' = d).
Proof using All.
  intros Hg0 Hrely. pose proof (rely_good _ _ Hg0 Hrely) as Hg. pose proof (rely_held _ _ _ Hrely (acquire_held _ Hg0)) as Hh.
  unfold ServeHTTP. cbv zeta.
  assert (∀ outcome a, ∃ d' out decided, Some (d, refuse h x outcome a (start h x (snap_info (acquire d0)))) = Some (d', out) ∧
            good d' ∧ flow_ok h x decided out ∧ (decided = false → d' = d)) as Hrefuse.
  { intros outcome a. eexists _, _, false. split; [done|]. split; [done|]. split; [|done]. apply refuse_ok. }
  destruct (unsupported h (x_request x)); [apply Hrefuse|].
  destruct (if str_eq (h_protocol h) "grpc" then grpc_Metadata (x_request x) else _) as [md valid].
  destruct (negb valid); [apply Hrefuse|]. destruct (bool_decide _); [apply Hrefuse|].
  destruct (if _ && _ then _ else _) as [timeout valid'] eqn:Et.
  destruct (negb valid'); [apply Hrefuse|].
  assert (timeout ≤ max_i64) as Ht.
  { destruct (_ && _); [destruct (Timeout _) as [t v]|]; simplify_eq; lia. }
  destruct (serve_flow_ok x timeout md (acquire d0) d (snap_info (acquire d0)) Hg Hh Ht) as (d' & out & HE & Hg' & Hok).
  exists d', out, true. split; [done|]. done.
Qed.
End serve.

(** ** What the client gets *)

(** Simplify a handler term but keep the clock and the context. *)
Ltac hcbn := cbn -[Z.max Z.add ctx_Err WithTimeout].

Section client.
Context (h : handler) {R D Sn : Type} `{Reader R} `{Decisions D Sn} (is_tls is_timeout : error → bool).
Context (x : Exchange R) (used : nat) (d0 d : D).
Let r := x_request x.

(** A supported request on an HTTP listener with a free slot. *)
Record admissible : Prop := {
  ad_protocol : h_protocol h ≠ "grpc";
  ad_supported : unsupported h r = false;
  ad_slot : (used < h_slots h)%nat
}.

Definition http_metadata : Metadata :=
  {| md_Method := rq_Method r; md_Service := ""; md_Path := rq_Path r; md_Headers := rq_Header r |}.

Lemma ServeHTTP_admissible :
  admissible →
  ServeHTTP h is_tls is_timeout x used d0 d =
  serve_flow h is_tls is_timeout x (h_RequestTimeout h) http_metadata (acquire d0) d (start h x (snap_info (acquire d0))).
Proof.
  intros [Hp Hs Hl]. unfold ServeHTTP. cbv zeta. fold r. rewrite Hs. rewrite (proj2 (str_eq_false _ _) Hp). cbn [negb].
  rewrite bool_decide_false by lia. done.
Qed.

(** The request's context ends with the request timeout only. *)
Definition undisturbed (elapsed : Z) : Prop := cx_done (x_parent x) = None ∧ elapsed < h_RequestTimeout h.

Lemma live_ctx t :
  cx_done (x_parent x) = None → t < x_now x + h_RequestTimeout h →
  ctx_Err (WithTimeout (x_parent x) (x_now x) (h_RequestTimeout h)) t = None.
Proof.
  intros Hp Ht. unfold ctx_Err, WithTimeout. rewrite Hp. cbn. by rewrite (proj2 (Z.leb_gt _ _)).
Qed.

(** A request the handler admits: its metadata, and how long it may take. A gRPC
    request must be one, and may shorten the timeout of the listener. *)
Inductive admitted : Metadata → Z → Prop :=
| ad_http : h_protocol h ≠ "grpc" → admitted http_metadata (h_RequestTimeout h)
| ad_grpc md : h_protocol h = "grpc" → grpc_Metadata r = (md, true) →
    Header_Get (rq_Header r) "Grpc-Timeout" = "" → admitted md (h_RequestTimeout h)
| ad_deadline md t : h_protocol h = "grpc" → grpc_Metadata r = (md, true) →
    Header_Get (rq_Header r) "Grpc-Timeout" ≠ "" → Timeout (Header_Get (rq_Header r) "Grpc-Timeout") = (t, true) →
    admitted md (Z.min (h_RequestTimeout h) t).

Lemma ServeHTTP_admitted md timeout :
  unsupported h r = false → (used < h_slots h)%nat → admitted md timeout →
  ServeHTTP h is_tls is_timeout x used d0 d =
  serve_flow h is_tls is_timeout x timeout md (acquire d0) d (start h x (snap_info (acquire d0))).
Proof.
  intros Hs Hl Ha. unfold ServeHTTP. cbv zeta. fold r. rewrite Hs, (bool_decide_false (h_slots h ≤ used)%nat) by lia.
  destruct Ha as [Hp|md Hp Hm Hg|md t Hp Hm Hg Ht].
  - rewrite (proj2 (str_eq_false _ _) Hp). done.
  - rewrite Hp, Hm. cbn [str_eq]. by rewrite Hg.
  - rewrite Hp, Hm. assert (nonempty (Header_Get (rq_Header r) "Grpc-Timeout") = true) as -> by (by destruct (Header_Get _ _)).
    cbn -[Z.min]. by rewrite Ht.
Qed.

(** The grpc-timeout the upstream is sent, and the outcome a complete exchange is
    reported with: completed, unless the upstream's gRPC status is not 0. *)
Definition outgoing_timeout (timeout : Z) : option string :=
  if h_protocol h =s "grpc" then TimeoutHeader timeout else None.
Definition rpc_status (res : Response R) : string :=
  let trailer := Header_Get (up_Trailer res) "Grpc-Status" in
  if trailer =s "" then Header_Get (up_Header res) "Grpc-Status" else trailer.
Definition rpc_failed (res : Response R) : bool := (h_protocol h =s "grpc") && negb (rpc_status res =s "0").

Lemma outgoing_header timeout :
  timeout ≤ max_i64 →
  (if h_protocol h =s "grpc" then Some <$> TimeoutHeader timeout else Some None) = Some (outgoing_timeout timeout).
Proof.
  intros Hm. unfold outgoing_timeout. destruct (str_eq _ _); [|done]. by destruct (TimeoutHeader_ok timeout Hm) as (? & -> & _).
Qed.

(** C29. A request no rule selects is transparent. When the handler admits a request
    (HTTP/1, HTTP/2 or gRPC), no rule selects it, the upstream answers with anything
    but 101, its body reads to io.EOF, and the request ends before its deadline and
    without being cancelled, the client receives the upstream's status and whole body,
    once; no fault event is recorded; and the flow is reported completed, a
    pass-through in its events, or, for a gRPC call whose status is not 0, as an RPC
    error of the upstream. *)
Theorem ServeHTTP_transparent md timeout md_dec d' res :
  unsupported h r = false → (used < h_slots h)%nat → admitted md timeout → timeout ≤ max_i64 →
  cx_done (x_parent x) = None → Z.max 0 (x_latency x) + Z.max 0 (x_end x) < timeout →
  decide_at d (acquire d0) (h_proxyID h) md = Some (d', (md_dec, None)) → dc_Selected md_dec = false →
  x_transport x (outgoing_timeout timeout) None = Ok res → up_StatusCode res ≠ 101 →
  (copy_plain (x_copy_reads x) (up_Body res)).2 = Some EOF →
  ∃ out, ServeHTTP h is_tls is_timeout x used d0 d = Some (d', out) ∧
    sv_sent out = [Forwarded (up_StatusCode res) (stream (up_Body res))] ∧ sv_panic out = false ∧
    ho_Outcome (sv_report out) = (if rpc_failed res then "rpc_error" else "completed") ∧
    (h_recorder h = true → (λ e, (ev_Type e, ev_Outcome e)) <$> sv_log out =
       [("flow_started", ""); ("decision", ""); ("flow_finished", if rpc_failed res then "rpc_error" else "pass_through")]).
Proof.
  intros Hs Hl Ha Hmax Hp Hel Hd Hsel Htr Hst Hcopy. rewrite (ServeHTTP_admitted md timeout) by done. unfold serve_flow. cbv zeta.
  rewrite Hd. cbn [mbind option_bind]. unfold apply at 1. hcbn. rewrite Hsel. cbn [negb orb].
  cbn [mbind option_bind]. unfold proxy_ServeHTTP.
  match goal with |- context [TimeoutHeader ?t] => replace t with timeout by (hcbn; lia) end.
  rewrite (outgoing_header timeout Hmax). cbn [mbind option_bind]. unfold upload. hcbn. rewrite Hsel. hcbn. rewrite Htr. unfold ModifyResponse. hcbn.
  rewrite (proj2 (Z.eqb_neq _ _) Hst). unfold apply. hcbn. rewrite Hsel. hcbn. unfold forward. hcbn. rewrite Hsel. hcbn.
  destruct (copy_plain _ _) as [data err] eqn:Ec. cbn in Hcopy. subst err. apply copy_plain_end in Ec as [-> _].
  hcbn. rewrite (bool_decide_true (Some EOF = Some EOF)) by done. hcbn.
  assert (ctx_Err (WithTimeout (x_parent x) (x_now x) timeout) (x_now x + Z.max 0 (x_latency x) + Z.max 0 (x_end x)) = None) as Hlive.
  { unfold ctx_Err, WithTimeout. rewrite Hp. cbn -[Z.max]. by rewrite (proj2 (Z.leb_gt _ _)) by lia. }
  unfold grpc_status, rpc_failed. fold (rpc_status res).
  destruct (str_eq (h_protocol h) "grpc"); [destruct (str_eq (rpc_status res) "0")|]; cbn [negb andb];
    unfold finish, cleanup; cbv zeta; hcbn; rewrite Hlive; hcbn; (eexists; split; [done|]); hcbn; (split_and!; try done); by intros ->.
Qed.

(** A respond fault answers by itself: whatever the upstream would do, the client
    receives the configured status and body, once. *)
Theorem ServeHTTP_respond md_dec d' status body :
  admissible → undisturbed (Z.max 0 (x_end x)) → 0 < h_RequestTimeout h → h_executor h = true →
  decide_at d (acquire d0) (h_proxyID h) http_metadata = Some (d', (md_dec, None)) → dc_Selected md_dec = true →
  dc_Fault md_dec = http_fields BeforeUpstreamRequest "respond" None None (Some status) (Some body) "" None None →
  status ∉ [204; 205; 304] → rq_Method r ≠ "HEAD" → x_write_err x = None →
  ∃ out, ServeHTTP h is_tls is_timeout x used d0 d = Some (d', out) ∧
    sv_sent out = [Early status (Some (Z.of_nat (String.length body))) body] ∧ sv_panic out = false ∧
    (h_recorder h = true → (λ e, (ev_Type e, ev_Outcome e)) <$> sv_log out =
       [("flow_started", ""); ("decision", ""); ("fault_reached", ""); ("fault_applied", "");
        ("flow_finished", "fault_applied")]).
Proof.
  intros Ha [Hp Hel] Ht Hex Hd Hsel Hf Hst Hm Hw. rewrite ServeHTTP_admissible by done. unfold serve_flow. cbv zeta.
  rewrite Hd. cbn [mbind option_bind]. unfold apply at 1. hcbn. rewrite Hsel, Hf. hcbn.
  rewrite str_eq_refl. unfold body_action, Execute. hcbn. rewrite Hex. decide_strings. hcbn.
  rewrite live_ctx by (done || lia). hcbn.
  assert ((status =? 204) || (status =? 304) || (status =? 205) = false) as Hs.
  { rewrite !elem_of_cons in Hst. rewrite !orb_false_iff, !Z.eqb_neq. naive_solver. }
  apply str_eq_false in Hm. unfold r in Hm. unfold flow_Respond. hcbn. rewrite Hs, Hm, Hw. hcbn.
  unfold fail. rewrite (bool_decide_true (errTerminal = errTerminal)) by done. hcbn. rewrite andb_false_r.
  unfold finish, cleanup. cbv zeta. hcbn. rewrite live_ctx by (done || lia). hcbn.
  eexists. split; [done|]. hcbn. split_and!; try done. intros ->. done.
Qed.

(** ** Lost responses *)

(** Faults that withhold the response of the upstream; closing the connection is an
    action of HTTP/1.1 listeners. *)
Inductive withholds : Fault → Prop :=
| wh_hold m : withholds (http_fields AfterUpstreamHeaders "hold_response" None (Some m) None None "" None None)
| wh_close : rq_ProtoMajor r ≠ 2 → withholds (http_fields AfterUpstreamHeaders "close_connection" None None None None "" None None).

(** ctx.Err is Canceled or DeadlineExceeded. *)
Definition context_errors : Prop := ∀ t e, cx_done (x_parent x) = Some (t, e) → e = Canceled ∨ e = DeadlineExceeded.

Lemma ctx_not_terminal timeout t e :
  context_errors → ctx_Err (WithTimeout (x_parent x) (x_now x) timeout) t = Some e → e ≠ errTerminal.
Proof.
  intros Hc He. unfold ctx_Err, WithTimeout in He. destruct (cx_done (x_parent x)) as [[t' e']|] eqn:E.
  - destruct (t' <=? _); [rewrite E in He|cbn in He]; destruct (_ <=? t); simplify_eq; [|done]. by destruct (Hc _ _ E) as [->| ->].
  - cbn in He. destruct (_ <=? t); by simplify_eq.
Qed.

(** The error handler once the flow is over: nothing more is sent. *)
Lemma fail_terminal ctx err s :
  fl_terminal (rn_flow s) = true → fl_disconnected (rn_flow s) = true →
  fl_http2 (rn_flow s) = false ∨ err = errTerminal ∨ is_Some (ctx_Err ctx (rn_now s)) →
  let '(s2, panics) := fail h x ctx err s in
  fl_sent (rn_flow s2) = fl_sent (rn_flow s) ∧ panics = fl_http2 (rn_flow s) ∧
  fl_conn_closed (rn_flow s2) = fl_conn_closed (rn_flow s) ∧ ho_Reached (rn_report s2) = ho_Reached (rn_report s) ∧
  ho_UpstreamStatus (rn_report s2) = ho_UpstreamStatus (rn_report s).
Proof.
  intros Ht Hd Hc. unfold fail. cbv zeta. destruct (bool_decide (err = errTerminal)) eqn:Eb.
  { split_and!; try done. rewrite Hd. by rewrite andb_true_r. }
  destruct (ctx_Err ctx (rn_now s)) as [e|] eqn:Ee.
  - destruct (fl_http2 (rn_flow s)) eqn:E2; [done|]. cbn. unfold flow_CloseConnection. rewrite E2, Ht. done.
  - rewrite Ht. cbn. split_and!; try done. destruct Hc as [?|[->|[e He]]]; [done|by rewrite bool_decide_true in Eb|done].
Qed.

(** A flow that was ended without an answer. *)
Record ended (http2 : bool) (f : flow) : Prop := {
  en_terminal : fl_terminal f = true;
  en_disconnected : fl_disconnected f = true;
  en_sent : fl_sent f = [];
  en_http2 : fl_http2 f = http2;
  en_closed : http2 = false → fl_conn_closed f = true
}.

Lemma ended_applied http2 f : ended http2 f → ended http2 (flow_FaultApplied f).
Proof. intros [? ? ? ? ?]. unfold flow_FaultApplied. by destruct (fl_applied f). Qed.

Lemma fail_ended ctx err s http2 :
  ended http2 (rn_flow s) → http2 = false ∨ err = errTerminal ∨ is_Some (ctx_Err ctx (rn_now s)) →
  let '(s2, panics) := fail h x ctx err s in
  fl_sent (rn_flow s2) = [] ∧ panics = http2 ∧ (panics = false → fl_conn_closed (rn_flow s2) = true) ∧
  ho_Reached (rn_report s2) = ho_Reached (rn_report s) ∧ ho_UpstreamStatus (rn_report s2) = ho_UpstreamStatus (rn_report s).
Proof.
  intros [Ht Hd Hs H2 Hc] He. pose proof (fail_terminal ctx err s Ht Hd) as Hf. rewrite H2 in Hf. specialize (Hf He).
  destruct (fail h x ctx err s) as [s2 panics]. destruct Hf as (E1 & -> & E3 & E4 & E5). rewrite E1, E3, E4, E5. by split_and!.
Qed.

(** What the executor does to the flow of such a fault while the context lives. *)
Lemma withheld_end http2 f :
  fl_terminal f = false → fl_sent f = [] → fl_http2 f = http2 →
  let '(f', err) := flow_EndStream (flow_FaultApplied (flow_CancelUpstream f)) in ended http2 f' ∧ (http2 = true → err = None).
Proof.
  intros Ht Hs H2. assert (∀ g, fl_terminal g = false → fl_sent g = [] → fl_http2 g = http2 →
    let '(f', err) := flow_EndStream g in ended http2 f' ∧ (http2 = true → err = None)) as Hg.
  { intros g Ht' Hs' H2'. unfold flow_EndStream, flow_CloseConnection. rewrite H2', Ht'. destruct http2; cbn; split; try done; by split. }
  apply Hg; unfold flow_FaultApplied; by destruct (fl_applied _).
Qed.

Lemma closed_end f :
  fl_terminal f = false → fl_sent f = [] → fl_http2 f = false → ended false (flow_CloseConnection (flow_CancelUpstream f)).1.
Proof. intros Ht Hs H2. unfold flow_CloseConnection. cbn. by rewrite H2, Ht. Qed.

#[local] Ltac fail_end Hend :=
  match goal with |- context [fail h x ?ctx ?e ?s1] =>
    let Hf := fresh in
    pose proof (fail_ended ctx e s1 _ Hend) as Hf;
    destruct (fail h x ctx e s1) as [s2 panics]; apply Hf
  end.

(** The executor on such a fault, then the error handler: nothing is sent, and the
    connection is closed or the stream aborted. *)
Lemma withheld_fails timeout s :
  let ctx := WithTimeout (x_parent x) (x_now x) timeout in
  context_errors → h_executor h = true → dc_Selected (ho_Decision (rn_report s)) = true → withholds (dc_Fault (ho_Decision (rn_report s))) →
  fl_http2 (rn_flow s) = (rq_ProtoMajor r =? 2) → fl_terminal (rn_flow s) = false → fl_sent (rn_flow s) = [] →
  ∃ s1 err, apply h ctx AfterUpstreamHeaders s = Some (s1, Some err) ∧
    let '(s2, panics) := fail h x ctx err s1 in
    fl_sent (rn_flow s2) = [] ∧ panics = (rq_ProtoMajor r =? 2) ∧ (panics = false → fl_conn_closed (rn_flow s2) = true) ∧
    ho_Reached (rn_report s2) = true ∧ ho_UpstreamStatus (rn_report s2) = ho_UpstreamStatus (rn_report s).
Proof.
  cbv zeta. intros Hc Hex Hsel Hf H2 Ht Hs. set (ctx := WithTimeout _ _ _).
  assert (∀ t e, ctx_Err ctx t = Some e → bool_decide (e = errTerminal) = false) as Hne.
  { intros t e He. apply bool_decide_false. by eapply ctx_not_terminal. }
  unfold apply. rewrite Hsel. remember (dc_Fault (ho_Decision (rn_report s))) as f eqn:Ef. destruct Hf as [m|Hmaj].
  all: hcbn; unfold body_action; hcbn; rewrite Hex; unfold Execute; hcbn; decide_strings; hcbn.
  all: match goal with |- context [flow_CancelUpstream ?g] => set (f0 := g) end.
  all: assert (fl_terminal f0 = false ∧ fl_sent f0 = [] ∧ fl_http2 f0 = (rq_ProtoMajor r =? 2)) as (Ht0 & Hs0 & H20) by done.
  all: destruct (ctx_Err ctx (rn_now s)) as [e|] eqn:E0; hcbn.
  1,3: eexists _, _; (split; [done|]); unfold fail; hcbn; rewrite (Hne _ _ E0), E0; hcbn; rewrite H2;
    destruct (rq_ProtoMajor r =? 2) eqn:E2; hcbn; [by rewrite Hs|]; unfold flow_CloseConnection; hcbn; rewrite H2, Ht; hcbn; by rewrite Hs.
  - pose proof (withheld_end _ f0 Ht0 Hs0 H20) as Hend. destruct (flow_EndStream _) as [f1 err]. destruct Hend as [Hend Herr]. hcbn.
    apply ended_applied in Hend. set (f2 := flow_FaultApplied f1) in *.
    destruct (ctx_Err ctx (wake ctx (rn_now s) m)) as [e|] eqn:E1; [|destruct err as [e|]].
    + eexists _, _. split; [done|]. fail_end Hend. right. right. hcbn. by rewrite E1.
    + eexists _, _. split; [done|]. fail_end Hend. left. destruct (rq_ProtoMajor r =? 2); [by specialize (Herr eq_refl)|done].
    + rewrite (en_terminal _ _ Hend). eexists _, _. split; [done|]. fail_end Hend. right. by left.
  - apply Z.eqb_neq in Hmaj. rewrite Hmaj in *. pose proof (closed_end f0 Ht0 Hs0 H20) as Hend.
    destruct (flow_CloseConnection _) as [f1 [e|]]; cbn [fst] in Hend; hcbn.
    + eexists _, _. split; [done|]. fail_end Hend. by left.
    + apply ended_applied, ended_applied in Hend. rewrite (en_terminal _ _ Hend). eexists _, _. split; [done|]. fail_end Hend. by left.
Qed.


Lemma withholds_shape f : withholds f → f_Phase f = AfterUpstreamHeaders ∧ body_action f = false.
Proof. intros []; done. Qed.

(** What the deferred functions leave of the flow and the report. *)
Lemma closing_keeps ctx s panics :
  let out := finish h x (cleanup is_tls is_timeout x ctx s) panics in
  sv_sent out = fl_sent (rn_flow s) ∧ sv_panic out = panics ∧ (fl_conn_closed (rn_flow s) = true → sv_closed out = true) ∧
  ho_Reached (sv_report out) = ho_Reached (rn_report s) ∧ ho_UpstreamStatus (sv_report out) = ho_UpstreamStatus (rn_report s).
Proof.
  cbv zeta. unfold finish, cleanup. cbv zeta. hcbn. split_and!; [done|done|intros ->; apply orb_true_r|..].
  all: repeat case_match; done.
Qed.

(** C30. A lost response: when the handler admits a request (HTTP/1, HTTP/2 or gRPC), the
    upstream answers it with anything but 101, and a rule has selected it for a fault
    that withholds the response (a hold of any length, or a closed HTTP/1 connection),
    the request reached the upstream and its status is reported, but whatever the
    context does the client is sent nothing: an HTTP/1 connection is closed and an
    HTTP/2 stream aborted. *)
Theorem ServeHTTP_response_lost md timeout md_dec d' res :
  unsupported h r = false → (used < h_slots h)%nat → admitted md timeout → timeout ≤ max_i64 →
  context_errors → h_executor h = true →
  decide_at d (acquire d0) (h_proxyID h) md = Some (d', (md_dec, None)) → dc_Selected md_dec = true →
  withholds (dc_Fault md_dec) →
  x_transport x (outgoing_timeout timeout) None = Ok res → up_StatusCode res ≠ 101 →
  ∃ out, ServeHTTP h is_tls is_timeout x used d0 d = Some (d', out) ∧
    sv_sent out = [] ∧ sv_panic out = (rq_ProtoMajor r =? 2) ∧ (sv_panic out = false → sv_closed out = true) ∧
    ho_Reached (sv_report out) = true ∧ ho_UpstreamStatus (sv_report out) = up_StatusCode res.
Proof.
  intros Hsup Hl Ha Hmax Hc Hex Hd Hsel Hf Htr Hst. rewrite (ServeHTTP_admitted md timeout) by done. unfold serve_flow. cbv zeta.
  rewrite Hd. cbn [mbind option_bind].
  destruct (withholds_shape _ Hf) as [Hph Hba]. unfold apply at 1. hcbn. rewrite Hsel, Hph. hcbn.
  rewrite (proj2 (str_eq_false AfterUpstreamHeaders BeforeUpstreamRequest)) by done. cbn [negb orb mbind option_bind]. unfold proxy_ServeHTTP.
  match goal with |- context [TimeoutHeader ?t] => replace t with timeout by (hcbn; lia) end.
  rewrite (outgoing_header timeout Hmax). cbn [mbind option_bind].
  unfold upload. hcbn. rewrite Hba, andb_false_r. hcbn. rewrite Htr. unfold ModifyResponse. hcbn.
  rewrite (proj2 (Z.eqb_neq _ _) Hst).
  match goal with |- context [apply h _ AfterUpstreamHeaders ?s] => destruct (withheld_fails timeout s) as (s1 & err & -> & Hfail); [done..|] end.
  hcbn. destruct (fail h x _ err s1) as [s2 panics]. destruct Hfail as (Hs & Hp & Hcl & Hr & Hu). cbn [mbind option_bind].
  eexists. split; [done|].
  match goal with |- context [cleanup _ _ _ ?ctx ?s] => destruct (closing_keeps ctx s panics) as (E1 & E2 & E3 & E4 & E5) end.
  rewrite E1, E2, E4, E5. unfold grpc_status. destruct panics; hcbn; [by split_and!; auto|].
  destruct (str_eq (h_protocol h) "grpc"); [destruct (str_eq _ "0")|]; hcbn; by split_and!; auto.
Qed.

(** A request beyond the in-flight limit is refused at once: no decision is made
    and no upstream is contacted. *)
Theorem ServeHTTP_overload :
  h_protocol h ≠ "grpc" → unsupported h r = false → (h_slots h ≤ used)%nat →
  ∃ out, ServeHTTP h is_tls is_timeout x used d0 d = Some (d, out) ∧
    sv_sent out = [HTTPError 503 "proxy inflight limit reached" (rq_ProtoMajor r =? 1)] ∧
    ho_Outcome (sv_report out) = "proxy_overload".
Proof.
  intros Hp Hs Hl. unfold ServeHTTP. cbv zeta. fold r. rewrite Hs, (proj2 (str_eq_false _ _) Hp). cbn [negb].
  rewrite bool_decide_true by done. eexists. done.
Qed.
End client.
