(* ===== verification/HttpLife.v ===== *)
(** * The deadline and the goroutines of one HTTP request

    ServeHTTP of proxy/http/handler.go sets a deadline on the client connection for
    the time of the request, registers a callback with context.AfterFunc that cuts
    the connection short when the request context ends, may start a goroutine that
    discards a withheld upload, and undoes all of it in its deferred functions.
    [Http] models what the handler answers; here are the goroutines beside it: the
    handler as a program counter, the callback, the discarding goroutine, and the
    readers of the upload. Each label is one atomic action. *)

From S2P Require Import Prelude GoLib.
Local Open Scope go_scope.

(** A deadline of the connection; [NoDeadline] is the zero time. *)
Inductive deadline := NoDeadline | At (t : Z).

(** Where the handler is: the calls of lines 211 to 219 that set up the request, the
    handler proper, and the deferred functions in the order they run. *)
Inductive point :=
| SetRead | SetWrite | Register | Serving
| CloseUpload | JoinDiscard
| Stop | JoinCallback | ClearRead | ClearWrite
| Cancel | Left.

(** The function given to context.AfterFunc: not registered yet, waiting for the
    context, in its own goroutine, finished, or stopped before it ran. *)
Inductive callback := Unregistered | Registered | Cutting | CuttingWrite | Closing | Ran | Stopped.

(** The goroutine that copies the upload to io.Discard. *)
Inductive discarder := NoDiscard | Reading | Ending | Discarded.

#[export] Instance point_eq_dec : EqDecision point. Proof. solve_decision. Defined.
#[export] Instance callback_eq_dec : EqDecision callback. Proof. solve_decision. Defined.
#[export] Instance discarder_eq_dec : EqDecision discarder. Proof. solve_decision. Defined.

(** [rq_closed] counts the times the channel [closed] was closed, [rq_left] the chunks
    of the upload the client has still to send; [rq_complete] is upload.complete. *)
Record request := {
  rq_http2 : bool;
  rq_point : point;
  rq_read : deadline;
  rq_write : deadline;
  rq_open : bool;
  rq_done : bool;
  rq_callback : callback;
  rq_closed : nat;
  rq_left : nat;
  rq_complete : bool;
  rq_discard : discarder
}.

Definition at_point (p : point) (s : request) : request :=
  {| rq_http2 := rq_http2 s; rq_point := p; rq_read := rq_read s; rq_write := rq_write s; rq_open := rq_open s; rq_done := rq_done s;
     rq_callback := rq_callback s; rq_closed := rq_closed s; rq_left := rq_left s; rq_complete := rq_complete s; rq_discard := rq_discard s |}.
Definition with_deadlines (r w : deadline) (s : request) : request :=
  {| rq_http2 := rq_http2 s; rq_point := rq_point s; rq_read := r; rq_write := w; rq_open := rq_open s; rq_done := rq_done s;
     rq_callback := rq_callback s; rq_closed := rq_closed s; rq_left := rq_left s; rq_complete := rq_complete s; rq_discard := rq_discard s |}.
Definition with_callback (c : callback) (s : request) : request :=
  {| rq_http2 := rq_http2 s; rq_point := rq_point s; rq_read := rq_read s; rq_write := rq_write s; rq_open := rq_open s; rq_done := rq_done s;
     rq_callback := c; rq_closed := rq_closed s; rq_left := rq_left s; rq_complete := rq_complete s; rq_discard := rq_discard s |}.
Definition with_conn (open done : bool) (s : request) : request :=
  {| rq_http2 := rq_http2 s; rq_point := rq_point s; rq_read := rq_read s; rq_write := rq_write s; rq_open := open; rq_done := done;
     rq_callback := rq_callback s; rq_closed := rq_closed s; rq_left := rq_left s; rq_complete := rq_complete s; rq_discard := rq_discard s |}.
Definition with_closed (n : nat) (s : request) : request :=
  {| rq_http2 := rq_http2 s; rq_point := rq_point s; rq_read := rq_read s; rq_write := rq_write s; rq_open := rq_open s; rq_done := rq_done s;
     rq_callback := rq_callback s; rq_closed := n; rq_left := rq_left s; rq_complete := rq_complete s; rq_discard := rq_discard s |}.
Definition with_upload (left : nat) (complete : bool) (d : discarder) (s : request) : request :=
  {| rq_http2 := rq_http2 s; rq_point := rq_point s; rq_read := rq_read s; rq_write := rq_write s; rq_open := rq_open s; rq_done := rq_done s;
     rq_callback := rq_callback s; rq_closed := rq_closed s; rq_left := left; rq_complete := complete; rq_discard := d |}.

(** setDeadline, of which each call is one step: over HTTP/2 the read and the write
    deadline of the stream one after the other, else both at once on the
    connection. [first] says which of the two calls it is. *)
Definition setDeadline (first : bool) (d : deadline) (s : request) : request :=
  if rq_http2 s then if first then with_deadlines d (rq_write s) s else with_deadlines (rq_read s) d s
  else with_deadlines d d s.

(** uploadBody.Read: io.EOF is noted. *)
Definition uploadBody_Read (eof complete : bool) : bool := eof || complete.

Inductive label :=
| Main
| Callback (now : Z)
| Expire (now : Z)
| Discard
| Reader
| ReadTimeout
| Fire
| Transport
| Arrive
| Disconnect
| Ends.

Section request.
Context (limit : Z).

(** The next step of the handler, when it is not blocked. *)
Definition main_step (s : request) : option request :=
  match rq_point s with
  | SetRead => Some (at_point (if rq_http2 s then SetWrite else Register) (setDeadline true (At limit) s))
  | SetWrite => Some (at_point Register (setDeadline false (At limit) s))
  | Register => Some (at_point Serving (with_callback Registered s))
  | Serving => Some (at_point CloseUpload s)
  | CloseUpload =>
      Some (at_point JoinDiscard (if negb (rq_http2 s) && negb (rq_complete s) then with_conn false (rq_done s) s else s))
  | JoinDiscard =>
      match rq_discard s with
      | NoDiscard | Discarded => Some (at_point Stop s)
      | _ => None
      end
  | Stop =>
      match rq_callback s with
      | Registered => Some (at_point ClearRead (with_callback Stopped s))
      | _ => Some (at_point JoinCallback s)
      end
  | JoinCallback => if (0 <? rq_closed s)%nat then Some (at_point ClearRead s) else None
  | ClearRead => Some (at_point (if rq_http2 s then ClearWrite else Cancel) (setDeadline true NoDeadline s))
  | ClearWrite => Some (at_point Cancel (setDeadline false NoDeadline s))
  | Cancel => Some (at_point Left (with_conn (rq_open s) true s))
  | Left => None
  end.

(** The callback in its goroutine. *)
Definition callback_step (now : Z) (s : request) : option request :=
  match rq_callback s with
  | Cutting =>
      Some (if rq_http2 s then with_callback CuttingWrite (setDeadline true (At now) s)
            else with_callback Closing (with_conn false (rq_done s) s))
  | CuttingWrite => Some (with_callback Closing (setDeadline false (At now) s))
  | Closing => Some (with_callback Ran (with_closed (S (rq_closed s)) s))
  | _ => None
  end.

(** The discarding goroutine: a read of a closed connection fails, one past the end
    of the upload is io.EOF; either ends the copy. *)
Definition reader_step (s : request) : option request :=
  match rq_discard s with
  | Reading =>
      if negb (rq_open s) then Some (with_upload (rq_left s) (rq_complete s) Ending s)
      else if (rq_left s =? 0)%nat then Some (with_upload 0 (uploadBody_Read true (rq_complete s)) Ending s)
      else None
  | Ending => Some (with_upload (rq_left s) (rq_complete s) Discarded s)
  | _ => None
  end.

(** The deferred function of a request body fault runs when the handler proper ends:
    while the upload is incomplete it moves the read deadline to the current time. *)
Definition expire_step (now : Z) (s : request) : option request :=
  if bool_decide (rq_point s = Serving) && negb (rq_complete s)
  then Some (at_point CloseUpload (with_deadlines (At now) (rq_write s) s)) else None.

(** One step; [ReadTimeout] is a read that a deadline of the connection ends. *)
Definition rstep (l : label) (s : request) : option request :=
  match l with
  | Main => main_step s
  | Callback now => callback_step now s
  | Expire now => expire_step now s
  | Discard =>
      if bool_decide (rq_point s = Serving) && bool_decide (rq_discard s = NoDiscard) && negb (rq_http2 s) && negb (rq_complete s)
      then Some (with_upload (rq_left s) (rq_complete s) Reading s) else None
  | Reader => reader_step s
  | ReadTimeout =>
      match rq_discard s, rq_read s with
      | Reading, At _ => Some (with_upload (rq_left s) (rq_complete s) Ending s)
      | _, _ => None
      end
  | Fire => if bool_decide (rq_callback s = Registered) && rq_done s then Some (with_callback Cutting s) else None
  | Transport => if (rq_left s =? 0)%nat then Some (with_upload 0 (uploadBody_Read true (rq_complete s)) (rq_discard s) s) else None
  | Arrive =>
      if rq_open s then match rq_left s with S n => Some (with_upload n (rq_complete s) (rq_discard s) s) | O => None end else None
  | Disconnect => if bool_decide (rq_point s = Serving) then Some (with_conn false (rq_done s) s) else None
  | Ends => Some (with_conn (rq_open s) true s)
  end.

Fixpoint rrun (ls : list label) (s : request) : option request :=
  match ls with
  | [] => Some s
  | l :: ls' => s' ← rstep l s; rrun ls' s'
  end.

(** The state in which ServeHTTP sets the deadline: [chunks] of upload to come, none
    and no reading when the request has no body. *)
Definition arrived (http2 : bool) (chunks : nat) (body : bool) (done : bool) : request :=
  {| rq_http2 := http2; rq_point := SetRead; rq_read := NoDeadline; rq_write := NoDeadline; rq_open := true; rq_done := done;
     rq_callback := Unregistered; rq_closed := 0; rq_left := if body then chunks else 0; rq_complete := negb body; rq_discard := NoDiscard |}.
End request.

(** ** The invariant *)

Definition before_callback (p : point) : bool := match p with SetRead | SetWrite | Register => true | _ => false end.
(** Past the first deferred function, past joining the discarder, past joining the callback. *)
Definition upload_settled (p : point) : bool :=
  match p with JoinDiscard | Stop | JoinCallback | ClearRead | ClearWrite | Cancel | Left => true | _ => false end.
Definition discard_joined (p : point) : bool :=
  match p with Stop | JoinCallback | ClearRead | ClearWrite | Cancel | Left => true | _ => false end.
Definition callback_joined (p : point) : bool := match p with ClearRead | ClearWrite | Cancel | Left => true | _ => false end.
Definition cleared (p : point) : bool := match p with Cancel | Left => true | _ => false end.
Definition fired (c : callback) : bool := match c with Cutting | CuttingWrite | Closing | Ran => true | _ => false end.

Definition waits (p : point) : bool := match p with JoinCallback => true | _ => false end.
Definition second_half (p : point) : bool := match p with SetWrite | ClearWrite => true | _ => false end.
Definition half_cleared (p : point) : bool := match p with ClearWrite | Cancel | Left => true | _ => false end.
Definition cut (c : callback) : bool := match c with Closing | Ran => true | _ => false end.
Definition idle (d : discarder) : bool := match d with NoDiscard | Discarded => true | _ => false end.

Record life_inv (s : request) : Prop := {
  li_before : before_callback (rq_point s) = true → rq_callback s = Unregistered;
  li_after : before_callback (rq_point s) = false → rq_callback s ≠ Unregistered;
  li_waiting : waits (rq_point s) = true → fired (rq_callback s) = true;
  li_stopped : callback_joined (rq_point s) = false → rq_callback s ≠ Stopped;
  li_joined : callback_joined (rq_point s) = true → rq_callback s = Stopped ∨ rq_callback s = Ran;
  li_closed : rq_closed s = match rq_callback s with Ran => 1%nat | _ => 0%nat end;
  li_http2 : rq_callback s = CuttingWrite → rq_http2 s = true;
  li_cut : rq_http2 s = false → cut (rq_callback s) = true → rq_open s = false;
  li_complete : rq_complete s = true → rq_left s = 0%nat;
  li_discard : rq_http2 s = true → rq_discard s = NoDiscard;
  li_upload : upload_settled (rq_point s) = true → rq_http2 s = false → rq_open s = true → rq_complete s = true;
  li_discarded : discard_joined (rq_point s) = true → idle (rq_discard s) = true;
  li_stream : second_half (rq_point s) = true → rq_http2 s = true;
  li_half : half_cleared (rq_point s) = true → rq_read s = NoDeadline;
  li_cleared : cleared (rq_point s) = true → rq_write s = NoDeadline
}.

Section spec.
Context (limit : Z).

Ltac clean :=
  repeat match goal with
  | H : ?x = ?x → _ |- _ => specialize (H eq_refl)
  | H : true = false → _ |- _ => clear H
  | H : false = true → _ |- _ => clear H
  | H : _ ∨ _ |- _ => destruct H
  | H : ?x ≠ ?x |- _ => by destruct H
  | H : negb _ = false |- _ => apply negb_false_iff in H
  | H : negb _ = true |- _ => apply negb_true_iff in H
  end.
Ltac life := split; cbn in *; intros; clean; try done; try (by auto); try congruence.

Lemma arrived_inv http2 chunks body done : life_inv (arrived http2 chunks body done).
Proof. life. by destruct body. Qed.

Lemma main_inv s s' : life_inv s → main_step limit s = Some s' → life_inv s'.
Proof.
  intros Hi Hs. destruct s as [http2 pt rd wr op dn cb cl lf cp ds]. destruct Hi; cbn in *.
  destruct pt; cbn in *; clean; repeat case_match; simplify_eq; unfold setDeadline in *; cbn in *; try (destruct http2); life.
Qed.

Lemma rstep_inv l s s' : life_inv s → rstep limit l s = Some s' → life_inv s'.
Proof.
  intros Hi Hs. destruct l; [by eapply main_inv|..]; destruct s as [http2 pt rd wr op dn cb cl lf cp ds]; destruct Hi; cbn in *.
  - destruct cb; cbn in *; simplify_eq; unfold setDeadline in *; cbn in *; destruct http2; cbn in *; simplify_eq; destruct pt; cbn in *; clean; life.
  - unfold expire_step in Hs. cbn in Hs. destruct (bool_decide _ && _) eqn:E; simplify_eq. bool_hyps. subst. life.
  - destruct (bool_decide _ && _ && _ && _) eqn:E; simplify_eq. bool_hyps. subst. life.
  - unfold reader_step in Hs. destruct ds, http2; cbn in *; clean; simplify_eq; try destruct op; cbn in *;
      try (destruct (lf =? 0)%nat eqn:E; bool_hyps; subst); simplify_eq; destruct pt; cbn in *; life.
  - destruct ds, rd; simplify_eq. destruct http2, pt; cbn in *; life.
  - destruct (bool_decide _ && dn) eqn:E; simplify_eq. bool_hyps. subst. destruct pt; cbn in *; life.
  - destruct (lf =? 0)%nat eqn:E; simplify_eq. bool_hyps. life.
  - destruct op; simplify_eq. destruct lf; simplify_eq. life. by apply li_complete0 in H.
  - destruct (bool_decide _) eqn:E; simplify_eq. bool_hyps. subst. life.
  - simplify_eq. life.
Qed.

Lemma rrun_http2 ls s s' : rrun limit ls s = Some s' → rq_http2 s' = rq_http2 s.
Proof.
  revert s. induction ls as [|l ls IH]; intros s Hr; cbn in Hr; [by simplify_eq|]. apply bind_Some in Hr as (s1 & Hs & Hr).
  rewrite (IH _ Hr). destruct s as [http2 pt rd wr op dn cb cl lf cp ds].
  destruct l; cbn in Hs; unfold main_step, callback_step, expire_step, reader_step, setDeadline in Hs; cbn in Hs; repeat case_match; by simplify_eq.
Qed.

Lemma rrun_inv ls s s' : life_inv s → rrun limit ls s = Some s' → life_inv s'.
Proof.
  revert s. induction ls as [|l ls IH]; intros s Hi Hr; cbn in Hr; [by simplify_eq|].
  apply bind_Some in Hr as (s1 & Hs & Hr). eapply IH; [|done]. by eapply rstep_inv.
Qed.

(** ** The connection a request leaves behind *)

(** Once the handler has left, no step of any goroutine touches a deadline. *)
Lemma left_fixed ls s s' :
  life_inv s → rq_point s = Left → rrun limit ls s = Some s' →
  rq_point s' = Left ∧ rq_read s' = NoDeadline ∧ rq_write s' = NoDeadline.
Proof.
  intros Hi Hp Hr. assert (rq_point s' = Left) as Hp'.
  { revert s Hi Hp Hr. induction ls as [|l ls IH]; intros s Hi Hp Hr; cbn in Hr; [by simplify_eq|].
    apply bind_Some in Hr as (s1 & Hs & Hr). apply (IH s1); [by eapply rstep_inv| |done].
    pose proof (li_joined _ Hi) as Hj. rewrite Hp in Hj. specialize (Hj eq_refl). destruct s as [http2 pt rd wr op dn cb cl lf cp ds]. cbn in *. subst pt.
    destruct l; cbn in Hs; unfold main_step, callback_step, expire_step, reader_step, setDeadline in Hs; cbn in Hs; repeat case_match; by simplify_eq. }
  pose proof (rrun_inv _ _ _ Hi Hr) as Hi'. split; [done|]. pose proof (li_half _ Hi'). pose proof (li_cleared _ Hi'). rewrite Hp' in *. auto.
Qed.

(** C20. However the handler, the callback of the context, the discarding goroutine, the
    transport and the client interleave: a request that is over leaves no deadline
    on the connection, now or later, and no goroutine of its own; the callback has
    closed its channel at most once; and an HTTP/1.1 connection that is still open,
    which the client may use for its next request, has been read to the end of the
    upload and was not cut short. *)
Theorem request_leaves_nothing http2 chunks body done ls s :
  rrun limit ls (arrived http2 chunks body done) = Some s → rq_point s = Left →
  (rq_callback s = Ran ∨ rq_callback s = Stopped) ∧ (rq_discard s = NoDiscard ∨ rq_discard s = Discarded) ∧
  (rq_closed s ≤ 1)%nat ∧
  (http2 = false → rq_open s = true → rq_complete s = true ∧ rq_left s = 0%nat ∧ rq_callback s = Stopped) ∧
  ∀ later s', rrun limit later s = Some s' → rq_read s' = NoDeadline ∧ rq_write s' = NoDeadline.
Proof.
  intros Hr Hp. pose proof (rrun_inv _ _ _ (arrived_inv http2 chunks body done) Hr) as Hi.
  assert (rq_http2 s = http2) as Hh by (by apply rrun_http2 in Hr).
  pose proof (li_joined _ Hi) as Hj. pose proof (li_discarded _ Hi) as Hd. pose proof (li_upload _ Hi) as Hu. pose proof (li_closed _ Hi) as Hc.
  rewrite Hp in *. specialize (Hj eq_refl). specialize (Hd eq_refl). specialize (Hu eq_refl). split_and!.
  - tauto.
  - destruct (rq_discard s); auto; done.
  - rewrite Hc. by case_match; auto.
  - rewrite <- Hh. intros H1 Ho. specialize (Hu H1 Ho). split_and!; [done|by apply (li_complete _ Hi)|].
    destruct Hj as [?|Hran]; [done|]. pose proof (li_cut _ Hi H1) as Hcut. rewrite Hran in Hcut. specialize (Hcut eq_refl). congruence.
  - intros later s' Hl. by apply (left_fixed later s s' Hi Hp) in Hl as (_ & ? & ?).
Qed.

(** ** The handler leaves *)

(** The steps of the program, as opposed to those of the client, the transport and
    the clock. *)
Definition program (l : label) : bool :=
  match l with Main | Callback _ | Expire _ | Discard | Reader | Fire => true | _ => false end.

Definition point_rank (p : point) : nat :=
  match p with
  | SetRead => 11 | SetWrite => 10 | Register => 9 | Serving => 8 | CloseUpload => 7 | JoinDiscard => 6 | Stop => 5
  | JoinCallback => 4 | ClearRead => 3 | ClearWrite => 2 | Cancel => 1 | Left => 0
  end.
Definition callback_rank (c : callback) : nat :=
  match c with Unregistered => 5 | Registered => 4 | Cutting => 3 | CuttingWrite => 2 | Closing => 1 | Ran | Stopped => 0 end.
Definition discard_rank (d : discarder) : nat :=
  match d with NoDiscard => 3 | Reading => 2 | Ending => 1 | Discarded => 0 end.
Definition work (s : request) : nat := point_rank (rq_point s) + callback_rank (rq_callback s) + discard_rank (rq_discard s).

Lemma rstep_work l s s' :
  life_inv s → rstep limit l s = Some s' → if program l then (work s' < work s)%nat else (work s' ≤ work s)%nat.
Proof.
  intros Hi Hs. pose proof (li_before _ Hi) as Hb. destruct s as [http2 pt rd wr op dn cb cl lf cp ds]. cbn in Hb.
  destruct l; cbn in Hs; unfold main_step, callback_step, expire_step, reader_step, setDeadline in Hs; cbn in Hs;
    repeat case_match; simplify_eq; bool_hyps; subst; unfold work; cbn in *; try lia; try done;
    try (specialize (Hb eq_refl); subst cb; cbn; lia); destruct http2; cbn in *; simplify_eq; cbn; lia.
Qed.

Lemma rrun_work ls s s' :
  life_inv s → rrun limit ls s = Some s' → (length (filter (λ l, program l = true) ls) + work s' ≤ work s)%nat.
Proof.
  revert s. induction ls as [|l ls IH]; intros s Hi Hr; cbn in Hr; [by simplify_eq|]. apply bind_Some in Hr as (s1 & Hs & Hr).
  apply IH in Hr; [|by eapply rstep_inv]. apply rstep_work in Hs; [|done].
  rewrite filter_cons. destruct (program l); [rewrite decide_True by done|rewrite decide_False by done]; cbn; lia.
Qed.

(** A handler that has not left is never stuck. *)
Lemma progress s : life_inv s → rq_point s ≠ Left → ∃ l, program l = true ∧ is_Some (rstep limit l s).
Proof.
  intros Hi Hp. destruct (main_step limit s) as [s'|] eqn:Em; [exists Main; split; [done|]; cbn; by rewrite Em|].
  pose proof (li_waiting _ Hi) as Hw. pose proof (li_closed _ Hi) as Hc. pose proof (li_upload _ Hi) as Hu. pose proof (li_complete _ Hi) as Hl.
  pose proof (li_discard _ Hi) as Hd.
  destruct s as [http2 pt rd wr op dn cb cl lf cp ds]. cbn in *. destruct pt; cbn in *; try done; try (destruct http2; done).
  - assert (http2 = false) as -> by (destruct http2; [specialize (Hd eq_refl); by subst ds|done]). specialize (Hu eq_refl eq_refl).
    destruct ds; try done; exists Reader; (split; [done|]); cbn; unfold reader_step; cbn; [|done].
    destruct op; cbn; [|done]. specialize (Hl (Hu eq_refl)). subst lf. done.
  - by destruct cb.
  - specialize (Hw eq_refl). destruct cb; try done; [exists (Callback 0)..|by subst cl]; (split; [done|]); cbn; unfold callback_step; cbn; by destruct http2.
Qed.

(** C21. Whatever the client, the transport and the clock do, the program takes at most
    19 steps for a request, and until the handler has left one of its goroutines can
    take the next: it waits for the discarding goroutine only when the connection is
    closed or the upload at its end, and for the callback only when it runs. *)
Theorem request_returns http2 chunks body done ls s :
  rrun limit ls (arrived http2 chunks body done) = Some s →
  (length (filter (λ l, program l = true) ls) ≤ 19)%nat ∧
  (rq_point s = Left ∨ ∃ l, program l = true ∧ is_Some (rstep limit l s)).
Proof.
  intros Hr. pose proof (rrun_inv _ _ _ (arrived_inv http2 chunks body done) Hr) as Hi. split.
  - apply rrun_work in Hr; [|apply arrived_inv]. unfold work in Hr at 2. cbn in Hr. lia.
  - destruct (decide (rq_point s = Left)); [by left|right]. by apply progress.
Qed.
End spec.

(** ** A withheld upload whose request times out *)

Definition timed_out : list label :=
  [Main; Main; Discard; Arrive; Ends; Fire; Callback 9; Reader; Main; Main; Reader; Callback 9; Main; Main; Main; Main; Main].
Definition after_timeout : request := default (arrived false 3 true false) (rrun 5 timed_out (arrived false 3 true false)).

Lemma request_leaves_nothing_witness :
  rq_point after_timeout = Left ∧ (rq_closed after_timeout ≤ 1)%nat ∧
  ∀ later s', rrun 5 later after_timeout = Some s' → rq_read s' = NoDeadline ∧ rq_write s' = NoDeadline.
Proof.
  destruct (request_leaves_nothing 5 false 3 true false timed_out after_timeout) as (_ & _ & Hc & _ & Hl).
  - vm_compute. reflexivity.
  - vm_compute. reflexivity.
  - split; [vm_compute; reflexivity|]. split; [exact Hc|exact Hl].
Defined.

Lemma request_returns_witness : (length (filter (λ l, program l = true) timed_out) ≤ 19)%nat.
Proof. apply (request_returns 5 false 3 true false timed_out after_timeout). vm_compute. reflexivity. Defined.
