(* ===== verification/PgWire.v ===== *)
(** * PostgreSQL framing (internal/proxy/postgresql/wire.go)

    Length-prefixed packets and typed frames over any io.Reader, their encoders,
    and the round trip between them. *)

From Stdlib Require Import Ascii.
From S2P Require Import Prelude GoLib GoIO.
Local Open Scope go_scope.

Definition maxFrame : Z := Z.shiftl 1 20.
Definition maxStartup : Z := Z.shiftl 10 10.
Definition sslRequest : Z := 80877103.
Definition cancelRequest : Z := 80877102.

Record frame := { kind : ascii; body : bytes }.

#[export] Instance frame_eq_dec : EqDecision frame. Proof. solve_decision. Defined.

Section read.
Context `{Reader R}.

Definition readPacket (r : R) (limit : Z) : option (res error bytes * R) :=
  '(h, r) ← ReadFull 4 r;
  match h with
  | Err e => Some (Err e, r)
  | Ok h =>
      let n := be_uint h in
      if (n <? 4) || (u32 limit <? n) then Some (Err errProtocol, r)
      else ReadFull (Z.to_nat (n - 4)) r
  end.

Definition readFrame (r : R) : option (res error frame * R) :=
  '(h, r) ← ReadFull 1 r;
  match h with
  | Err e => Some (Err e, r)
  | Ok h =>
      '(b, r) ← readPacket r maxFrame;
      match b with
      | Err e => Some (Err e, r)
      | Ok b => Some (Ok {| kind := to_char (default Byte.x00 (head h)); body := b |}, r)
      end
  end.
End read.

(** The bytes writePacket and writeFrame hand to writeAll. *)
Definition packet_bytes (b : bytes) : bytes := be_bytes 4 (u32 (Z.of_nat (length b) + 4)) ++ b.
Definition frame_bytes (f : frame) : bytes := of_char (kind f) :: packet_bytes (body f).

Definition writePacket (w : writer_script) (b : bytes) : option (bytes * option error) :=
  writeAll w (packet_bytes b).
Definition writeFrame (w : writer_script) (f : frame) : option (bytes * option error) :=
  writeAll w (frame_bytes f).

Definition nul : string := String "000" "".

Definition rejection : frame :=
  {| kind := "E";
     body := of_string ("SFATAL" +:+ nul +:+ "C0A000" +:+ nul +:+
               "MFaultline: unsupported protocol, authentication or operation" +:+ nul +:+ nul) |}.

(** ** Packets and frames on the stream *)

Section wire.
Context `{Reader R}.

Lemma packet_bytes_uint (b : bytes) :
  Z.of_nat (length b) + 4 < 2 ^ 32 →
  be_uint (be_bytes 4 (u32 (Z.of_nat (length b) + 4))) = Z.of_nat (length b) + 4.
Proof.
  intros Hb. rewrite be_uint_bytes, (u32_small (Z.of_nat (length b) + 4)) by lia.
  change (Z.of_nat 4 * 8) with 32. apply wrap_small. lia.
Qed.

(** readPacket accepts exactly the encodings of bodies within the limit, and
    consumes exactly the encoding. *)
Lemma pg_readPacket_exact (r : R) limit :
  0 ≤ limit < 2 ^ 32 →
  ∃ x r', readPacket r limit = Some (x, r') ∧ terminal r' = terminal r ∧
    (∀ b, x = Ok b → stream r = packet_bytes b ++ stream r' ∧ Z.of_nat (length b) + 4 ≤ limit) ∧
    (∀ b rest, stream r = packet_bytes b ++ rest → Z.of_nat (length b) + 4 ≤ limit → x = Ok b).
Proof.
  intros Hlim. unfold readPacket. destruct (ReadFull_spec 4 r) as (r1 & -> & Ht1 & Hs1).
  cbn [mbind option_bind]. unfold full_result.
  destruct (decide (4 ≤ length (stream r))%nat) as [H4|H4].
  - rewrite bool_decide_true by done. cbv zeta.
    assert (length (take 4 (stream r)) = 4%nat) as Hl4 by (rewrite length_take; lia).
    pose proof (be_uint_range (take 4 (stream r))) as Hn. rewrite Hl4 in Hn.
    set (n := be_uint (take 4 (stream r))) in *.
    assert (be_bytes 4 n = take 4 (stream r)) as Hbn.
    { pose proof (be_bytes_uint (take 4 (stream r))) as Hx. by rewrite Hl4 in Hx. }
    assert (∀ b rest, stream r = packet_bytes b ++ rest → Z.of_nat (length b) + 4 ≤ limit →
              n = Z.of_nat (length b) + 4 ∧ stream r1 = b ++ rest) as Henc.
    { intros b rest Hs Hb. unfold packet_bytes in Hs. rewrite <- app_assoc in Hs.
      assert (length (be_bytes 4 (u32 (Z.of_nat (length b) + 4))) = 4%nat) as Hl by apply length_be_bytes.
      split.
      - subst n. rewrite Hs, take_app_length' by done. apply packet_bytes_uint. lia.
      - by rewrite Hs1, Hs, drop_app_length' by done. }
    rewrite u32_small by done. destruct ((n <? 4) || (limit <? n)) eqn:Eg.
    + eexists _, r1. split; [done|]. split; [done|]. split; [done|]. intros b rest Hs Hb.
      destruct (Henc b rest Hs Hb) as [-> _]. lia.
    + bool_hyps. destruct (ReadFull_spec (Z.to_nat (n - 4)) r1) as (r2 & -> & Ht2 & Hs2).
      eexists _, r2. split; [done|]. split; [by rewrite Ht2|]. unfold full_result. split.
      * intros b. case_bool_decide as Hc; [|done]. intros [= <-]. rewrite length_take, Hs2.
        unfold packet_bytes. rewrite length_take, Nat.min_l by done.
        rewrite Z2Nat.id by lia. replace (n - 4 + 4) with n by lia. rewrite u32_small by lia.
        rewrite Hbn, <- app_assoc, take_drop, Hs1, take_drop. split; [done|lia].
      * intros b rest Hs Hb. destruct (Henc b rest Hs Hb) as [-> ->].
        replace (Z.to_nat (Z.of_nat (length b) + 4 - 4)) with (length b) by lia.
        rewrite bool_decide_true by (rewrite length_app; lia). by rewrite take_app_length.
  - rewrite bool_decide_false by done. eexists _, r1. split; [done|]. split; [done|]. split; [done|].
    intros b rest Hs. exfalso. apply H4. rewrite Hs. unfold packet_bytes.
    rewrite !length_app, length_be_bytes. lia.
Qed.

Lemma readFrame_spec (r : R) :
  ∃ x r', readFrame r = Some (x, r') ∧ terminal r' = terminal r ∧
    (∀ f, x = Ok f → stream r = frame_bytes f ++ stream r' ∧ Z.of_nat (length (body f)) + 4 ≤ maxFrame) ∧
    (∀ f rest, stream r = frame_bytes f ++ rest → Z.of_nat (length (body f)) + 4 ≤ maxFrame → x = Ok f).
Proof.
  unfold readFrame. destruct (ReadFull_spec 1 r) as (r1 & -> & Ht1 & Hs1).
  cbn [mbind option_bind]. unfold full_result.
  destruct (stream r) as [|k s] eqn:Es.
  { cbn. eexists _, r1. split; [done|]. split; [done|]. split; [done|]. intros f rest Hs. done. }
  rewrite bool_decide_true by (simpl; lia). cbn [take head default].
  assert (stream r1 = s) as Hs1' by (by rewrite Hs1; cbn; rewrite drop_0). clear Hs1.
  destruct (pg_readPacket_exact r1 maxFrame) as (x & r2 & -> & Ht2 & Hx1 & Hx2); [by vm_compute|].
  cbn [mbind option_bind]. destruct x as [b0|e]; cycle 1.
  { eexists _, r2. split; [done|]. split; [by rewrite Ht2|]. split; [done|].
    intros [k' b] rest Hs Hl. injection Hs as -> Hs. exfalso.
    cut (Err e = Ok b); [done|]. apply (Hx2 b rest); [by rewrite Hs1'|done]. }
  eexists _, r2. split; [done|]. split; [by rewrite Ht2|]. split.
  - intros f [= <-]. cbn [body].
    destruct (Hx1 b0 eq_refl) as [Hs Hl]. split; [|done].
    unfold frame_bytes. cbn [kind body]. rewrite of_to_char, <- Hs1', Hs. done.
  - intros [k' b] rest Hs Hl. injection Hs as -> Hs. cbn [body] in Hl.
    assert (Ok (E:=error) b0 = Ok b) as [= ->] by (apply (Hx2 b rest); [by rewrite Hs1'|done]).
    unfold id. by rewrite to_of_char.
Qed.
End wire.

(** Frame decoding, however the connection splits its data: readFrame
    succeeds exactly on the encodings of frames within the 1 MiB limit, returns
    that frame, and consumes exactly its bytes, so a forwarded frame is byte for
    byte the one received. *)
Theorem readFrame_exact `{Reader R} (r : R) :
  ∃ x r', readFrame r = Some (x, r') ∧
    (∀ f, x = Ok f ↔ (∃ rest, stream r = frame_bytes f ++ rest) ∧
                      Z.of_nat (length (body f)) + 4 ≤ maxFrame) ∧
    (∀ f, x = Ok f → stream r = frame_bytes f ++ stream r').
Proof.
  destruct (readFrame_spec r) as (x & r' & Hr & _ & H1 & H2). exists x, r'. split; [done|]. split.
  - intros f. split; [|intros [[rest Hs] Hl]; by eapply H2].
    intros E. destruct (H1 f E). eauto.
  - intros f E. by apply H1.
Qed.
