(* ===== verification/PgSession.v ===== *)
(** * PostgreSQL sessions (internal/proxy/postgresql: session.go, server.go)

    Startup validation, the SCRAM relay, the cancel-key registry and the
    exchange loop. The loop's select receives one input at a time: a cancelled
    context, a client frame, an upstream frame; between two of them other
    goroutines may change the shared service ([InEnv]). Each input carries the
    answers of the calls its handler makes (write success, clock, random flow ID,
    whether the fault timer fired). Goroutines, timers and deadlines appear as
    these inputs; a panic is [None]. *)

From Stdlib Require Import Ascii.
From S2P Require Import Prelude GoLib GoRand Config Engine Control Recorder GoIO PgWire Adapter.
Local Open Scope go_scope.

(** ** Startup *)

Definition last_byte (b : bytes) : Init.Byte.byte := List.last b Byte.x00.

(** Every even field but the last is a parameter name. *)
Fixpoint startup_names (fields : list bytes) : bool :=
  match fields with
  | name :: _ :: rest =>
      negb (bool_decide (name = [])) && negb (to_string name =s "replication") && startup_names rest
  | _ => true
  end.

Definition validStartup (b : bytes) : bool :=
  if bool_decide (length b < 5)%nat || negb (be_uint (take 4 b) =? 196608) ||
     negb (bool_decide (last_byte b = Byte.x00)) then false
  else
    let fields := bytes_Split Byte.x00 (take (length b - 5) (drop 4 b)) in
    if negb (Nat.odd (length fields)) || negb (bool_decide (List.last fields [] = [])) then false
    else startup_names fields.

(** ** Cancel keys *)

Notation registry A := (gmap string A).

Definition register {A} (key : string) (cancel : A) (cancels : registry A) : registry A :=
  <[key := cancel]> cancels.
Definition unregister {A} (key : string) (cancels : registry A) : registry A :=
  delete key cancels.
Definition cancelSession {A} (key : string) (cancels : registry A) : option A := cancels !! key.

(** The key of a session: the proxy's ID, then the eight bytes the client got. *)
Definition session_key (pid : string) (key : bytes) : string := pid +:+ to_string key.

(** The cancel packet's effect on the registry: which session it cancels. *)
Definition cancel_packet {A} (pid : string) (b : bytes) (cancels : registry A) : option A :=
  if bool_decide (length b = 12)%nat && (be_uint (take 4 b) =? cancelRequest)
  then cancelSession (session_key pid (drop 4 b)) cancels else None.

(** ** Opening a connection *)

(** How serve leaves the startup phase: returned, rejected, a cancel request for
    a session key, or an admitted startup packet and whether it came over TLS. *)
Inductive opening :=
| Closed
| Rejected
| Cancelling (key : string)
| Accepted (startup : bytes) (secure : bool).

Definition is_ssl_request (b : bytes) : bool :=
  bool_decide (length b = 4)%nat && (be_uint b =? sslRequest).

(** After the optional TLS upgrade: [b] is the packet to act on. *)
Definition serve_packet (pid : string) (clientTLS secure slot_free : bool) (b : bytes) : opening :=
  if bool_decide (length b = 12)%nat && (be_uint (take 4 b) =? cancelRequest)
  then Cancelling (session_key pid (drop 4 b))
  else if clientTLS && negb secure then Rejected
  else if negb slot_free then Rejected
  else if negb (validStartup b) then Rejected
  else Accepted b secure.

(** [first] and [second] are the packets read before and after the answer to an
    SSL request; [answered] and [handshake] whether that answer was written and
    the TLS handshake succeeded. *)
Definition serve_open (pid : string) (clientTLS : bool) (first : res error bytes)
    (answered handshake : bool) (second : res error bytes) (slot_free : bool) : opening :=
  match first with
  | Err _ => Closed
  | Ok b =>
      if is_ssl_request b then
        if negb answered then Closed
        else if clientTLS && negb handshake then Closed
        else match second with
             | Err _ => Closed
             | Ok b => serve_packet pid clientTLS clientTLS slot_free b
             end
      else serve_packet pid clientTLS false slot_free b
  end.

(** connectUpstream: the connection obtained, if any, and whether it is TLS. *)
Definition connectUpstream (upstreamTLS dialled written : bool) (answer : res error bytes)
    (handshake : bool) : option bool :=
  if negb dialled then None
  else if negb upstreamTLS then Some false
  else if negb written then None
  else match answer with
       | Ok [b] => if negb (Ascii.eqb (to_char b) "S") then None
                   else if handshake then Some true else None
       | _ => None
       end.

(** ** Authentication *)

(** The relay's state: its stage, the key handed to the client with the
    backend's own, the frames written to the client and to the upstream, and
    the answers of the next writes (a missing answer is a success). *)
Record relay := {
  a_stage : Z;
  a_key : option (bytes * bytes);
  a_client : list frame;
  a_upstream : list frame;
  a_writes : list bool
}.

Definition write_ok (a : relay) : bool := default true (head (a_writes a)).

(** writeFrame to one side: a failed write delivers no frame. *)
Definition relay_client (f : frame) (a : relay) : relay :=
  {| a_stage := a_stage a; a_key := a_key a;
     a_client := if write_ok a then a_client a ++ [f] else a_client a;
     a_upstream := a_upstream a; a_writes := tail (a_writes a) |}.
Definition relay_upstream (f : frame) (a : relay) : relay :=
  {| a_stage := a_stage a; a_key := a_key a; a_client := a_client a;
     a_upstream := if write_ok a then a_upstream a ++ [f] else a_upstream a;
     a_writes := tail (a_writes a) |}.
Definition set_stage (n : Z) (a : relay) : relay :=
  {| a_stage := n; a_key := a_key a; a_client := a_client a; a_upstream := a_upstream a;
     a_writes := a_writes a |}.
Definition set_key (key backend : bytes) (a : relay) : relay :=
  {| a_stage := a_stage a; a_key := Some (key, backend); a_client := a_client a;
     a_upstream := a_upstream a; a_writes := a_writes a |}.

Definition scram : bytes := of_string ("SCRAM-SHA-256" +:+ nul).

(** The stage a request code leads to, from the stage it needs. *)
Definition auth_stage (code : Z) (body : bytes) (stage : Z) : option Z :=
  if code =? 10 then
    if negb (stage =? 0) || negb (bytes_Contains (drop 4 body) scram) then None else Some 1
  else if code =? 11 then if negb (stage =? 1) then None else Some 2
  else if code =? 12 then if negb (stage =? 2) then None else Some 3
  else if code =? 0 then if negb (stage =? 3) then None else Some 4
  else None.

(** The client's first SCRAM message: mechanism, length, no channel binding. *)
Definition scram_initial (body : bytes) : bool :=
  let '(name, data, ok) := bytes_Cut Byte.x00 body in
  ok && (to_string name =s "SCRAM-SHA-256") && negb (bool_decide (length data < 4)%nat) &&
  (be_uint (take 4 data) =? Z.of_nat (length data) - 4) &&
  bytes_HasPrefix (drop 4 data) (of_string "n,,").

(** What a turn of the loop ends with. *)
Inductive turn :=
| TContinue (a : relay) (client : list frame)
| TReturn (a : relay) (err : option error).

Definition auth_reject (a : relay) : turn := TReturn (relay_client rejection a) (Some errProtocol).

(** The write at the end of a turn: its error returns. *)
Definition auth_forward (f : frame) (client : list frame) (a : relay) : turn :=
  if write_ok a then TContinue (relay_client f a) client
  else TReturn (relay_client f a) (Some ErrClosedPipe).

(** An authentication request: stage check, relay, and the client's answer. *)
Definition auth_request (f : frame) (client : list frame) (a : relay) : turn :=
  if bool_decide (length (body f) < 4)%nat then auth_reject a
  else
    let code := be_uint (take 4 (body f)) in
    match auth_stage code (body f) (a_stage a) with
    | None => auth_reject a
    | Some stage =>
        let a := set_stage stage a in
        if negb (write_ok a) then TReturn (relay_client f a) (Some ErrClosedPipe)
        else
          let a := relay_client f a in
          if (code =? 10) || (code =? 11) then
            match client with
            | [] => TReturn a (Some EOF)
            | response :: client =>
                if negb (Ascii.eqb (kind response) "p") then auth_reject a
                else if (code =? 10) && negb (scram_initial (body response)) then auth_reject a
                else if write_ok a then TContinue (relay_upstream response a) client
                else TReturn (relay_upstream response a) (Some ErrClosedPipe)
            end
          else TContinue a client
    end.

(** One upstream frame. [client] holds the frames the client will send (reads
    past its end fail with EOF), [key] the random bytes of rand.Read. *)
Definition auth_step (key : bytes) (f : frame) (client : list frame) (a : relay) : turn :=
  if Ascii.eqb (kind f) "R" then auth_request f client a
  else if Ascii.eqb (kind f) "K" then
    if negb (bool_decide (length (body f) = 8)%nat) || negb (bool_decide (a_key a = None))
    then TReturn a (Some errProtocol)
    else auth_forward {| kind := kind f; body := key |} client (set_key key (body f) a)
  else if Ascii.eqb (kind f) "Z" then
    if negb (a_stage a =? 4) || negb (bool_decide (body f = of_string "I"))
    then TReturn a (Some errProtocol)
    else TReturn (relay_client f a) (if write_ok a then None else Some ErrClosedPipe)
  else if Ascii.eqb (kind f) "E" then TReturn (relay_client f a) (Some errProtocol)
  else if Ascii.eqb (kind f) "S" || Ascii.eqb (kind f) "N" then auth_forward f client a
  else auth_reject a.

(** authenticate over the frames the upstream sends; a read past them is EOF. *)
Fixpoint authenticate_loop (key : bytes) (up client : list frame) (a : relay) : relay * option error :=
  match up with
  | [] => (a, Some EOF)
  | f :: up' =>
      match auth_step key f client a with
      | TReturn a err => (a, err)
      | TContinue a client => authenticate_loop key up' client a
      end
  end.

Definition authenticate (key : bytes) (up client : list frame) (writes : list bool) :
    relay * option error :=
  authenticate_loop key up client
    {| a_stage := 0; a_key := None; a_client := []; a_upstream := []; a_writes := writes |}.

(** ** The exchange loop *)

Section exchange.
Context {D S : Type} `{Decisions D S} (pid : string).

Record session := {
  x_db : D;
  x_snap : option S;
  x_event : Event;
  x_active : bool;
  x_awaiting : bool;
  x_transaction : bool;
  x_executed : bool;
  x_decided : bool;
  x_outcome : string;
  x_client : list frame;
  x_upstream : list frame;
  x_log : list Event
}.

(** The answers an input's handler gets: do writes succeed, the clock, the
    random flow ID, did the fault's timer fire. *)
Record answers := { o_write : bool; o_now : Z; o_id : string; o_fired : bool }.

Inductive input :=
| InDone (o : answers)
| InFront (f : frame) (o : answers)
| InBack (f : frame) (o : answers)
| InEnv (d : D).

Inductive verdict :=
| Go (x : session)
| Stop (x : session).

Definition start_session (d : D) : session :=
  {| x_db := d; x_snap := None; x_event := zero_event; x_active := false; x_awaiting := false;
     x_transaction := false; x_executed := false; x_decided := false; x_outcome := "forwarded";
     x_client := []; x_upstream := []; x_log := [] |}.

(** s.records.Record(event) with the event updated first. *)
Definition emit (e : Event) (x : session) : session :=
  {| x_db := x_db x; x_snap := x_snap x; x_event := e; x_active := x_active x;
     x_awaiting := x_awaiting x; x_transaction := x_transaction x; x_executed := x_executed x;
     x_decided := x_decided x; x_outcome := x_outcome x; x_client := x_client x;
     x_upstream := x_upstream x; x_log := x_log x ++ [e] |}.
Definition to_client (f : frame) (x : session) : session :=
  {| x_db := x_db x; x_snap := x_snap x; x_event := x_event x; x_active := x_active x;
     x_awaiting := x_awaiting x; x_transaction := x_transaction x; x_executed := x_executed x;
     x_decided := x_decided x; x_outcome := x_outcome x; x_client := x_client x ++ [f];
     x_upstream := x_upstream x; x_log := x_log x |}.
Definition to_upstream (f : frame) (x : session) : session :=
  {| x_db := x_db x; x_snap := x_snap x; x_event := x_event x; x_active := x_active x;
     x_awaiting := x_awaiting x; x_transaction := x_transaction x; x_executed := x_executed x;
     x_decided := x_decided x; x_outcome := x_outcome x; x_client := x_client x;
     x_upstream := x_upstream x ++ [f]; x_log := x_log x |}.
Definition set_flags (active awaiting transaction executed decided : bool) (x : session) : session :=
  {| x_db := x_db x; x_snap := x_snap x; x_event := x_event x; x_active := active;
     x_awaiting := awaiting; x_transaction := transaction; x_executed := executed;
     x_decided := decided; x_outcome := x_outcome x; x_client := x_client x;
     x_upstream := x_upstream x; x_log := x_log x |}.
Definition set_snap (d : D) (s : option S) (x : session) : session :=
  {| x_db := d; x_snap := s; x_event := x_event x; x_active := x_active x;
     x_awaiting := x_awaiting x; x_transaction := x_transaction x; x_executed := x_executed x;
     x_decided := x_decided x; x_outcome := x_outcome x; x_client := x_client x;
     x_upstream := x_upstream x; x_log := x_log x |}.
Definition set_outcome (outcome : string) (x : session) : session :=
  {| x_db := x_db x; x_snap := x_snap x; x_event := x_event x; x_active := x_active x;
     x_awaiting := x_awaiting x; x_transaction := x_transaction x; x_executed := x_executed x;
     x_decided := x_decided x; x_outcome := outcome; x_client := x_client x;
     x_upstream := x_upstream x; x_log := x_log x |}.
Definition set_awaiting (b : bool) (x : session) : session :=
  set_flags (x_active x) b (x_transaction x) (x_executed x) (x_decided x) x.
Definition set_transaction (b : bool) (x : session) : session :=
  set_flags (x_active x) (x_awaiting x) b (x_executed x) (x_decided x) x.
Definition set_executed (b : bool) (x : session) : session :=
  set_flags (x_active x) (x_awaiting x) (x_transaction x) b (x_decided x) x.

Definition reject (o : answers) (x : session) : session :=
  if o_write o then to_client rejection x else x.

(** The closure [finish]. *)
Definition finish (outcome : string) (o : answers) (x : session) : session :=
  if negb (x_active x) then x
  else
    let e := x_event x in
    let x := emit (finish_event outcome (o_now o) (ev_Selected e && negb (ev_Reached e)) e) x in
    set_snap (x_db x) None
      (set_flags false (x_awaiting x) (x_transaction x) (x_executed x) (x_decided x) x).

(** The first frame of a cycle. *)
Definition begin_cycle (o : answers) (x : session) : session :=
  let snap := acquire (x_db x) in
  let x := set_snap (x_db x) (Some snap) x in
  let x := set_flags true (x_awaiting x) (x_transaction x) false false x in
  let x := set_outcome "forwarded" x in
  emit (start_event (snap_info snap) (o_id o) pid "postgresql" (o_now o)) x.

Definition on_front (f : frame) (o : answers) (x : session) : verdict :=
  if Ascii.eqb (kind f) "X" then Stop x
  else if negb (ContainsByte "QPBDEHCS" (kind f)) || x_awaiting x then Stop (reject o x)
  else
    let x := if negb (x_active x) then begin_cycle o x else x in
    if Ascii.eqb (kind f) "E" && x_executed x then Stop (reject o x)
    else
      let x := if Ascii.eqb (kind f) "E" then set_executed true x else x in
      let x := if Ascii.eqb (kind f) "Q" || Ascii.eqb (kind f) "S" then set_awaiting true x else x in
      if o_write o then Go (to_upstream f x) else Stop x.

Definition begin_tag : bytes := of_string ("BEGIN" +:+ nul).
Definition rollback_tag : bytes := of_string ("ROLLBACK" +:+ nul).
Definition commit_tag : bytes := of_string ("COMMIT" +:+ nul).

(** The decision on a confirmed COMMIT. *)
Definition on_commit (o : answers) (x : session) : option verdict :=
  let x := set_flags (x_active x) (x_awaiting x) false (x_executed x) true x in
  snap ← x_snap x;
  '(d, (dec, _)) ← decide_at (x_db x) snap pid no_metadata;
  let x := set_snap d (Some snap) x in
  let x := emit (decision_event dec true (x_event x)) x in
  if dc_Selected dec then
    let x := emit (applied_event (x_event x)) x in
    match commit_apply (dc_Fault dec) (o_fired o) with
    | None => None
    | Some true => Some (Go x)
    | Some false => Some (Stop (finish "commit_ack_lost" o x))
    end
  else Some (Go x).

Definition on_complete (f : frame) (o : answers) (x : session) : option verdict :=
  if bool_decide (body f = begin_tag) then Some (Go (set_transaction true x))
  else if bool_decide (body f = rollback_tag) then Some (Go (set_transaction false x))
  else if bool_decide (body f = commit_tag) then
    if x_transaction x && x_active x && negb (x_decided x) then on_commit o x else Some (Go x)
  else Some (Go x).

Definition on_ready (f : frame) (o : answers) (x : session) : verdict :=
  match body f with
  | [b] =>
      if negb (ContainsByte "ITE" (to_char b)) then Stop (reject o x)
      else
        let x := set_awaiting false (set_transaction (negb (Ascii.eqb (to_char b) "I")) x) in
        if o_write o then Go (finish (x_outcome x) o (to_client f x)) else Stop x
  | _ => Stop (reject o x)
  end.

Definition on_back (f : frame) (o : answers) (x : session) : option verdict :=
  if negb (ContainsByte "123nTsDCIENSAZt" (kind f)) then Some (Stop (reject o x))
  else
    let x := if Ascii.eqb (kind f) "E" then set_outcome "upstream_error" x else x in
    v ← (if Ascii.eqb (kind f) "C" then on_complete f o x else Some (Go x));
    match v with
    | Stop x => Some (Stop x)
    | Go x =>
        if Ascii.eqb (kind f) "Z" then Some (on_ready f o x)
        else Some (if o_write o then Go (to_client f x) else Stop x)
    end.

Definition exchange_step (i : input) (x : session) : option verdict :=
  match i with
  | InDone _ => Some (Stop x)
  | InFront f o => Some (on_front f o x)
  | InBack f o => on_back f o x
  | InEnv d => Some (Go (set_snap d (x_snap x) x))
  end.

Definition input_answers (i : input) : answers :=
  match i with
  | InDone o | InFront _ o | InBack _ o => o
  | InEnv _ => {| o_write := true; o_now := 0; o_id := ""; o_fired := false |}
  end.

(** The loop, and the deferred finish("connection_closed"); the flag says
    whether the loop returned. *)
Fixpoint exchange (ins : list input) (x : session) : option (session * bool) :=
  match ins with
  | [] => Some (x, false)
  | i :: ins' =>
      v ← exchange_step i x;
      match v with
      | Go x => exchange ins' x
      | Stop x => Some (finish "connection_closed" (input_answers i) x, true)
      end
  end.
End exchange.
