(* ===== verification/PgSpec.v ===== *)
(** * Correctness of the PostgreSQL adapter

    The exchange loop never panics, is transparent, brackets its events, decides
    only on confirmed commits and withholds exactly the acknowledgement a fault
    covers; the SCRAM relay and the cancel registry keep credentials apart. *)

From Stdlib Require Import Ascii.
From S2P Require Import Prelude GoLib GoRand Config Validate ValidateSpec Engine Control Recorder GoIO PgWire Adapter PgSession Samples.
Local Open Scope go_scope.

(** ** Frames of a run *)

Section frames.
Context {D : Type}.

Definition front_of (i : input (D := D)) : option frame :=
  match i with InFront f _ => Some f | _ => None end.
Definition back_of (i : input (D := D)) : option frame :=
  match i with InBack f _ => Some f | _ => None end.
Definition fronts (ins : list input) : list frame := omap front_of ins.
Definition backs (ins : list input) : list frame := omap back_of ins.

Definition commit_frame : frame := {| kind := "C"; body := commit_tag |}.

(** Confirmed commits of explicit transactions, from the upstream's frames
    alone: a transaction is open after a BEGIN tag or a ready status other than
    idle, and closed by COMMIT, ROLLBACK or an idle status. *)
Definition confirm_step (st : bool * Z) (f : frame) : bool * Z :=
  let '(open, n) := st in
  if Ascii.eqb (kind f) "C" then
    if bool_decide (body f = begin_tag) then (true, n)
    else if bool_decide (body f = rollback_tag) then (false, n)
    else if bool_decide (body f = commit_tag) then (false, if open then n + 1 else n)
    else (open, n)
  else if Ascii.eqb (kind f) "Z" then
    match body f with [b] => (negb (Ascii.eqb (to_char b) "I"), n) | _ => (open, n) end
  else (open, n).

Definition confirmed (fs : list frame) : bool * Z := fold_left confirm_step fs (false, 0).

Definition decisions (log : list Event) : Z :=
  Z.of_nat (length (filter (λ e, ev_Type e = "decision") log)).
End frames.

Lemma confirm_step_mono st f : st.2 ≤ (confirm_step st f).2.
Proof.
  destruct st as [o n]. unfold confirm_step. repeat case_match; simpl; lia.
Qed.

Lemma confirmed_mono fs st : st.2 ≤ (fold_left confirm_step fs st).2.
Proof.
  revert st. induction fs as [|f fs IH]; intros st; simpl; [lia|].
  etrans; [apply confirm_step_mono|apply IH].
Qed.

Lemma confirmed_app fs gs : (confirmed fs).2 ≤ (confirmed (fs ++ gs)).2.
Proof. unfold confirmed. rewrite fold_left_app. apply confirmed_mono. Qed.

Lemma decisions_app l1 l2 : decisions (l1 ++ l2) = decisions l1 + decisions l2.
Proof. unfold decisions. rewrite filter_app, length_app. lia. Qed.

(** ** The loop's invariant *)

Section exchange.
Context {D S : Type} `{Decisions D S} (pid : string).

Implicit Types x : session (D := D) (S := S).

(** Where the log stands for the current cycle. *)
Definition bracketed x : Prop :=
  let id := ev_FlowID (x_event x) in
  let log := phase_run Outside (x_log x) in
  if x_active x then
    if x_decided x then
      log = Some (Decided id false) ∧ ev_Applied (x_event x) = false ∨
      log = Some (Applied_ id) ∧ ev_Applied (x_event x) = true
    else log = Some (Started id) ∧ ev_Selected (x_event x) = false ∧ ev_Applied (x_event x) = false
  else log = Some Outside.

Lemma bracketed_finish outcome o x :
  bracketed x → bracketed (finish outcome o x) ∧ x_active (finish outcome o x) = false.
Proof.
  unfold bracketed, finish. destruct (x_active x) eqn:Ea; cbn; [|by rewrite Ea].
  intros Hb. split; [|done]. rewrite phase_run_snoc.
  destruct (x_decided x); [destruct Hb as [[-> Ha]|[-> Ha]]|destruct Hb as (-> & Hs & Ha)];
    cbn; rewrite str_eq_refl, Ha, ?Hs; done.
Qed.

Lemma bracketed_begin o x :
  bracketed x → x_active x = false → bracketed (begin_cycle pid o x).
Proof. unfold bracketed. intros Hb Ha. rewrite Ha in Hb. cbn. by rewrite phase_run_snoc, Hb. Qed.

Lemma finish_frames outcome o x :
  x_client (finish outcome o x) = x_client x ∧ x_upstream (finish outcome o x) = x_upstream x.
Proof. unfold finish. by destruct (x_active x). Qed.

(** What one input does to the frames: a continuing step forwards exactly its
    frame, a final one at most rejects. *)
Definition frames_go (i : input (D := D)) x x' : Prop :=
  x_client x' = x_client x ++ backs [i] ∧ x_upstream x' = x_upstream x ++ fronts [i].
Definition frames_stop x x' : Prop :=
  (x_client x' = x_client x ∨ x_client x' = x_client x ++ [rejection]) ∧
  x_upstream x' = x_upstream x.

Lemma reject_stop o x x0 :
  x_client x = x_client x0 → x_upstream x = x_upstream x0 → frames_stop x0 (reject o x).
Proof.
  intros Hc Hu. unfold frames_stop, reject. destruct (o_write o); cbn; rewrite Hc, Hu; auto.
Qed.

Lemma on_front_frames f o x :
  match on_front pid f o x with
  | Go x' => frames_go (InFront f o) x x'
  | Stop x' => frames_stop x x'
  end.
Proof.
  unfold on_front, frames_go. cbn [backs fronts omap list_omap back_of front_of].
  destruct (Ascii.eqb (kind f) "X"); [by split; [left|]|].
  destruct (_ || _); [by apply reject_stop|]. cbv zeta.
  set (x1 := if negb (x_active x) then begin_cycle pid o x else x).
  assert (x_client x1 = x_client x ∧ x_upstream x1 = x_upstream x) as [Hc1 Hu1]
    by (subst x1; by destruct (x_active x)).
  destruct (_ && x_executed x1); [by apply reject_stop|].
  destruct (Ascii.eqb (kind f) "E"), (_ || _), (o_write o);
    unfold frames_stop; cbn; rewrite Hc1, Hu1, ?app_nil_r; auto.
Qed.

Lemma on_complete_frames f o x v :
  on_complete pid f o x = Some v →
  match v with Go x' | Stop x' => x_client x' = x_client x ∧ x_upstream x' = x_upstream x end.
Proof.
  unfold on_complete. repeat case_bool_decide; try (by intros [= <-]).
  destruct (_ && _); [|by intros [= <-]]. unfold on_commit.
  intros Hv. apply bind_Some in Hv as (snap & _ & Hv). apply bind_Some in Hv as ([d [dec err]] & _ & Hv).
  cbv zeta in Hv. destruct (dc_Selected dec); [|by injection Hv as <-].
  destruct (commit_apply _ _) as [[]|]; [by injection Hv as <-| |done].
  injection Hv as <-. split; rewrite ?(proj1 (finish_frames _ _ _)), ?(proj2 (finish_frames _ _ _)); done.
Qed.

Lemma on_back_frames f o x v :
  on_back pid f o x = Some v →
  match v with Go x' => frames_go (InBack f o) x x' | Stop x' => frames_stop x x' end.
Proof.
  unfold on_back, frames_go. cbn [backs fronts omap list_omap back_of front_of].
  destruct (negb _); [intros [= <-]; by apply reject_stop|]. cbv zeta.
  set (x1 := if Ascii.eqb (kind f) "E" then set_outcome "upstream_error" x else x).
  assert (x_client x1 = x_client x ∧ x_upstream x1 = x_upstream x) as [Hc1 Hu1]
    by (subst x1; by destruct (Ascii.eqb (kind f) "E")).
  intros (v1 & Hv1 & Hv)%bind_Some.
  assert (match v1 with Go x' | Stop x' => x_client x' = x_client x ∧ x_upstream x' = x_upstream x end) as H1.
  { rewrite <- Hc1, <- Hu1. destruct (Ascii.eqb (kind f) "C"); [by eapply on_complete_frames|].
    by injection Hv1 as <-. }
  destruct v1 as [x2|x2]; [|injection Hv as <-; destruct H1; split; auto]. destruct H1 as [Hc2 Hu2].
  destruct (Ascii.eqb (kind f) "Z").
  - injection Hv as <-. unfold on_ready. destruct (body f) as [|b []]; [by apply reject_stop| |by apply reject_stop].
    destruct (negb (ContainsByte _ _)); [by apply reject_stop|]. cbv zeta.
    destruct (o_write o); [|by split; [left|]]. destruct (finish_frames (x_outcome (set_awaiting false (set_transaction (negb (Ascii.eqb (to_char b) "I")) x2))) o (to_client f (set_awaiting false (set_transaction (negb (Ascii.eqb (to_char b) "I")) x2)))) as [-> ->].
    cbn. by rewrite Hc2, Hu2, app_nil_r.
  - injection Hv as <-. destruct (o_write o); [|by split; [left|]]. cbn. by rewrite Hc2, Hu2, app_nil_r.
Qed.

Lemma exchange_step_frames i x v :
  exchange_step pid i x = Some v →
  match v with Go x' => frames_go i x x' | Stop x' => frames_stop x x' end.
Proof.
  destruct i as [o|f o|f o|d]; cbn [exchange_step].
  - intros [= <-]. by split; [left|].
  - intros [= <-]. apply on_front_frames.
  - apply on_back_frames.
  - intros [= <-]. unfold frames_go. cbn. by rewrite !app_nil_r.
Qed.
End exchange.

(** ** Safety of the loop, against the interface of runtime control *)

Section safety.
Context {D S : Type} `{Decisions D S} (pid : string) `{!DecisionsOk D S pid commit_fault}.

Implicit Types x : session (D := D) (S := S).

Definition only_delays (log : list Event) : Prop :=
  Forall (λ e, ev_Type e = "fault_applied" → ev_Action e = "delay") log.

Record running x : Prop := {
  run_bracketed : bracketed x;
  run_snap : x_active x = true → ∃ s, x_snap x = Some s ∧ held (x_db x) s;
  run_good : good (x_db x);
  run_delays : only_delays (x_log x)
}.

(** The count of decisions against the confirmed commits among [fs]. *)
Definition justified (fs : list frame) x : Prop :=
  decisions (x_log x) + Z.b2z (x_transaction x && negb (confirmed fs).1) ≤ (confirmed fs).2.

Lemma decisions_snoc log e :
  decisions (log ++ [e]) = decisions log + if ev_Type e =s "decision" then 1 else 0.
Proof.
  rewrite decisions_app. f_equal. unfold decisions. rewrite filter_cons.
  destruct (str_eq (ev_Type e) "decision") eqn:E; bool_hyps.
  - by rewrite decide_True.
  - by rewrite decide_False.
Qed.

Lemma finish_running outcome o x : running x → running (finish outcome o x).
Proof.
  intros [Hb Hs Hg Hd]. destruct (bracketed_finish outcome o x Hb) as [Hb' Ha]. split; [done|by rewrite Ha|..].
  - unfold finish. by destruct (x_active x).
  - unfold finish. destruct (x_active x); [|done]. cbn. apply Forall_app. split; [done|].
    repeat constructor. done.
Qed.

Lemma finish_log outcome o x :
  decisions (x_log (finish outcome o x)) = decisions (x_log x) ∧
  x_transaction (finish outcome o x) = x_transaction x.
Proof.
  unfold finish. destruct (x_active x); [|done]. cbn. by rewrite decisions_snoc, Z.add_0_r.
Qed.

Lemma begin_running o x :
  running x → x_active x = false →
  running (begin_cycle pid o x) ∧ decisions (x_log (begin_cycle pid o x)) = decisions (x_log x) ∧
  x_transaction (begin_cycle pid o x) = x_transaction x.
Proof.
  intros [Hb Hs Hg Hd] Ha. split; [|cbn; by rewrite decisions_snoc, Z.add_0_r].
  split; [by apply bracketed_begin| |done|].
  - intros _. cbn. eexists. split; [done|]. by apply acquire_held.
  - cbn. apply Forall_app. split; [done|]. by repeat constructor.
Qed.

(** The decision of a cycle: it returns; the log stays bracketed and gains one
    decision; unless a delay expired, the session stops there. *)
Lemma on_commit_ok o x :
  running x → x_active x = true → x_decided x = false →
  ∃ v, on_commit pid o x = Some v ∧
    match v with
    | Go x' => running x' ∧ x_transaction x' = false ∧ decisions (x_log x') = decisions (x_log x) + 1
    | Stop x' => bracketed x' ∧ x_active x' = false ∧ decisions (x_log x') = decisions (x_log x) + 1
    end.
Proof.
  intros [Hb Hs Hg Hd] Ha Hdec. destruct (Hs Ha) as (sn & Hsn & Hh).
  destruct (decide_ok (x_db x) sn no_metadata Hg Hh) as (d & dec & err & Hde & Hg' & Hh' & Hf).
  unfold on_commit. cbn [x_snap set_flags x_db]. rewrite Hsn. cbn [mbind option_bind]. rewrite Hde.
  cbn [mbind option_bind]. cbv zeta.
  unfold bracketed in Hb. rewrite Ha, Hdec in Hb. destruct Hb as (Hph & Hsel & Happ).
  destruct (dc_Selected dec) eqn:Esel; cycle 1.
  { eexists. split; [done|]. cbn. rewrite decisions_snoc. split_and!; [|done|done]. split; cbn.
    - unfold bracketed. cbn. rewrite Ha, phase_run_snoc, Hph. cbn. rewrite str_eq_refl, Esel. cbn. auto.
    - intros _. exists sn. auto.
    - done.
    - apply Forall_app. split; [done|]. by repeat constructor. }
  rewrite (commit_apply_ok _ _ (Hf eq_refl)).
  set (x1 := emit _ (emit _ _)).
  assert (bracketed x1 ∧ decisions (x_log x1) = decisions (x_log x) + 1) as [Hb1 Hd1].
  { subst x1. unfold bracketed. cbn. rewrite Ha, !phase_run_snoc, !decisions_snoc, Hph. cbn.
    rewrite !str_eq_refl, Esel. cbn. rewrite !str_eq_refl. cbn. split; [auto|decide_strings; lia]. }
  destruct (o_fired o && _) eqn:Epass.
  - eexists. split; [done|]. split_and!; [|done|done]. split; [done| |done|].
    + intros _. exists sn. subst x1. cbn. auto.
    + subst x1. cbn. rewrite <- app_assoc. apply Forall_app. split; [done|].
      bool_hyps. repeat constructor; [done|]. by intros _.
  - eexists. split; [done|]. destruct (bracketed_finish "commit_ack_lost" o x1 Hb1).
    split_and!; [done..|]. by rewrite (proj1 (finish_log _ _ _)).
Qed.

Lemma confirmed_snoc fs f : confirmed (fs ++ [f]) = confirm_step (confirmed fs) f.
Proof. unfold confirmed. by rewrite fold_left_app. Qed.

Lemma justified_le fs gs x : justified fs x → decisions (x_log x) ≤ (confirmed (fs ++ gs)).2.
Proof.
  unfold justified. intros Hj. pose proof (confirmed_app fs gs).
  destruct (x_transaction x && _); simpl in *; lia.
Qed.

Lemma on_complete_ok f o x fs :
  running x → justified fs x → kind f = "C"%char →
  ∃ v, on_complete pid f o x = Some v ∧
    match v with
    | Go x' => running x' ∧ justified (fs ++ [f]) x'
    | Stop x' => bracketed x' ∧ decisions (x_log x') ≤ (confirmed (fs ++ [f])).2 ∧ f = commit_frame
    end.
Proof.
  intros Hr Hj Hk. unfold on_complete, justified in *. rewrite confirmed_snoc.
  destruct (confirmed fs) as [open n]. cbn [fst snd] in Hj.
  unfold confirm_step. rewrite Hk.
  change (Ascii.eqb "C" "C") with true. cbv iota.
  destruct Hr as [Hb Hs Hg Hd]. repeat case_bool_decide.
  - eexists. split; [done|]. split; [by split|]. cbn. destruct (x_transaction x), open; simpl in *; lia.
  - eexists. split; [done|]. split; [by split|]. cbn. destruct (x_transaction x), open; simpl in *; lia.
  - destruct (x_transaction x && x_active x && negb (x_decided x)) eqn:E.
    + bool_hyps. destruct (on_commit_ok o x) as (v & Hv & Hok); [by split|done..|].
      exists v. split; [done|]. cbn [fst snd].
      destruct v as [x'|x']; destruct Hok as (Hr' & Ht' & Hd').
      * split; [done|]. rewrite Ht', Hd'. replace (x_transaction x) with true in Hj by done.
        destruct open; simpl in *; lia.
      * split_and!; [done| |by destruct f; simpl in *; subst].
        rewrite Hd'. replace (x_transaction x) with true in Hj by done. destruct open; simpl in *; lia.
    + eexists. split; [done|]. split; [by split|]. cbn. destruct (x_transaction x), open; simpl in *; lia.
  - eexists. split; [done|]. split; [by split|]. cbn. done.
Qed.

Lemma reject_running o x fs :
  running x → justified fs x → running (reject o x) ∧ justified fs (reject o x).
Proof. intros [Hb Hs Hg Hd] Hj. unfold reject. by destruct (o_write o). Qed.

(** After one input: a continuing session keeps both invariants; a stopped one
    is bracketed, justified, and has withheld nothing but the COMMIT it stopped
    on. *)
Definition stop_ok (fs : list frame) (i : input (D := D)) x x' : Prop :=
  bracketed x' ∧ decisions (x_log x') ≤ (confirmed (fs ++ backs [i])).2 ∧
  (only_delays (x_log x') ∨
   (∃ o, i = InBack commit_frame o) ∧ x_client x' = x_client x ∧ x_upstream x' = x_upstream x).

Definition verdict_ok (fs : list frame) (i : input) x (v : verdict) : Prop :=
  match v with
  | Go x' => running x' ∧ justified (fs ++ backs [i]) x'
  | Stop x' => stop_ok fs i x x'
  end.

Lemma running_stop fs i x x' : running x' → justified fs x' → stop_ok fs i x x'.
Proof.
  intros [Hb Hs Hg Hd] Hj. split_and!; [done|by apply justified_le|by left].
Qed.

Lemma on_front_ok f o x fs :
  running x → justified fs x → verdict_ok fs (InFront f o) x (on_front pid f o x).
Proof.
  intros Hr Hj. unfold on_front. destruct (Ascii.eqb (kind f) "X"); [by apply running_stop|].
  destruct (_ || _); [destruct (reject_running o x fs Hr Hj); by apply running_stop|]. cbv zeta.
  set (x1 := if negb (x_active x) then begin_cycle pid o x else x).
  assert (running x1 ∧ justified fs x1) as [Hr1 Hj1].
  { subst x1. destruct (x_active x) eqn:Ea; [done|]. cbn [negb].
    destruct (begin_running o x Hr Ea) as (? & Hd & Ht). split; [done|].
    unfold justified in *. by rewrite Hd, Ht. }
  destruct (_ && x_executed x1); [destruct (reject_running o x1 fs Hr1 Hj1); by apply running_stop|].
  unfold verdict_ok, backs. cbn [omap list_omap back_of]. rewrite app_nil_r.
  destruct Hr1 as [Hb Hs Hg Hd].
  destruct (Ascii.eqb (kind f) "E"), (_ || _), (o_write o);
    try (split; [by split|exact Hj1]); by apply running_stop.
Qed.

Lemma on_ready_ok f o x x0 fs :
  running x → justified fs x → kind f = "Z"%char → verdict_ok fs (InBack f o) x0 (on_ready f o x).
Proof.
  intros Hr Hj Hk. unfold on_ready.
  destruct (reject_running o x fs Hr Hj) as [Hrr Hjr].
  destruct (body f) as [|b []] eqn:Eb; [by apply running_stop| |by apply running_stop].
  destruct (negb (ContainsByte _ _)); [by apply running_stop|]. cbv zeta.
  set (x1 := set_awaiting _ _).
  assert (running x1) as Hr1 by (destruct Hr; by split).
  assert (justified (fs ++ [f]) x1) as Hj1.
  { unfold justified in *. rewrite confirmed_snoc. destruct (confirmed fs) as [open n].
    unfold confirm_step. rewrite Hk, Eb.
    change (Ascii.eqb "Z" "C") with false. change (Ascii.eqb "Z" "Z") with true. subst x1. cbn in *.
    destruct (Ascii.eqb (to_char b) "I"), (x_transaction x), open; simpl in *; lia. }
  destruct (o_write o).
  - unfold verdict_ok, backs. cbn [omap list_omap back_of].
    assert (running (to_client f x1)) as Hr2 by (destruct Hr1; by split).
    split; [by apply finish_running|]. unfold justified in *.
    destruct (finish_log (x_outcome x1) o (to_client f x1)) as [-> ->]. exact Hj1.
  - split_and!; [apply Hr1| |left; apply Hr1]. unfold backs. cbn [omap list_omap back_of].
    pose proof (justified_le _ [] _ Hj1) as Hx. by rewrite app_nil_r in Hx.
Qed.

Lemma on_back_ok f o x fs :
  running x → justified fs x →
  ∃ v, on_back pid f o x = Some v ∧ verdict_ok fs (InBack f o) x v.
Proof.
  intros Hr Hj. unfold on_back.
  destruct (negb _).
  { eexists. split; [done|]. destruct (reject_running o x fs Hr Hj). by apply running_stop. }
  cbv zeta. set (x1 := if Ascii.eqb (kind f) "E" then set_outcome "upstream_error" x else x).
  assert (running x1 ∧ justified fs x1 ∧ x_client x1 = x_client x ∧ x_upstream x1 = x_upstream x)
    as (Hr1 & Hj1 & Hc1 & Hu1).
  { subst x1. destruct (Ascii.eqb (kind f) "E"); [|done]. destruct Hr. by split_and!. }
  destruct (Ascii.eqb (kind f) "C") eqn:EC.
  - apply Ascii.eqb_eq in EC. destruct (on_complete_ok f o x1 fs Hr1 Hj1 EC) as (v & Hv & Hok).
    rewrite Hv. cbn [mbind option_bind]. destruct v as [x2|x2].
    + destruct Hok as [Hr2 Hj2]. rewrite EC. change (Ascii.eqb "C" "Z") with false.
      eexists. split; [done|]. destruct (o_write o).
      * unfold verdict_ok, backs. cbn [omap list_omap back_of]. destruct Hr2. split; [by split|exact Hj2].
      * split_and!; [apply Hr2| |left; apply Hr2]. unfold backs. cbn [omap list_omap back_of].
        pose proof (justified_le _ [] _ Hj2) as Hx. by rewrite app_nil_r in Hx.
    + destruct Hok as (Hb2 & Hd2 & ->). eexists. split; [done|]. split_and!; [done|done|right].
      pose proof (on_complete_frames pid _ _ _ _ Hv) as [-> ->]. eauto.
  - cbn [mbind option_bind]. destruct (Ascii.eqb (kind f) "Z") eqn:EZ.
    + apply Ascii.eqb_eq in EZ. eexists. split; [done|]. by apply on_ready_ok.
    + eexists. split; [done|].
      assert (justified (fs ++ [f]) x1) as Hj2.
      { unfold justified in *. rewrite confirmed_snoc. destruct (confirmed fs) as [open n].
        unfold confirm_step. by rewrite EC, EZ. }
      destruct (o_write o).
      * unfold verdict_ok, backs. cbn [omap list_omap back_of]. destruct Hr1. split; [by split|exact Hj2].
      * split_and!; [apply Hr1| |left; apply Hr1]. unfold backs. cbn [omap list_omap back_of].
        pose proof (justified_le _ [] _ Hj2) as Hx. by rewrite app_nil_r in Hx.
Qed.

(** What other goroutines do between two inputs is within [rely]. *)
Fixpoint rely_run (ins : list input) x : Prop :=
  match ins with
  | [] => True
  | i :: ins' =>
      match i with InEnv d => rely (x_db x) d | _ => True end ∧
      match exchange_step pid i x with Some (Go x') => rely_run ins' x' | _ => True end
  end.

Lemma exchange_step_ok i x fs :
  running x → justified fs x → match i with InEnv d => rely (x_db x) d | _ => True end →
  ∃ v, exchange_step pid i x = Some v ∧ verdict_ok fs i x v.
Proof.
  intros Hr Hj Hi. destruct i as [o|f o|f o|d]; cbn [exchange_step].
  - eexists. split; [done|]. by apply running_stop.
  - eexists. split; [done|]. by apply on_front_ok.
  - by apply on_back_ok.
  - eexists. split; [done|]. unfold verdict_ok, backs. cbn [omap list_omap back_of].
    rewrite app_nil_r. destruct Hr as [Hb Hs Hg Hd]. split; [|exact Hj]. split; [done| |cbn; by eapply rely_good|done].
    intros Ha. destruct (Hs Ha) as (sn & Hsn & Hh). exists sn. split; [done|]. cbn. by eapply rely_held.
Qed.

Lemma backs_cons (i : input (D := D)) ins : backs (i :: ins) = backs [i] ++ backs ins.
Proof. unfold backs. by destruct i. Qed.
Lemma fronts_cons (i : input (D := D)) ins : fronts (i :: ins) = fronts [i] ++ fronts ins.
Proof. unfold fronts. by destruct i. Qed.

(** The whole loop, from any state that satisfies the invariants. *)
Lemma pg_exchange_ok ins x fs :
  running x → justified fs x → rely_run ins x →
  ∃ x' stopped, exchange pid ins x = Some (x', stopped) ∧
    bracketed x' ∧ (stopped = true → x_active x' = false) ∧
    decisions (x_log x') ≤ (confirmed (fs ++ backs ins)).2 ∧
    (only_delays (x_log x') ∨
     stopped = true ∧ ∃ ins1 o ins2, ins = ins1 ++ InBack commit_frame o :: ins2 ∧
       x_client x' = x_client x ++ backs ins1 ∧ x_upstream x' = x_upstream x ++ fronts ins1).
Proof.
  revert x fs. induction ins as [|i ins IH]; intros x fs Hr Hj Hrely.
  { exists x, false. cbn. split_and!; [done|apply Hr|done|by apply justified_le|left; apply Hr]. }
  destruct Hrely as [Hi Hrest]. destruct (exchange_step_ok i x fs Hr Hj Hi) as (v & Hv & Hok).
  cbn [exchange]. rewrite Hv in Hrest |- *. cbn [mbind option_bind]. destruct v as [x1|x1].
  - destruct Hok as [Hr1 Hj1]. destruct (IH x1 _ Hr1 Hj1 Hrest) as (x' & st & He & Hb & Ha & Hd & Hw).
    exists x', st. rewrite backs_cons, app_assoc. split_and!; try done.
    destruct Hw as [Hw|(Hst & ins1 & o & ins2 & -> & Hc & Hu)]; [by left|right; split; [done|]].
    destruct (exchange_step_frames pid _ _ _ Hv) as [Hc1 Hu1].
    exists (i :: ins1), o, ins2. rewrite backs_cons, fronts_cons, Hc, Hu, Hc1, Hu1, <- !app_assoc. done.
  - destruct Hok as (Hb & Hd & Hw). destruct (bracketed_finish "connection_closed" (input_answers i) x1 Hb) as [Hb' Ha'].
    eexists _, true. split; [done|]. rewrite backs_cons, app_assoc.
    destruct (finish_log "connection_closed" (input_answers i) x1) as [-> _].
    destruct (finish_frames "connection_closed" (input_answers i) x1) as [-> ->].
    split_and!; [done|done|etrans; [exact Hd|apply confirmed_app]|].
    destruct Hw as [Hw|((o & ->) & -> & ->)].
    + left. unfold finish. destruct (x_active x1); [|done]. cbn. apply Forall_app. split; [done|]. by repeat constructor.
    + right. split; [done|]. exists [], o, ins. cbn. by rewrite !app_nil_r.
Qed.

Lemma start_running d : good d → running (start_session d) ∧ justified [] (start_session d).
Proof. intros Hg. split; [|done]. split; [done|done|done|constructor]. Qed.
End safety.

(** ** Properties of the exchange loop *)

Lemma exchange_frames {D S} `{Decisions D S} pid ins (x x' : session (D := D) (S := S)) stopped :
  exchange pid ins x = Some (x', stopped) →
  ∃ ins1 ins2, ins = ins1 ++ ins2 ∧ (stopped = false → ins2 = []) ∧
    x_upstream x' = x_upstream x ++ fronts ins1 ∧
    (x_client x' = x_client x ++ backs ins1 ∨
     stopped = true ∧ x_client x' = x_client x ++ backs ins1 ++ [rejection]).
Proof.
  revert x. induction ins as [|i ins IH]; intros x He; cbn [exchange] in He.
  { injection He as <- <-. exists [], []. cbn. rewrite !app_nil_r. auto. }
  apply bind_Some in He as (v & Hv & He). pose proof (exchange_step_frames pid _ _ _ Hv) as Hf.
  destruct v as [x1|x1].
  - destruct Hf as [Hc Hu]. destruct (IH _ He) as (ins1 & ins2 & -> & Hst & Hu' & Hc').
    exists (i :: ins1), ins2. rewrite backs_cons, fronts_cons, Hu', Hu, <- !app_assoc.
    split_and!; [done..|]. destruct Hc' as [->|[? ->]]; rewrite Hc, <- !app_assoc; auto.
  - injection He as <- <-. exists [], (i :: ins). cbn. rewrite app_nil_r.
    destruct (finish_frames "connection_closed" (input_answers i) x1) as [-> ->].
    destruct Hf as [Hc Hu]. rewrite Hu, app_nil_r. split_and!; [done..|]. destruct Hc; auto.
Qed.

(** Transparency: whatever order frames arrive in and whatever the fault
    decisions are, the upstream receives exactly the client's frames of a prefix
    of the session, and the client the upstream's frames of that prefix, in
    order and unchanged; only a session that ended may add one rejection, and a
    session still running has forwarded everything. *)
Theorem exchange_transparent {D S} `{Decisions D S} pid ins d (x : session (D := D) (S := S)) stopped
    (He : exchange pid ins (start_session d) = Some (x, stopped)) :
  ∃ ins1 ins2, ins = ins1 ++ ins2 ∧ (stopped = false → ins2 = []) ∧
    x_upstream x = fronts ins1 ∧
    (x_client x = backs ins1 ∨ stopped = true ∧ x_client x = backs ins1 ++ [rejection]).
Proof. exact (exchange_frames pid ins (start_session d) x stopped He). Qed.

(** C9. Against any service that honours the adapter interface, whatever the
    peers send and other goroutines do to the service, the loop never panics and
    its records are well bracketed: every flow is started, has at most one
    decision, is reported applied exactly when that decision selected a fault,
    and is finished once; when the loop has returned no flow is left open. *)
Theorem exchange_brackets {D S} `{Decisions D S} pid `{!DecisionsOk D S pid commit_fault} ins (d : D)
    (Hg : good d) (Hr : rely_run pid ins (start_session d)) :
  ∃ x stopped p, exchange pid ins (start_session d) = Some (x, stopped) ∧
    phase_run Outside (x_log x) = Some p ∧ (stopped = true → p = Outside).
Proof.
  destruct (start_running pid d Hg) as [H1 H2].
  destruct (pg_exchange_ok pid ins _ [] H1 H2 Hr) as (x & st & He & Hb & Ha & _).
  unfold bracketed in Hb. destruct st.
  - rewrite Ha in Hb by done. by exists x, true, Outside.
  - destruct (x_active x); [destruct (x_decided x); [destruct Hb as [[Hp _]|[Hp _]]|destruct Hb as [Hp _]]|];
      by eexists x, false, _.
Qed.

(** C27. Decisions are never made on anything but a confirmed COMMIT of an
    explicit transaction: the loop records at most as many decisions as the
    upstream's frames confirm commits of open transactions. *)
Theorem decisions_justified {D S} `{Decisions D S} pid `{!DecisionsOk D S pid commit_fault} ins (d : D)
    (x : session (D := D) (S := S)) stopped
    (Hg : good d) (Hr : rely_run pid ins (start_session d))
    (He : exchange pid ins (start_session d) = Some (x, stopped)) :
  decisions (x_log x) ≤ (confirmed (backs ins)).2.
Proof.
  destruct (start_running pid d Hg) as [H1 H2].
  destruct (pg_exchange_ok pid ins _ [] H1 H2 Hr) as (x' & st & He' & _ & _ & Hd & _).
  rewrite He in He'. by simplify_eq.
Qed.

(** C1. A lost acknowledgement: when a close or hold fault was applied, the
    session ended on the upstream's COMMIT confirmation, and the client had
    received exactly the frames before it: the commit happened, its
    acknowledgement never reached the client, and nothing else was withheld. *)
Theorem commit_ack_withheld {D S} `{Decisions D S} pid `{!DecisionsOk D S pid commit_fault} ins (d : D)
    (x : session (D := D) (S := S)) stopped e
    (Hg : good d) (Hr : rely_run pid ins (start_session d))
    (He : exchange pid ins (start_session d) = Some (x, stopped))
    (Hin : e ∈ x_log x) (Ht : ev_Type e = "fault_applied") (Ha : ev_Action e ≠ "delay") :
  stopped = true ∧ ∃ ins1 o ins2, ins = ins1 ++ InBack commit_frame o :: ins2 ∧
    x_client x = backs ins1 ∧ x_upstream x = fronts ins1.
Proof.
  destruct (start_running pid d Hg) as [H1 H2].
  destruct (pg_exchange_ok pid ins _ [] H1 H2 Hr) as (x' & st & He' & _ & _ & _ & Hw).
  rewrite He in He'. simplify_eq. destruct Hw as [Hw|[? Hw]]; [|by split].
  unfold only_delays in Hw. rewrite Forall_forall in Hw. by specialize (Hw e Hin Ht).
Qed.

(** ** Authentication *)

(** The frame the client sees for an upstream frame: backend keys are replaced. *)
Definition masked (key : bytes) (f : frame) : frame :=
  if Ascii.eqb (kind f) "K" then {| kind := kind f; body := key |} else f.

Definition auth_codes (fs : list frame) : list Z :=
  omap (λ f, if Ascii.eqb (kind f) "R" then Some (be_uint (take 4 (body f))) else None) fs.

Definition scram_codes : list Z := [10; 11; 12; 0].

Definition ready_idle : frame := {| kind := "Z"; body := of_string "I" |}.

(** The relay after the upstream frames [fs], with [client] still to be read. *)
Record relayed (key : bytes) (client0 fs client : list frame) (a : relay) : Prop := {
  re_stage : 0 ≤ a_stage a ≤ 4;
  re_codes : auth_codes fs = take (Z.to_nat (a_stage a)) scram_codes;
  re_client : a_client a = masked key <$> fs;
  re_clean : Forall (λ f, kind f ≠ "Z"%char) (a_client a);
  re_upstream : client0 = a_upstream a ++ client;
  re_length : length (a_upstream a) = min (Z.to_nat (a_stage a)) 2;
  re_initial : match a_upstream a with f :: _ => scram_initial (body f) = true | [] => True end
}.

Definition no_ready (a : relay) : Prop := Forall (λ f, kind f ≠ "Z"%char) (a_client a).

Lemma relay_client_clean f a : no_ready a → kind f ≠ "Z"%char → no_ready (relay_client f a).
Proof.
  intros Ha Hf. unfold no_ready, relay_client. cbn. destruct (write_ok a); [|done].
  apply Forall_app. split; [done|]. by repeat constructor.
Qed.

Lemma auth_reject_clean a : no_ready a → match auth_reject a with TReturn a' (Some _) => no_ready a' | _ => False end.
Proof. intros Ha. cbn. by apply relay_client_clean. Qed.

Lemma auth_codes_snoc fs f :
  auth_codes (fs ++ [f]) = auth_codes fs ++ (if Ascii.eqb (kind f) "R" then [be_uint (take 4 (body f))] else []).
Proof. unfold auth_codes. rewrite omap_app. cbn. by destruct (Ascii.eqb (kind f) "R"). Qed.

(** A stage change appends the code the SCRAM sequence expects there. *)
Lemma auth_stage_code code b stage stage' :
  0 ≤ stage ≤ 4 → auth_stage code b stage = Some stage' →
  stage' = stage + 1 ∧ stage' ≤ 4 ∧
  take (Z.to_nat stage) scram_codes ++ [code] = take (Z.to_nat stage') scram_codes ∧
  ((code =? 10) || (code =? 11) = bool_decide (stage' ≤ 2)) ∧ (code = 10 ↔ stage' = 1).
Proof.
  intros Hs. unfold auth_stage.
  destruct (Z.eqb_spec code 10) as [->|]; [|destruct (Z.eqb_spec code 11) as [->|];
    [|destruct (Z.eqb_spec code 12) as [->|]; [|destruct (Z.eqb_spec code 0) as [->|]; [|done]]]];
    repeat case_match; try done; intros [= <-]; bool_hyps; subst; split_and!; (done || lia).
Qed.

Definition turn_ok (key : bytes) (client0 fs : list frame) (f : frame) (a : relay) (t : turn) : Prop :=
  match t with
  | TContinue a' client' => relayed key client0 (fs ++ [f]) client' a'
  | TReturn a' None => f = ready_idle ∧ a_stage a = 4 ∧ a_client a' = a_client a ++ [f] ∧
                       a_upstream a' = a_upstream a
  | TReturn a' (Some _) => no_ready a'
  end.

Lemma auth_request_ok key f client0 fs client a :
  relayed key client0 fs client a → kind f = "R"%char →
  turn_ok key client0 fs f a (auth_request f client a).
Proof.
  intros [Hst Hco Hcl Hno Hup Hle Hin] Hk. unfold auth_request.
  assert (turn_ok key client0 fs f a (auth_reject a)) as Hrej by by apply auth_reject_clean.
  case_bool_decide; [done|]. cbv zeta. set (code := be_uint _).
  destruct (auth_stage code (body f) (a_stage a)) as [stage|] eqn:Es; [|done].
  destruct (auth_stage_code _ _ _ _ Hst Es) as (Hs' & Hle4 & Hcodes & Hans & Hten).
  assert (kind f ≠ "Z"%char) as HZ by by rewrite Hk.
  destruct (write_ok (set_stage stage a)) eqn:Ew; cbn [negb]; [|by apply relay_client_clean].
  assert (masked key f = f) as Hm by by (unfold masked; rewrite Hk).
  assert (auth_codes (fs ++ [f]) = take (Z.to_nat stage) scram_codes) as Hco'.
  { rewrite auth_codes_snoc, Hco, Hk. done. }
  assert (no_ready (relay_client f (set_stage stage a))) as Hno' by by apply relay_client_clean.
  assert (a_client (relay_client f (set_stage stage a)) = masked key <$> (fs ++ [f])) as Hcl'.
  { cbn. rewrite Ew, fmap_app, Hcl. cbn. by rewrite Hm. }
  rewrite Hans. case_bool_decide as H2.
  - destruct client as [|response client]; [done|].
    destruct (Ascii.eqb (kind response) "p"); cbn [negb]; [|by apply auth_reject_clean].
    destruct ((code =? 10) && _) eqn:Ein; [by apply auth_reject_clean|].
    destruct (write_ok (relay_client f (set_stage stage a))) eqn:Ew2; [|done].
    split; cbn [relay_upstream a_stage a_client a_upstream relay_client set_stage].
    + lia.
    + done.
    + done.
    + done.
    + rewrite Ew2, <- app_assoc. done.
    + rewrite Ew2, length_app, Hle. simpl. lia.
    + rewrite Ew2. destruct (a_upstream a) as [|f0 ?] eqn:Eu; [|done]. cbn.
      simpl in Hle. assert (code = 10) as Hc by (apply Hten; lia). rewrite Hc in Ein.
      apply negb_false_iff. done.
  - split; try done; cbn [relay_client a_stage set_stage a_upstream]; try done; [lia|].
    rewrite Hle. lia.
Qed.

Lemma auth_forward_ok key f g client0 fs client a a0 :
  relayed key client0 fs client a → g = masked key f → kind f ≠ "Z"%char → kind f ≠ "R"%char →
  turn_ok key client0 fs f a0 (auth_forward g client a).
Proof.
  intros [Hst Hco Hcl Hno Hup Hle Hin] -> HZ HR.
  assert (kind (masked key f) ≠ "Z"%char) as HZ'.
  { unfold masked. by destruct (Ascii.eqb (kind f) "K"). }
  pose proof (relay_client_clean (masked key f) a Hno HZ') as Hclean.
  unfold auth_forward. destruct (write_ok a) eqn:Ew; [|done].
  split; cbn [relay_client a_stage a_upstream]; try done.
  - rewrite auth_codes_snoc, Hco. destruct (Ascii.eqb (kind f) "R") eqn:E; [|by rewrite app_nil_r].
    by apply Ascii.eqb_eq in E.
  - cbn. by rewrite Ew, fmap_app, Hcl.
Qed.

Lemma auth_step_ok key f client0 fs client a :
  relayed key client0 fs client a → turn_ok key client0 fs f a (auth_step key f client a).
Proof.
  intros Hr. pose proof Hr as [Hst Hco Hcl Hno Hup Hle Hin]. unfold auth_step.
  destruct (Ascii.eqb (kind f) "R") eqn:ER; [apply Ascii.eqb_eq in ER; by apply auth_request_ok|].
  apply Ascii.eqb_neq in ER.
  destruct (Ascii.eqb (kind f) "K") eqn:EK.
  { destruct (_ || _); [done|]. eapply (auth_forward_ok key f); [split; done| |by apply Ascii.eqb_eq in EK as ->|done].
    unfold masked. by rewrite EK. }
  assert (masked key f = f) as Hm by by (unfold masked; rewrite EK).
  destruct (Ascii.eqb (kind f) "Z") eqn:EZ.
  { apply Ascii.eqb_eq in EZ. destruct (_ || _) eqn:Eg; [done|]. bool_hyps.
    destruct (write_ok a) eqn:Ew; cbn.
    - rewrite Ew. split_and!; try done. by destruct f; simpl in *; subst.
    - unfold no_ready. cbn. by rewrite Ew. }
  apply Ascii.eqb_neq in EZ.
  destruct (Ascii.eqb (kind f) "E") eqn:EE; [by apply relay_client_clean|].
  destruct (_ || _); [|by apply auth_reject_clean]. by eapply auth_forward_ok.
Qed.

Lemma authenticate_loop_ok key up client0 fs client a :
  relayed key client0 fs client a →
  match authenticate_loop key up client a with
  | (a', Some _) => no_ready a'
  | (a', None) => ∃ up1 up2 f1 f2 rest, up = up1 ++ ready_idle :: up2 ∧
      a_client a' = (masked key <$> fs ++ up1) ++ [ready_idle] ∧
      auth_codes (fs ++ up1) = scram_codes ∧
      client0 = f1 :: f2 :: rest ∧ a_upstream a' = [f1; f2] ∧ scram_initial (body f1) = true
  end.
Proof.
  revert fs client a. induction up as [|f up IH]; intros fs client a Hr; [apply Hr|].
  cbn [authenticate_loop]. pose proof (auth_step_ok key f client0 fs client a Hr) as Hok.
  destruct (auth_step key f client a) as [a' client'|a' [e|]]; [|done|].
  - specialize (IH _ _ _ Hok). destruct (authenticate_loop key up client' a') as [a2 [e|]]; [done|].
    destruct IH as (up1 & up2 & f1 & f2 & rest & -> & IH). rewrite <- app_assoc in IH.
    by exists (f :: up1), up2, f1, f2, rest.
  - destruct Hok as (-> & Hst & Hc & Hu). destruct Hr as [_ Hco Hcl _ Hup Hle Hin].
    rewrite Hst in Hco, Hle. destruct (a_upstream a) as [|f1 [|f2 [|]]]; try done.
    exists [], up, f1, f2, client. cbn [app]. rewrite app_nil_r, Hc, Hcl, Hu. done.
Qed.

(** C26. Authentication is relayed fail-closed: authenticate succeeds only after
    the upstream sent exactly the SCRAM-SHA-256 sequence of requests (10, 11, 12,
    then 0), the client answered the first with a SCRAM message without channel
    binding, and the upstream reported idle; the client then has received the
    upstream's frames with the backend cancel key replaced. On any failure the
    client is never told the session is ready. *)
Theorem authenticate_scram key up client writes :
  match authenticate key up client writes with
  | (a, Some _) => no_ready a
  | (a, None) => ∃ up1 up2 f1 f2 rest, up = up1 ++ ready_idle :: up2 ∧
      a_client a = (masked key <$> up1) ++ [ready_idle] ∧ auth_codes up1 = scram_codes ∧
      client = f1 :: f2 :: rest ∧ a_upstream a = [f1; f2] ∧ scram_initial (body f1) = true
  end.
Proof.
  apply (authenticate_loop_ok key up client []). by split; cbn; repeat constructor.
Qed.

(** ** Cancellation *)

Lemma of_string_append a b : of_string (a +:+ b) = of_string a ++ of_string b.
Proof.
  induction a as [|c a IH]; [done|]. change (of_char c :: of_string (a +:+ b) = (of_char c :: of_string a) ++ of_string b).
  by rewrite IH.
Qed.

Lemma session_key_inj pid1 key1 pid2 key2 :
  length key1 = length key2 → session_key pid1 key1 = session_key pid2 key2 → pid1 = pid2 ∧ key1 = key2.
Proof.
  unfold session_key. intros Hl E. apply (f_equal of_string) in E.
  rewrite !of_string_append, !of_to_string in E. apply app_inj_2 in E as [E ->]; [|done].
  split; [|done]. by rewrite <- (to_of_string pid1), E, to_of_string.
Qed.

Inductive reg_op (A : Type) :=
| Reg (pid : string) (key : bytes) (cancel : A)
| Unreg (pid : string) (key : bytes).
Arguments Reg {A}.
Arguments Unreg {A}.

Definition reg_exec {A} (m : registry A) (o : reg_op A) : registry A :=
  match o with
  | Reg pid key c => register (session_key pid key) c m
  | Unreg pid key => unregister (session_key pid key) m
  end.

(** Keys are always the eight random bytes of authenticate. *)
Definition reg_keys {A} (o : reg_op A) : Prop :=
  match o with Reg _ key _ | Unreg _ key => length key = 8%nat end.

(** C40. A cancel request reaches only sessions of the listener it arrived on:
    after any history of registrations, whatever proxy IDs are configured, the
    session a cancel packet cancels was registered by the same proxy under
    exactly the key the packet carries. *)
Theorem cancel_scoped {A} (ops : list (reg_op A)) (pid : string) (b : bytes) (c : A)
    (Hk : Forall reg_keys ops) (Hc : cancel_packet pid b (fold_left reg_exec ops ∅) = Some c) :
  Reg pid (drop 4 b) c ∈ ops.
Proof.
  unfold cancel_packet in Hc. destruct (_ && _) eqn:Eg; [|done]. bool_hyps.
  assert (length (drop 4 b) = 8%nat) as Hl by (rewrite length_drop; lia).
  unfold cancelSession in Hc. induction ops as [|o ops IH] using rev_ind; [done|].
  rewrite fold_left_app in Hc. apply Forall_app in Hk as [Hk [Ho _]%Forall_cons].
  apply elem_of_app. destruct o as [pid' key c'|pid' key]; cbn in Hc, Ho; unfold register, unregister in Hc.
  - destruct (decide (session_key pid' key = session_key pid (drop 4 b))) as [E|E].
    + rewrite E, lookup_insert_eq in Hc. injection Hc as <-.
      apply session_key_inj in E as [<- <-]; [right; by left|congruence].
    + rewrite lookup_insert_ne in Hc by done. left. by apply IH.
  - apply lookup_delete_Some in Hc as [_ Hc]. left. by apply IH.
Qed.

(** ** Witnesses: one transaction whose acknowledgement a close fault loses *)

#[local] Instance pg_decisions : DecisionsOk Service Snapshot "p1" commit_fault :=
  service_DecisionsOk store_nothing "p1" "postgresql".

Definition pg_service : Service := enabled_service pg_document.

Lemma pg_service_good : good pg_service.
Proof. apply (enabled_service_good "p1" "postgresql"), sample_keeps; [done|by apply close_rule_wf]. Qed.

Definition sample_answers : answers := {| o_write := true; o_now := 5; o_id := "flow"; o_fired := true |}.
Definition query_frame : frame := {| kind := "Q"; body := of_string ("select 1" +:+ nul) |}.
Definition begin_frame : frame := {| kind := "C"; body := begin_tag |}.
Definition ready_open : frame := {| kind := "Z"; body := of_string "T" |}.

Definition pg_inputs : list (input (D := Service)) :=
  [InFront query_frame sample_answers; InBack begin_frame sample_answers;
   InBack ready_open sample_answers; InFront query_frame sample_answers;
   InBack commit_frame sample_answers; InBack ready_idle sample_answers].

Definition pg_run : option (session (D := Service) (S := Snapshot) * bool) :=
  exchange "p1" pg_inputs (start_session pg_service).
Definition pg_final : session (D := Service) (S := Snapshot) :=
  default (start_session pg_service) (fst <$> pg_run).

Lemma pg_rely : rely_run "p1" pg_inputs (start_session (S := Snapshot) pg_service).
Proof. vm_compute. tauto. Qed.

Lemma exchange_transparent_witness :
  ∃ ins1 ins2, pg_inputs = ins1 ++ ins2 ∧ (true = false → ins2 = []) ∧
    x_upstream pg_final = fronts ins1 ∧
    (x_client pg_final = backs ins1 ∨ true = true ∧ x_client pg_final = backs ins1 ++ [rejection]).
Proof.
  apply (exchange_transparent "p1" pg_inputs pg_service pg_final true). vm_compute. reflexivity.
Defined.

Lemma exchange_brackets_witness :
  ∃ x stopped p, pg_run = Some (x, stopped) ∧ phase_run Outside (x_log x) = Some p ∧ (stopped = true → p = Outside).
Proof. apply (exchange_brackets "p1" pg_inputs pg_service); [apply pg_service_good|apply pg_rely]. Defined.

Lemma decisions_justified_witness :
  decisions (x_log pg_final) = 1 ∧ decisions (x_log pg_final) ≤ (confirmed (backs pg_inputs)).2.
Proof.
  split; [vm_compute; reflexivity|].
  apply (decisions_justified "p1" pg_inputs pg_service pg_final true); [apply pg_service_good|apply pg_rely|].
  vm_compute. reflexivity.
Defined.

Lemma commit_ack_withheld_witness :
  true = true ∧ ∃ ins1 o ins2, pg_inputs = ins1 ++ InBack commit_frame o :: ins2 ∧
    x_client pg_final = backs ins1 ∧ x_upstream pg_final = fronts ins1.
Proof.
  apply (commit_ack_withheld "p1" pg_inputs pg_service pg_final true
           (List.nth 4 (x_log pg_final) zero_event)).
  - apply pg_service_good.
  - apply pg_rely.
  - vm_compute. reflexivity.
  - apply (list_elem_of_lookup_2 _ 4). vm_compute. reflexivity.
  - vm_compute. reflexivity.
  - vm_compute. discriminate.
Defined.

Lemma cancel_scoped_witness :
  let b := be_bytes 4 cancelRequest ++ of_string "01234567" in
  Reg "p1" (drop 4 b) 3%nat ∈ [Reg "p1" (of_string "01234567") 3%nat; Unreg "p2" (of_string "01234567")].
Proof.
  apply (cancel_scoped [Reg "p1" (of_string "01234567") 3%nat; Unreg "p2" (of_string "01234567")] "p1"
           (be_bytes 4 cancelRequest ++ of_string "01234567") 3%nat).
  - by repeat constructor.
  - vm_compute. reflexivity.
Defined.
