(* ===== verification/PgServe.v ===== *)
(** * A whole PostgreSQL connection (proxy/postgresql/session.go: serve)

    The opening, the upstream connection, the authentication relay and the
    exchange, in the order serve composes them, with the registration of the
    cancel key and its deferred removal. *)

From Stdlib Require Import Ascii.
From S2P Require Import Prelude GoLib GoUtf8 GoRand Config Validate ValidateSpec Engine EngineSpec Control Recorder GoIO Adapter Samples PgWire PgSession PgSpec.
Local Open Scope go_scope.

Section serve.
Context {D S : Type} `{Decisions D S} (pid : string).

(** What the connection meets: the packets and handshakes of the opening, the
    answers of connectUpstream, the write of the startup packet, the random key,
    the frames of the authentication with the answers of its writes, and the
    inputs of the exchange. *)
Record peers := {
  pe_first : res error bytes;
  pe_answered : bool;
  pe_handshake : bool;
  pe_second : res error bytes;
  pe_slot : bool;
  pe_dialled : bool;
  pe_ssl_written : bool;
  pe_ssl_answer : res error bytes;
  pe_ssl_handshake : bool;
  pe_startup : bool;
  pe_key : bytes;
  pe_backend : list frame;
  pe_client : list frame;
  pe_writes : list bool;
  pe_inputs : list (input (D := D))
}.

(** How a connection ended, with the cancel registry as it was during the
    exchange. *)
Inductive ended :=
| Dropped
| Refused
| CancelSent (key : string)
| NoUpstream (startup : bytes)
| AuthFailed (startup : bytes) (a : relay)
| Exchanged (startup : bytes) (secure upstream_secure : bool) (a : relay) (live : gmap string unit)
    (x : session (D := D) (S := S)) (stopped : bool).

(** The registration authenticate made, if the backend sent its key. *)
Definition registered (a : relay) (cancels : gmap string unit) : gmap string unit :=
  match a_key a with Some (key, _) => register (session_key pid key) tt cancels | None => cancels end.
Definition unregistered (a : relay) (cancels : gmap string unit) : gmap string unit :=
  match a_key a with Some (key, _) => unregister (session_key pid key) cancels | None => cancels end.

(** serve: how it ended, and the cancel registry afterwards. *)
Definition serve (clientTLS upstreamTLS : bool) (k : peers) (cancels : gmap string unit) (d : D) :
    option (ended * gmap string unit) :=
  match serve_open pid clientTLS (pe_first k) (pe_answered k) (pe_handshake k) (pe_second k) (pe_slot k) with
  | Closed => Some (Dropped, cancels)
  | Rejected => Some (Refused, cancels)
  | Cancelling key => Some (CancelSent key, cancels)
  | Accepted b secure =>
      match connectUpstream upstreamTLS (pe_dialled k) (pe_ssl_written k) (pe_ssl_answer k) (pe_ssl_handshake k) with
      | None => Some (NoUpstream b, cancels)
      | Some up =>
          if negb (pe_startup k) then Some (NoUpstream b, cancels)
          else
            match authenticate (pe_key k) (pe_backend k) (pe_client k) (pe_writes k) with
            | (a, Some _) => Some (AuthFailed b a, unregistered a (registered a cancels))
            | (a, None) =>
                let live := registered a cancels in
                '(x, stopped) ← exchange pid (pe_inputs k) (start_session d);
                Some (Exchanged b secure up a live x stopped, unregistered a live)
            end
      end
  end.

(** cancelBackend: what it writes on a fresh connection to the upstream. *)
Definition cancelBackend (connected : option bool) (backend : bytes) : option bytes :=
  _ ← connected; Some (be_bytes 4 cancelRequest ++ backend).
End serve.

Section served.
Context {D S : Type} `{Decisions D S} (pid : string).

Lemma serve_packet_accepted clientTLS secure slot b b' s :
  serve_packet pid clientTLS secure slot b = Accepted b' s →
  b' = b ∧ s = secure ∧ (clientTLS = true → secure = true) ∧ slot = true ∧ validStartup b = true.
Proof.
  unfold serve_packet. destruct (_ && _); [done|]. destruct clientTLS, secure, slot; cbn; try done;
    destruct (validStartup b); try done; intros [= <- <-]; done.
Qed.

Lemma serve_open_accepted clientTLS first answered handshake second slot b secure :
  serve_open pid clientTLS first answered handshake second slot = Accepted b secure →
  secure = clientTLS ∧ slot = true ∧ validStartup b = true.
Proof.
  unfold serve_open. destruct first as [b1|]; [|done]. destruct (is_ssl_request b1).
  - destruct (negb answered); [done|]. destruct (_ && _); [done|]. destruct second as [b2|]; [|done].
    by intros (-> & -> & _ & ? & ?)%serve_packet_accepted.
  - intros (-> & -> & Htls & ? & ?)%serve_packet_accepted. destruct clientTLS; [by specialize (Htls eq_refl)|done].
Qed.

Lemma connectUpstream_secure upstreamTLS dialled written answer handshake up :
  connectUpstream upstreamTLS dialled written answer handshake = Some up → up = upstreamTLS.
Proof.
  unfold connectUpstream. destruct dialled; [|done]. destruct upstreamTLS; [|by intros [= <-]].
  destruct written; [|done]. destruct answer as [[|x [|]]|]; try done. cbn. destruct (negb _); [done|]. destruct handshake; [|done]. by intros [= <-].
Qed.

(** C7. A client and an upstream exchange frames only after a complete admission: both
    legs are encrypted exactly as configured, a slot is held, the startup packet is
    valid, and the SCRAM dialogue has run to its end; then what the client has
    received is the upstream's dialogue with the cancel key replaced, the ready
    frame, and the upstream's frames unchanged, up to one final rejection. The
    cancel key is gone when serve returns. *)
Theorem pg_session_admitted clientTLS upstreamTLS (k : peers (D := D)) cancels (d : D) b secure up a live
    (x : session (D := D) (S := S)) stopped cancels' :
  serve pid clientTLS upstreamTLS k cancels d = Some (Exchanged b secure up a live x stopped, cancels') →
  secure = clientTLS ∧ up = upstreamTLS ∧ pe_slot k = true ∧ validStartup b = true ∧
  (∃ up1 up2 f1 rest ins1 ins2, pe_backend k = up1 ++ ready_idle :: up2 ∧ auth_codes up1 = scram_codes ∧
     pe_client k = f1 :: rest ∧ scram_initial (body f1) = true ∧ pe_inputs k = ins1 ++ ins2 ∧
     (a_client a ++ x_client x = (masked (pe_key k) <$> up1) ++ ready_idle :: backs ins1 ∨
      stopped = true ∧ a_client a ++ x_client x = (masked (pe_key k) <$> up1) ++ ready_idle :: backs ins1 ++ [rejection])) ∧
  (∀ key backend, a_key a = Some (key, backend) → cancels' !! session_key pid key = None).
Proof.
  intros Hs. unfold serve in Hs.
  destruct (serve_open _ _ _ _ _ _ _) as [| |key|b' s'] eqn:Eo; try done. apply serve_open_accepted in Eo as (-> & Hslot & Hv).
  destruct (connectUpstream _ _ _ _ _) as [up'|] eqn:Ec; [|done]. apply connectUpstream_secure in Ec as ->.
  destruct (negb _); [done|]. destruct (authenticate _ _ _ _) as [a' [e|]] eqn:Ea; [done|]. cbv zeta in Hs.
  destruct (exchange _ _ _) as [[x' st]|] eqn:Ex; [|done]. cbn in Hs. injection Hs as <- <- <- <- <- <- <- <-.
  split_and!; try done.
  - pose proof (authenticate_loop_ok (pe_key k) (pe_backend k) (pe_client k) []
      (pe_client k) {| a_stage := 0; a_key := None; a_client := []; a_upstream := []; a_writes := pe_writes k |}) as Hauth.
    unfold authenticate in Ea. rewrite Ea in Hauth.
    specialize (Hauth ltac:(by split; cbn; repeat constructor)).
    destruct Hauth as (up1 & up2 & f1 & f2 & rest & Hup & Hcl & Hcodes & Hclient & _ & Hscram).
    destruct (exchange_frames pid _ _ _ _ Ex) as (ins1 & ins2 & Hins & _ & _ & Hx). cbn in Hx.
    exists up1, up2, f1, (f2 :: rest), ins1, ins2. split_and!; try done. cbn [app] in Hcl. rewrite Hcl.
    rewrite <- (assoc_L (++)). cbn [app]. destruct Hx as [->|[-> ->]]; auto.
  - intros key backend Hk. unfold unregistered. rewrite Hk. apply lookup_delete_eq.
Qed.
End served.

(** ** Witness: a plaintext session whose first commit loses its acknowledgement *)

Definition auth_frame (code : Z) (rest : bytes) : frame := {| kind := "R"; body := be_bytes 4 code ++ rest |}.
Definition backend_frames : list frame :=
  [auth_frame 10 (scram ++ of_string nul); auth_frame 11 (of_string "r"); auth_frame 12 (of_string "v"); auth_frame 0 [];
   {| kind := "K"; body := of_string "backend!" |}; ready_idle].
Definition scram_first : frame :=
  {| kind := "p"; body := scram ++ be_bytes 4 9 ++ of_string "n,,n=,r=a" |}.
Definition startup_packet : bytes := be_bytes 4 196608 ++ of_string ("user" +:+ nul +:+ "bob" +:+ nul +:+ nul).

Definition sample_peers : peers (D := Service) :=
  {| pe_first := Ok startup_packet; pe_answered := true; pe_handshake := true; pe_second := Err EOF; pe_slot := true;
     pe_dialled := true; pe_ssl_written := true; pe_ssl_answer := Err EOF; pe_ssl_handshake := true; pe_startup := true;
     pe_key := of_string "realkey!"; pe_backend := backend_frames;
     pe_client := [scram_first; {| kind := "p"; body := of_string "proof" |}]; pe_writes := []; pe_inputs := pg_inputs |}.

Definition sample_relay : relay :=
  (authenticate (pe_key sample_peers) (pe_backend sample_peers) (pe_client sample_peers) (pe_writes sample_peers)).1.

Lemma pg_session_admitted_witness :
  validStartup startup_packet = true ∧ (∅ : gmap string unit) !! session_key "p1" (of_string "realkey!") = None.
Proof.
  destruct (pg_session_admitted "p1" false false sample_peers ∅ pg_service startup_packet false false sample_relay
              (registered "p1" sample_relay ∅) pg_final true (unregistered "p1" sample_relay (registered "p1" sample_relay ∅)))
    as (_ & _ & _ & Hv & _ & Hk).
  - vm_compute. reflexivity.
  - split; [exact Hv|]. specialize (Hk (of_string "realkey!") (of_string "backend!")).
    assert (unregistered "p1" sample_relay (registered "p1" sample_relay ∅) = ∅) as E by (vm_compute; reflexivity).
    rewrite E in Hk. apply Hk. vm_compute. reflexivity.
Defined.
