(* ===== verification/MysqlWire.v ===== *)
(** * MySQL framing (internal/proxy/mysql/wire.go)

    Packets with a three-byte length and a sequence number, length-encoded
    integers, the status flags of OK and EOF packets, and the classification of
    transaction statements. *)

From Stdlib Require Import Ascii.
From S2P Require Import Prelude GoLib GoUtf8 GoIO.
Local Open Scope go_scope.

Definition maxPacket : Z := Z.shiftl 1 20.
Definition capSSL : Z := Z.shiftl 1 11.
Definition capProtocol41 : Z := Z.shiftl 1 9.
Definition capPluginAuth : Z := Z.shiftl 1 19.
Definition capDeprecateEOF : Z := Z.shiftl 1 24.
Definition forbiddenCaps : Z :=
  foldr Z.lor 0 (Z.shiftl 1 <$> [5; 7; 16; 17; 18; 25; 26; 27; 28; 29]).

Record packet := { seq : Z; body : bytes }.

#[export] Instance packet_eq_dec : EqDecision packet. Proof. solve_decision. Defined.

(** A byte of a slice as an integer; the callers check the length first. *)
Definition byte_at (b : bytes) (i : nat) : Z := byte.unsigned (List.nth i b Byte.x00).

Section read.
Context `{Reader R}.

Definition readPacket (r : R) : option (res error packet * R) :=
  '(h, r) ← ReadFull 4 r;
  match h with
  | Err e => Some (Err e, r)
  | Ok h =>
      let n := le_uint (take 3 h) in
      if (n =? 0) || (maxPacket <? n) then Some (Err errProtocol, r)
      else
        '(b, r) ← ReadFull (Z.to_nat n) r;
        match b with
        | Err e => Some (Err e, r)
        | Ok b => Some (Ok {| seq := byte_at h 3; body := b |}, r)
        end
  end.
End read.

Definition packet_bytes (p : packet) : bytes :=
  le_bytes 3 (Z.of_nat (length (body p))) ++ [byte.of_Z (seq p)] ++ body p.

Definition sendable (p : packet) : bool :=
  let n := Z.of_nat (length (body p)) in negb ((n =? 0) || (maxPacket <? n)).

Definition writePacket (w : writer_script) (p : packet) : option (bytes * option error) :=
  if negb (sendable p) then Some ([], Some errProtocol) else writeAll w (packet_bytes p).

Definition rejection (sq : Z) : packet :=
  {| seq := sq;
     body := (byte.of_Z <$> [0xff; 0x15; 0x04]) ++
             of_string "#HY000Faultline: unsupported or malformed MySQL protocol" |}.

(** ** Length-encoded integers and status flags *)

(** Value and width of a length-encoded integer. *)
Definition lenenc (b : bytes) : option (Z * nat) :=
  match b with
  | [] => None
  | b0 :: rest =>
      let x := byte.unsigned b0 in
      if (x =? 0xfb) || (x =? 0xff) then None
      else
        let n := if x =? 0xfc then 3%nat else if x =? 0xfd then 4%nat
                 else if x =? 0xfe then 9%nat else 1%nat in
        if bool_decide (n = 1)%nat then Some (x, 1%nat)
        else if bool_decide (length b < n)%nat then None
        else Some (le_uint (take (n - 1) rest), n)
  end.

Definition okStatus (b : bytes) : option Z :=
  if bool_decide (length b < 7)%nat || (negb (byte_at b 0 =? 0) && negb (byte_at b 0 =? 0xfe)) then None
  else
    '(_, n) ← lenenc (drop 1 b);
    '(_, m) ← lenenc (drop (1 + n) b);
    if bool_decide (length b < 1 + n + m + 4)%nat then None
    else Some (le_uint (take 2 (drop (1 + n + m) b))).

Definition eofStatus (b : bytes) (modern : bool) : option Z :=
  if bool_decide (b = []) || negb (byte_at b 0 =? 0xfe) then None
  else if modern then okStatus b
  else if negb (bool_decide (length b = 5)%nat) then None
  else Some (le_uint (take 2 (drop 3 b))).

(** ** Statements *)

Inductive statement := ordinary | begin_ | commit | rollback | unsupported.

#[export] Instance statement_eq_dec : EqDecision statement. Proof. solve_decision. Defined.

(** unicode.ToUpper as far as a comparison with ASCII text sees it: besides the
    ASCII letters only U+0131 and U+017F have an ASCII upper case, and no other
    rune changes to or from white space. *)
Definition upper_rune (r : Z) : Z :=
  if (97 <=? r) && (r <=? 122) then r - 32
  else if r =? 0x131 then 73 else if r =? 0x17F then 83 else r.

Fixpoint drop_spaces (l : list Z) : list Z :=
  match l with r :: l' => if IsSpace r then drop_spaces l' else l | [] => [] end.
Definition trim_spaces (l : list Z) : list Z := rev (drop_spaces (rev (drop_spaces l))).

(** strings.TrimSuffix(s, ";"). *)
Definition trim_semicolon (l : list Z) : list Z :=
  match rev l with r :: l' => if r =? 59 then rev l' else l | [] => [] end.

(** strings.Fields: [word] is the current word, reversed. *)
Fixpoint fields (word : list Z) (l : list Z) : list (list Z) :=
  match l with
  | [] => match word with [] => [] | _ => [rev word] end
  | r :: l' =>
      if IsSpace r then match word with [] => fields [] l' | _ => rev word :: fields [] l' end
      else fields (r :: word) l'
  end.

(** strings.Join with a space. *)
Fixpoint join (l : list (list Z)) : list Z :=
  match l with
  | [] => []
  | [w] => w
  | w :: l' => w ++ [32] ++ join l'
  end.

Definition text (s : string) : list Z := byte.unsigned <$> of_string s.

Definition normalized (sql : bytes) : list Z :=
  let s := upper_rune <$> trim_spaces (fst <$> runes sql) in
  let s := trim_spaces (trim_semicolon s) in
  join (fields [] s).

Definition classify (sql : bytes) : statement :=
  let s := normalized sql in
  if bool_decide (s ∈ text <$> ["BEGIN"; "BEGIN WORK"; "START TRANSACTION"]) then begin_
  else if bool_decide (s ∈ text <$> ["COMMIT"; "COMMIT WORK"]) then commit
  else if bool_decide (s ∈ text <$> ["ROLLBACK"; "ROLLBACK WORK"]) then rollback
  else if existsb (λ prefix, bool_decide (take (length (text prefix)) s = text prefix))
            ["CALL "; "XA "; "PREPARE "; "EXECUTE "; "LOAD DATA "] then unsupported
  else ordinary.

Example classify_commit : classify (of_string " commit  Work ; ") = commit.
Proof. vm_compute. reflexivity. Qed.
Example classify_chain : classify (of_string "COMMIT AND CHAIN") = ordinary.
Proof. vm_compute. reflexivity. Qed.
Example classify_comment : classify (of_string "/* COMMIT */ select 1") = ordinary.
Proof. vm_compute. reflexivity. Qed.

(** ** Packets on the stream *)

Lemma byte_at_range b i : 0 ≤ byte_at b i < 256.
Proof. apply byte.unsigned_range. Qed.

Lemma sendable_length p :
  sendable p = true ↔ 0 < Z.of_nat (length (body p)) ≤ maxPacket.
Proof. unfold sendable. cbv zeta. lia. Qed.

Lemma packet_header p rest :
  sendable p = true →
  take 4 (packet_bytes p ++ rest) = le_bytes 3 (Z.of_nat (length (body p))) ++ [byte.of_Z (seq p)] ∧
  drop 4 (packet_bytes p ++ rest) = body p ++ rest ∧
  le_uint (le_bytes 3 (Z.of_nat (length (body p)))) = Z.of_nat (length (body p)).
Proof.
  intros Hs%sendable_length. unfold packet_bytes. rewrite !app_assoc, <- (app_assoc _ (body p)).
  assert (length (le_bytes 3 (Z.of_nat (length (body p))) ++ [byte.of_Z (seq p)]) = 4%nat) as Hl
    by (rewrite length_app, length_le_bytes; done).
  split_and!.
  - by rewrite take_app_length'.
  - by rewrite drop_app_length'.
  - rewrite le_uint_bytes. apply wrap_small. unfold maxPacket in Hs.
    change (Z.shiftl 1 20) with 1048576 in Hs. change (Z.of_nat 3 * 8) with 24. lia.
Qed.

Lemma packet_decoded (s : bytes) p rest :
  s = packet_bytes p ++ rest → sendable p = true →
  le_uint (take 3 (take 4 s)) = Z.of_nat (length (body p)) ∧ drop 4 s = body p ++ rest ∧
  byte_at (take 4 s) 3 = byte.unsigned (byte.of_Z (seq p)).
Proof.
  intros -> Hp. destruct (packet_header p rest Hp) as (Ht & Hd & Hn). rewrite Ht, Hd.
  assert (length (le_bytes 3 (Z.of_nat (length (body p)))) = 3%nat) as Hl3 by apply length_le_bytes.
  rewrite take_app_length' by done. split_and!; [done|done|].
  unfold byte_at. by rewrite app_nth2, Hl3 by lia.
Qed.

Section wire.
Context `{Reader R}.

Lemma readPacket_spec (r : R) :
  ∃ x r', readPacket r = Some (x, r') ∧
    (∀ p, x = Ok p → stream r = packet_bytes p ++ stream r' ∧ sendable p = true ∧ 0 ≤ seq p < 256) ∧
    (∀ p rest, stream r = packet_bytes p ++ rest → sendable p = true → 0 ≤ seq p < 256 → x = Ok p).
Proof.
  unfold readPacket. destruct (ReadFull_spec 4 r) as (r1 & -> & Ht1 & Hs1).
  cbn [mbind option_bind]. unfold full_result.
  destruct (decide (4 ≤ length (stream r))%nat) as [H4|H4]; cycle 1.
  { rewrite bool_decide_false by done. eexists _, r1. split; [done|]. split; [done|].
    intros p rest Hs Hp _. exfalso. apply H4. rewrite Hs. unfold packet_bytes.
    rewrite !length_app, length_le_bytes. simpl. lia. }
  rewrite bool_decide_true by done. cbv zeta.
  set (n := le_uint (take 3 (take 4 (stream r)))).
  assert (∀ p rest, stream r = packet_bytes p ++ rest → sendable p = true →
            n = Z.of_nat (length (body p)) ∧ stream r1 = body p ++ rest ∧
            byte_at (take 4 (stream r)) 3 = byte.unsigned (byte.of_Z (seq p))) as Henc.
  { intros p rest Hs Hp. rewrite Hs1. by apply packet_decoded. }
  destruct ((n =? 0) || (maxPacket <? n)) eqn:Eg.
  { eexists _, r1. split; [done|]. split; [done|]. intros p rest Hs Hp _.
    destruct (Henc p rest Hs Hp) as [Hn _]. apply sendable_length in Hp. lia. }
  bool_hyps. destruct (ReadFull_spec (Z.to_nat n) r1) as (r2 & -> & Ht2 & Hs2).
  cbn [mbind option_bind]. unfold full_result. case_bool_decide as Hc; cycle 1.
  { eexists _, r2. split; [done|]. split; [done|]. intros p rest Hs Hp _. exfalso. apply Hc.
    destruct (Henc p rest Hs Hp) as (-> & -> & _). rewrite length_app. lia. }
  eexists _, r2. split; [done|].
  assert (length (take 3 (take 4 (stream r))) = 3%nat) as Hl3 by (rewrite !length_take; lia).
  pose proof (le_uint_range (take 3 (take 4 (stream r)))) as Hn. fold n in Hn.
  assert (length (take (Z.to_nat n) (stream r1)) = Z.to_nat n) as Hlb by (rewrite length_take; lia).
  split.
  - intros p [= <-]. split_and!.
    + unfold packet_bytes. cbn [seq body]. rewrite Hlb, Z2Nat.id by lia.
      unfold byte_at. rewrite byte.of_Z_unsigned.
      assert (le_bytes 3 n = take 3 (take 4 (stream r))) as ->.
      { pose proof (le_bytes_uint (take 3 (take 4 (stream r)))) as Hx. by rewrite Hl3 in Hx. }
      rewrite Hs2, <- !app_assoc, take_drop, Hs1, take_take.
      destruct (stream r) as [|a [|b [|c [|d s]]]]; simpl in H4; [lia..|done].
    + apply sendable_length. cbn [body]. rewrite Hlb. lia.
    + apply byte_at_range.
    + apply byte_at_range.
  - intros [sq b] rest Hs Hp Hq. cbn [seq body] in *.
    destruct (Henc _ rest Hs Hp) as (Hn' & Hs1' & Hq'). cbn [seq body] in *.
    rewrite Hq', byte.unsigned_of_Z. unfold byte.wrap. rewrite Z.mod_small by done.
    do 2 f_equal. rewrite Hn', Nat2Z.id, Hs1'. apply take_app_length.
Qed.
End wire.

(** Bodies are never empty, so the first byte the handlers switch on exists. *)
Lemma readPacket_nonempty `{Reader R} (r r' : R) p : readPacket r = Some (Ok p, r') → body p ≠ [].
Proof.
  intros H0. destruct (readPacket_spec r) as (x & r1 & Hr & Hp & _). rewrite H0 in Hr. simplify_eq.
  destruct (Hp p eq_refl) as (_ & Hs%sendable_length & _). intros E. rewrite E in Hs. simpl in Hs. lia.
Qed.

(** Packet decoding, however the connection splits its data: readPacket
    succeeds exactly on the encodings of packets of 1 byte to 1 MiB, returns the
    sequence number and body, and consumes exactly the packet's bytes. *)
Theorem readPacket_exact `{Reader R} (r : R) :
  ∃ x r', readPacket r = Some (x, r') ∧
    (∀ p, x = Ok p ↔ (∃ rest, stream r = packet_bytes p ++ rest) ∧ sendable p = true ∧ 0 ≤ seq p < 256) ∧
    (∀ p, x = Ok p → stream r = packet_bytes p ++ stream r').
Proof.
  destruct (readPacket_spec r) as (x & r' & Hr & H1 & H2). exists x, r'. split; [done|]. split.
  - intros p. split; [|intros [[rest Hs] [Hl Hq]]; by eapply H2].
    intros E. destruct (H1 p E) as (? & ? & ?). eauto.
  - intros p E. by apply H1.
Qed.

(** ** Length-encoded integers *)

(** The encoding of the protocol, shortest form. *)
Definition lenenc_bytes (n : Z) : bytes :=
  if n <? 0xfb then [byte.of_Z n]
  else if n <? 2 ^ 16 then byte.of_Z 0xfc :: le_bytes 2 n
  else if n <? 2 ^ 24 then byte.of_Z 0xfd :: le_bytes 3 n
  else byte.of_Z 0xfe :: le_bytes 8 n.

Lemma lenenc_wide (tag n : Z) (w : nat) rest :
  (tag, w) ∈ [(0xfc, 2%nat); (0xfd, 3%nat); (0xfe, 8%nat)] → 0 ≤ n < 2 ^ (Z.of_nat w * 8) →
  lenenc ((byte.of_Z tag :: le_bytes w n) ++ rest) = Some (n, S w).
Proof.
  intros Hin Hn. assert (length (le_bytes w n) = w) as Hl by apply length_le_bytes.
  cbn [app]. unfold lenenc.
  repeat (apply elem_of_cons in Hin as [[= -> ->]|Hin]); [..|by apply not_elem_of_nil in Hin].
  all: rewrite byte.unsigned_of_Z; match goal with |- context [byte.wrap ?t] => change (byte.wrap t) with t end.
  all: cbn [Z.eqb Pos.eqb orb]; rewrite bool_decide_false by done; cbn [length];
    rewrite length_app, Hl, bool_decide_false by lia; cbn [Nat.sub];
    rewrite take_app_length' by done; rewrite le_uint_bytes, wrap_small by done; done.
Qed.

Lemma lenenc_roundtrip n rest :
  0 ≤ n < 2 ^ 64 → lenenc (lenenc_bytes n ++ rest) = Some (n, length (lenenc_bytes n)).
Proof.
  intros Hn. unfold lenenc_bytes. destruct (Z.ltb_spec n 0xfb).
  { cbn. rewrite byte.unsigned_of_Z. unfold byte.wrap. rewrite Z.mod_small by lia.
    repeat match goal with |- context [n =? ?k] => rewrite (proj2 (Z.eqb_neq n k)) by lia end. done. }
  destruct (Z.ltb_spec n (2 ^ 16)); [|destruct (Z.ltb_spec n (2 ^ 24))];
    rewrite lenenc_wide; cbn [length]; rewrite ?length_le_bytes;
    try done; try (repeat constructor; done); simpl; lia.
Qed.

(** The OK packet: header, affected rows, insert id, status, warnings, info. *)
Definition ok_bytes (header rows id status warnings : Z) (info : bytes) : bytes :=
  byte.of_Z header :: lenenc_bytes rows ++ lenenc_bytes id ++ le_bytes 2 status ++ le_bytes 2 warnings ++ info.

Lemma lenenc_bytes_length n : (1 ≤ length (lenenc_bytes n))%nat.
Proof. unfold lenenc_bytes. repeat case_match; cbn [length]; lia. Qed.

(** The status of an OK packet is read from where the protocol puts it,
    whatever the widths of the two length-encoded fields before it. *)
Theorem okStatus_roundtrip (header rows id status warnings : Z) (info : bytes)
    (Hh : header = 0 ∨ header = 0xfe) (Hr : 0 ≤ rows < 2 ^ 64) (Hi : 0 ≤ id < 2 ^ 64)
    (Hs : 0 ≤ status < 2 ^ 16) :
  okStatus (ok_bytes header rows id status warnings info) = Some status.
Proof.
  pose proof (lenenc_bytes_length rows). pose proof (lenenc_bytes_length id).
  unfold okStatus, ok_bytes. set (tail := le_bytes 2 status ++ le_bytes 2 warnings ++ info).
  assert (length tail = 4 + length info)%nat as Ht
    by (subst tail; rewrite !length_app, !length_le_bytes; lia).
  rewrite bool_decide_false by (cbn [length]; rewrite !length_app; lia).
  assert (byte_at (byte.of_Z header :: lenenc_bytes rows ++ lenenc_bytes id ++ tail) 0 = header) as ->.
  { unfold byte_at. cbn [List.nth]. rewrite byte.unsigned_of_Z. by destruct Hh as [->| ->]. }
  replace (negb (header =? 0) && negb (header =? 254)) with false by (destruct Hh as [->| ->]; done).
  cbn [orb]. rewrite skipn_cons, drop_0, lenenc_roundtrip by done. cbn [mbind option_bind Nat.add].
  rewrite !skipn_cons, drop_app_length, lenenc_roundtrip by done. cbn [mbind option_bind].
  rewrite bool_decide_false by (cbn [length]; rewrite !length_app; lia).
  rewrite skipn_cons, app_assoc, <- length_app, drop_app_length. subst tail.
  rewrite take_app_length' by (by rewrite length_le_bytes). by rewrite le_uint_bytes, wrap_small.
Qed.

Lemma okStatus_roundtrip_witness :
  okStatus (ok_bytes 0 300 70000 2 0 (of_string "info")) = Some 2.
Proof. apply (okStatus_roundtrip 0 300 70000 2 0 (of_string "info")); lia. Defined.

(** White space and letter case are Unicode's: a no-break space after COMMIT, or
    a dotless i inside it, is still classified as a commit. *)
Lemma classify_unicode :
  classify (of_string "COMMIT" ++ (byte.of_Z <$> [0xc2; 0xa0])) = commit ∧
  classify (of_string "COMM" ++ (byte.of_Z <$> [0xc4; 0xb1]) ++ of_string "T") = commit.
Proof. split; vm_compute; reflexivity. Qed.
