(* ===== verification/MysqlSession.v ===== *)
(** * MySQL sessions (internal/proxy/mysql: auth.go, session.go)

    The greeting rewrite, the caching_sha2 relay and the command loop. Both are
    sequential: the packets the client and the upstream will send are lists, a
    receive past the end fails (closed connection or cancelled context), and the
    answers of the next writes are a list of booleans (a missing answer is a
    success). The fallible steps form a small state-and-error monad. *)

From Stdlib Require Import Ascii.
From S2P Require Import Prelude GoLib GoRand Config Engine Control Recorder GoIO MysqlWire Adapter.
Local Open Scope go_scope.

(** The first byte of a packet; readPacket never returns an empty body. *)
Definition tag (p : packet) : Z := byte_at (body p) 0.

(** ** The connection monad *)

(** What is still to be read from each side, what was written to each, the next
    write answers and the expected sequence number. *)
Record conn := {
  n_front : list packet;
  n_back : list packet;
  n_client : list packet;
  n_upstream : list packet;
  n_writes : list bool;
  n_seq : Z
}.

Definition M (A : Type) : Type := conn → conn * res error A.

Definition ret {A} (a : A) : M A := λ c, (c, Ok a).
Definition bind {A B} (m : M A) (k : A → M B) : M B := λ c,
  match m c with
  | (c, Ok a) => k a c
  | (c, Err e) => (c, Err e)
  end.
Definition fail {A} (e : error) : M A := λ c, (c, Err e).
Definition check (b : bool) (e : error) : M unit := if b then fail e else ret tt.

Declare Scope conn_scope.
Delimit Scope conn_scope with conn.
Notation "'let*' x ':=' m 'in' k" := (bind m (λ x, k))
  (at level 200, x binder, m at level 100, k at level 200, right associativity) : conn_scope.
Notation "m ;; k" := (bind m (λ _ : unit, k)) : conn_scope.
Local Open Scope conn_scope.

Definition set_conn_seq (n : Z) (c : conn) : conn :=
  {| n_front := n_front c; n_back := n_back c; n_client := n_client c; n_upstream := n_upstream c;
     n_writes := n_writes c; n_seq := n |}.

Definition answer (c : conn) : bool := default true (head (n_writes c)).

(** writePacket to either side: an unsendable packet or a failed write is an error. *)
Definition send_client (p : packet) : M unit := λ c,
  if negb (sendable p) then (c, Err errProtocol)
  else
    ({| n_front := n_front c; n_back := n_back c;
        n_client := if answer c then n_client c ++ [p] else n_client c;
        n_upstream := n_upstream c; n_writes := tail (n_writes c); n_seq := n_seq c |},
     if answer c then Ok tt else Err ErrClosedPipe).

Definition send_upstream (p : packet) : M unit := λ c,
  if negb (sendable p) then (c, Err errProtocol)
  else
    ({| n_front := n_front c; n_back := n_back c; n_client := n_client c;
        n_upstream := if answer c then n_upstream c ++ [p] else n_upstream c;
        n_writes := tail (n_writes c); n_seq := n_seq c |},
     if answer c then Ok tt else Err ErrClosedPipe).

(** A call whose error is discarded. *)
Definition ignore (m : M unit) : M unit := λ c, ((m c).1, Ok tt).

Definition reject (sq : Z) : M unit := ignore (send_client (rejection sq)).

Definition recv_front : M packet := λ c,
  match n_front c with
  | [] => (c, Err Canceled)
  | p :: rest =>
      ({| n_front := rest; n_back := n_back c; n_client := n_client c; n_upstream := n_upstream c;
          n_writes := n_writes c; n_seq := n_seq c |}, Ok p)
  end.

Definition recv_back : M packet := λ c,
  match n_back c with
  | [] => (c, Err Canceled)
  | p :: rest =>
      ({| n_front := n_front c; n_back := rest; n_client := n_client c; n_upstream := n_upstream c;
          n_writes := n_writes c; n_seq := n_seq c |}, Ok p)
  end.

(** The sequence check of cycle.read and of authenticate: the counter wraps at 256. *)
Definition in_sequence (p : packet) : M packet := λ c,
  if negb (seq p =? n_seq c) then (c, Err errProtocol)
  else (set_conn_seq (u8 (n_seq c + 1)) c, Ok p).

Definition read_back : M packet := let* p := recv_back in in_sequence p.
Definition read_front : M packet := let* p := recv_front in in_sequence p.

(** ** Authentication *)

Definition put (i : nat) (bs b : bytes) : bytes := take i b ++ bs ++ drop (i + length bs) b.

(** greeting: the capabilities offered to the client, and the greeting with the
    forbidden ones removed. *)
Definition greeting (b : bytes) (secure : bool) : option (Z * bytes) :=
  if bool_decide (length b < 1)%nat || negb (byte_at b 0 =? 10) then None
  else
    '(end_) ← bytes_IndexByte (drop 1 b) Byte.x00;
    let lo := (1 + end_ + 1 + 4 + 8 + 1)%nat in
    if bool_decide (length b < lo + 18)%nat then None
    else
      let flags := Z.lor (le_uint (take 2 (drop lo b)))
                         (Z.shiftl (le_uint (take 2 (drop (lo + 5) b))) 16) in
      if (Z.land flags capProtocol41 =? 0) || (Z.land flags capPluginAuth =? 0) ||
         negb (bytes_HasSuffix b (of_string "caching_sha2_password" ++ [Byte.x00])) then None
      else if secure && (Z.land flags capSSL =? 0) then None
      else
        let flags := Z.ldiff flags forbiddenCaps in
        let flags := if secure then flags else Z.ldiff flags capSSL in
        let b := put lo (le_bytes 2 (u16 flags)) b in
        let b := put (lo + 5) (le_bytes 2 (u16 (Z.shiftr flags 16))) b in
        Some (flags, b).

(** One round of the password exchange: [Some true] asks the client for an
    answer, [Some false] continues, [None] is a protocol error. *)
Definition auth_round (b : bytes) : option bool :=
  if byte_at b 0 =? 0xfe then
    if bytes_HasPrefix (drop 1 b) (of_string "caching_sha2_password" ++ [Byte.x00]) then Some true else None
  else if byte_at b 0 =? 1 then
    if bool_decide (length b = 2)%nat then
      if byte_at b 1 =? 3 then Some false else if byte_at b 1 =? 4 then Some true else None
    else if bytes_HasPrefix (drop 1 b) (of_string "-----BEGIN PUBLIC KEY-----") then Some true else None
  else None.

Fixpoint auth_rounds (rounds : nat) (flags : Z) : M Z :=
  match rounds with
  | O => fail errProtocol
  | S rounds' =>
      let* p := read_back in
      if tag p =? 0 then
        match okStatus (body p) with
        | None => fail errProtocol
        | Some _ => send_client p ;; ret flags
        end
      else if tag p =? 0xff then ignore (send_client p) ;; fail errProtocol
      else
        match auth_round (body p) with
        | None => fail errProtocol
        | Some needResponse =>
            send_client p ;;
            if needResponse then
              let* r := read_front in
              send_upstream r ;;
              auth_rounds rounds' flags
            else auth_rounds rounds' flags
        end
  end.

Definition u32_at (b : bytes) (i : nat) : Z := le_uint (take 4 (drop i b)).

(** The capabilities the client may ask for. *)
Definition flags_ok (flags offered : Z) : bool :=
  (Z.land flags forbiddenCaps =? 0) && negb (Z.land flags capProtocol41 =? 0) &&
  negb (Z.land flags capPluginAuth =? 0) && (Z.ldiff flags offered =? 0).

(** authenticate; [tls] is e.clientTLS != nil and [handshakes] whether both TLS
    handshakes succeed. The result is the session's capability flags. *)
Definition authenticate (tls handshakes : bool) : M Z :=
  let* hello := recv_back in
  check (negb (seq hello =? 0)) errProtocol ;;
  match greeting (body hello) tls with
  | None => fail errProtocol
  | Some (offered, b) =>
      send_client {| seq := seq hello; body := b |} ;;
      (λ c, (set_conn_seq 1 c, Ok tt)) ;;
      let* response := read_front in
      check (bool_decide (length (body response) < 32)%nat) errProtocol ;;
      let flags := u32_at (body response) 0 in
      check (negb (flags_ok flags offered)) errProtocol ;;
      let* response :=
        if tls then
          check ((Z.land flags capSSL =? 0) || negb (bool_decide (length (body response) = 32)%nat)) errProtocol ;;
          send_upstream response ;;
          check (negb handshakes) errProtocol ;;
          let* response := read_front in
          check (bool_decide (length (body response) ≤ 32)%nat || negb (u32_at (body response) 0 =? flags)) errProtocol ;;
          ret response
        else
          check (negb (Z.land flags capSSL =? 0)) errProtocol ;;
          ret response in
      send_upstream response ;;
      auth_rounds 12 flags
  end.

(** ** Response cycles *)

Fixpoint definitions_loop (n : nat) : M unit :=
  match n with
  | O => ret tt
  | S n' =>
      let* p := read_back in
      check (tag p =? 0xff) errProtocol ;;
      send_client p ;;
      definitions_loop n'
  end.

Definition definitions (n : Z) (modern : bool) : M unit :=
  check (4096 <? n) errProtocol ;;
  definitions_loop (Z.to_nat n) ;;
  if (0 <? n) && negb modern then
    let* p := read_back in
    match eofStatus (body p) false with
    | None => fail errProtocol
    | Some _ => send_client p
    end
  else ret tt.

(** The rows of a result: every turn reads a packet, so the packets the upstream
    still sends bound the turns. [None] is an ERR packet, forwarded. *)
Fixpoint result_rows (fuel : nat) (modern : bool) : M (option Z) :=
  match fuel with
  | O => fail Canceled
  | S fuel' =>
      let* p := read_back in
      if tag p =? 0xff then send_client p ;; ret None
      else
        match eofStatus (body p) modern with
        | Some flags =>
            check (negb (Z.land flags 8 =? 0)) errProtocol ;;
            send_client p ;;
            ret (Some flags)
        | None => send_client p ;; result_rows fuel' modern
        end
  end.

Definition result (first : packet) (modern : bool) : M (option Z) :=
  match lenenc (body first) with
  | None => fail errProtocol
  | Some (n, _) =>
      check ((n =? 0) || (4096 <? n)) errProtocol ;;
      send_client first ;;
      definitions n modern ;;
      (λ c, result_rows (S (length (n_back c))) modern c)
  end.

(** ** Commands *)

(** What exchange does with a command before it opens a cycle. *)
Inductive admission :=
| Quit
| Refuse
| Run (kind : statement).

Definition max_statements : nat := 128.

Definition admission_of (statements : gmap Z statement) (p : packet) : admission :=
  if negb (seq p =? 0) then Refuse
  else
    let command := tag p in
    if command =? 1 then Quit
    else if (command =? 3) || (command =? 0x16) then
      let kind := classify (drop 1 (body p)) in
      if bool_decide (kind = unsupported) then Refuse
      else if (command =? 0x16) && bool_decide (max_statements ≤ size statements)%nat then Refuse
      else Run kind
    else if command =? 0x17 then
      if bool_decide (length (body p) < 10)%nat || negb (byte_at (body p) 5 =? 0) ||
         negb (u32_at (body p) 6 =? 1) then Refuse
      else match statements !! u32_at (body p) 1 with
           | None => Refuse
           | Some kind => Run kind
           end
    else if (command =? 0x19) || (command =? 0x1a) then
      if negb (bool_decide (length (body p) = 5)%nat) then Refuse else Run ordinary
    else if (command =? 2) || (command =? 0x0e) || (command =? 0x1f) then Run ordinary
    else Refuse.

Definition u16_at (b : bytes) (i : nat) : Z := le_uint (take 2 (drop i b)).

(** The reply to COM_STMT_PREPARE: the new statement's id once all its
    definitions are forwarded. *)
Definition prepare_reply (statements : gmap Z statement) (first : packet) (modern : bool) : M Z :=
  check (negb (bool_decide (length (body first) = 12)%nat) || negb (tag first =? 0)) errProtocol ;;
  let id := u32_at (body first) 1 in
  check (bool_decide (is_Some (statements !! id))) errProtocol ;;
  send_client first ;;
  definitions (u16_at (body first) 7) modern ;;
  definitions (u16_at (body first) 5) modern ;;
  ret id.

Section exchange.
Context {D S : Type} `{Decisions D S} (pid : string) (modern : bool).

(** The variables of the loop, and of the current cycle. *)
Record session := {
  y_db : D;
  y_transaction : bool;
  y_statements : gmap Z statement;
  y_event : Event;
  y_outcome : string;
  y_conn : conn;
  y_log : list Event
}.

(** One cycle's answers: the service when the snapshot is taken and when the
    decision is made (other goroutines act in between), the random flow ID, the
    clock at both ends, and whether the fault's timer fired. *)
Record answers := {
  q_acquire : D;
  q_decide : D;
  q_id : string;
  q_start : Z;
  q_end : Z;
  q_fired : bool
}.

Definition start_session (d : D) (c : conn) : session :=
  {| y_db := d; y_transaction := false; y_statements := ∅; y_event := zero_event;
     y_outcome := "forwarded"; y_conn := c; y_log := [] |}.

Definition set_conn (c : conn) (y : session) : session :=
  {| y_db := y_db y; y_transaction := y_transaction y; y_statements := y_statements y;
     y_event := y_event y; y_outcome := y_outcome y; y_conn := c; y_log := y_log y |}.
Definition set_db (d : D) (y : session) : session :=
  {| y_db := d; y_transaction := y_transaction y; y_statements := y_statements y;
     y_event := y_event y; y_outcome := y_outcome y; y_conn := y_conn y; y_log := y_log y |}.
Definition set_tracking (transaction : bool) (st : gmap Z statement) (y : session) : session :=
  {| y_db := y_db y; y_transaction := transaction; y_statements := st;
     y_event := y_event y; y_outcome := y_outcome y; y_conn := y_conn y; y_log := y_log y |}.
Definition set_outcome (outcome : string) (y : session) : session :=
  {| y_db := y_db y; y_transaction := y_transaction y; y_statements := y_statements y;
     y_event := y_event y; y_outcome := outcome; y_conn := y_conn y; y_log := y_log y |}.
Definition emit (e : Event) (y : session) : session :=
  {| y_db := y_db y; y_transaction := y_transaction y; y_statements := y_statements y;
     y_event := e; y_outcome := y_outcome y; y_conn := y_conn y; y_log := y_log y ++ [e] |}.

Definition lift {A} (m : M A) (y : session) : session * res error A :=
  let '(c, r) := m (y_conn y) in (set_conn c y, r).

Definition err_of {A} (r : res error A) : option error :=
  match r with Ok _ => None | Err e => Some e end.

(** Server.commit: the decision on a confirmed COMMIT; true lets the
    acknowledgement through. *)
Definition commit_decision (snap : S) (q : answers) (y : session) : option (session * bool) :=
  '(d, (dec, _)) ← decide_at (q_decide q) snap pid no_metadata;
  let y := emit (decision_event dec true (y_event y)) (set_db d y) in
  if negb (dc_Selected dec) then Some (y, true)
  else
    let y := emit (applied_event (y_event y)) y in
    match commit_apply (dc_Fault dec) (q_fired q) with
    | None => None
    | Some pass => Some (y, pass)
    end.

(** The tracked transaction after an OK with [status]. *)
Definition track (kind : statement) (status : Z) (transaction : bool) : bool :=
  let idle := Z.land status 1 =? 0 in
  let t := if idle || bool_decide (kind = rollback) then false else transaction in
  if bool_decide (kind = begin_) then negb idle else t.

Definition ok_reply (command : Z) (kind : statement) (first : packet) (snap : S) (q : answers)
    (y : session) : option (session * option error) :=
  match okStatus (body first) with
  | None => Some (y, Some errProtocol)
  | Some status =>
      if negb (Z.land status 8 =? 0) then Some (y, Some errProtocol)
      else
        let confirmed := bool_decide (kind = commit) && y_transaction y && (Z.land status 1 =? 0) in
        let t := track kind status (y_transaction y) in
        let y := if command =? 0x1f then set_tracking false ∅ y
                 else set_tracking t (y_statements y) y in
        '(y, pass) ← (if confirmed then commit_decision snap q y else Some (y, true));
        if negb pass then Some (set_outcome "commit_ack_lost" y, Some errProtocol)
        else let '(y, r) := lift (send_client first) y in Some (y, err_of r)
  end.

(** After an error the loop returns and never reads the tracked transaction
    again, so the error cases of a result leave it cleared whatever flags its
    last packet had. *)
Definition reply (command : Z) (kind : statement) (first : packet) (snap : S) (q : answers)
    (y : session) : option (session * option error) :=
  if tag first =? 0xff then
    let y := set_outcome "upstream_error" (set_tracking false (y_statements y) y) in
    let '(y, r) := lift (send_client first) y in Some (y, err_of r)
  else if command =? 0x16 then
    let '(y, r) := lift (prepare_reply (y_statements y) first modern) y in
    match r with
    | Err e => Some (y, Some e)
    | Ok id => Some (set_tracking (y_transaction y) (<[id := kind]> (y_statements y)) y, None)
    end
  else if tag first =? 0xfb then Some (y, Some errProtocol)
  else if tag first =? 0 then ok_reply command kind first snap q y
  else
    let '(y, r) := lift (result first modern) y in
    match r with
    | Ok (Some status) =>
        Some (set_tracking (if Z.land status 1 =? 0 then false else y_transaction y)
                (y_statements y) y, None)
    | Ok None => Some (set_tracking false (y_statements y) y, None)
    | Err e => Some (set_tracking false (y_statements y) y, Some e)
    end.

(** The closure of a cycle: forward the command, then its reply. *)
Definition cycle_body (p : packet) (kind : statement) (snap : S) (q : answers) (y : session) :
    option (session * option error) :=
  match lift (send_upstream p) y with
  | (y, Err e) => Some (y, Some e)
  | (y, Ok _) =>
      if tag p =? 0x19 then
        Some (set_tracking (y_transaction y) (delete (u32_at (body p) 1) (y_statements y)) y, None)
      else
        match lift read_back (set_conn (set_conn_seq 1 (y_conn y)) y) with
        | (y, Err e) => Some (y, Some e)
        | (y, Ok first) => reply (tag p) kind first snap q y
        end
  end.

(** One command cycle: events around the closure. *)
Definition command (p : packet) (kind : statement) (q : answers) (y : session) :
    option (session * option error) :=
  let snap := acquire (q_acquire q) in
  let y := set_outcome "forwarded" (set_db (q_acquire q) y) in
  let y := emit (start_event (snap_info snap) (q_id q) pid "mysql" (q_start q)) y in
  '(y, err) ← cycle_body p kind snap q y;
  let outcome := match err with
                 | Some _ => if y_outcome y =s "forwarded" then "connection_closed" else y_outcome y
                 | None => y_outcome y
                 end in
  Some (emit (finish_event outcome (q_end q) (ev_NotReached (y_event y)) (y_event y)) y, err).

(** The loop; one [answers] per command received. The flag says whether it
    returned. *)
Fixpoint exchange (qs : list answers) (y : session) : option (session * bool) :=
  match qs with
  | [] => Some (y, false)
  | q :: qs' =>
      match lift recv_front y with
      | (y, Err _) => Some (y, true)
      | (y, Ok p) =>
          match admission_of (y_statements y) p with
          | Quit => Some (y, true)
          | Refuse => Some ((lift (reject 1) y).1, true)
          | Run kind =>
              '(y, err) ← command p kind q y;
              match err with
              | Some _ => Some (y, true)
              | None => exchange qs' y
              end
          end
      end
  end.
End exchange.
