(* ===== verification/MysqlSpec.v ===== *)
(** * Correctness of the MySQL adapter

    A pass-through invariant for the connection monad (what the client got, the
    packet in hand and what the upstream still sends are always the upstream's
    stream), then the command loop: no panic, bracketed events, bounded
    statements, and faults that withhold exactly the acknowledgement of a
    confirmed COMMIT. *)

From Stdlib Require Import Ascii.
From S2P Require Import Prelude GoLib GoRand Config Validate ValidateSpec Engine Control Recorder GoIO MysqlWire Adapter Samples MysqlSession.
Local Open Scope go_scope.
Local Open Scope conn_scope.

(** ** The pass-through invariant *)

(** The upstream's stream as seen from [c] with [hand] read but not forwarded. *)
Definition through (hand : list packet) (c : conn) : list packet := n_client c ++ hand ++ n_back c.

(** A computation that only relays the upstream to the client: on success it
    turns the hand [pre] into [post a]; on an error at most one packet is lost. *)
Definition relays {A} (pre : list packet) (m : M A) (post : A → list packet) : Prop :=
  ∀ c, n_front (m c).1 = n_front c ∧ n_upstream (m c).1 = n_upstream c ∧
    match (m c).2 with
    | Ok a => through (post a) (m c).1 = through pre c
    | Err _ => ∃ hand, (length hand ≤ 1)%nat ∧ through hand (m c).1 = through pre c
    end.

Lemma relays_ret {A} (a : A) hand : relays hand (ret a) (λ _, hand).
Proof. intros c. done. Qed.

Lemma relays_fail {A} e hand post : (length hand ≤ 1)%nat → relays hand (fail (A := A) e) post.
Proof. intros Hl c. cbn. split_and!; [done..|]. by exists hand. Qed.

Lemma relays_bind {A B} pre (m : M A) mid (k : A → M B) post :
  relays pre m mid → (∀ a, relays (mid a) (k a) post) → relays pre (bind m k) post.
Proof.
  intros Hm Hk c. unfold bind. specialize (Hm c). destruct (m c) as [c1 [a|e]]; [|done].
  destruct Hm as (Hf & Hu & Ht). destruct (Hk a c1) as (Hf' & Hu' & Ht'). cbn [fst snd] in *.
  rewrite Hf', Hu', Hf, Hu. split_and!; [done..|].
  destruct (k a c1) as [c2 [b|e]]; cbn [fst snd] in *; rewrite <- Ht; done.
Qed.

Lemma relays_check b e hand : (length hand ≤ 1)%nat → relays hand (check b e) (λ _, hand).
Proof. intros Hl. unfold check. destruct b; [by apply relays_fail|apply relays_ret]. Qed.

Lemma relays_send p : relays [p] (send_client p) (λ _, []).
Proof.
  intros c. unfold send_client. destruct (negb (sendable p)); cbn.
  { split_and!; [done..|]. exists [p]. cbn. split; [lia|done]. }
  destruct (answer c); cbn; split_and!; try done.
  - unfold through. cbn. by rewrite <- app_assoc.
  - exists [p]. split; [simpl; lia|done].
Qed.

Lemma relays_read : relays [] read_back (λ p, [p]).
Proof.
  intros c. unfold read_back, bind, recv_back, in_sequence. unfold through.
  destruct (n_back c) as [|p rest] eqn:Eb; cbn.
  { split_and!; [done..|]. exists []. cbn. rewrite Eb. split; [lia|done]. }
  destruct (negb (seq p =? n_seq c)); cbn; split_and!; try done.
  exists [p]. cbn. split; [lia|done].
Qed.

#[local] Hint Resolve relays_ret relays_fail relays_send relays_read relays_check : faultline.
#[local] Hint Extern 1 (length _ ≤ _)%nat => (simpl; lia) : faultline.

(** One bind, the rest by the hints. *)
Ltac relay_bind := eapply relays_bind; [solve [eauto with faultline]|intros ?].

Lemma relays_definitions_loop n : relays [] (definitions_loop n) (λ _, []).
Proof.
  induction n as [|n IH]; cbn [definitions_loop]; [apply relays_ret|].
  relay_bind. relay_bind. relay_bind. apply IH.
Qed.

Lemma relays_definitions n modern : relays [] (definitions n modern) (λ _, []).
Proof.
  unfold definitions. relay_bind. eapply relays_bind; [apply relays_definitions_loop|intros ?].
  destruct (_ && _); [|apply relays_ret]. relay_bind. destruct (eofStatus _ _); eauto with faultline.
Qed.

Lemma relays_result_rows fuel modern : relays [] (result_rows fuel modern) (λ _, []).
Proof.
  induction fuel as [|fuel IH]; cbn [result_rows]; [apply relays_fail; simpl; lia|].
  relay_bind. destruct (tag a =? 0xff); [relay_bind; apply relays_ret|].
  destruct (eofStatus _ _).
  - relay_bind. relay_bind. apply relays_ret.
  - relay_bind. apply IH.
Qed.

Lemma relays_result first modern : relays [first] (result first modern) (λ _, []).
Proof.
  unfold result. destruct (lenenc _) as [[n w]|]; [|apply relays_fail; simpl; lia].
  relay_bind. relay_bind. eapply relays_bind; [apply relays_definitions|intros ?].
  intros c. apply relays_result_rows.
Qed.

Lemma relays_prepare statements first modern :
  relays [first] (prepare_reply statements first modern) (λ _, []).
Proof.
  unfold prepare_reply. relay_bind. cbv zeta. relay_bind. relay_bind.
  do 2 (eapply relays_bind; [apply relays_definitions|intros ?]). apply relays_ret.
Qed.

(** ** Cycles *)

Section cycles.
Context {D S : Type} `{Decisions D S} (pid : string) (modern : bool).
Context `{!DecisionsOk D S pid commit_fault}.

Implicit Types y : session (D := D).

Definition only_delays (log : list Event) : Prop :=
  Forall (λ e, ev_Type e = "fault_applied" → ev_Action e = "delay") log.

(** Inside a cycle: the log is at the cycle's start, after an unselected
    decision, or after an applied fault. *)
Inductive in_cycle y : Prop :=
| cycle_started :
    phase_run Outside (y_log y) = Some (Started (ev_FlowID (y_event y))) →
    ev_Selected (y_event y) = false → ev_Applied (y_event y) = false → in_cycle y
| cycle_decided :
    phase_run Outside (y_log y) = Some (Decided (ev_FlowID (y_event y)) false) →
    ev_Applied (y_event y) = false → in_cycle y
| cycle_applied :
    phase_run Outside (y_log y) = Some (Applied_ (ev_FlowID (y_event y))) →
    ev_Applied (y_event y) = true → in_cycle y.

(** The connection between two points of a cycle; [first] is in hand at the
    start. On success it was forwarded, on an error at most one packet is lost. *)
Definition relayed (hand : list packet) (c c' : conn) (err : option error) : Prop :=
  n_front c' = n_front c ∧ n_upstream c' = n_upstream c ∧
  match err with
  | None => through [] c' = through hand c
  | Some _ => ∃ lost, (length lost ≤ 1)%nat ∧ through lost c' = through hand c
  end.

Lemma lift_relayed {A} hand (m : M A) y :
  relays hand m (λ _, []) →
  relayed hand (y_conn y) (y_conn (lift m y).1) (err_of (lift m y).2).
Proof.
  intros Hm. specialize (Hm (y_conn y)). unfold lift, relayed. destruct (m (y_conn y)) as [c [a|e]]; done.
Qed.

(** lift changes nothing but the connection. *)
Lemma lift_fields {A} (m : M A) y :
  y_db (lift m y).1 = y_db y ∧ y_log (lift m y).1 = y_log y ∧ y_event (lift m y).1 = y_event y ∧
  y_statements (lift m y).1 = y_statements y ∧ y_transaction (lift m y).1 = y_transaction y ∧
  y_outcome (lift m y).1 = y_outcome y.
Proof. unfold lift. by destruct (m (y_conn y)). Qed.

(** What a confirmed commit leaves behind: one more decision in a bracketed
    log, and if the acknowledgement passes, only delays were applied. *)
Lemma commit_decision_ok snap q y :
  good (q_decide q) → held (q_decide q) snap → only_delays (y_log y) →
  phase_run Outside (y_log y) = Some (Started (ev_FlowID (y_event y))) →
  ev_Selected (y_event y) = false → ev_Applied (y_event y) = false →
  ∃ y' pass, commit_decision pid snap q y = Some (y', pass) ∧ in_cycle y' ∧
    good (y_db y') ∧ y_conn y' = y_conn y ∧ y_statements y' = y_statements y ∧
    (pass = true → only_delays (y_log y')).
Proof.
  intros Hg Hh Hd Hp Hs Ha.
  destruct (decide_ok (q_decide q) snap no_metadata Hg Hh) as (d & dec & err & Hde & Hg' & _ & Hf).
  unfold commit_decision. rewrite Hde. cbn [mbind option_bind]. cbv zeta.
  destruct (dc_Selected dec) eqn:Esel; cbn [negb].
  - rewrite (commit_apply_ok _ _ (Hf eq_refl)). eexists _, _. split; [done|]. split_and!; try done; cbn.
    + apply cycle_applied; cbn; [|done]. rewrite !phase_run_snoc, Hp. cbn.
      rewrite !str_eq_refl, Esel. cbn. by rewrite str_eq_refl.
    + intros Hpass. bool_hyps. rewrite <- app_assoc. apply Forall_app. split; [done|].
      repeat constructor; [done|]. by intros _.
  - eexists _, true. split; [done|]. split_and!; try done; cbn.
    + apply cycle_decided; cbn; [|done]. rewrite phase_run_snoc, Hp. cbn. by rewrite str_eq_refl, Esel.
    + intros _. apply Forall_app. split; [done|]. by repeat constructor.
Qed.

(** What a reply leaves behind. Either all applied faults were delays, or the
    cycle failed holding back [first], the OK of a tracked COMMIT. *)
Definition withheld (kind : statement) (first : packet) (transaction : bool) (c c' : conn)
    (err : option error) : Prop :=
  is_Some err ∧ kind = commit ∧ transaction = true ∧ c' = c ∧
  ∃ status, okStatus (body first) = Some status ∧ Z.land status 1 = 0.

Record reply_ok (kind : statement) (first : packet) y y' (err : option error) : Prop := {
  ro_cycle : in_cycle y';
  ro_good : good (y_db y');
  ro_size : (size (y_statements y') ≤ max_statements)%nat;
  ro_conn : relayed [first] (y_conn y) (y_conn y') err;
  ro_faults : only_delays (y_log y') ∨
              withheld kind first (y_transaction y) (y_conn y) (y_conn y') err
}.

(** The state before a reply. *)
Record before_reply (command : Z) (snap : S) (q : answers (D := D)) y : Prop := {
  br_phase : phase_run Outside (y_log y) = Some (Started (ev_FlowID (y_event y)));
  br_selected : ev_Selected (y_event y) = false;
  br_applied : ev_Applied (y_event y) = false;
  br_good : good (y_db y);
  br_decide : good (q_decide q) ∧ held (q_decide q) snap;
  br_delays : only_delays (y_log y);
  br_size : (size (y_statements y) ≤ max_statements)%nat;
  br_room : command = 0x16 → (size (y_statements y) < max_statements)%nat
}.

(** A step that only relays keeps everything. *)
Lemma relay_reply {A} command snap q kind first (m : M A) y t out :
  before_reply command snap q y → relays [first] m (λ _, []) →
  reply_ok kind first y
    (lift m (set_outcome out (set_tracking t (y_statements y) y))).1
    (err_of (lift m (set_outcome out (set_tracking t (y_statements y) y))).2).
Proof.
  intros [] Hm. set (y1 := set_outcome _ _).
  destruct (lift_fields m y1) as (Hdb & Hlog & Hev & Hst & _).
  split.
  - apply cycle_started; rewrite ?Hlog, ?Hev; done.
  - by rewrite Hdb.
  - by rewrite Hst.
  - by apply (lift_relayed [first] m y1).
  - left. by rewrite Hlog.
Qed.

Lemma fail_reply command snap q kind first y e :
  before_reply command snap q y → reply_ok kind first y y (Some e).
Proof.
  intros []. split; [by apply cycle_started|done|done| |by left].
  split_and!; [done..|]. by exists [first].
Qed.

Lemma reply_ok_tracking kind first y y' err t st :
  reply_ok kind first y y' err → (size st ≤ max_statements)%nat →
  reply_ok kind first y (set_tracking t st y') err.
Proof.
  intros [Hc Hg Hs Hr Hf] Hst. split; try done. by destruct Hc; [apply cycle_started|apply cycle_decided|apply cycle_applied].
Qed.

Lemma set_tracking_outcome t y : set_tracking t (y_statements y) y =
  set_outcome (y_outcome y) (set_tracking t (y_statements y) y).
Proof. done. Qed.

(** Forwarding the packet in hand from a later point of the cycle. *)
Lemma forward_reply kind first y y1 :
  in_cycle y1 → good (y_db y1) → (size (y_statements y1) ≤ max_statements)%nat →
  only_delays (y_log y1) → y_conn y1 = y_conn y →
  reply_ok kind first y (lift (send_client first) y1).1 (err_of (lift (send_client first) y1).2).
Proof.
  intros Hc Hg Hs Hd Hcn. destruct (lift_fields (send_client first) y1) as (Hdb & Hlog & Hev & Hst & _).
  split.
  - destruct Hc; [apply cycle_started|apply cycle_decided|apply cycle_applied]; rewrite ?Hlog, ?Hev; done.
  - by rewrite Hdb.
  - by rewrite Hst.
  - rewrite <- Hcn. apply lift_relayed, relays_send.
  - left. by rewrite Hlog.
Qed.

Lemma ok_reply_ok command kind first snap q y :
  before_reply command snap q y →
  ∃ y' err, ok_reply pid command kind first snap q y = Some (y', err) ∧ reply_ok kind first y y' err.
Proof.
  intros Hb. pose proof Hb as [Hph Hsel Happ Hg [Hgq Hhq] Hdel Hsz Hroom]. unfold ok_reply.
  destruct (okStatus (body first)) as [status|] eqn:Eok.
  2: { eexists _, _. split; [done|]. by eapply fail_reply. }
  destruct (negb _); [eexists _, _; split; [done|]; by eapply fail_reply|]. cbv zeta.
  set (y1 := if command =? 0x1f then _ else _).
  assert (in_cycle y1 ∧ good (y_db y1) ∧ (size (y_statements y1) ≤ max_statements)%nat ∧
          only_delays (y_log y1) ∧ y_conn y1 = y_conn y ∧ y_log y1 = y_log y ∧ y_event y1 = y_event y)
    as (Hc1 & Hg1 & Hs1 & Hd1 & Hn1 & Hl1 & He1).
  { subst y1. destruct (command =? 0x1f); split_and!; try done; try (by apply cycle_started).
    cbn. rewrite map_size_empty. lia. }
  destruct (bool_decide (kind = commit) && y_transaction y && (Z.land status 1 =? 0)) eqn:Econf; cycle 1.
  { cbn [mbind option_bind negb].
    pose proof (forward_reply kind first y y1 Hc1 Hg1 Hs1 Hd1 Hn1) as Hfw.
    destruct (lift (send_client first) y1) as [y2 r]. eexists _, _. split; [done|]. exact Hfw. }
  bool_hyps.
  destruct (commit_decision_ok snap q y1) as (y2 & pass & Hcd & Hc2 & Hg2 & Hn2 & Hs2 & Hd2);
    rewrite ?Hl1, ?He1; try done.
  rewrite Hcd. cbn [mbind option_bind]. destruct pass; cbn [negb].
  - pose proof (forward_reply kind first y y2 Hc2 Hg2) as Hfw.
    rewrite Hs2, Hn2 in Hfw. specialize (Hfw Hs1 (Hd2 eq_refl) Hn1).
    destruct (lift (send_client first) y2) as [y3 r]. eexists _, _. split; [done|]. exact Hfw.
  - eexists _, _. split; [done|]. split; cbn.
    + by destruct Hc2; [apply cycle_started|apply cycle_decided|apply cycle_applied].
    + done.
    + by rewrite Hs2.
    + rewrite Hn2, Hn1. split_and!; [done..|]. by exists [first].
    + right. rewrite Hn2, Hn1. split_and!; try done. eauto.
Qed.

Lemma reply_spec command kind first snap q y :
  before_reply command snap q y →
  ∃ y' err, reply pid modern command kind first snap q y = Some (y', err) ∧ reply_ok kind first y y' err.
Proof.
  intros Hb. unfold reply. destruct (tag first =? 0xff).
  { cbv zeta. pose proof (relay_reply command snap q kind first (send_client first) y false "upstream_error"
                            Hb (relays_send first)) as Hr.
    destruct (lift (send_client first) _) as [y' r]. eexists _, _. split; [done|]. exact Hr. }
  pose proof (λ A (m : M A), relay_reply command snap q kind first m y (y_transaction y) (y_outcome y) Hb) as Hr.
  assert (set_outcome (y_outcome y) (set_tracking (y_transaction y) (y_statements y) y) = y) as Hy by by destruct y.
  rewrite Hy in Hr. destruct Hb as [Hph Hsel Happ Hg Hq Hdel Hsz Hroom].
  destruct (Z.eqb_spec command 0x16) as [Hcmd|].
  { specialize (Hr _ _ (relays_prepare (y_statements y) first modern)).
    pose proof (lift_fields (prepare_reply (y_statements y) first modern) y) as (_ & _ & _ & Hst & _).
    destruct (lift (prepare_reply _ _ _) y) as [y1 [id|e]]; cbn [fst snd err_of] in *;
      eexists _, _; (split; [done|]); [|exact Hr].
    apply reply_ok_tracking; [exact Hr|]. rewrite Hst. specialize (Hroom Hcmd).
    destruct (y_statements y !! id) eqn:El.
    - rewrite map_size_insert_Some by eauto. lia.
    - rewrite map_size_insert_None by done. lia. }
  destruct (tag first =? 0xfb); [eexists _, _; split; [done|]; eapply (fail_reply command); by split|].
  destruct (tag first =? 0); [apply ok_reply_ok; by split|].
  specialize (Hr _ _ (relays_result first modern)).
  pose proof (lift_fields (result first modern) y) as (_ & _ & _ & Hst & _).
  destruct (lift (result first modern) y) as [y1 [[status|]|e]]; cbn [fst snd err_of] in *;
    eexists _, _; (split; [done|]); apply reply_ok_tracking; (exact Hr || by rewrite Hst).
Qed.

(** Between two commands. *)
Record idle y : Prop := {
  id_phase : phase_run Outside (y_log y) = Some Outside;
  id_good : good (y_db y);
  id_size : (size (y_statements y) ≤ max_statements)%nat
}.

(** The connection after the command [p] was taken from the front. *)
Definition commanded (p : packet) (c c' : conn) (err : option error) : Prop :=
  n_front c' = n_front c ∧
  match err with
  | None => n_upstream c' = n_upstream c ++ [p] ∧ through [] c' = through [] c
  | Some _ => (n_upstream c' = n_upstream c ∨ n_upstream c' = n_upstream c ++ [p]) ∧
              ∃ lost, (length lost ≤ 1)%nat ∧ through lost c' = through [] c
  end.

(** The acknowledgement of the COMMIT [p] was read and not forwarded. *)
Definition ack_lost (p : packet) (kind : statement) (c c' : conn) : Prop :=
  kind = commit ∧ n_upstream c' = n_upstream c ++ [p] ∧
  ∃ ack status, okStatus (body ack) = Some status ∧ Z.land status 1 = 0 ∧
    through [ack] c' = through [] c.

Lemma send_upstream_spec p c :
  n_front (send_upstream p c).1 = n_front c ∧ n_client (send_upstream p c).1 = n_client c ∧
  n_back (send_upstream p c).1 = n_back c ∧
  match (send_upstream p c).2 with
  | Ok _ => n_upstream (send_upstream p c).1 = n_upstream c ++ [p]
  | Err _ => n_upstream (send_upstream p c).1 = n_upstream c
  end.
Proof. unfold send_upstream. destruct (negb _); [done|]. cbn. by destruct (answer c). Qed.

Lemma relayed_commanded p c c0 c1 c' first err :
  n_front c0 = n_front c → through [] c0 = through [] c → n_upstream c0 = n_upstream c ++ [p] →
  n_front c1 = n_front c0 → n_upstream c1 = n_upstream c0 → through [first] c1 = through [] c0 →
  relayed [first] c1 c' err → commanded p c c' err.
Proof.
  intros Hf Ht Hu Hf1 Hu1 Ht1 (Hf' & Hu' & Hr). split; [congruence|].
  destruct err; [destruct Hr as (lost & Hl & Hr); split; [right; congruence|exists lost]; split; [done|]|split];
    congruence.
Qed.

Lemma cycle_body_ok p kind snap q y :
  before_reply (tag p) snap q y →
  ∃ y' err, cycle_body pid modern p kind snap q y = Some (y', err) ∧ in_cycle y' ∧ good (y_db y') ∧
    (size (y_statements y') ≤ max_statements)%nat ∧ commanded p (y_conn y) (y_conn y') err ∧
    (only_delays (y_log y') ∨ is_Some err ∧ y_transaction y = true ∧ ack_lost p kind (y_conn y) (y_conn y')).
Proof.
  intros Hb. pose proof Hb as [Hph Hsel Happ Hg Hq Hdel Hsz Hroom]. unfold cycle_body.
  pose proof (send_upstream_spec p (y_conn y)) as (Hf & Hc & Hbk & Hu).
  destruct (lift_fields (send_upstream p) y) as (Hdb & Hlog & Hev & Hst & Htr & _).
  unfold lift at 1. unfold lift in Hdb, Hlog, Hev, Hst, Htr.
  destruct (send_upstream p (y_conn y)) as [c0 [u|e]]; cbn [fst snd] in *; cycle 1.
  { eexists _, _. split; [done|]. split_and!; try done; try (by apply cycle_started); [|by left].
    split; [done|]. split; [by left|]. exists []. split; [simpl; lia|]. unfold through. cbn. by rewrite Hc, Hbk. }
  destruct (tag p =? 0x19).
  { eexists _, _. split; [done|]. cbn. split_and!; try done; try (by apply cycle_started).
    - rewrite map_size_delete. case_match; [|done]. etrans; [apply Nat.le_pred_l|done].
    - split; [done|]. split; [done|]. unfold through. by rewrite Hc, Hbk.
    - by left. }
  set (y1 := set_conn (set_conn_seq 1 _) _).
  pose proof (relays_read (y_conn y1)) as (Hf1 & Hu1 & Hr1).
  unfold lift at 1. destruct (read_back (y_conn y1)) as [c1 [first|e]] eqn:Erd; cbn [fst snd] in Hf1, Hu1, Hr1.
  - destruct (reply_spec (tag p) kind first snap q (set_conn c1 y1)) as (y' & err & Hrep & [Hc' Hg' Hs' Hn' Hfa]);
      [by split|].
    exists y', err. split; [done|]. split_and!; try done.
    + eapply (relayed_commanded p (y_conn y) (y_conn y1) c1); try done.
      unfold through. cbn. by rewrite Hc, Hbk.
    + destruct Hfa as [?|(He & Hk & Ht & Hcn & status & Hok & Hbit)]; [by left|right].
      split; [done|]. split; [done|]. split; [done|]. rewrite Hcn. cbn [y_conn set_conn]. split.
      * rewrite Hu1. cbn. done.
      * exists first, status. split_and!; [done..|]. rewrite Hr1. unfold through. cbn. by rewrite Hc, Hbk.
  - eexists _, _. split; [done|]. split_and!; try done; try (by apply cycle_started); [|by left].
    split; [by rewrite <- Hf|]. split; [right; by rewrite <- Hu|].
    destruct Hr1 as (lost & Hl & Ht). exists lost. split; [done|]. cbn. rewrite Ht.
    unfold through. cbn. by rewrite Hc, Hbk.
Qed.

Lemma admission_room statements p kind :
  admission_of statements p = Run kind → tag p = 0x16 → (size statements < max_statements)%nat.
Proof.
  unfold admission_of. intros Ha Ht. rewrite Ht in Ha. destruct (negb _); [done|]. cbn in Ha.
  destruct (bool_decide (classify _ = _)); [done|].
  destruct (bool_decide (max_statements ≤ size statements)%nat) eqn:E; [done|]. bool_hyps. lia.
Qed.

Lemma finish_cycle outcome now nr y :
  in_cycle y →
  phase_run Outside (y_log (emit (finish_event outcome now nr (y_event y)) y)) = Some Outside.
Proof.
  intros Hc. cbn. rewrite phase_run_snoc. destruct Hc as [-> Hs Ha| -> Ha| -> Ha]; cbn;
    by rewrite str_eq_refl, Ha, ?Hs.
Qed.

Lemma command_ok p kind q y :
  idle y → only_delays (y_log y) → good (q_acquire q) → rely (q_acquire q) (q_decide q) →
  admission_of (y_statements y) p = Run kind →
  ∃ y' err, command pid modern p kind q y = Some (y', err) ∧ idle y' ∧
    commanded p (y_conn y) (y_conn y') err ∧
    (only_delays (y_log y') ∨ is_Some err ∧ y_transaction y = true ∧ ack_lost p kind (y_conn y) (y_conn y')).
Proof.
  intros [Hph Hg Hsz] Hdel Hga Hrel Hadm. unfold command. cbv zeta. set (y0 := emit _ _).
  destruct (cycle_body_ok p kind (acquire (q_acquire q)) q y0) as (y1 & err & Hcb & Hcyc & Hg1 & Hs1 & Hc1 & Hf1).
  { split; try done.
    - cbn. rewrite phase_run_snoc, Hph. done.
    - split; [by eapply rely_good|]. by eapply rely_held, acquire_held.
    - cbn. apply Forall_app. split; [done|]. by repeat constructor.
    - cbn. by apply admission_room with kind. }
  rewrite Hcb. cbn [mbind option_bind]. eexists _, _. split; [done|]. split_and!.
  - split; [by apply finish_cycle|done|done].
  - exact Hc1.
  - destruct Hf1 as [Hd1|Hf1]; [left|by right]. cbn. apply Forall_app. split; [done|]. by repeat constructor.
Qed.

(** What other goroutines do to the service between a session's accesses. *)
Fixpoint rely_run (qs : list (answers (D := D))) y : Prop :=
  match qs with
  | [] => True
  | q :: qs' =>
      rely (y_db y) (q_acquire q) ∧ rely (q_acquire q) (q_decide q) ∧
      match lift recv_front y with
      | (y1, Ok p) =>
          match admission_of (y_statements y1) p with
          | Run kind => match command pid modern p kind q y1 with
                        | Some (y2, None) => rely_run qs' y2
                        | _ => True
                        end
          | _ => True
          end
      | _ => True
      end
  end.

(** What a run leaves on the two connections. *)
Record run_ok y y' (stopped : bool) : Prop := {
  ru_idle : idle y';
  ru_upstream : n_upstream (y_conn y') `prefix_of` n_upstream (y_conn y) ++ n_front (y_conn y);
  ru_client : ∃ d, (n_client (y_conn y') = d ∨ stopped = true ∧ n_client (y_conn y') = d ++ [rejection 1]) ∧
                   d `prefix_of` through [] (y_conn y);
  ru_faults : only_delays (y_log y') ∨
              stopped = true ∧ ∃ p ack status st sent,
                admission_of st p = Run commit ∧ n_upstream (y_conn y') = sent ++ [p] ∧
                okStatus (body ack) = Some status ∧ Z.land status 1 = 0 ∧
                through [ack] (y_conn y') = through [] (y_conn y)
}.

Lemma mysql_exchange_ok qs y :
  idle y → only_delays (y_log y) → rely_run qs y →
  ∃ y' stopped, exchange pid modern qs y = Some (y', stopped) ∧ run_ok y y' stopped.
Proof.
  revert y. induction qs as [|q qs IH]; intros y Hi Hd Hr.
  { eexists _, _. split; [done|]. split; [done|by apply prefix_app_r|exists (n_client (y_conn y))|by left].
    split; [by left|]. unfold through. by apply prefix_app_r. }
  destruct Hr as (Hr1 & Hr2 & Hr3). cbn [exchange]. unfold lift, recv_front in Hr3 |- *.
  destruct (n_front (y_conn y)) as [|p front] eqn:Ef; cbv beta iota in Hr3 |- *.
  { eexists _, _. split; [done|]. split; [by destruct Hi; split| | |by left]; cbn.
    - rewrite Ef. by apply prefix_app_r.
    - exists (n_client (y_conn y)). split; [by left|]. unfold through. by apply prefix_app_r. }
  set (c1 := {| n_front := front; n_back := _ |}) in *. cbn [y_statements set_conn] in Hr3 |- *.
  assert (idle (set_conn c1 y)) as Hi1 by (destruct Hi; by split).
  assert (through [] c1 = through [] (y_conn y)) as Ht1 by done.
  destruct (admission_of (y_statements y) p) as [| |kind] eqn:Ea.
  - eexists _, _. split; [done|]. split; [done| | |by left]; cbn.
    + by apply prefix_app_r.
    + exists (n_client (y_conn y)). split; [by left|]. unfold through. by apply prefix_app_r.
  - eexists _, _. split; [done|]. unfold reject, ignore, send_client. cbn.
    destruct (answer c1) eqn:Eans; cbn; (split; [by destruct Hi; split| | |by left]); cbn; try by apply prefix_app_r.
    + exists (n_client (y_conn y)). split; [by right|]. unfold through. by apply prefix_app_r.
    + exists (n_client (y_conn y)). split; [by left|]. unfold through. by apply prefix_app_r.
  - destruct (command_ok p kind q (set_conn c1 y)) as (y2 & err & Hcmd & Hi2 & Hc2 & Hf2);
      [done|done|by eapply rely_good; [apply Hi|]|done|done|].
    rewrite Hcmd in Hr3 |- *. cbn [mbind option_bind]. destruct Hc2 as [Hfr Hc2]. destruct err as [e|].
    + eexists _, _. split; [done|]. destruct Hc2 as [Hup (lost & Hl & Hth)]. split; [done| | |].
      * cbn in Hup. rewrite Ef. destruct Hup as [->| ->]; [by apply prefix_app_r|].
        exists front. by rewrite <- app_assoc.
      * exists (n_client (y_conn y2)). split; [by left|]. rewrite <- Ht1.
        change (through [] c1) with (through [] (y_conn (set_conn c1 y))). rewrite <- Hth.
        unfold through. by apply prefix_app_r.
      * destruct Hf2 as [?|(_ & _ & -> & Hup' & ack & status & Hok & Hbit & Hlost)]; [by left|right].
        split; [done|]. exists p, ack, status, (y_statements y), (n_upstream (y_conn y)). done.
    + destruct Hf2 as [Hd2|([? [=]] & _)]. destruct (IH y2 Hi2 Hd2 Hr3) as (y' & st & He & [Hi' Hu' Hcl' Hf']).
      destruct Hc2 as [Hup2 Hth2]. cbn in Hup2, Hth2, Hfr. exists y', st. split; [done|]. split; [done| | |].
      * rewrite Ef. etrans; [exact Hu'|]. rewrite Hup2, Hfr, <- app_assoc. done.
      * rewrite Hth2 in Hcl'. exact Hcl'.
      * destruct Hf' as [?|(? & p' & ack & status & st' & sent & Ha' & Hs' & Ho' & Hb' & Ht')]; [by left|right].
        split; [done|]. exists p', ack, status, st', sent. rewrite Ht'. done.
Qed.
End cycles.

(** ** Properties of the command loop *)

Lemma start_idle {D S} `{Decisions D S} pid `{!DecisionsOk D S pid commit_fault} (d : D) c :
  good d → idle pid (start_session d c) ∧ only_delays (y_log (start_session d c)).
Proof. intros Hg. split; [split; [done|done|cbn; rewrite map_size_empty; apply Nat.le_0_l]|constructor]. Qed.

(** A connection right after authentication. *)
Definition fresh_conn (front back : list packet) (writes : list bool) : conn :=
  {| n_front := front; n_back := back; n_client := []; n_upstream := []; n_writes := writes; n_seq := 0 |}.

(** Against any service that honours the adapter interface, whatever
    packets the peers send and wherever writes fail, the MySQL loop never panics;
    between commands every flow it recorded is complete (started, at most one
    decision, applied exactly when selected, finished once); and it never tracks
    more than 128 prepared statements. *)
Theorem mysql_brackets {D S} `{Decisions D S} pid `{!DecisionsOk D S pid commit_fault} modern qs (d : D)
    front back writes
    (Hg : good d) (Hr : rely_run pid modern qs (start_session d (fresh_conn front back writes))) :
  ∃ y stopped, exchange pid modern qs (start_session d (fresh_conn front back writes)) = Some (y, stopped) ∧
    phase_run Outside (y_log y) = Some Outside ∧ (size (y_statements y) ≤ 128)%nat.
Proof.
  destruct (start_idle pid d (fresh_conn front back writes) Hg) as [Hi Hd].
  destruct (mysql_exchange_ok pid modern qs _ Hi Hd Hr) as (y & st & He & [[Hp _ Hs] _ _ _]).
  by exists y, st.
Qed.

(** MySQL transparency: the upstream receives a prefix of the client's
    packets and the client a prefix of the upstream's, unchanged and in order;
    only a session that ended may add the rejection packet. *)
Theorem mysql_transparent {D S} `{Decisions D S} pid `{!DecisionsOk D S pid commit_fault} modern qs (d : D)
    front back writes (y : session (D := D)) stopped
    (Hg : good d) (Hr : rely_run pid modern qs (start_session d (fresh_conn front back writes)))
    (He : exchange pid modern qs (start_session d (fresh_conn front back writes)) = Some (y, stopped)) :
  n_upstream (y_conn y) `prefix_of` front ∧
  ∃ sent, sent `prefix_of` back ∧
    (n_client (y_conn y) = sent ∨ stopped = true ∧ n_client (y_conn y) = sent ++ [rejection 1]).
Proof.
  destruct (start_idle pid d (fresh_conn front back writes) Hg) as [Hi Hd].
  destruct (mysql_exchange_ok pid modern qs _ Hi Hd Hr) as (y' & st & He' & [_ Hu (sent & Hc & Hp) _]).
  rewrite He in He'. simplify_eq. split; [exact Hu|]. by exists sent.
Qed.

(** C2. When a close or hold fault was applied, the session ended on a COMMIT
    command that was forwarded upstream and confirmed by an OK packet with the
    in-transaction flag clear; the client received every packet before that OK,
    not the OK itself, and nothing after it was read. *)
Theorem mysql_ack_withheld {D S} `{Decisions D S} pid `{!DecisionsOk D S pid commit_fault} modern qs (d : D)
    front back writes (y : session (D := D)) stopped e
    (Hg : good d) (Hr : rely_run pid modern qs (start_session d (fresh_conn front back writes)))
    (He : exchange pid modern qs (start_session d (fresh_conn front back writes)) = Some (y, stopped))
    (Hin : e ∈ y_log y) (Ht : ev_Type e = "fault_applied") (Ha : ev_Action e ≠ "delay") :
  stopped = true ∧ ∃ p ack status st sent,
    admission_of st p = Run commit ∧ n_upstream (y_conn y) = sent ++ [p] ∧
    okStatus (body ack) = Some status ∧ Z.land status 1 = 0 ∧
    back = n_client (y_conn y) ++ ack :: n_back (y_conn y).
Proof.
  destruct (start_idle pid d (fresh_conn front back writes) Hg) as [Hi Hd].
  destruct (mysql_exchange_ok pid modern qs _ Hi Hd Hr) as (y' & st & He' & [_ _ _ Hf]).
  rewrite He in He'. simplify_eq. destruct Hf as [Hf|(Hs & p & ack & status & st' & sent & H1 & H2 & H3 & H4 & H5)].
  - unfold only_delays in Hf. rewrite Forall_forall in Hf. by specialize (Hf e Hin Ht).
  - split; [done|]. exists p, ack, status, st', sent. split_and!; try done.
Qed.

(** ** Authentication *)

Lemma bind_Ok {A B} (m : M A) (k : A → M B) c c' b :
  bind m k c = (c', Ok b) → ∃ c1 a, m c = (c1, Ok a) ∧ k a c1 = (c', Ok b).
Proof. unfold bind. destruct (m c) as [c1 [a|e]]; [eauto|done]. Qed.

Lemma check_Ok b e c c' u : check b e c = (c', Ok u) → b = false ∧ c' = c.
Proof. unfold check. destruct b; [done|]. by intros [= <- _]. Qed.

Lemma auth_rounds_flags n flags c c' f : auth_rounds n flags c = (c', Ok f) → f = flags.
Proof.
  revert c. induction n as [|n IH]; intros c; cbn [auth_rounds]; [done|].
  intros (c1 & p & _ & H)%bind_Ok. destruct (tag p =? 0).
  { destruct (okStatus _); [|done]. apply bind_Ok in H as (c2 & u & _ & [= _ <-]). done. }
  destruct (tag p =? 0xff); [by apply bind_Ok in H as (c2 & u & _ & H)|].
  destruct (auth_round (body p)) as [need|]; [|done]. apply bind_Ok in H as (c2 & u & _ & H).
  destruct need; [|by apply IH in H].
  apply bind_Ok in H as (c3 & r & _ & H). apply bind_Ok in H as (c4 & u' & _ & H). by apply IH in H.
Qed.

(** A session is only established with capabilities the adapter can frame:
    whatever the greeting and the client say, the negotiated flags contain none
    of the forbidden ones and are within what the greeting offered; and TLS is
    negotiated exactly when the listener requires it. *)
Theorem mysql_capabilities (tls handshakes : bool) (c c' : conn) (flags : Z)
    (Ha : authenticate tls handshakes c = (c', Ok flags)) :
  Z.land flags forbiddenCaps = 0 ∧ tls = negb (Z.land flags capSSL =? 0) ∧
  ∃ hello rest offered b, n_back c = hello :: rest ∧ greeting (body hello) tls = Some (offered, b) ∧
    Z.ldiff flags offered = 0.
Proof.
  unfold authenticate in Ha. apply bind_Ok in Ha as (c1 & hello & Hh & Ha).
  unfold recv_back in Hh. destruct (n_back c) as [|hello' rest] eqn:Eb; [done|]. injection Hh as <- <-.
  apply bind_Ok in Ha as (c2 & u2 & _ & Ha). destruct (greeting (body hello') tls) as [[offered b]|] eqn:Eg; [|done].
  apply bind_Ok in Ha as (c3 & u3 & _ & Ha). apply bind_Ok in Ha as (c4 & u4 & _ & Ha).
  apply bind_Ok in Ha as (c5 & response & _ & Ha). apply bind_Ok in Ha as (c6 & u6 & _ & Ha). cbv zeta in Ha.
  apply bind_Ok in Ha as (c7 & u7 & Hfl & Ha). apply check_Ok in Hfl as [Hfl _].
  set (f := u32_at (body response) 0) in *. unfold flags_ok in Hfl. bool_hyps.
  apply bind_Ok in Ha as (c8 & response' & Hssl & Ha). apply bind_Ok in Ha as (c9 & u9 & _ & Ha).
  apply auth_rounds_flags in Ha as ->. split; [done|]. split; cycle 1.
  { by exists hello', rest, offered, b. }
  destruct tls.
  - apply bind_Ok in Hssl as (d1 & v1 & Hc & _). apply check_Ok in Hc as [Hc _]. bool_hyps.
    symmetry. apply negb_true_iff. by apply Z.eqb_neq.
  - apply bind_Ok in Hssl as (d1 & v1 & Hc & _). apply check_Ok in Hc as [Hc _]. by rewrite Hc.
Qed.

(** ** Witnesses: BEGIN, then a COMMIT whose acknowledgement a close fault loses *)

#[local] Instance mysql_decisions : DecisionsOk Service Snapshot "p1" commit_fault :=
  service_DecisionsOk store_nothing "p1" "mysql".

Definition mysql_service : Service := enabled_service mysql_document.

Lemma mysql_service_good : good mysql_service.
Proof. apply (enabled_service_good "p1" "mysql"), sample_keeps; [done|by apply close_rule_wf]. Qed.

Definition sample_query (sql : string) : packet := {| seq := 0; body := byte.of_Z 3 :: of_string sql |}.
Definition sample_ok (status : Z) : packet := {| seq := 1; body := ok_bytes 0 0 0 status 0 [] |}.
Definition sample_front : list packet := [sample_query "begin"; sample_query "COMMIT;"].
Definition sample_back : list packet := [sample_ok 1; sample_ok 0].
Definition sample_answers : answers :=
  {| q_acquire := mysql_service; q_decide := mysql_service; q_id := "flow"; q_start := 5; q_end := 6;
     q_fired := true |}.
Definition sample_start : session :=
  start_session mysql_service (fresh_conn sample_front sample_back []).
Definition sample_run : option (session * bool) :=
  exchange "p1" true [sample_answers; sample_answers] sample_start.
Definition sample_final : session := default sample_start (fst <$> sample_run).

Definition sample_mid : session :=
  default sample_start (fst <$> exchange "p1" true [sample_answers] sample_start).

Lemma sample_first :
  command "p1" true (sample_query "begin") begin_ sample_answers (lift recv_front sample_start).1 =
    Some (sample_mid, None).
Proof. vm_compute. reflexivity. Qed.
Lemma sample_mid_db : y_db sample_mid = mysql_service.
Proof. vm_compute. reflexivity. Qed.

Lemma sample_rely : rely_run "p1" true [sample_answers; sample_answers] sample_start.
Proof.
  split; [apply relations.rtc_refl|]. split; [apply relations.rtc_refl|].
  assert (lift recv_front sample_start = ((lift recv_front sample_start).1, Ok (sample_query "begin"))) as ->
    by reflexivity.
  assert (admission_of (y_statements (lift recv_front sample_start).1) (sample_query "begin") = Run begin_) as ->
    by (vm_compute; reflexivity).
  rewrite sample_first. split; [rewrite sample_mid_db; apply relations.rtc_refl|].
  split; [apply relations.rtc_refl|]. destruct (lift recv_front sample_mid) as [y2 [p2|]]; [|exact I].
  destruct (admission_of _ _); try exact I. destruct (command _ _ _ _ _ _) as [[? []]|]; exact I.
Qed.

Lemma mysql_brackets_witness :
  ∃ y stopped, sample_run = Some (y, stopped) ∧ phase_run Outside (y_log y) = Some Outside ∧
    (size (y_statements y) ≤ 128)%nat.
Proof.
  apply (mysql_brackets "p1" true [sample_answers; sample_answers] mysql_service sample_front sample_back []).
  - apply mysql_service_good.
  - apply sample_rely.
Defined.

Lemma mysql_transparent_witness :
  n_upstream (y_conn sample_final) `prefix_of` sample_front ∧
  ∃ sent, sent `prefix_of` sample_back ∧
    (n_client (y_conn sample_final) = sent ∨
     true = true ∧ n_client (y_conn sample_final) = sent ++ [rejection 1]).
Proof.
  apply (mysql_transparent "p1" true [sample_answers; sample_answers] mysql_service sample_front sample_back []).
  - apply mysql_service_good.
  - apply sample_rely.
  - vm_compute. reflexivity.
Defined.

Lemma mysql_ack_withheld_witness :
  true = true ∧ ∃ p ack status st sent,
    admission_of st p = Run commit ∧ n_upstream (y_conn sample_final) = sent ++ [p] ∧
    okStatus (body ack) = Some status ∧ Z.land status 1 = 0 ∧
    sample_back = n_client (y_conn sample_final) ++ ack :: n_back (y_conn sample_final).
Proof.
  apply (mysql_ack_withheld "p1" true [sample_answers; sample_answers] mysql_service sample_front sample_back []
           sample_final true (List.nth 4 (y_log sample_final) zero_event)).
  - apply mysql_service_good.
  - apply sample_rely.
  - vm_compute. reflexivity.
  - apply (list_elem_of_lookup_2 _ 4). vm_compute. reflexivity.
  - vm_compute. reflexivity.
  - vm_compute. discriminate.
Defined.

(** A plaintext handshake: greeting, client response, OK. *)
Definition sample_hello : packet :=
  {| seq := 0;
     body := byte.of_Z 10 :: of_string "8" ++ [Byte.x00] ++ repeat Byte.x00 13 ++
             le_bytes 2 (Z.lor capProtocol41 capSSL) ++ repeat Byte.x00 3 ++
             le_bytes 2 (Z.shiftr capPluginAuth 16) ++ repeat Byte.x00 11 ++
             of_string "caching_sha2_password" ++ [Byte.x00] |}.
Definition sample_response : packet :=
  {| seq := 1; body := le_bytes 4 (Z.lor capProtocol41 capPluginAuth) ++ repeat Byte.x00 40 |}.
Definition sample_auth : conn :=
  fresh_conn [sample_response] [sample_hello; {| seq := 2; body := ok_bytes 0 0 0 2 0 [] |}] [].

Lemma mysql_capabilities_witness :
  let flags := Z.lor capProtocol41 capPluginAuth in
  Z.land flags forbiddenCaps = 0 ∧ false = negb (Z.land flags capSSL =? 0) ∧
  ∃ hello rest offered b, n_back sample_auth = hello :: rest ∧
    greeting (body hello) false = Some (offered, b) ∧ Z.ldiff flags offered = 0.
Proof.
  apply (mysql_capabilities false false sample_auth (authenticate false false sample_auth).1).
  vm_compute. reflexivity.
Defined.
