(* ===== verification/MysqlServe.v ===== *)
(** * A whole MySQL connection (proxy/mysql/session.go: serve)

    The slot, the dial, the authentication relay and the command loop, in the
    order serve composes them. *)

From Stdlib Require Import Ascii.
From S2P Require Import Prelude GoLib GoRand Config Validate ValidateSpec Engine EngineSpec Control Recorder GoIO Adapter Samples MysqlWire MysqlSession MysqlSpec.
Local Open Scope go_scope.

Section serve.
Context {D S : Type} `{Decisions D S} (pid : string).

Inductive ended :=
| NoSlot
| NoUpstream
| AuthFailed (c : conn)
| Exchanged (flags : Z) (y : session (D := D)) (stopped : bool).

(** flags&capDeprecateEOF != 0 *)
Definition modern_of (flags : Z) : bool := negb (Z.land flags capDeprecateEOF =? 0).

(** serve: [front], [back] and [writes] are the packets of both sides and the
    answers of the writes over the whole connection. *)
Definition serve (tls slot dialled handshakes : bool) (front back : list packet) (writes : list bool)
    (qs : list (answers (D := D))) (d : D) : option ended :=
  if negb slot then Some NoSlot
  else if negb dialled then Some NoUpstream
  else
    match authenticate tls handshakes (fresh_conn front back writes) with
    | (c, Err _) => Some (AuthFailed c)
    | (c, Ok flags) =>
        '(y, stopped) ← exchange pid (modern_of flags) qs (start_session d c);
        Some (Exchanged flags y stopped)
    end.

(** C8. Every MySQL connection is served to an end, against any service that honours
    the adapter interface. Commands run only after an authentication that
    negotiated none of the capabilities the adapter cannot frame, and TLS exactly
    when the listener requires it; their flows are complete and the prepared
    statements it tracks are bounded. *)
Theorem mysql_session_served `{!DecisionsOk D S pid commit_fault} tls slot dialled handshakes front back writes qs (d : D) :
  good d →
  (∀ c flags, authenticate tls handshakes (fresh_conn front back writes) = (c, Ok flags) →
     rely_run pid (modern_of flags) qs (start_session d c)) →
  ∃ e, serve tls slot dialled handshakes front back writes qs d = Some e ∧
    match e with
    | Exchanged flags y _ =>
        Z.land flags forbiddenCaps = 0 ∧ tls = negb (Z.land flags capSSL =? 0) ∧
        phase_run Outside (y_log y) = Some Outside ∧ (size (y_statements y) ≤ 128)%nat
    | _ => True
    end.
Proof.
  intros Hg Hr. unfold serve. destruct (negb slot); [by eexists|]. destruct (negb dialled); [by eexists|].
  destruct (authenticate _ _ _) as [c [flags|e]] eqn:Ea; [|by eexists].
  destruct (start_idle pid d c Hg) as [Hi Hd].
  destruct (mysql_exchange_ok pid (modern_of flags) qs _ Hi Hd (Hr c flags eq_refl)) as (y & st & He & [[Hp _ Hs] _ _ _]).
  rewrite He. eexists. split; [done|]. apply mysql_capabilities in Ea as (? & ? & _). done.
Qed.
End serve.

(** ** Witness: a plaintext handshake, then BEGIN *)

#[local] Instance mysql_serve_decisions : DecisionsOk Service Snapshot "p1" commit_fault :=
  service_DecisionsOk store_nothing "p1" "mysql".

Definition session_front : list packet := sample_response :: sample_front.
Definition session_back : list packet := n_back sample_auth ++ sample_back.
(** The handshake is completed and the session waits for the next command. *)
Example sample_session_runs :
  match serve (D := Service) (S := Snapshot) "p1" false true true true session_front session_back [] [sample_answers] mysql_service with
  | Some (Exchanged _ _ stopped) => stopped = false
  | _ => False
  end.
Proof. vm_compute. reflexivity. Qed.

Lemma mysql_session_served_witness :
  ∃ e, serve (D := Service) (S := Snapshot) "p1" false true true true session_front session_back [] [sample_answers] mysql_service = Some e ∧
    match e with
    | Exchanged flags y _ =>
        Z.land flags forbiddenCaps = 0 ∧ false = negb (Z.land flags capSSL =? 0) ∧
        phase_run Outside (y_log y) = Some Outside ∧ (size (y_statements y) ≤ 128)%nat
    | _ => True
    end.
Proof.
  apply (mysql_session_served "p1" false true true true session_front session_back [] [sample_answers] mysql_service).
  - apply mysql_service_good.
  - intros c flags _. split; [apply relations.rtc_refl|]. split; [apply relations.rtc_refl|].
    destruct (lift recv_front _) as [y [p|]]; [|exact I]. destruct (admission_of _ _); try exact I.
    destruct (command _ _ _ _ _ _) as [[? []]|]; exact I.
Defined.
