(* ===== verification/Pump.v ===== *)
(** * Pumps (pump and receive of proxy/postgresql and proxy/mysql session.go)

    Each leg of a database session has a goroutine that reads frames from its
    connection and sends them over a channel of capacity one to the session's
    loop, until a read fails or the session's context ends. The two packages have
    the same code over different frames: the class [Framing] is what differs.
    Goroutines, the loop's receives and the context are atomic steps that
    interleave in any order. *)

From S2P Require Import Prelude GoLib GoIO PgWire MysqlWire.

(** Reading one frame, and the bytes it stands for. *)
Class Framing (R F : Type) `{Reader R} := {
  readOne : R → option (res error F * R);
  wire : F → bytes;
  readOne_ok r : ∃ x r', readOne r = Some (x, r') ∧
    ∀ f, x = Ok f → stream r = wire f ++ stream r' ∧ wire f ≠ []
}.

#[export] Program Instance pg_framing `{Reader R} : Framing R PgWire.frame := {
  readOne := PgWire.readFrame;
  wire := PgWire.frame_bytes
}.
Next Obligation.
  intros R HR r. destruct (PgWire.readFrame_spec r) as (x & r' & Hr & _ & Hf & _). exists x, r'. split; [done|].
  intros f E. split; [by apply Hf|done].
Qed.

#[export] Program Instance mysql_framing `{Reader R} : Framing R MysqlWire.packet := {
  readOne := MysqlWire.readPacket;
  wire := MysqlWire.packet_bytes
}.
Next Obligation.
  intros R HR r. destruct (MysqlWire.readPacket_spec r) as (x & r' & Hr & Hf & _). exists x, r'. split; [done|].
  intros f E. split; [by apply Hf|]. intros Hn. apply (f_equal length) in Hn. unfold MysqlWire.packet_bytes in Hn.
  rewrite length_app, length_le_bytes in Hn. cbn in Hn. lia.
Qed.

Section pumps.
Context {R F : Type} `{Framing R F}.

(** Where a pump is: in readFrame, in the select with a frame in hand, or gone
    (wg.Done). *)
Inductive at_pump := Reading | Sending (f : F) | Returned.

(** One leg: its connection and whether the proxy has closed it, its goroutine, its
    channel, and the frames the loop has received from it. *)
Record leg := { lg_conn : R; lg_closed : bool; lg_pump : at_pump; lg_chan : list F; lg_taken : list F }.

Definition channel_capacity : nat := 1.

Definition set_pump (p : at_pump) (l : leg) : leg :=
  {| lg_conn := lg_conn l; lg_closed := lg_closed l; lg_pump := p; lg_chan := lg_chan l; lg_taken := lg_taken l |}.

(** net.Conn.Close *)
Definition close_conn (l : leg) : leg :=
  {| lg_conn := lg_conn l; lg_closed := true; lg_pump := lg_pump l; lg_chan := lg_chan l; lg_taken := lg_taken l |}.

(** The steps of a pump. readFrame returns: a frame, or the error, of the data the
    peer has sent ([Read]); the error of the network or of a deadline ([ReadFails]);
    net.ErrClosed ([ReadClosed]), the only one that is sure to come. The select takes
    one of its two cases. *)
Inductive pump_step := Read | ReadFails | ReadClosed | Send | Quit.

(** One step of pump: the leg, and whether it called cancel. *)
Definition pump (done : bool) (s : pump_step) (l : leg) : option (leg * bool) :=
  match s, lg_pump l with
  | Read, Reading =>
      if lg_closed l then None
      else
        '(x, r) ← readOne (lg_conn l);
        let p := match x with Ok f => Sending f | Err _ => Returned end in
        Some ({| lg_conn := r; lg_closed := lg_closed l; lg_pump := p; lg_chan := lg_chan l; lg_taken := lg_taken l |},
              match x with Ok _ => false | Err _ => true end)
  | ReadFails, Reading => Some (set_pump Returned l, true)
  | ReadClosed, Reading => if lg_closed l then Some (set_pump Returned l, true) else None
  | Send, Sending f =>
      if bool_decide (length (lg_chan l) < channel_capacity)%nat
      then Some ({| lg_conn := lg_conn l; lg_closed := lg_closed l; lg_pump := Reading; lg_chan := lg_chan l ++ [f];
                    lg_taken := lg_taken l |}, false)
      else None
  | Quit, Sending _ => if done then Some (set_pump Returned l, false) else None
  | _, _ => None
  end.

(** A receive from the channel. *)
Definition receive (l : leg) : option (F * leg) :=
  match lg_chan l with
  | [] => None
  | f :: rest => Some (f, {| lg_conn := lg_conn l; lg_closed := lg_closed l; lg_pump := lg_pump l; lg_chan := rest; lg_taken := lg_taken l ++ [f] |})
  end.

(** Where exchange is: in its loop, or at one of the calls of its deferred function:
    cancel, c.Close, u.Close, wg.Wait. *)
Inductive at_loop := Looping | Cancelling | ClosingFront | ClosingBack | Waiting | Left.

(** The two legs of a session, the end of its context, and where its loop is. *)
Record legs := { ls_front : leg; ls_back : leg; ls_done : bool; ls_loop : at_loop }.

(** [PFront] and [PBack] are steps of the pumps, [Take] the loop's receives, [Cancel]
    the end of the context from outside (the server's shutdown, the cycle timer, a
    cancel request), [CutFront] and [CutBack] the callbacks that serve registers with
    context.AfterFunc, [Return] the loop's return and [Defer] the next call of its
    deferred function. *)
Inductive pumping :=
| PFront (s : pump_step)
| PBack (s : pump_step)
| TakeFront
| TakeBack
| Cancel
| CutFront
| CutBack
| Return
| Defer.

(** wg.Add(2) and the two go statements. *)
Definition start_pumps (c u : R) : legs :=
  {| ls_front := {| lg_conn := c; lg_closed := false; lg_pump := Reading; lg_chan := []; lg_taken := [] |};
     ls_back := {| lg_conn := u; lg_closed := false; lg_pump := Reading; lg_chan := []; lg_taken := [] |};
     ls_done := false; ls_loop := Looping |}.

Definition set_front (l : leg) (done : bool) (s : legs) : legs :=
  {| ls_front := l; ls_back := ls_back s; ls_done := ls_done s || done; ls_loop := ls_loop s |}.
Definition set_back (l : leg) (done : bool) (s : legs) : legs :=
  {| ls_front := ls_front s; ls_back := l; ls_done := ls_done s || done; ls_loop := ls_loop s |}.
Definition set_loop (p : at_loop) (s : legs) : legs :=
  {| ls_front := ls_front s; ls_back := ls_back s; ls_done := ls_done s; ls_loop := p |}.

(** Whether the loop still runs. *)
Definition looping (p : at_loop) : bool := match p with Looping => true | _ => false end.

Definition pump_returned (l : leg) : bool := match lg_pump l with Returned => true | _ => false end.

(** The deferred function of exchange: cancel, both closes, and wg.Wait, which returns
    when both pumps have called wg.Done. *)
Definition defer_step (s : legs) : option legs :=
  match ls_loop s with
  | Looping | Left => None
  | Cancelling => Some {| ls_front := ls_front s; ls_back := ls_back s; ls_done := true; ls_loop := ClosingFront |}
  | ClosingFront => Some (set_loop ClosingBack (set_front (close_conn (ls_front s)) false s))
  | ClosingBack => Some (set_loop Waiting (set_back (close_conn (ls_back s)) false s))
  | Waiting => if pump_returned (ls_front s) && pump_returned (ls_back s) then Some (set_loop Left s) else None
  end.

(** One atomic step. *)
Definition legs_step (p : pumping) (s : legs) : option legs :=
  match p with
  | PFront a => '(l, c) ← pump (ls_done s) a (ls_front s); Some (set_front l c s)
  | PBack a => '(l, c) ← pump (ls_done s) a (ls_back s); Some (set_back l c s)
  | TakeFront => if looping (ls_loop s) then '(_, l) ← receive (ls_front s); Some (set_front l false s) else None
  | TakeBack => if looping (ls_loop s) then '(_, l) ← receive (ls_back s); Some (set_back l false s) else None
  | Cancel => Some {| ls_front := ls_front s; ls_back := ls_back s; ls_done := true; ls_loop := ls_loop s |}
  | CutFront => if ls_done s then Some (set_front (close_conn (ls_front s)) false s) else None
  | CutBack => if ls_done s then Some (set_back (close_conn (ls_back s)) false s) else None
  | Return => if looping (ls_loop s) then Some (set_loop Cancelling s) else None
  | Defer => defer_step s
  end.

Fixpoint legs_run (ps : list pumping) (s : legs) : option legs :=
  match ps with
  | [] => Some s
  | p :: ps => s ← legs_step p s; legs_run ps s
  end.

(** Both pumps have called wg.Done. *)
Definition joined (s : legs) : Prop := lg_pump (ls_front s) = Returned ∧ lg_pump (ls_back s) = Returned.
End pumps.
Arguments at_pump : clear implicits.
Arguments leg : clear implicits.
Arguments legs : clear implicits.
