(* ===== verification/PumpSpec.v ===== *)
(** * Correctness of the pumps

    Under every interleaving the loop receives the frames of each connection in
    order, none lost or invented; a pump only ends with the session's context; and
    after the loop has returned both pumps return. Composed with the sessions, the
    bytes written to one peer are the bytes read from the other. *)

From S2P Require Import Prelude GoLib GoUtf8 GoRand Config Validate ValidateSpec Engine EngineSpec Control Recorder GoIO Adapter PgWire MysqlWire Pump.

Section pumps.
Context {R F : Type} `{Framing R F}.
#[local] Set Default Proof Using "Type".

Definition in_hand (p : at_pump F) : list F := match p with Sending f => [f] | _ => [] end.

Definition wires (fs : list F) : bytes := List.concat (wire <$> fs).
#[local] Arguments wires : simpl never.

Lemma wires_app a b : wires (a ++ b) = wires a ++ wires b.
Proof. unfold wires. by rewrite fmap_app, List.concat_app. Qed.

Lemma wires_prefix a b : a `prefix_of` b → wires a `prefix_of` wires b.
Proof. intros [k ->]. rewrite wires_app. by apply prefix_app_r. Qed.

(** A leg whose connection started as [r0]. *)
Record leg_inv (r0 : R) (l : leg R F) : Prop := {
  li_stream : ∃ rest, stream r0 = wires (lg_taken l ++ lg_chan l ++ in_hand (lg_pump l)) ++ rest ∧
    (lg_pump l ≠ Returned → rest = stream (lg_conn l));
  li_bounded : (length (lg_chan l) ≤ channel_capacity)%nat
}.

Lemma pump_inv r0 done a l l' c :
  leg_inv r0 l → pump done a l = Some (l', c) → leg_inv r0 l' ∧ (lg_pump l' = Returned → lg_pump l = Returned ∨ c = true ∨ done = true).
Proof.
  intros [(rest & Hs & Hr) Hb] Hp. destruct l as [conn cl [|f|] chan taken]; destruct a; cbn in Hp; try done; cbn in Hs, Hr, Hb.
  - destruct cl; [done|]. rewrite app_nil_r in Hs. destruct (readOne_ok conn) as (x & r' & E & Hx). rewrite E in Hp. cbn in Hp.
    destruct x as [f|e]; injection Hp as <- <-; (split; [|by auto]); (split; [|done]); cbn.
    + destruct (Hx f eq_refl) as [Hc _]. exists (stream r'). split; [|done].
      rewrite Hs, (Hr ltac:(done)), Hc, !wires_app. change (wires [f]) with (wire f ++ []). by rewrite app_nil_r, <- !app_assoc.
    + exists rest. by rewrite app_nil_r.
  - injection Hp as <- <-. split; [|by auto]. split; [|done]. exists rest. cbn. by rewrite Hs.
  - destruct cl; [|done]. injection Hp as <- <-. split; [|by auto]. split; [|done]. exists rest. cbn. by rewrite Hs.
  - destruct (bool_decide _) eqn:El; [|done]. injection Hp as <- <-. bool_hyps. split; [|by auto]. split; cbn.
    + exists rest. rewrite app_nil_r. split; [done|]. intros _. by apply Hr.
    + rewrite length_app. cbn. unfold channel_capacity in *. lia.
  - destruct done; [|done]. injection Hp as <- <-. split; [|by auto]. split; [|done]. cbn.
    exists (wires [f] ++ rest). split; [|done]. rewrite app_nil_r, Hs, !wires_app. by rewrite <- !app_assoc.
Qed.

Lemma receive_inv r0 l f l' : leg_inv r0 l → receive l = Some (f, l') → leg_inv r0 l' ∧ lg_pump l' = lg_pump l.
Proof.
  intros [(rest & Hs & Hr) Hb] Hp. destruct l as [conn cl p chan taken]. unfold receive in Hp. cbn in *. destruct chan as [|g chan]; [done|].
  injection Hp as <- <-. split; [|done]. split; cbn in *; [|unfold channel_capacity in *; lia]. exists rest. split; [|done]. rewrite Hs. by rewrite <- !app_assoc.
Qed.

Lemma close_inv r0 l : leg_inv r0 l → leg_inv r0 (close_conn l).
Proof. by intros [? ?]. Qed.

(** What the calls of the deferred function have established. *)
Definition cancelled_at (p : at_loop) : bool := match p with Looping | Cancelling => false | _ => true end.
Definition front_closed_at (p : at_loop) : bool := match p with ClosingBack | Waiting | Left => true | _ => false end.
Definition back_closed_at (p : at_loop) : bool := match p with Waiting | Left => true | _ => false end.

(** Both legs; a pump that is gone has ended the session; the deferred function. *)
Record legs_inv (c u : R) (s : legs R F) : Prop := {
  ln_front : leg_inv c (ls_front s);
  ln_back : leg_inv u (ls_back s);
  ln_alive : ls_done s = false → lg_pump (ls_front s) ≠ Returned ∧ lg_pump (ls_back s) ≠ Returned;
  ln_done : cancelled_at (ls_loop s) = true → ls_done s = true;
  ln_closed : front_closed_at (ls_loop s) = true → lg_closed (ls_front s) = true;
  ln_closed' : back_closed_at (ls_loop s) = true → lg_closed (ls_back s) = true;
  ln_left : ls_loop s = Left → joined s
}.

Lemma pump_keeps done a (l l' : leg R F) c :
  pump done a l = Some (l', c) → lg_closed l' = lg_closed l ∧ (lg_pump l = Returned → lg_pump l' = Returned).
Proof.
  intros Hp. destruct l as [conn cl [|f|] chan taken]; destruct a; cbn in Hp; try done.
  - destruct cl; [done|]. destruct (readOne conn) as [[x r]|]; [|done]. by injection Hp as <- <-.
  - by injection Hp as <- <-.
  - destruct cl; [|done]. by injection Hp as <- <-.
  - destruct (bool_decide _); [|done]. by injection Hp as <- <-.
  - destruct done; [|done]. by injection Hp as <- <-.
Qed.

Lemma front_inv c u a s l k : legs_inv c u s → pump (ls_done s) a (ls_front s) = Some (l, k) → legs_inv c u (set_front l k s).
Proof.
  intros [Hf Hb Ha Hd Hcf Hcb Hl] E. destruct (pump_inv _ _ _ _ _ _ Hf E) as [Hi Hq]. destruct (pump_keeps _ _ _ _ _ E) as [Hk Hr].
  split; cbn; try done.
  - intros [Hn ->]%orb_false_iff. destruct (Ha Hn) as [Hnf Hnb]. split; [|done]. intros Hret. destruct (Hq Hret) as [?|[?|?]]; congruence.
  - intros Hc. by rewrite (Hd Hc).
  - rewrite Hk. auto.
  - intros Hx. destruct (Hl Hx). split; cbn; auto.
Qed.

Lemma back_inv c u a s l k : legs_inv c u s → pump (ls_done s) a (ls_back s) = Some (l, k) → legs_inv c u (set_back l k s).
Proof.
  intros [Hf Hb Ha Hd Hcf Hcb Hl] E. destruct (pump_inv _ _ _ _ _ _ Hb E) as [Hi Hq]. destruct (pump_keeps _ _ _ _ _ E) as [Hk Hr].
  split; cbn; try done.
  - intros [Hn ->]%orb_false_iff. destruct (Ha Hn) as [Hnf Hnb]. split; [done|]. intros Hret. destruct (Hq Hret) as [?|[?|?]]; congruence.
  - intros Hc. by rewrite (Hd Hc).
  - rewrite Hk. auto.
  - intros Hx. destruct (Hl Hx). split; cbn; auto.
Qed.

Lemma defer_inv c u s s' : legs_inv c u s → defer_step s = Some s' → legs_inv c u s'.
Proof.
  intros [Hf Hb Ha Hd Hcf Hcb Hl] Hs. unfold defer_step in Hs. destruct (ls_loop s) eqn:El; try done; cbn in *.
  - injection Hs as <-. by split.
  - injection Hs as <-. split; cbn; rewrite ?orb_false_r; auto; try done. by apply close_inv.
  - injection Hs as <-. split; cbn; rewrite ?orb_false_r; auto; try done. by apply close_inv.
  - unfold pump_returned in Hs. destruct (lg_pump (ls_front s)) eqn:E1; [done..|]. destruct (lg_pump (ls_back s)) eqn:E2; [done..|].
    injection Hs as <-. split; cbn; auto; try done; by rewrite ?E1, ?E2.
Qed.

Lemma step_inv c u p s s' : legs_inv c u s → legs_step p s = Some s' → legs_inv c u s'.
Proof.
  intros Hi Hp. pose proof Hi as [Hf Hb Ha Hd Hcf Hcb Hl]. destruct p; cbn in Hp.
  - destruct (pump _ _ _) as [[l k]|] eqn:E; [|done]. injection Hp as <-. by eapply front_inv.
  - destruct (pump _ _ _) as [[l k]|] eqn:E; [|done]. injection Hp as <-. by eapply back_inv.
  - destruct (ls_loop s) eqn:El; try done. cbn in Hp. destruct (receive _) as [[f l]|] eqn:E; [|done]. injection Hp as <-.
    destruct (receive_inv _ _ _ _ Hf E) as [Hl' Hq]. split; cbn; rewrite ?orb_false_r, ?Hq, ?El; done.
  - destruct (ls_loop s) eqn:El; try done. cbn in Hp. destruct (receive _) as [[f l]|] eqn:E; [|done]. injection Hp as <-.
    destruct (receive_inv _ _ _ _ Hb E) as [Hl' Hq]. split; cbn; rewrite ?orb_false_r, ?Hq, ?El; done.
  - injection Hp as <-. by split.
  - destruct (ls_done s) eqn:Ed; [|done]. injection Hp as <-. split; cbn; rewrite ?Ed; auto; try done. by apply close_inv.
  - destruct (ls_done s) eqn:Ed; [|done]. injection Hp as <-. split; cbn; rewrite ?Ed; auto; try done. by apply close_inv.
  - destruct (ls_loop s) eqn:El; try done. injection Hp as <-. by split.
  - by eapply defer_inv.
Qed.

Lemma start_inv c u : legs_inv c u (start_pumps c u).
Proof. split; try done; (split; [|cbn; unfold channel_capacity; lia]); by eexists. Qed.

Lemma run_inv c u ps s s' : legs_inv c u s → legs_run ps s = Some s' → legs_inv c u s'.
Proof.
  revert s. induction ps as [|p ps IH]; intros s Hi Hr; cbn in Hr; [by simplify_eq|].
  destruct (legs_step p s) as [s1|] eqn:E; [|done]. eapply IH; [by eapply step_inv|done].
Qed.

Lemma taken_prefix r0 l : leg_inv r0 l → wires (lg_taken l) `prefix_of` stream r0.
Proof. intros [(rest & -> & _) _]. rewrite wires_app, <- app_assoc. by eexists. Qed.

(** What the loop has received from each connection, under every interleaving, is
    its bytes from the start, frame by frame; at most two frames of each are
    waiting; a pump that has ended has ended the session. *)
Theorem pumps_faithful c u ps s :
  legs_run ps (start_pumps c u) = Some s →
  wires (lg_taken (ls_front s)) `prefix_of` stream c ∧ wires (lg_taken (ls_back s)) `prefix_of` stream u ∧
  (ls_done s = false → lg_pump (ls_front s) ≠ Returned ∧ lg_pump (ls_back s) ≠ Returned ∧
     stream c = wires (lg_taken (ls_front s) ++ lg_chan (ls_front s) ++ in_hand (lg_pump (ls_front s))) ++ stream (lg_conn (ls_front s)) ∧
     stream u = wires (lg_taken (ls_back s) ++ lg_chan (ls_back s) ++ in_hand (lg_pump (ls_back s))) ++ stream (lg_conn (ls_back s))).
Proof.
  intros Hr. destruct (run_inv c u _ _ _ (start_inv c u) Hr) as [Hf Hb Ha _ _ _ _]. split_and!; [by apply taken_prefix..|].
  intros Hd. destruct (Ha Hd) as [Hnf Hnb]. destruct Hf as [(r1 & Hs1 & E1) _], Hb as [(r2 & Hs2 & E2) _].
  rewrite <- (E1 Hnf), <- (E2 Hnb). done.
Qed.

(** ** The pumps join *)

(** What a pump may still do once nobody receives: at most it fills its channel and
    takes one more frame. *)
Definition leg_work (l : leg R F) : nat :=
  let room := bool_decide (length (lg_chan l) < channel_capacity)%nat in
  match lg_pump l with
  | Returned => 0
  | Sending _ => if room then 3 else 1
  | Reading => if room then 4 else 2
  end.
Definition loop_work (p : at_loop) : nat :=
  match p with Looping => 5 | Cancelling => 4 | ClosingFront => 3 | ClosingBack => 2 | Waiting => 1 | Left => 0 end.
Definition legs_work (s : legs R F) : nat := leg_work (ls_front s) + leg_work (ls_back s) + loop_work (ls_loop s).

(** The steps of the session's own goroutines, and those among them that come without
    the peers: all but a read that returns on their account. *)
Definition own (p : pumping) : bool := match p with PFront _ | PBack _ | Defer => true | _ => false end.
Definition sure (p : pumping) : bool :=
  match p with PFront (ReadClosed | Send | Quit) | PBack (ReadClosed | Send | Quit) | Defer => true | _ => false end.
Definition own_steps (ps : list pumping) : nat := length (filter (λ p, own p = true) ps).

Lemma pump_work done a (l l' : leg R F) c : pump done a l = Some (l', c) → (leg_work l' < leg_work l)%nat.
Proof.
  intros Hp. destruct l as [conn cl [|f|] chan taken]; destruct a; cbn in Hp; try done; unfold leg_work; cbn [lg_pump lg_chan].
  - destruct cl; [done|]. destruct (readOne conn) as [[[] r]|]; [| |done]; injection Hp as <- <-; cbn; repeat case_match; lia.
  - injection Hp as <- <-. cbn. case_match; lia.
  - destruct cl; [|done]. injection Hp as <- <-. cbn. case_match; lia.
  - destruct (bool_decide _) eqn:E; [|done]. injection Hp as <- <-. bool_hyps. cbn. rewrite bool_decide_false; [lia|].
    rewrite length_app. cbn. unfold channel_capacity. lia.
  - destruct done; [|done]. injection Hp as <- <-. cbn. case_match; lia.
Qed.

Lemma close_work (l : leg R F) : leg_work (close_conn l) = leg_work l.
Proof. done. Qed.

Lemma step_work p s s' :
  looping (ls_loop s) = false → legs_step p s = Some s' →
  (legs_work s' + Nat.b2n (own p) ≤ legs_work s)%nat ∧ looping (ls_loop s') = false.
Proof.
  intros Hl Hp. unfold legs_work. destruct p; cbn in Hp; rewrite ?Hl in Hp; try done.
  1-2: destruct (pump _ _ _) as [[l k]|] eqn:E; [|done]; injection Hp as <-; apply pump_work in E; cbn; split; [lia|done].
  - injection Hp as <-. cbn. split; [lia|done].
  - destruct (ls_done s); [|done]. injection Hp as <-. cbn. rewrite close_work. split; [lia|done].
  - destruct (ls_done s); [|done]. injection Hp as <-. cbn. rewrite close_work. split; [lia|done].
  - unfold defer_step in Hp. destruct (ls_loop s); try done; [..|destruct (_ && _); [|done]]; injection Hp as <-; cbn; rewrite ?close_work; (split; [lia|done]).
Qed.

Lemma run_work ps s s' :
  looping (ls_loop s) = false → legs_run ps s = Some s' →
  (legs_work s' + own_steps ps ≤ legs_work s)%nat ∧ looping (ls_loop s') = false.
Proof.
  revert s. induction ps as [|p ps IH]; intros s Hl Hr; cbn in Hr; [simplify_eq; unfold own_steps; cbn; split; [lia|done]|].
  destruct (legs_step p s) as [s1|] eqn:E; [|done]. apply step_work in E as [E1 E2]; [|done]. apply IH in Hr as [H1 H2]; [|done].
  split; [|done]. unfold own_steps in *. rewrite filter_cons.
  destruct (own p); cbn in *; [rewrite decide_True by done|rewrite decide_False by done]; cbn; lia.
Qed.

(** A pump of a session that is over, with its connection closed, can always step. *)
Lemma pump_sure (l : leg R F) :
  lg_closed l = true → pump_returned l = false → ∃ a, sure (PFront a) = true ∧ sure (PBack a) = true ∧ is_Some (pump true a l).
Proof.
  intros Hc Hr. destruct l as [conn cl [|f|] chan taken]; cbn in *; [|by exists Quit|done]. exists ReadClosed. cbn. by rewrite Hc.
Qed.

Lemma session_sure c u s :
  legs_inv c u s → looping (ls_loop s) = false → ls_loop s ≠ Left → ∃ p, sure p = true ∧ is_Some (legs_step p s).
Proof.
  intros [_ _ _ Hd Hcf Hcb _] Hl Hn.
  destruct (ls_loop s) eqn:El; try done; try (exists Defer; split; [done|]; cbn; unfold defer_step; rewrite El; done).
  specialize (Hd eq_refl). specialize (Hcf eq_refl). specialize (Hcb eq_refl).
  destruct (pump_returned (ls_front s)) eqn:Ef; [destruct (pump_returned (ls_back s)) eqn:Eb|].
  - exists Defer. split; [done|]. cbn. unfold defer_step. by rewrite El, Ef, Eb.
  - destruct (pump_sure (ls_back s)) as (a & _ & Ha & [[l k] E]); [done..|]. exists (PBack a). split; [done|]. cbn. rewrite Hd, E. done.
  - destruct (pump_sure (ls_front s)) as (a & Ha & _ & [[l k] E]); [done..|]. exists (PFront a). split; [done|]. cbn. rewrite Hd, E. done.
Qed.

(** C33. Once the loop of a session has returned, so does its deferred wg.Wait, however
    much the peers have sent or still send, and even if they never send again: in
    every interleaving the deferred function and the two pumps take at most 12 more
    steps, and until exchange has left, one of them has a step that waits for nobody,
    because the context is cancelled and both connections are closed. When it has
    left, both pumps have returned. *)
Theorem pumps_join c u ps s more s' :
  legs_run ps (start_pumps c u) = Some s → ls_loop s ≠ Looping → legs_run more s = Some s' →
  (own_steps more ≤ 12)%nat ∧
  (ls_loop s' = Left ∧ joined s' ∨ ls_loop s' ≠ Left ∧ ∃ p, sure p = true ∧ is_Some (legs_step p s')).
Proof.
  intros Hr Hn Hm. pose proof (run_inv c u _ _ _ (start_inv c u) Hr) as Hi. pose proof (run_inv c u _ _ _ Hi Hm) as Hi'.
  assert (looping (ls_loop s) = false) as Hl by (by destruct (ls_loop s)).
  destruct (run_work _ _ _ Hl Hm) as [Hw Hl']. split.
  - assert (legs_work s ≤ 12)%nat; [|lia]. unfold legs_work, leg_work. destruct (ls_loop s); try done; cbn; repeat case_match; lia.
  - destruct (ls_loop s') eqn:El; try done; try (right; split; [done|]; eapply session_sure; [done|by rewrite El..]).
    left. split; [done|]. by apply (ln_left _ _ _ Hi').
Qed.
End pumps.
