(* ===== verification/SessionBytes.v ===== *)
(** * Database sessions, byte for byte

    The pumps feed the loops of PgSession and MysqlSession. For every interleaving
    of the two pumps and the loop, and however the connections cut their data, the
    bytes a session writes to one peer are the first bytes the other peer sent. *)

From S2P Require Import Prelude GoLib GoUtf8 GoRand Config Validate ValidateSpec Engine EngineSpec Control Recorder GoIO Adapter Samples PgWire PgSession PgSpec MysqlWire MysqlSession MysqlSpec Pump PumpSpec.

Section sessions.
Context {R D S : Type} `{Reader R} `{Decisions D S} (pid : string).

Lemma fronts_app (a b : list (PgSession.input (D := D))) : PgSpec.fronts (a ++ b) = PgSpec.fronts a ++ PgSpec.fronts b.
Proof. apply omap_app. Qed.
Lemma backs_app (a b : list (PgSession.input (D := D))) : PgSpec.backs (a ++ b) = PgSpec.backs a ++ PgSpec.backs b.
Proof. apply omap_app. Qed.

(** C16. PostgreSQL, byte for byte: whatever the interleaving of the pumps with the
    loop, the bytes written to the upstream are a prefix of the bytes the client
    sent, and the bytes written to the client a prefix of the bytes the upstream
    sent, followed at most, once the session has ended, by one rejection. *)
Theorem pg_bytes (c u : R) ps (s : legs R PgWire.frame) ins d (x : PgSession.session (D := D) (S := S)) stopped :
  legs_run ps (start_pumps c u) = Some s →
  PgSpec.fronts ins = lg_taken (ls_front s) → PgSpec.backs ins = lg_taken (ls_back s) →
  PgSession.exchange pid ins (PgSession.start_session d) = Some (x, stopped) →
  wires (PgSession.x_upstream x) `prefix_of` stream c ∧
  ∃ sent, wires sent `prefix_of` stream u ∧
    (PgSession.x_client x = sent ∨ stopped = true ∧ PgSession.x_client x = sent ++ [PgWire.rejection]).
Proof.
  intros Hr Hf Hb He. destruct (run_inv c u _ _ _ (start_inv c u) Hr) as [Hif Hib _ _ _ _ _].
  apply taken_prefix in Hif, Hib. destruct (PgSpec.exchange_frames pid _ _ _ _ He) as (ins1 & ins2 & -> & _ & Hu & Hc).
  cbn in Hu, Hc. rewrite fronts_app in Hf. rewrite backs_app in Hb. split.
  - rewrite Hu. etrans; [|exact Hif]. apply wires_prefix. rewrite <- Hf. by eexists.
  - exists (PgSpec.backs ins1). split; [|done]. etrans; [|exact Hib]. apply wires_prefix. rewrite <- Hb. by eexists.
Qed.

(** C17. MySQL, byte for byte: whatever the interleaving of the pumps with the loop,
    the bytes written to the upstream are a prefix of the bytes the client sent, and
    the bytes written to the client a prefix of the bytes the upstream sent,
    followed at most, once the session has ended, by one rejection. *)
Theorem mysql_bytes `{!DecisionsOk D S pid commit_fault} (c u : R) ps (s : legs R MysqlWire.packet) modern qs (d : D) writes
    (y : MysqlSession.session (D := D)) stopped :
  legs_run ps (start_pumps c u) = Some s → good d →
  let conn := MysqlSpec.fresh_conn (lg_taken (ls_front s)) (lg_taken (ls_back s)) writes in
  MysqlSpec.rely_run pid modern qs (MysqlSession.start_session d conn) →
  MysqlSession.exchange pid modern qs (MysqlSession.start_session d conn) = Some (y, stopped) →
  wires (MysqlSession.n_upstream (MysqlSession.y_conn y)) `prefix_of` stream c ∧
  ∃ sent, wires sent `prefix_of` stream u ∧
    (MysqlSession.n_client (MysqlSession.y_conn y) = sent ∨
     stopped = true ∧ MysqlSession.n_client (MysqlSession.y_conn y) = sent ++ [MysqlWire.rejection 1]).
Proof.
  intros Hr Hg conn Hrely He. destruct (run_inv c u _ _ _ (start_inv c u) Hr) as [Hif Hib _ _ _ _ _].
  apply taken_prefix in Hif, Hib. destruct (MysqlSpec.start_idle pid d conn Hg) as [Hi Hd].
  destruct (MysqlSpec.mysql_exchange_ok pid modern qs _ Hi Hd Hrely) as (y' & st & He' & [_ Hu (sent & Hc & Hp) _]).
  rewrite He in He'. simplify_eq. split.
  - etrans; [|exact Hif]. by apply wires_prefix.
  - exists sent. split; [|done]. etrans; [|exact Hib]. by apply wires_prefix.
Qed.
End sessions.

(** ** Witnesses: the sample sessions of PgSpec and MysqlSpec behind their pumps *)

Definition conn_of {F} `{Framing chunks F} (fs : list F) (cuts : list nat) : chunks :=
  {| ck_data := wires fs; ck_end := EOF; ck_schedule := cuts |}.

(** Each side's pump reads, sends and the loop receives, [n] times. *)
Definition pump_all (n m : nat) : list pumping :=
  List.concat (repeat [PFront Read; PFront Send; TakeFront] n) ++ List.concat (repeat [PBack Read; PBack Send; TakeBack] m).

Definition pg_client : chunks := conn_of (PgSpec.fronts PgSpec.pg_inputs) [1; 3; 2]%nat.
Definition pg_upstream : chunks := conn_of (PgSpec.backs PgSpec.pg_inputs) [].
Definition pg_legs : legs chunks PgWire.frame := default (start_pumps pg_client pg_upstream) (legs_run (pump_all 2 4) (start_pumps pg_client pg_upstream)).

Lemma pg_bytes_witness :
  wires (PgSession.x_upstream PgSpec.pg_final) `prefix_of` stream pg_client ∧
  ∃ sent, wires sent `prefix_of` stream pg_upstream ∧
    (PgSession.x_client PgSpec.pg_final = sent ∨ true = true ∧ PgSession.x_client PgSpec.pg_final = sent ++ [PgWire.rejection]).
Proof.
  apply (pg_bytes "p1" pg_client pg_upstream (pump_all 2 4) pg_legs PgSpec.pg_inputs PgSpec.pg_service PgSpec.pg_final true).
  - vm_compute. reflexivity.
  - vm_compute. reflexivity.
  - vm_compute. reflexivity.
  - vm_compute. reflexivity.
Defined.

Definition mysql_client : chunks := conn_of MysqlSpec.sample_front [2; 1]%nat.
Definition mysql_upstream : chunks := conn_of MysqlSpec.sample_back [].
Definition mysql_schedule : list pumping := pump_all (length MysqlSpec.sample_front) (length MysqlSpec.sample_back).
Definition mysql_legs : legs chunks MysqlWire.packet :=
  default (start_pumps mysql_client mysql_upstream) (legs_run mysql_schedule (start_pumps mysql_client mysql_upstream)).

Lemma mysql_legs_taken :
  lg_taken (ls_front mysql_legs) = MysqlSpec.sample_front ∧ lg_taken (ls_back mysql_legs) = MysqlSpec.sample_back.
Proof. split; vm_compute; reflexivity. Qed.

Lemma mysql_bytes_witness :
  wires (MysqlSession.n_upstream (MysqlSession.y_conn MysqlSpec.sample_final)) `prefix_of` stream mysql_client.
Proof.
  refine (proj1 (mysql_bytes "p1" (DecisionsOk0 := MysqlSpec.mysql_decisions) mysql_client mysql_upstream mysql_schedule mysql_legs true
           [MysqlSpec.sample_answers; MysqlSpec.sample_answers] MysqlSpec.mysql_service [] MysqlSpec.sample_final true _ _ _ _)).
  - vm_compute. reflexivity.
  - apply MysqlSpec.mysql_service_good.
  - destruct mysql_legs_taken as [-> ->]. apply MysqlSpec.sample_rely.
  - vm_compute. reflexivity.
Defined.

(** A session that ends while the client's pump has a frame in its channel and another
    in hand, and the upstream's pump reads. *)
Definition cut_schedule : list pumping := [PFront Read; PFront Send; PFront Read; Return].
Definition cut_legs : legs chunks PgWire.frame :=
  default (start_pumps pg_client pg_upstream) (legs_run cut_schedule (start_pumps pg_client pg_upstream)).
Definition cut_rest : list pumping := [PBack Read; PBack Send; Defer; PFront Quit; Defer; Defer; PBack ReadClosed; Defer].
Definition left_legs : legs chunks PgWire.frame := default cut_legs (legs_run cut_rest cut_legs).

Lemma pumps_join_witness : (own_steps cut_rest ≤ 12)%nat ∧ joined left_legs.
Proof.
  destruct (pumps_join pg_client pg_upstream cut_schedule cut_legs cut_rest left_legs) as (Hs & [[_ Hj]|[Hn _]]).
  - vm_compute. reflexivity.
  - vm_compute. discriminate.
  - vm_compute. reflexivity.
  - exact (conj Hs Hj).
  - exfalso. apply Hn. vm_compute. reflexivity.
Defined.
