(* ===== verification/Tcp.v ===== *)
(** * The TCP adapter (internal/proxy/tcp/server.go)

    One connection: the fault controller shared by the two pumps, the pumps as
    small steps (one blocked check, one read, one chunk choice, one write, one report
    of the bytes written each), so that the other pump and the timers may act between
    any two of them,
    and the records of serve. Any interleaving of the two pumps, the timers, the
    cancellation and the final stop is a sequence of labels. A nil dereference or
    a division by zero is [None]. *)

From S2P Require Import Prelude GoLib GoRand Config Engine Control Recorder GoIO Adapter.
Local Open Scope go_scope.

Definition client_to_upstream : string := "client_to_upstream".
Definition upstream_to_client : string := "upstream_to_client".

(** ** The fault controller *)

(** [fs_applied] and [fs_closed] count the onApply and closeBoth calls; the
    timers are armed or not. *)
Record faultState := {
  fs_fault : Fault;
  fs_active : bool;
  fs_finished : bool;
  fs_once : bool;
  fs_timer : bool;
  fs_hold : bool;
  fs_applied : nat;
  fs_closed : nat
}.

Definition newFault (f : Fault) : faultState :=
  {| fs_fault := f; fs_active := false; fs_finished := false; fs_once := false; fs_timer := false;
     fs_hold := false; fs_applied := 0; fs_closed := 0 |}.

Definition activate (s : faultState) : option faultState :=
  if fs_once s then Some s
  else if fs_finished s then
    Some {| fs_fault := fs_fault s; fs_active := fs_active s; fs_finished := true; fs_once := true;
            fs_timer := fs_timer s; fs_hold := fs_hold s; fs_applied := fs_applied s;
            fs_closed := fs_closed s |}
  else
    let hold := f_Action (fs_fault s) =s "hold" in
    if hold && negb (bool_decide (is_Some (f_MaxDuration (fs_fault s)))) then None
    else
      Some {| fs_fault := fs_fault s; fs_active := true; fs_finished := false; fs_once := true;
              fs_timer := fs_timer s; fs_hold := hold || fs_hold s;
              fs_applied := S (fs_applied s);
              fs_closed := if f_Action (fs_fault s) =s "close_connection"
                           then S (fs_closed s) else fs_closed s |}.

Definition start (s : faultState) : option faultState :=
  match f_AfterDuration (fs_fault s), f_AfterBytes (fs_fault s) with
  | Some _, _ =>
      Some {| fs_fault := fs_fault s; fs_active := fs_active s; fs_finished := fs_finished s;
              fs_once := fs_once s; fs_timer := true; fs_hold := fs_hold s;
              fs_applied := fs_applied s; fs_closed := fs_closed s |}
  | None, None => activate s
  | None, Some n => if n =? 0 then activate s else Some s
  end.

Definition stop (s : faultState) : faultState :=
  {| fs_fault := fs_fault s; fs_active := fs_active s; fs_finished := true; fs_once := fs_once s;
     fs_timer := false; fs_hold := false; fs_applied := fs_applied s; fs_closed := fs_closed s |}.

(** The callback of the hold timer. *)
Definition hold_expired (s : faultState) : option faultState :=
  if fs_hold s then
    Some {| fs_fault := fs_fault s; fs_active := fs_active s; fs_finished := fs_finished s;
            fs_once := fs_once s; fs_timer := fs_timer s; fs_hold := false;
            fs_applied := fs_applied s; fs_closed := S (fs_closed s) |}
  else None.

Definition reachedBytes (direction : string) (count : Z) (s : faultState) : option faultState :=
  match f_AfterBytes (fs_fault s) with
  | Some n => if (f_TriggerDirection (fs_fault s) =s direction) && (n <=? count) then activate s else Some s
  | None => Some s
  end.

Definition blocked (direction : string) (s : faultState) : bool :=
  fs_active s && (f_Action (fs_fault s) =s "hold") && (f_Direction (fs_fault s) =s direction).

(** pace: [Some None] returns at once, [Some (Some d)] waits [d] nanoseconds
    unless the context is cancelled first. *)
Definition pace (direction : string) (n : Z) (s : faultState) : option (option Z) :=
  if negb (fs_active s) || negb (f_Action (fs_fault s) =s "throttle") ||
     negb (f_Direction (fs_fault s) =s direction) then Some None
  else
    match f_BytesPerSecond (fs_fault s) with
    | None => None
    | Some rate => if rate =? 0 then None else Some (Some (Z.quot (i64 (n * 1000000000)) rate))
    end.

(** ** Pumps *)

(** Where a pump is: [PWrote payload readErr progressed failed] is after a write and
    before reachedBytes, with the payload still to send; [PCheck] before the blocked
    check that follows. *)
Inductive pumpPC :=
| PTop
| PHeld
| PRead
| PWrite (payload : bytes) (readErr : bool)
| PChunk (chunk payload : bytes) (readErr : bool)
| PWrote (payload : bytes) (readErr progressed failed : bool)
| PCheck (payload : bytes) (readErr : bool)
| PAfter (readErr : bool)
| PDone.

Record pump := {
  pm_pc : pumpPC;
  pm_count : Z;
  pm_read : bytes;
  pm_sent : bytes
}.

Definition new_pump : pump := {| pm_pc := PTop; pm_count := 0; pm_read := []; pm_sent := [] |}.

Definition set_pc (pc : pumpPC) (p : pump) : pump :=
  {| pm_pc := pc; pm_count := pm_count p; pm_read := pm_read p; pm_sent := pm_sent p |}.

(** What a step of the pump is told: a read's data and error, whether pacing was
    interrupted, a write's count and error, the context's state. *)
Record pump_input := {
  in_data : bytes;
  in_err : bool;
  in_interrupted : bool;
  in_written : nat;
  in_write_err : bool;
  in_cancelled : bool
}.

Definition buffer_size : nat := 4096.

Definition is_blocked (direction : string) (f : option faultState) : bool :=
  match f with Some s => blocked direction s | None => false end.

(** The chunk of a payload: cut at the byte trigger, and at 1 KiB when throttling. *)
Definition chunk_of (direction : string) (f : option faultState) (count : Z) (payload : bytes) : bytes :=
  match f with
  | None => payload
  | Some s =>
      let chunk :=
        match f_AfterBytes (fs_fault s) with
        | Some n =>
            if (f_TriggerDirection (fs_fault s) =s direction) && negb (fs_active s) then
              let remaining := n - count in
              if (0 <? remaining) && (remaining <? Z.of_nat (length payload))
              then take (Z.to_nat remaining) payload else payload
            else payload
        | None => payload
        end in
      if bool_decide (1024 < length chunk)%nat && (f_Action (fs_fault s) =s "throttle")
      then take 1024 chunk else chunk
  end.

Definition pump_step (direction : string) (i : pump_input) (f : option faultState) (p : pump) :
    option (option faultState * pump) :=
  match pm_pc p with
  | PTop => Some (f, set_pc (if is_blocked direction f then PHeld else PRead) p)
  | PHeld => Some (f, set_pc PDone p)
  | PRead =>
      let data := take buffer_size (in_data i) in
      let p := {| pm_pc := pm_pc p; pm_count := pm_count p; pm_read := pm_read p ++ data;
                  pm_sent := pm_sent p |} in
      match data with
      | [] => Some (f, set_pc (PAfter (in_err i)) p)
      | _ => Some (f, set_pc (if is_blocked direction f then PTop else PWrite data (in_err i)) p)
      end
  | PWrite payload err =>
      match payload with
      | [] => Some (f, set_pc (PAfter err) p)
      | _ => Some (f, set_pc (PChunk (chunk_of direction f (pm_count p) payload) payload err) p)
      end
  | PChunk chunk payload err =>
      pause ← match f with Some s => pace direction (Z.of_nat (length chunk)) s | None => Some None end;
      if bool_decide (is_Some pause) && in_interrupted i then Some (f, set_pc PDone p)
      else
        let written := min (in_written i) (length chunk) in
        Some (f, {| pm_pc := PWrote (drop written payload) err (bool_decide (0 < written)%nat)
                               (in_write_err i || bool_decide (written = 0)%nat);
                    pm_count := i64 (pm_count p + Z.of_nat written);
                    pm_read := pm_read p; pm_sent := pm_sent p ++ take written chunk |})
  | PWrote payload err progressed failed =>
      f ← match f with
          | Some s => if progressed then Some <$> reachedBytes direction (pm_count p) s else Some (Some s)
          | None => Some None
          end;
      Some (f, set_pc (if failed then PDone else PCheck payload err) p)
  | PCheck payload err => Some (f, set_pc (if is_blocked direction f then PAfter err else PWrite payload err) p)
  | PAfter err => Some (f, set_pc (if err || in_cancelled i then PDone else PTop) p)
  | PDone => Some (f, p)
  end.

(** ** A connection *)

Record flow := {
  fl_fault : option faultState;
  fl_client : pump;
  fl_upstream : pump
}.

(** A step of either pump, the AfterDuration timer's callback (activate; it may
    still run when Stop is too late), the hold timer's, and the deferred stop
    once both pumps have returned. *)
Inductive tlabel :=
| LClient (i : pump_input)
| LUpstream (i : pump_input)
| LTimer
| LHoldExpired
| LStop.

Definition tcp_step (l : tlabel) (x : flow) : option flow :=
  match l with
  | LClient i =>
      '(f, p) ← pump_step client_to_upstream i (fl_fault x) (fl_client x);
      Some {| fl_fault := f; fl_client := p; fl_upstream := fl_upstream x |}
  | LUpstream i =>
      '(f, p) ← pump_step upstream_to_client i (fl_fault x) (fl_upstream x);
      Some {| fl_fault := f; fl_client := fl_client x; fl_upstream := p |}
  | LTimer =>
      s ← fl_fault x;
      s ← (if bool_decide (is_Some (f_AfterDuration (fs_fault s))) then activate s else None);
      Some {| fl_fault := Some s; fl_client := fl_client x; fl_upstream := fl_upstream x |}
  | LHoldExpired =>
      s ← fl_fault x;
      s ← hold_expired s;
      Some {| fl_fault := Some s; fl_client := fl_client x; fl_upstream := fl_upstream x |}
  | LStop =>
      match pm_pc (fl_client x), pm_pc (fl_upstream x) with
      | PDone, PDone =>
          Some {| fl_fault := stop <$> fl_fault x; fl_client := fl_client x; fl_upstream := fl_upstream x |}
      | _, _ => None
      end
  end.

Fixpoint tcp_run (ls : list tlabel) (x : flow) : option flow :=
  match ls with
  | [] => Some x
  | l :: rest => x ← tcp_step l x; tcp_run rest x
  end.

(** forward, from the controller newFault and start leave. *)
Definition begin_flow (f : option Fault) : option flow :=
  match f with
  | None => Some {| fl_fault := None; fl_client := new_pump; fl_upstream := new_pump |}
  | Some f =>
      s ← start (newFault f);
      Some {| fl_fault := Some s; fl_client := new_pump; fl_upstream := new_pump |}
  end.

(** ** Waiting before the dial *)

Definition prefetch_size : Z := Z.shiftl 16 10.

(** waitBeforeDial: successive reads (data and, for an error, whether it is a
    timeout) until the buffer is full or the read deadline passes; [cancelled] is
    ctx.Err() != nil where it is looked at. [None] is an error. *)
Fixpoint waitBeforeDial (reads : list (bytes * option bool)) (buffer : bytes) (cancelled : bool) :
    option bytes :=
  if prefetch_size <=? Z.of_nat (length buffer) then
    if cancelled then None else Some buffer
  else
    match reads with
    | [] => None
    | (data, err) :: rest =>
        let buffer := buffer ++ take (Z.to_nat (Z.min 4096 (prefetch_size - Z.of_nat (length buffer)))) data in
        match err with
        | Some timeout => if timeout && negb cancelled then Some buffer else None
        | None => waitBeforeDial rest buffer cancelled
        end
    end.

(** ** The records of a connection *)

(** The deferred final record: [applied] is applied.Load(). *)
Definition tcp_finish_event (outcome : string) (now : Z) (applied : bool) (client upstream : Z)
    (e : Event) : Event :=
  {| ev_Info := ev_Info e; ev_Type := "flow_finished"; ev_Time := ev_Time e; ev_FlowID := ev_FlowID e;
     ev_ProxyID := ev_ProxyID e; ev_Protocol := ev_Protocol e; ev_StartedAt := ev_StartedAt e;
     ev_FinishedAt := now; ev_RuleID := ev_RuleID e; ev_EligibleSequence := ev_EligibleSequence e;
     ev_Selector := ev_Selector e; ev_Probability := ev_Probability e; ev_Nth := ev_Nth e;
     ev_Every := ev_Every e; ev_Selected := ev_Selected e; ev_Reached := applied;
     ev_Applied := applied; ev_NotReached := ev_Selected e && negb applied; ev_Phase := ev_Phase e;
     ev_Action := ev_Action e; ev_Outcome := outcome; ev_ErrorKind := ev_ErrorKind e;
     ev_CommitConfirmed := ev_CommitConfirmed e; ev_GRPCStatus := ev_GRPCStatus e;
     ev_UpstreamStatus := ev_UpstreamStatus e; ev_Operation := ev_Operation e;
     ev_ClientBytes := client; ev_UpstreamBytes := upstream;
     ev_Changed := ev_Changed e; ev_Counters := ev_Counters e |}.

(** What serve meets: the result of waitBeforeDial (asked only for a selected
    delay_connect), whether the dial succeeded, the connection when forward has
    returned and, as a timer may still fire in between, when the deferred stop
    has run. *)
Record served := {
  sv_wait : option bytes;
  sv_dialled : bool;
  sv_flow : flow;
  sv_stopped : flow;
  sv_end : Z
}.

Definition delays_connect (d : Decision) : bool :=
  dc_Selected d && (f_Action (dc_Fault d) =s "delay_connect").

(** serve: the records in order, for the decision [d] taken first. *)
Definition serve (info : Info) (flow pid : string) (now : Z) (d : Decision) (v : served) : list Event :=
  let e0 := start_event info flow pid "tcp" now in
  let e := decision_event d false e0 in
  let client := pm_count (fl_client (sv_stopped v)) in
  let upstream := pm_count (fl_upstream (sv_stopped v)) in
  let head := [e0; e] in
  if delays_connect d && negb (bool_decide (is_Some (sv_wait v))) then
    head ++ [tcp_finish_event "client_closed" (sv_end v) false 0 0 e]
  else
    let delayed := if delays_connect d then [applied_event e] else [] in
    if negb (sv_dialled v) then
      head ++ delayed ++ [tcp_finish_event "dial_error" (sv_end v) (delays_connect d) 0 0 e]
    else if negb (dc_Selected d) || delays_connect d then
      head ++ delayed ++ [tcp_finish_event "forwarded" (sv_end v) (delays_connect d) client upstream e]
    else
      let active := default false (fs_active <$> fl_fault (sv_flow v)) in
      let s := default (newFault (dc_Fault d)) (fl_fault (sv_stopped v)) in
      head ++ repeat (applied_event e) (fs_applied s) ++
      [tcp_finish_event (if active then f_Action (dc_Fault d) else "forwarded") (sv_end v)
         (bool_decide (0 < fs_applied s)%nat) client upstream e].
