(* ===== verification/TcpSpec.v ===== *)
(** * Correctness of the TCP adapter

    For every interleaving of the pumps, timers, and shutdown: bytes pass
    unchanged and in order, a fault is applied at most once, and a byte trigger
    is exact. *)

From S2P Require Import Prelude GoLib GoRand Config Validate ValidateSpec Engine Control Recorder GoIO Adapter Tcp.
Local Open Scope go_scope.

(** ** The controller *)

(** Validation's guarantee, through which no controller call panics. *)
Definition transfer_fault (f : Fault) : Prop := tcp_fault f ∧ f_Phase f = TCPOnTransfer.

Record ctl_ok (s : faultState) : Prop := {
  ctl_fault : transfer_fault (fs_fault s);
  ctl_applied : fs_applied s = if fs_active s then 1%nat else 0%nat;
  ctl_once : fs_active s = true → fs_once s = true;
  ctl_fresh : fs_once s = true → fs_active s = true ∨ fs_finished s = true
}.

Lemma hold_duration f : transfer_fault f → f_Action f = "hold" → is_Some (f_MaxDuration f).
Proof. by intros [[]] Ha. Qed.

Lemma activate_ok s :
  ctl_ok s → ∃ s', activate s = Some s' ∧ ctl_ok s' ∧ fs_fault s' = fs_fault s ∧
    fs_once s' = true ∧ fs_finished s' = fs_finished s ∧
    (fs_active s = true → fs_active s' = true) ∧
    fs_active s' = (if fs_once s || fs_finished s then fs_active s else true).
Proof.
  intros Hs. pose proof Hs as [Hf Ha Ho Hn]. unfold activate. destruct (fs_once s) eqn:Eo; cbn [orb].
  { exists s. split_and!; try done. }
  destruct (fs_finished s) eqn:Ef.
  { eexists. split; [done|]. cbn. split_and!; try done. split; cbn; try done. by right. }
  destruct (str_eq (f_Action (fs_fault s)) "hold" && _) eqn:Eh.
  { bool_hyps. exfalso. match goal with H : ¬ is_Some _ |- _ => apply H end. by apply hold_duration. }
  eexists. split; [done|]. cbn. split_and!; try done. split; cbn; try done; [|by left].
  assert (fs_active s = false) as Hi by (destruct (fs_active s); [by specialize (Ho eq_refl)|done]).
  by rewrite Ha, Hi.
Qed.

Lemma reachedBytes_ok dir n s :
  ctl_ok s → ∃ s', reachedBytes dir n s = Some s' ∧ ctl_ok s' ∧ fs_fault s' = fs_fault s ∧
    fs_finished s' = fs_finished s ∧ (fs_active s = true → fs_active s' = true).
Proof.
  intros Hs. unfold reachedBytes. destruct (f_AfterBytes _); [|by exists s].
  destruct (_ && _); [|by exists s].
  destruct (activate_ok s Hs) as (s' & ? & ? & ? & ? & ? & ? & ?). by exists s'.
Qed.

Lemma pace_ok dir n s : transfer_fault (fs_fault s) → is_Some (pace dir n s).
Proof.
  intros [Hf Hp]. unfold pace. destruct (_ || _) eqn:E; [eauto|]. bool_hyps.
  destruct Hf; simplify_eq/=; try done. rewrite (proj2 (Z.eqb_neq _ 0)) by lia. eauto.
Qed.

Lemma start_ok f : transfer_fault f → ∃ s, start (newFault f) = Some s ∧ ctl_ok s ∧ fs_fault s = f ∧
  fs_finished s = false.
Proof.
  intros Hf. assert (ctl_ok (newFault f)) as Hn by (by split).
  destruct (activate_ok _ Hn) as (s' & Hs & Hok & Hff & _ & Hfi & _).
  unfold start. cbn [newFault fs_fault] in *.
  destruct (f_AfterDuration f); [|destruct (f_AfterBytes f) as [n|]; [destruct (n =? 0)|]];
    try (exists s'; done); eexists; (split; [done|]); by split.
Qed.

(** ** Pumps *)

(** Bytes read and not yet written. *)
Definition pending (p : pump) : bytes :=
  match pm_pc p with PWrite payload _ | PChunk _ payload _ | PWrote payload _ _ _ | PCheck payload _ => payload | _ => [] end.

(** The pump writes nothing more. *)
Definition quiet (p : pump) : bool :=
  match pm_pc p with PTop | PHeld | PAfter _ | PDone => true | _ => false end.

Definition chunk_ok (p : pump) : Prop :=
  match pm_pc p with PChunk chunk payload _ => chunk `prefix_of` payload | _ => True end.

(** Nothing is lost or reordered: what was written and what is in hand is what
    was read, until the pump is done or its direction is held. *)
Record pump_ok (dir : string) (f : option faultState) (p : pump) : Prop := {
  pk_count : pm_count p = i64 (Z.of_nat (length (pm_sent p)));
  pk_chunk : chunk_ok p;
  pk_bytes : pm_sent p ++ pending p = pm_read p ∨
             pm_sent p `prefix_of` pm_read p ∧
             (pm_pc p = PDone ∨ is_blocked dir f = true ∧ quiet p = true)
}.

Definition fault_ok (f : option faultState) : Prop :=
  match f with Some s => ctl_ok s | None => True end.

(** What any step does to the shared controller. *)
Definition evolves (f f' : option faultState) : Prop :=
  match f, f' with
  | Some s, Some s' => fs_fault s' = fs_fault s ∧ (fs_active s = true → fs_active s' = true)
  | None, None => True
  | _, _ => False
  end.

Lemma evolves_refl f : evolves f f.
Proof. by destruct f. Qed.

Lemma evolves_blocked dir f f' : evolves f f' → is_blocked dir f = true → is_blocked dir f' = true.
Proof.
  destruct f as [s|], f' as [s'|]; cbn; try done. intros [Hf Ha]. unfold blocked. rewrite Hf.
  intros Hb. bool_hyps. rewrite Ha by done.
  repeat match goal with H : f_Action _ = _ |- _ => rewrite H; clear H | H : f_Direction _ = _ |- _ => rewrite H; clear H end.
  by rewrite !str_eq_refl.
Qed.

Lemma pump_ok_evolves dir f f' p : evolves f f' → pump_ok dir f p → pump_ok dir f' p.
Proof.
  intros He [Hc Hk Hb]. split; try done. destruct Hb as [?|[Hp [?|[Hbl Hq]]]]; [by left|right; auto|].
  right. split; [done|]. right. split; [by eapply evolves_blocked|done].
Qed.

Lemma chunk_of_prefix dir f n payload : chunk_of dir f n payload `prefix_of` payload.
Proof.
  unfold chunk_of. destruct f as [s|]; [|done]. cbv zeta. set (chunk := match f_AfterBytes (fs_fault s) with Some _ => _ | None => _ end).
  assert (chunk `prefix_of` payload) as Hc.
  { subst chunk. destruct (f_AfterBytes _); [|done]. destruct (str_eq _ _ && _); [|done].
    destruct (_ && _); [|done]. apply prefix_take. }
  clearbody chunk. destruct (_ && _); [etrans; [apply prefix_take|exact Hc]|exact Hc].
Qed.

Lemma i64_add_l a b : i64 (i64 a + b) = i64 (a + b).
Proof.
  unfold i64. f_equal.
  replace ((a + 2 ^ 63) mod 2 ^ 64 - 2 ^ 63 + b + 2 ^ 63) with ((a + 2 ^ 63) mod 2 ^ 64 + b) by lia.
  rewrite Z.add_mod_idemp_l by lia. f_equal. lia.
Qed.

(** The controller's reaction to a write. *)
Lemma reached_option dir n f (w : bool) :
  fault_ok f →
  ∃ f', match f with
        | Some s => if w then Some <$> reachedBytes dir n s else Some (Some s)
        | None => Some None
        end = Some f' ∧ fault_ok f' ∧ evolves f f'.
Proof.
  destruct f as [s|]; [|by exists None]. intros Hs. destruct w; [|by exists (Some s)].
  destruct (reachedBytes_ok dir n s Hs) as (s' & -> & Hok & Hf & _ & Ha). by exists (Some s').
Qed.

(** The write of a chunk. *)
Lemma chunk_step_ok dir i f p chunk payload err :
  fault_ok f → pump_ok dir f p → pm_pc p = PChunk chunk payload err →
  ∃ f' p', pump_step dir i f p = Some (f', p') ∧ fault_ok f' ∧ evolves f f' ∧ pump_ok dir f' p'.
Proof.
  intros Hf Hp Epc. pose proof Hp as [Hc Hk Hb]. unfold pump_step. unfold chunk_ok, pending, quiet in *.
  rewrite Epc in *.
  destruct Hb as [Hb|[_ [?|[_ ?]]]]; [|done|done].
  assert (is_Some match f with Some s => pace dir (Z.of_nat (length chunk)) s | None => Some None end) as [pause ->].
  { destruct f as [s|]; [|eauto]. apply pace_ok, Hf. }
  cbn [mbind option_bind].
  assert (pm_sent p `prefix_of` pm_read p) as Hpre by (rewrite <- Hb; by apply prefix_app_r).
  destruct (_ && in_interrupted i).
  { eexists _, _. split; [done|]. split_and!; [done|apply evolves_refl|]. split; cbn; auto. }
  cbv zeta. set (w := min (in_written i) (length chunk)).
  assert (take w chunk = take w payload) as Htk.
  { destruct Hk as [rest ->]. rewrite take_app_le; [done|]. subst w. lia. }
  eexists _, _. split; [done|]. split_and!; [done|apply evolves_refl|]. split; cbn.
  - rewrite length_app, length_take, Nat.min_l by (subst w; lia). rewrite Hc, i64_add_l. f_equal. lia.
  - done.
  - left. unfold pending. cbn. by rewrite Htk, <- app_assoc, take_drop.
Qed.

(** The report of a write. *)
Lemma wrote_step_ok dir i f p payload err progressed failed :
  fault_ok f → pump_ok dir f p → pm_pc p = PWrote payload err progressed failed →
  ∃ f' p', pump_step dir i f p = Some (f', p') ∧ fault_ok f' ∧ evolves f f' ∧ pump_ok dir f' p'.
Proof.
  intros Hf [Hc Hk Hb] Epc. unfold pump_step. unfold chunk_ok, pending, quiet in *. rewrite Epc in *.
  destruct Hb as [Hb|[_ [?|[_ ?]]]]; [|done|done].
  destruct (reached_option dir (pm_count p) f progressed Hf) as (f' & -> & Hf' & Hev). cbn [mbind option_bind].
  eexists _, _. split; [done|]. split_and!; [done|done|]. destruct failed; split; cbn; try done.
  - right. split; [|by left]. rewrite <- Hb. by apply prefix_app_r.
  - by left.
Qed.

Lemma pump_step_ok dir i f p :
  fault_ok f → pump_ok dir f p →
  ∃ f' p', pump_step dir i f p = Some (f', p') ∧ fault_ok f' ∧ evolves f f' ∧ pump_ok dir f' p'.
Proof.
  intros Hf Hp. pose proof Hp as [Hc Hk Hb].
  destruct (pm_pc p) as [| | |payload err|chunk payload err|payload err pr fa|payload err|err|] eqn:Epc;
    [| | | |by eapply chunk_step_ok|by eapply wrote_step_ok| | |];
    unfold pump_step; unfold chunk_ok, pending, quiet in *; rewrite Epc in *;
    (eexists _, _; split; [done|]; split_and!; [done|apply evolves_refl|]) || cbv zeta.
  - split; cbn; [done|..].
    + by destruct (is_blocked dir f).
    + unfold pending, quiet. cbn. destruct (is_blocked dir f) eqn:Ebl; [|].
      * destruct Hb as [Hb|[Hb _]]; [left; done|right; auto].
      * destruct Hb as [Hb|[Hb [?|[??]]]]; [left; done|done|done].
  - split; cbn; [done|done|].
    right. split; [|by left]. destruct Hb as [Hb|[Hb _]]; [|done]. rewrite <- Hb. by apply prefix_app_r.
  - destruct Hb as [Hb|[_ [?|[_ ?]]]]; [|done|done]. rewrite app_nil_r in Hb.
    destruct (take buffer_size (in_data i)) as [|b data] eqn:Ed.
    + eexists _, _. split; [done|]. split_and!; [done|apply evolves_refl|]. split; cbn; [done|done|].
      left. unfold pending. cbn. by rewrite !app_nil_r.
    + eexists _, _. split; [done|]. split_and!; [done|apply evolves_refl|]. split; cbn; [done|by destruct (is_blocked dir f)|].
      unfold pending, quiet. cbn. rewrite Hb. destruct (is_blocked dir f); [right; split; [by apply prefix_app_r|auto]|by left].
  - destruct Hb as [Hb|[_ [?|[_ ?]]]]; [|done|done]. destruct payload as [|b payload].
    + eexists _, _. split; [done|]. split_and!; [done|apply evolves_refl|]. split; cbn; [done|done|by left].
    + eexists _, _. split; [done|]. split_and!; [done|apply evolves_refl|]. split; cbn; [done| |by left].
      apply chunk_of_prefix.
  - destruct Hb as [Hb|[_ [?|[_ ?]]]]; [|done|done]. split; cbn; [done|by destruct (is_blocked dir f)|].
    unfold pending, quiet. cbn. destruct (is_blocked dir f) eqn:Ebl; [|by left]. right. split; [|by auto]. rewrite <- Hb. by apply prefix_app_r.
  - split; cbn; [done|by destruct (_ || _)|].
    unfold pending, quiet. cbn. destruct Hb as [Hb|[Hb [?|[??]]]]; [|done|].
    + left. by destruct (_ || _).
    + right. split; [done|]. right. split; [done|]. by destruct (_ || _).
  - done.
Qed.

(** ** Whole connections *)

Record flow_ok (x : flow) : Prop := {
  fo_fault : fault_ok (fl_fault x);
  fo_client : pump_ok client_to_upstream (fl_fault x) (fl_client x);
  fo_upstream : pump_ok upstream_to_client (fl_fault x) (fl_upstream x)
}.

Lemma fault_ok_change s s' :
  ctl_ok s → fs_fault s' = fs_fault s → fs_active s' = fs_active s → fs_applied s' = fs_applied s →
  fs_once s' = fs_once s → (fs_finished s = true → fs_finished s' = true) → ctl_ok s'.
Proof.
  intros [Hf Ha Ho Hn] E1 E2 E3 E4 E5. split; rewrite ?E1, ?E2, ?E3, ?E4; try done.
  intros H. destruct (Hn H); auto.
Qed.

Lemma tcp_step_ok l x x' : flow_ok x → tcp_step l x = Some x' → flow_ok x' ∧ evolves (fl_fault x) (fl_fault x').
Proof.
  intros [Hf Hc Hu] Hs. destruct l as [i|i| | |]; cbn [tcp_step] in Hs.
  - destruct (pump_step_ok client_to_upstream i _ _ Hf Hc) as (f' & p' & E & Hf' & He & Hp').
    rewrite E in Hs. injection Hs as <-. split; [|done]. split; [done|done|by eapply pump_ok_evolves].
  - destruct (pump_step_ok upstream_to_client i _ _ Hf Hu) as (f' & p' & E & Hf' & He & Hp').
    rewrite E in Hs. injection Hs as <-. split; [|done]. split; [done|by eapply pump_ok_evolves|done].
  - apply bind_Some in Hs as (s & Es & Hs). apply bind_Some in Hs as (s' & Es' & [= <-]).
    rewrite Es in *. case_bool_decide; [|done]. destruct (activate_ok s Hf) as (s1 & E & Hok & Hff & _ & _ & Hact & _).
    rewrite E in Es'. injection Es' as <-. cbn. assert (evolves (Some s) (Some s1)) as He by done.
    split; [|done]. split; [done|by eapply pump_ok_evolves|by eapply pump_ok_evolves].
  - apply bind_Some in Hs as (s & Es & Hs). apply bind_Some in Hs as (s' & Es' & [= <-]).
    rewrite Es in *. unfold hold_expired in Es'. destruct (fs_hold s); [|done]. injection Es' as <-.
    cbn [fl_fault]. split; [|by cbn]. split; cbn [fl_fault fl_client fl_upstream].
    + by eapply fault_ok_change.
    + eapply pump_ok_evolves; [|done]. by cbn.
    + eapply pump_ok_evolves; [|done]. by cbn.
  - destruct (pm_pc (fl_client x)), (pm_pc (fl_upstream x)); try done. injection Hs as <-. cbn [fl_fault].
    destruct (fl_fault x) as [s|]; cbn [fmap option_fmap option_map] in *.
    + assert (evolves (Some s) (Some (stop s))) as He by (by cbn).
      split; [|done]. split; [by eapply fault_ok_change|by eapply pump_ok_evolves|by eapply pump_ok_evolves].
    + by split.
Qed.

Lemma tcp_run_ok ls x x' :
  flow_ok x → tcp_run ls x = Some x' → flow_ok x' ∧ evolves (fl_fault x) (fl_fault x').
Proof.
  revert x. induction ls as [|l ls IH]; intros x Hx Hr; cbn [tcp_run] in Hr.
  { injection Hr as <-. split; [done|apply evolves_refl]. }
  apply bind_Some in Hr as (x1 & H1 & Hr). destruct (tcp_step_ok _ _ _ Hx H1) as [Hx1 He1].
  destruct (IH _ Hx1 Hr) as [Hx' He']. split; [done|].
  destruct (fl_fault x), (fl_fault x1), (fl_fault x'); try done. cbn in *.
  destruct He1 as [E1 ?], He' as [E2 ?]. split; [congruence|auto].
Qed.

Definition transfer_option (f : option Fault) : Prop :=
  match f with Some f => transfer_fault f | None => True end.

Lemma begin_flow_ok f : transfer_option f → ∃ x, begin_flow f = Some x ∧ flow_ok x ∧ fs_fault <$> fl_fault x = f.
Proof.
  intros Hf. assert (∀ g dir, pump_ok dir g new_pump) as Hp by (intros; split; [done|done|by left]).
  destruct f as [f|]; cbn.
  - destruct (start_ok f Hf) as (s & -> & Hok & Hff & _). cbn. eexists. split; [done|]. split; [by split|].
    cbn. by rewrite Hff.
  - eexists. split; [done|]. split; [by split|done].
Qed.

(** C28. TCP forwarding: for any validated transfer fault or none, in every
    interleaving of the pumps, timers and shutdown, no pump step panics; each
    direction has delivered a prefix of the bytes it read, in order and
    unchanged, and counted exactly them; the fault is applied at most once, and
    only when it became active. *)
Theorem tcp_faithful (f : option Fault) (ls : list tlabel) (x0 x : flow)
    (Hf : transfer_option f) (H0 : begin_flow f = Some x0) (Hr : tcp_run ls x0 = Some x) :
  (∀ i, is_Some (tcp_step (LClient i) x) ∧ is_Some (tcp_step (LUpstream i) x)) ∧
  pm_sent (fl_client x) `prefix_of` pm_read (fl_client x) ∧
  pm_count (fl_client x) = i64 (Z.of_nat (length (pm_sent (fl_client x)))) ∧
  pm_sent (fl_upstream x) `prefix_of` pm_read (fl_upstream x) ∧
  pm_count (fl_upstream x) = i64 (Z.of_nat (length (pm_sent (fl_upstream x)))) ∧
  ∀ s, fl_fault x = Some s → fs_applied s = if fs_active s then 1%nat else 0%nat.
Proof.
  destruct (begin_flow_ok f Hf) as (x1 & H1 & Hok & _). rewrite H0 in H1. injection H1 as <-.
  destruct (tcp_run_ok ls x0 x Hok Hr) as [[Hfo Hc Hu] _].
  assert (∀ dir p, pump_ok dir (fl_fault x) p → pm_sent p `prefix_of` pm_read p) as Hpre.
  { intros dir p [_ _ [Hb|[Hb _]]]; [|done]. rewrite <- Hb. by apply prefix_app_r. }
  split_and!; try (by eapply Hpre); try apply Hc; try apply Hu.
  - intros i. split; cbn [tcp_step].
    + destruct (pump_step_ok client_to_upstream i _ _ Hfo Hc) as (f' & p' & -> & _). cbn. eauto.
    + destruct (pump_step_ok upstream_to_client i _ _ Hfo Hu) as (f' & p' & -> & _). cbn. eauto.
  - intros s Es. rewrite Es in Hfo. apply Hfo.
Qed.

(** ** Byte triggers *)

Section trigger.
Context (dir : string) (n : Z).

(** A fault triggered by [n] bytes in direction [dir], and no timer. *)
Definition triggered (f : Fault) : Prop :=
  f_AfterBytes f = Some n ∧ f_TriggerDirection f = dir ∧ f_AfterDuration f = None.

Definition holds_here (f : Fault) : bool := (f_Action f =s "hold") && (f_Direction f =s dir).

Definition sent_len (p : pump) : Z := Z.of_nat (length (pm_sent p)).

(** Between a write and the report of it, which the pump makes in its next step. *)
Definition reporting (p : pump) : bool := match pm_pc p with PWrote _ _ progressed _ => progressed | _ => false end.

(** The pump writes nothing more once its direction is held. *)
Definition settled (p : pump) : bool := match pm_pc p with PCheck _ _ => true | _ => quiet p end.

(** Before activation fewer than [n] bytes were delivered and the chunk in hand
    does not go beyond; activation happens at [n]; a held direction stays there. *)
Record trig_ok (s : faultState) (p : pump) : Prop := {
  tr_before : fs_active s = false → fs_finished s = false →
    fs_once s = false ∧ sent_len p ≤ n ∧ (reporting p = false → sent_len p < n) ∧
    match pm_pc p with PChunk c _ _ => sent_len p + Z.of_nat (length c) ≤ n | _ => True end;
  tr_after : fs_active s = true → n ≤ sent_len p;
  tr_hold : fs_active s = true → holds_here (fs_fault s) = true → sent_len p = n ∧ settled p = true;
  tr_finished : fs_finished s = true → pm_pc p = PDone ∧ (fs_active s = false → sent_len p < n)
}.

Lemma chunk_of_bound s count payload :
  triggered (fs_fault s) → fs_active s = false → count < n →
  Z.of_nat (length (chunk_of dir (Some s) count payload)) ≤ n - count.
Proof.
  intros (Hb & Hd & _) Ha Hc. unfold chunk_of. rewrite Hb, Hd, str_eq_refl, Ha. cbn [negb andb]. cbv zeta.
  set (chunk := if (0 <? n - count) && _ then _ else _).
  assert (Z.of_nat (length chunk) ≤ n - count).
  { subst chunk. destruct (Z.ltb_spec 0 (n - count)); [|lia]. cbn [andb].
    destruct (Z.ltb_spec (n - count) (Z.of_nat (length payload))); [|lia]. rewrite length_take. lia. }
  destruct (bool_decide _ && _); [rewrite length_take|]; lia.
Qed.

Lemma reachedBytes_trigger s count :
  ctl_ok s → triggered (fs_fault s) → fs_active s = false → fs_finished s = false → fs_once s = false →
  ∃ s', reachedBytes dir count s = Some s' ∧ fs_active s' = (n <=? count) ∧
    fs_once s' = (n <=? count) ∧ fs_finished s' = false ∧ fs_fault s' = fs_fault s.
Proof.
  intros Hs (Hb & Hd & _) Ha Hf Ho. unfold reachedBytes. rewrite Hb, Hd, str_eq_refl. cbn [andb].
  destruct (n <=? count); [|by exists s].
  destruct (activate_ok s Hs) as (s' & -> & _ & ? & ? & ? & _ & Hact). exists s'.
  rewrite Ho, Hf in Hact. cbn in Hact. split_and!; congruence.
Qed.

Lemma reachedBytes_active s d count :
  fs_once s = true → reachedBytes d count s = Some s.
Proof.
  intros Ho. unfold reachedBytes, activate. rewrite Ho. destruct (f_AfterBytes _); [|done]. by destruct (_ && _).
Qed.

Lemma blocked_here s : fs_active s = true → holds_here (fs_fault s) = true → blocked dir s = true.
Proof. unfold holds_here, blocked. intros Ha Hh. rewrite Ha. exact Hh. Qed.

Lemma busy_not_held s p :
  trig_ok s p → settled p = false → fs_active s = true → holds_here (fs_fault s) = true → False.
Proof. intros Htr Hq Ha Hh. destruct (tr_hold _ _ Htr Ha Hh) as [_ Hq']. congruence. Qed.

Lemma busy_running s p : trig_ok s p → pm_pc p ≠ PDone → fs_finished s = false.
Proof. intros Htr Hq. destruct (fs_finished s) eqn:Ef; [|done]. by destruct (tr_finished _ _ Htr Ef) as [Hd _]. Qed.

(** A step that writes nothing and takes no chunk in hand. *)
Lemma trig_move s p p' :
  trig_ok s p → pm_sent p' = pm_sent p → reporting p = false →
  match pm_pc p' with PChunk _ _ _ | PWrote _ _ _ _ => False | _ => True end →
  (fs_active s = true → holds_here (fs_fault s) = true → settled p = true → settled p' = true) →
  (pm_pc p = PDone → pm_pc p' = PDone) → trig_ok s p'.
Proof.
  intros [Hbef Haft Hhold Hfin] Es Hrep Hpc Hq Hd. assert (sent_len p' = sent_len p) as El by (unfold sent_len; by rewrite Es).
  split; rewrite ?El.
  - intros Ha Hf. destruct (Hbef Ha Hf) as (? & ? & Hlt & _). split_and!; try done; [auto|]. by destruct (pm_pc p').
  - done.
  - intros Ha Hh. destruct (Hhold Ha Hh) as [? ?]. auto.
  - intros Hf. destruct (Hfin Hf). auto.
Qed.

(** The write of a chunk in the trigger direction. *)
Lemma trig_chunk_step i s p f' p' chunk payload err :
  trig_ok s p → pm_pc p = PChunk chunk payload err → pump_step dir i (Some s) p = Some (f', p') →
  f' = Some s ∧ trig_ok s p'.
Proof.
  intros Htr Epc Hst.
  assert (settled p = false ∧ reporting p = false) as [Hq Hrep] by (unfold settled, quiet, reporting; by rewrite Epc).
  pose proof (busy_running _ _ Htr ltac:(by rewrite Epc)) as Hnf.
  unfold pump_step in Hst. rewrite Epc in Hst.
  apply bind_Some in Hst as (pause & _ & Hst). destruct (_ && in_interrupted i).
  { injection Hst as <- <-. split; [done|]. by eapply trig_move. }
  cbv zeta in Hst. set (w := min (in_written i) (length chunk)) in *. injection Hst as <- <-. split; [done|].
  set (p1 := {| pm_pc := PWrote _ _ _ _ |}).
  assert (sent_len p1 = sent_len p + Z.of_nat w) as Hl1.
  { unfold sent_len, p1. cbn [pm_sent]. rewrite length_app, length_take, Nat.min_l by (subst w; lia). lia. }
  split; rewrite ?Hl1.
  - intros Ha Hf. destruct (tr_before _ _ Htr Ha Hf) as (Ho & Hle & Hlt & Hsum). rewrite Epc in Hsum. specialize (Hlt Hrep).
    split_and!; [done|subst w; lia| |done]. unfold reporting, p1. cbn. intros Hw. bool_hyps. lia.
  - intros Ha. pose proof (tr_after _ _ Htr Ha). lia.
  - intros Ha Hh. by destruct (busy_not_held s p).
  - by rewrite Hnf.
Qed.

(** The report of a write in the trigger direction. *)
Lemma trig_wrote_step i s p f' p' payload err progressed failed :
  ctl_ok s → triggered (fs_fault s) → trig_ok s p → pm_count p = sent_len p →
  pm_pc p = PWrote payload err progressed failed → pump_step dir i (Some s) p = Some (f', p') →
  ∃ s', f' = Some s' ∧ trig_ok s' p'.
Proof.
  intros Hs Ht Htr Hcnt Epc Hst. pose proof (busy_running _ _ Htr ltac:(by rewrite Epc)) as Hnf.
  assert (settled p = false) as Hq by (unfold settled, quiet; by rewrite Epc).
  unfold pump_step in Hst. rewrite Epc in Hst. apply bind_Some in Hst as (f1 & Hre & Hst). injection Hst as <- <-.
  set (p1 := set_pc _ p). assert (sent_len p1 = sent_len p) as Hl1 by done.
  assert (reporting p1 = false ∧ settled p1 = true ∧ match pm_pc p1 with PChunk _ _ _ => False | _ => True end) as (Hr1 & Hq1 & Hc1)
    by (unfold p1; by destruct failed).
  rewrite Hcnt in Hre. destruct (fs_active s) eqn:Ea.
  - pose proof (tr_after _ _ Htr Ea). exists s. rewrite (reachedBytes_active s) in Hre by by apply Hs.
    split; [destruct progressed; cbn in Hre; congruence|]. split; rewrite ?Hl1; try done; [congruence|by intros; destruct (busy_not_held s p)|congruence].
  - destruct (tr_before _ _ Htr Ea Hnf) as (Ho & Hle & Hlt & _). unfold reporting in Hlt. rewrite Epc in Hlt. destruct progressed.
    + destruct (reachedBytes_trigger s (sent_len p) Hs Ht Ea Hnf Ho) as (s1 & Er & E1 & E2 & E3 & E4).
      rewrite Er in Hre. cbn in Hre. injection Hre as <-. exists s1. split; [done|]. split; rewrite ?Hl1, ?E1, ?E2, ?E3; try done.
      * intros Hx _. split_and!; [done|lia|lia|]. by destruct (pm_pc p1).
      * intros Hx. lia.
      * intros Hx _. split; [lia|done].
    + injection Hre as <-. exists s. split; [done|]. specialize (Hlt eq_refl). split; rewrite ?Hl1; try congruence.
      intros _ _. split_and!; [done|lia|lia|]. by destruct (pm_pc p1).
Qed.

(** A step of the pump of the trigger direction. *)
Lemma trig_step i s p f' p' :
  ctl_ok s → triggered (fs_fault s) → pump_ok dir (Some s) p → trig_ok s p →
  Z.of_nat (length (pm_read p)) < 2 ^ 63 →
  pump_step dir i (Some s) p = Some (f', p') →
  ∃ s', f' = Some s' ∧ trig_ok s' p'.
Proof.
  intros Hs Ht Hp Htr Hlen Hst.
  assert (Z.of_nat (length (pm_sent p)) ≤ Z.of_nat (length (pm_read p))) as Hsl.
  { apply inj_le, prefix_length. destruct Hp as [_ _ [Hb|[Hb _]]]; [|done]. rewrite <- Hb. by apply prefix_app_r. }
  assert (pm_count p = sent_len p) as Hcnt.
  { destruct Hp as [-> _ _]. unfold sent_len. apply i64_small. lia. }
  destruct (pm_pc p) as [| | |payload err|chunk payload err|payload err pr fa|payload err|err|] eqn:Epc;
    [| | | |exists s; by eapply trig_chunk_step|by eapply trig_wrote_step| | |];
    assert (reporting p = false) as Hrep by (unfold reporting; by rewrite Epc);
    unfold pump_step in Hst; rewrite Epc in Hst.
  - injection Hst as <- <-. exists s. split; [done|]. eapply trig_move; try done; cbn; [by destruct (blocked dir s)| |congruence].
    intros Ha Hh _. unfold settled, quiet. cbn. by rewrite (blocked_here s Ha Hh).
  - injection Hst as <- <-. exists s. split; [done|]. by eapply trig_move.
  - assert (settled p = false) as Hq by (unfold settled, quiet; by rewrite Epc).
    destruct (take buffer_size (in_data i)); injection Hst as <- <-; exists s; (split; [done|]);
      (eapply trig_move; try done; cbn; first [congruence|by destruct (blocked dir s)]).
  - assert (settled p = false) as Hq by (unfold settled, quiet; by rewrite Epc).
    destruct payload as [|b payload]; injection Hst as <- <-; exists s; (split; [done|]).
    { eapply trig_move; try done; congruence. }
    split; cbn [set_pc pm_pc]; try (by rewrite (busy_running _ _ Htr ltac:(by rewrite Epc))); try (apply (tr_after _ _ Htr)).
    + intros Ha Hf. destruct (tr_before _ _ Htr Ha Hf) as (Ho & Hle & Hl & _). specialize (Hl Hrep). split_and!; try done.
      pose proof (chunk_of_bound s (sent_len p) (b :: payload) Ht Ha Hl) as Hx. rewrite <- Hcnt in Hx at 1.
      enough (sent_len p + Z.of_nat (length (chunk_of dir (Some s) (pm_count p) (b :: payload))) ≤ n) by done.
      lia.
    + intros Ha Hh. by destruct (busy_not_held s p).
  - injection Hst as <- <-. exists s. split; [done|]. eapply trig_move; try done; cbn; [by destruct (blocked dir s)| |congruence].
    intros Ha Hh _. unfold settled, quiet. cbn. by rewrite (blocked_here s Ha Hh).
  - injection Hst as <- <-. exists s. split; [done|]. eapply trig_move; try done; cbn; [by destruct (_ || _)| |congruence].
    intros _ _ _. unfold settled, quiet. cbn. by destruct (_ || _).
  - injection Hst as <- <-. by exists s.
Qed.

(** The other direction never triggers, and reading only grows the record. *)
Lemma other_step dir' i s p f' p' :
  triggered (fs_fault s) → dir' ≠ dir → pump_step dir' i (Some s) p = Some (f', p') → f' = Some s.
Proof.
  intros (Hb & Hd & _) Hne Hst. assert (∀ c, reachedBytes dir' c s = Some s) as Hre.
  { intros c. unfold reachedBytes. rewrite Hb, Hd, (proj2 (str_eq_false dir dir')) by done. done. }
  unfold pump_step in Hst.
  destruct (pm_pc p) as [| | |payload err|chunk payload err|payload err pr fa|payload err|err|]; try (by injection Hst).
  - destruct (take _ _); by injection Hst.
  - destruct payload; by injection Hst.
  - apply bind_Some in Hst as (pause & _ & Hst). destruct (_ && in_interrupted i); by injection Hst.
  - apply bind_Some in Hst as (f1 & Hf1 & Hst). rewrite Hre in Hf1. injection Hst as <- _. destruct pr; cbn in Hf1; congruence.
Qed.

Lemma pump_step_read d i f p f' p' :
  pump_step d i f p = Some (f', p') → (length (pm_read p) ≤ length (pm_read p'))%nat.
Proof.
  intros Hst. unfold pump_step in Hst.
  destruct (pm_pc p) as [| | |payload err|chunk payload err|payload err pr fa|payload err|err|]; try (by injection Hst as <- <-).
  - destruct (take _ _); injection Hst as <- <-; cbn; rewrite length_app; lia.
  - destruct payload; by injection Hst as <- <-.
  - apply bind_Some in Hst as (pause & _ & Hst). destruct (_ && in_interrupted i); by injection Hst as <- <-.
  - apply bind_Some in Hst as (f1 & Hf1 & Hst). by injection Hst as <- <-.
Qed.

Definition pump_of (x : flow) : pump :=
  if str_eq dir client_to_upstream then fl_client x else fl_upstream x.

Lemma tcp_step_read l x x' :
  tcp_step l x = Some x' → (length (pm_read (pump_of x)) ≤ length (pm_read (pump_of x')))%nat.
Proof.
  unfold pump_of. destruct l as [i|i| | |]; cbn [tcp_step]; intros Hs.
  - apply bind_Some in Hs as ([f p] & Hp & [= <-]). apply pump_step_read in Hp. cbn. by destruct (str_eq _ _).
  - apply bind_Some in Hs as ([f p] & Hp & [= <-]). apply pump_step_read in Hp. cbn. by destruct (str_eq _ _).
  - apply bind_Some in Hs as (s & _ & Hs). by apply bind_Some in Hs as (s' & _ & [= <-]).
  - apply bind_Some in Hs as (s & _ & Hs). by apply bind_Some in Hs as (s' & _ & [= <-]).
  - destruct (pm_pc (fl_client x)), (pm_pc (fl_upstream x)); try done. by injection Hs as <-.
Qed.

Lemma tcp_run_read ls x x' :
  tcp_run ls x = Some x' → (length (pm_read (pump_of x)) ≤ length (pm_read (pump_of x')))%nat.
Proof.
  revert x. induction ls as [|l ls IH]; intros x Hr; cbn in Hr; [by injection Hr as <-|].
  apply bind_Some in Hr as (x1 & H1 & Hr). etrans; [by eapply tcp_step_read|by apply IH].
Qed.

Lemma trig_ok_same s s' p :
  trig_ok s p → fs_fault s' = fs_fault s → fs_active s' = fs_active s → fs_once s' = fs_once s →
  fs_finished s' = fs_finished s → trig_ok s' p.
Proof. intros [] E1 E2 E3 E4. split; rewrite ?E1, ?E2, ?E3, ?E4; done. Qed.

Lemma trig_flow_step l x x' s :
  tcpDirection dir = true → flow_ok x → fl_fault x = Some s → triggered (fs_fault s) →
  trig_ok s (pump_of x) → Z.of_nat (length (pm_read (pump_of x))) < 2 ^ 63 →
  tcp_step l x = Some x' → ∃ s', fl_fault x' = Some s' ∧ trig_ok s' (pump_of x').
Proof.
  intros Hdir [Hfo Hc Hu] Es Ht Htr Hlen Hs. rewrite Es in *.
  assert (dir = client_to_upstream ∨ dir = upstream_to_client) as Hd.
  { unfold tcpDirection in Hdir. apply orb_true_iff in Hdir as [H|H]; bool_hyps; auto. }
  unfold pump_of in *. destruct l as [i|i| | |]; cbn [tcp_step] in Hs; rewrite ?Es in Hs.
  - apply bind_Some in Hs as ([f p] & Hp & [= <-]). cbn [fl_fault fl_client fl_upstream].
    destruct (str_eq dir client_to_upstream) eqn:Ed; bool_hyps.
    + rewrite <- Ed in Hp, Hc. by eapply trig_step.
    + apply other_step in Hp as ->; [by exists s|done|by apply not_eq_sym].
  - apply bind_Some in Hs as ([f p] & Hp & [= <-]). cbn [fl_fault fl_client fl_upstream].
    destruct (str_eq dir client_to_upstream) eqn:Ed; bool_hyps.
    + apply other_step in Hp as ->; [by exists s|done|by rewrite Ed].
    + destruct Hd as [?|Hd]; [done|]. rewrite <- Hd in Hp, Hu. by eapply trig_step.
  - cbn [mbind option_bind] in Hs. destruct Ht as (_ & _ & Hno). by rewrite Hno in Hs.
  - cbn [mbind option_bind] in Hs. unfold hold_expired in Hs. destruct (fs_hold s); [|done].
    injection Hs as <-. cbn [fl_fault fl_client fl_upstream]. eexists. split; [done|].
    by eapply trig_ok_same.
  - destruct (pm_pc (fl_client x)) eqn:E1, (pm_pc (fl_upstream x)) eqn:E2; try done. injection Hs as <-.
    cbn [fl_fault fl_client fl_upstream fmap option_fmap option_map]. eexists. split; [done|].
    assert (pm_pc (if str_eq dir client_to_upstream then fl_client x else fl_upstream x) = PDone) as Hpc
      by by destruct (str_eq dir client_to_upstream).
    destruct Htr as [Hbef Haft Hhold Hfin]. split; cbn; try done.
    intros _. split; [done|]. intros Ha. destruct (fs_finished s) eqn:Ef; [by apply Hfin|].
    destruct (Hbef Ha eq_refl) as (_ & _ & Hlt & _). apply Hlt. unfold reporting. by rewrite Hpc.
Qed.

(** A step of the pump of this direction. *)
Definition own_step (i : pump_input) : tlabel := if str_eq dir client_to_upstream then LClient i else LUpstream i.

Lemma reporting_step i x x' :
  tcpDirection dir = true → tcp_step (own_step i) x = Some x' → reporting (pump_of x) = true →
  reporting (pump_of x') = false ∧ sent_len (pump_of x') = sent_len (pump_of x).
Proof.
  assert (∀ d f p f' p', pump_step d i f p = Some (f', p') → reporting p = true → reporting p' = false ∧ sent_len p' = sent_len p) as Hp.
  { intros d f p f' p' Hs Hr. unfold reporting in Hr. unfold pump_step in Hs. destruct (pm_pc p) as [| | | | |payload err pr fa| | |]; try done.
    apply bind_Some in Hs as (f1 & _ & Hs). injection Hs as _ <-. split; [|done]. by destruct fa. }
  intros _. unfold own_step, pump_of. destruct (str_eq dir client_to_upstream); cbn [tcp_step]; intros Hs Hr;
    apply bind_Some in Hs as ([f p] & Hs & [= <-]); by apply Hp in Hs.
Qed.
End trigger.

Lemma trig_run dir n ls x x' s :
  tcpDirection dir = true → flow_ok x → fl_fault x = Some s → triggered dir n (fs_fault s) →
  trig_ok dir n s (pump_of dir x) → tcp_run ls x = Some x' →
  Z.of_nat (length (pm_read (pump_of dir x'))) < 2 ^ 63 →
  ∃ s', fl_fault x' = Some s' ∧ trig_ok dir n s' (pump_of dir x').
Proof.
  intros Hdir. revert x s. induction ls as [|l ls IH]; intros x s Hx Es Ht Htr Hr Hlen; cbn [tcp_run] in Hr.
  { injection Hr as <-. by exists s. }
  apply bind_Some in Hr as (x1 & H1 & Hr). pose proof (tcp_run_read dir _ _ _ Hr).
  pose proof (tcp_step_read dir _ _ _ H1).
  destruct (trig_flow_step dir n l x x1 s) as (s1 & Es1 & Htr1); [done..|lia|done|].
  destruct (tcp_step_ok _ _ _ Hx H1) as [Hx1 He]. rewrite Es, Es1 in He. cbn in He. destruct He as [Hff _].
  eapply (IH x1 s1); try done. by rewrite Hff.
Qed.

Lemma trigger_nonneg dir n f : transfer_fault f → triggered dir n f → 0 ≤ n.
Proof.
  intros [Hf Hp] (Hb & _). destruct Hf; cbn in Hb; try done;
    match goal with H : tcp_trigger _ _ _ |- _ => destruct H end; by simplify_eq.
Qed.

Lemma begin_trig dir n f x0 s0 :
  transfer_fault f → triggered dir n f → begin_flow (Some f) = Some x0 → fl_fault x0 = Some s0 →
  trig_ok dir n s0 (pump_of dir x0).
Proof.
  intros Hf Ht H0 E0. pose proof (trigger_nonneg _ _ _ Hf Ht) as Hn.
  unfold begin_flow in H0. apply bind_Some in H0 as (s & Hs & [= <-]). cbn in E0. injection E0 as <-.
  assert (∀ A (g : pump → A), g (pump_of dir {| fl_fault := Some s; fl_client := new_pump; fl_upstream := new_pump |}) = g new_pump) as Hp.
  { intros A g. unfold pump_of. by destruct (str_eq dir client_to_upstream). }
  assert (sent_len new_pump = 0) as H00 by done.
  unfold start in Hs. cbn [newFault fs_fault] in Hs. destruct Ht as (Hb & _ & Hd). rewrite Hb, Hd in Hs.
  rewrite (Hp _ (trig_ok dir n s)).
  destruct (Z.eqb_spec n 0) as [->|Hne].
  - assert (ctl_ok (newFault f)) as Hc by by split.
    destruct (activate_ok _ Hc) as (s' & Hs' & _ & _ & Ho & Hfi & _ & Hact). rewrite Hs in Hs'. injection Hs' as <-.
    cbn in Hact, Hfi. split; rewrite ?Hact, ?Hfi; done.
  - injection Hs as <-. split; cbn; try done. intros _ _. lia.
Qed.

(** C11. Byte triggers are exact: in every interleaving, a fault with
    [after_bytes: n] is active exactly when the pump of its trigger direction has
    delivered at least n bytes, but for the moment between the write of the n-th byte
    and the pump's next step, which activates it; it is never active earlier; and a
    hold on that same direction has delivered no byte beyond the n-th. *)
Theorem tcp_trigger_exact (dir : string) (n : Z) (f : Fault) (ls : list tlabel) (x0 x : flow)
    (Hf : transfer_fault f) (Ht : triggered dir n f) (Hd : tcpDirection dir = true)
    (H0 : begin_flow (Some f) = Some x0) (Hr : tcp_run ls x0 = Some x)
    (Hlen : Z.of_nat (length (pm_read (pump_of dir x))) < 2 ^ 63) :
  ∃ s, fl_fault x = Some s ∧
    (reporting (pump_of dir x) = false → fs_active s = (n <=? sent_len (pump_of dir x))) ∧
    (reporting (pump_of dir x) = true → ∀ i x', tcp_step (own_step dir i) x = Some x' →
       fs_active <$> fl_fault x' = Some (n <=? sent_len (pump_of dir x))) ∧
    (fs_active s = true → n ≤ sent_len (pump_of dir x)) ∧
    (holds_here dir f = true → sent_len (pump_of dir x) ≤ n).
Proof.
  destruct (begin_flow_ok (Some f) Hf) as (x1 & H1 & Hok & Hff). rewrite H0 in H1. injection H1 as <-.
  destruct (fl_fault x0) as [s0|] eqn:E0; [|done]. injection Hff as Hff.
  destruct (tcp_run_ok ls x0 x Hok Hr) as [_ He]. rewrite E0 in He.
  assert (trig_ok dir n s0 (pump_of dir x0)) as Htr.
  { eapply begin_trig; [done|done|done|exact E0]. }
  destruct (trig_run dir n ls x0 x s0) as (s & Es & Htx); try done; [by rewrite Hff|].
  assert (∀ s p, trig_ok dir n s p → reporting p = false → fs_active s = (n <=? sent_len p)) as Hexact.
  { intros s1 p [Hbef Haft Hhold Hfin] Hrep. destruct (fs_active s1) eqn:Ea; symmetry; [by apply Z.leb_le, Haft|apply Z.leb_gt].
    destruct (fs_finished s1) eqn:Ef; [by apply Hfin|]. destruct (Hbef eq_refl eq_refl) as (_ & _ & Hlt & _). auto. }
  pose proof (tcp_run_ok ls x0 x Hok Hr) as [Hxok _].
  rewrite Es in He. destruct He as [Hfs _]. exists s. split; [done|]. pose proof Htx as [Hbef Haft Hhold Hfin].
  split_and!; [by apply Hexact| |done|].
  - intros Hrep i x' Hs. destruct (reporting_step dir i x x' Hd Hs Hrep) as [Hrep' <-].
    destruct (trig_flow_step dir n (own_step dir i) x x' s) as (s' & -> & Htx'); [done..|by rewrite Hfs, Hff|done|done|done|].
    cbn. by rewrite (Hexact _ _ Htx' Hrep').
  - intros Hh. destruct (fs_active s) eqn:Ea; [destruct (Hhold eq_refl) as [-> _]; [by rewrite Hfs, Hff|lia]|].
    destruct (fs_finished s) eqn:Ef; [destruct (Hfin eq_refl) as [_ Hl]; specialize (Hl eq_refl); lia|].
    by destruct (Hbef eq_refl eq_refl) as (_ & Hle & _).
Qed.

(** ** Records *)

Lemma waitBeforeDial_bound reads buffer cancelled b :
  Z.of_nat (length buffer) ≤ prefetch_size → waitBeforeDial reads buffer cancelled = Some b →
  Z.of_nat (length b) ≤ prefetch_size.
Proof.
  revert buffer. induction reads as [|[data err] reads IH]; intros buffer Hb; cbn [waitBeforeDial].
  { destruct (_ <=? _), cancelled; try done. by intros [= <-]. }
  destruct (_ <=? _); [destruct cancelled; [done|]; by intros [= <-]|]. cbv zeta.
  set (buffer' := buffer ++ _).
  assert (Z.of_nat (length buffer') ≤ prefetch_size).
  { subst buffer'. rewrite length_app, length_take. lia. }
  destruct err as [t|]; [|by apply IH]. destruct (t && negb cancelled); [|done]. by intros [= <-].
Qed.

(** What the records of one connection look like. *)
Record tcp_log_ok (d : Decision) (log : list Event) : Prop := {
  tl_log : ∃ e0 e applied last, log = [e0; e] ++ (if applied : bool then [applied_event e] else []) ++ [last] ∧
    ev_Type e0 = "flow_started" ∧ ev_Type e = "decision" ∧ ev_Type last = "flow_finished" ∧
    ev_Selected last = dc_Selected d ∧ ev_Applied last = applied ∧
    ev_NotReached last = dc_Selected d && negb applied ∧ (applied = true → dc_Selected d = true) ∧
    Forall (λ e', ev_FlowID e' = ev_FlowID e0) log
}.

Lemma tcp_log_build d info flow pid now applied out t c u :
  (applied = true → dc_Selected d = true) →
  let e := decision_event d false (start_event info flow pid "tcp" now) in
  tcp_log_ok d ([start_event info flow pid "tcp" now; e] ++ (if applied then [applied_event e] else []) ++
                [tcp_finish_event out t applied c u e]).
Proof.
  intros Ha e. split. exists (start_event info flow pid "tcp" now), e, applied, (tcp_finish_event out t applied c u e).
  split_and!; try done. destruct applied; by repeat constructor.
Qed.

(** A connection's records: started, decision, at most one fault_applied,
    finished, all with the same flow ID; applied and not_reached of the final
    record say exactly whether a selected fault took effect, for every outcome of
    the wait, the dial and the transfer. *)
Theorem serve_records (info : Info) (flowid pid : string) (now : Z) (d : Decision) (v : served)
    (ls ls' : list tlabel) (x0 : flow)
    (Hf : dc_Selected d = true → tcp_fault (dc_Fault d))
    (H0 : dc_Selected d = true → delays_connect d = false →
          begin_flow (Some (dc_Fault d)) = Some x0 ∧ tcp_run ls x0 = Some (sv_flow v) ∧
          tcp_run ls' (sv_flow v) = Some (sv_stopped v)) :
  tcp_log_ok d (serve info flowid pid now d v).
Proof.
  unfold serve. cbv zeta.
  assert (delays_connect d = true → dc_Selected d = true) as Hsel by (unfold delays_connect; intros; by bool_hyps).
  destruct (delays_connect d && _) eqn:E1; [by apply (tcp_log_build d _ _ _ _ false)|].
  destruct (negb (sv_dialled v)).
  { by apply (tcp_log_build d _ _ _ _ (delays_connect d)). }
  destruct (negb (dc_Selected d) || delays_connect d) eqn:E2.
  { by apply (tcp_log_build d _ _ _ _ (delays_connect d)). }
  bool_hyps. destruct (H0 ltac:(done) ltac:(done)) as (Hb & Hr & Hr').
  assert (transfer_option (Some (dc_Fault d))) as Ht.
  { split; [by apply Hf|]. unfold delays_connect in *. destruct (Hf ltac:(done)); try done.
    by rewrite H in *. }
  destruct (begin_flow_ok _ Ht) as (x1 & Hx1 & Hok & Hff). rewrite Hb in Hx1. injection Hx1 as <-.
  destruct (tcp_run_ok ls x0 _ Hok Hr) as [Hok' He].
  destruct (tcp_run_ok ls' _ _ Hok' Hr') as [[Hfo _ _] He'].
  destruct (fl_fault x0) as [s0|]; [|done]. destruct (fl_fault (sv_flow v)) as [s1|]; [|done].
  destruct (fl_fault (sv_stopped v)) as [s|]; [|done].
  cbn [default]. destruct Hfo as [_ Ha _ _]. unfold id. rewrite Ha.
  destruct (fs_active s); [apply (tcp_log_build d _ _ _ _ true)|apply (tcp_log_build d _ _ _ _ false)]; done.
Qed.
