(* ===== verification/Payment.v ===== *)
(** * The payment demo (examples/http/paymentdemo/payment.go)

    The in-memory dependency of the lost-response demo and its retry driver. The
    service is a value its handler threads, since it holds its mutex throughout; the
    driver reaches it through the proxy and directly. json.Decode of a request body
    is an argument, rand.Text is the operation it drew. *)

From S2P Require Import Prelude GoLib.
Local Open Scope go_scope.

Record Payment := { py_ID : Z; py_Operation : string }.

#[export] Instance Payment_eq_dec : EqDecision Payment. Proof. solve_decision. Defined.

Record Service := { sv_payments : list Payment; sv_keys : gmap string Payment }.

Definition NewService : Service := {| sv_payments := []; sv_keys := ∅ |}.

(** A request: its method, path, the operation of its query, its Idempotency-Key and
    its body. *)
Record Request := { rq_Method : string; rq_Path : string; rq_Operation : string; rq_Key : string; rq_Body : bytes }.

(** A response body; [Text] is the line http.Error or io.WriteString writes. *)
Inductive Body := Empty | Text (s : string) | One (p : Payment) | Many (l : list Payment).

Record Response := { rs_Status : Z; rs_Body : Body }.

Definition reply (status : Z) (body : Body) : Response := {| rs_Status := status; rs_Body := body |}.

Section service.
(** json.NewDecoder(http.MaxBytesReader(w, body, 4096)).Decode: what the first 4096
    bytes decode to, given whether there are more. *)
Context (json_Decode : bytes → bool → option string).

Definition decode_input (body : bytes) : option string := json_Decode (take 4096 body) (bool_decide (4096 < length body)%nat).

(** The POST branch. *)
Definition create (r : Request) (s : Service) : Service * Response :=
  match decode_input (rq_Body r) with
  | None => (s, reply 400 (Text "operation is required"))
  | Some operation =>
      if operation =s "" then (s, reply 400 (Text "operation is required"))
      else
        let key := rq_Key r in
        let found := sv_keys s !! key in
        if match found with Some p => negb (py_Operation p =s operation) | None => false end
        then (s, reply 409 (Text "idempotency key reused for another operation"))
        else
          match found, key =s "" with
          | Some p, false => (s, reply 201 (One p))
          | _, _ =>
              let p := {| py_ID := Z.of_nat (length (sv_payments s)) + 1; py_Operation := operation |} in
              ({| sv_payments := sv_payments s ++ [p]; sv_keys := if key =s "" then sv_keys s else <[key := p]> (sv_keys s) |},
               reply 201 (One p))
          end
  end.

Definition ServeHTTP (r : Request) (s : Service) : Service * Response :=
  if (rq_Method r =s "GET") && (rq_Path r =s "/healthz") then (s, reply 200 (Text "{}"))
  else if negb (rq_Path r =s "/payments") then (s, reply 404 (Text "404 page not found"))
  else if rq_Method r =s "GET" then
    (s, reply 200 (Many (filter (λ p, py_Operation p = rq_Operation r) (sv_payments s))))
  else if rq_Method r =s "POST" then create r s
  else (s, reply 405 Empty).

(** ** The driver *)

(** What client.Do gives: a client timeout, a response, another error; with whether
    the context of Run has ended by then. *)
Inductive outcome := TimedOut | Responded (r : Response) | Failed (err : string).

Record Result := { res_Operation : string; res_Idempotent : bool; res_Attempts : Z; res_Timeouts : Z; res_Payments : Z }.

(** A way to the service: what it does to a request and what the client sees. *)
Definition route : Type := Request → Service → Service * outcome * bool.

Context (json_operation : string → bytes).

Definition post (operation : string) (idempotent : bool) : Request :=
  {| rq_Method := "POST"; rq_Path := "/payments"; rq_Operation := ""; rq_Key := if idempotent then operation else "";
     rq_Body := json_operation operation |}.
Definition inspect (operation : string) : Request :=
  {| rq_Method := "GET"; rq_Path := "/payments"; rq_Operation := operation; rq_Key := ""; rq_Body := [] |}.

(** One pass of the loop, with the error Run returns, if any; the numbers Go formats
    into its error texts are left out. *)
Definition attempt (proxy : route) (s : Service) (res : Result) : Service * Result * option string :=
  let res := {| res_Operation := res_Operation res; res_Idempotent := res_Idempotent res; res_Attempts := res_Attempts res + 1;
                res_Timeouts := res_Timeouts res; res_Payments := res_Payments res |} in
  let '(s, o, ended) := proxy (post (res_Operation res) (res_Idempotent res)) s in
  match o, ended with
  | TimedOut, false =>
      (s, {| res_Operation := res_Operation res; res_Idempotent := res_Idempotent res; res_Attempts := res_Attempts res;
             res_Timeouts := res_Timeouts res + 1; res_Payments := res_Payments res |}, None)
  | _, _ => (s, res, Some "expected client timeout")
  end.

Definition Run (proxy direct : route) (operation : string) (idempotent : bool) (s : Service) : Service * Result * option string :=
  let res := {| res_Operation := operation; res_Idempotent := idempotent; res_Attempts := 0; res_Timeouts := 0; res_Payments := 0 |} in
  let '(s, res, err) := attempt proxy s res in
  match err with
  | Some e => (s, res, Some e)
  | None =>
      let '(s, res, err) := attempt proxy s res in
      match err with
      | Some e => (s, res, Some e)
      | None =>
          let '(s, o, _) := direct (inspect operation) s in
          match o with
          | Responded {| rs_Status := 200; rs_Body := Many payments |} =>
              let n := Z.of_nat (length payments) in
              let res := {| res_Operation := res_Operation res; res_Idempotent := res_Idempotent res; res_Attempts := res_Attempts res;
                            res_Timeouts := res_Timeouts res; res_Payments := n |} in
              if n =? (if idempotent then 1 else 2) then (s, res, None) else (s, res, Some "unexpected number of stored payments")
          | Responded {| rs_Status := 200 |} => (s, res, Some "json")
          | Responded _ => (s, res, Some "payment inspection returned another status")
          | TimedOut => (s, res, Some "timeout")
          | Failed e => (s, res, Some e)
          end
      end
  end.

(** ** Correctness *)

(** Payments are numbered from 1 in the order they were made, and a key stands for a
    payment of the store. *)
Record service_inv (s : Service) : Prop := {
  si_numbered : ∀ i p, sv_payments s !! i = Some p → py_ID p = Z.of_nat i + 1;
  si_keys : ∀ key p, sv_keys s !! key = Some p → key ≠ "" ∧ p ∈ sv_payments s
}.

Lemma NewService_inv : service_inv NewService.
Proof. split; [done|]. intros key p Hk. cbn in Hk. by rewrite lookup_empty in Hk. Qed.

(** What [create] does: nothing, or it appends the next payment. *)
Lemma create_cases r s :
  let '(s', rs) := create r s in
  s' = s ∨
  ∃ operation, decode_input (rq_Body r) = Some operation ∧ operation ≠ "" ∧ rs_Status rs = 201 ∧
    (rq_Key r = "" ∨ sv_keys s !! rq_Key r = None) ∧
    let p := {| py_ID := Z.of_nat (length (sv_payments s)) + 1; py_Operation := operation |} in
    sv_payments s' = sv_payments s ++ [p] ∧
    sv_keys s' = if rq_Key r =s "" then sv_keys s else <[rq_Key r := p]> (sv_keys s).
Proof.
  unfold create. destruct (decode_input _) as [operation|]; [|by left]. destruct (str_eq operation "") eqn:Eo; [by left|].
  apply str_eq_false in Eo. destruct (match _ with Some p => _ | None => false end); [by left|].
  destruct (sv_keys s !! rq_Key r) as [p|] eqn:Ek, (str_eq (rq_Key r) "") eqn:E; try (by left); right; exists operation; cbn; split_and!; try done; auto.
  apply str_eq_true in E. by left.
Qed.

Lemma ServeHTTP_inv r s : service_inv s → service_inv (ServeHTTP r s).1.
Proof.
  intros Hi. unfold ServeHTTP. repeat case_match; try done. pose proof (create_cases r s) as Hc. destruct (create r s) as [s' rs]. cbn.
  destruct Hc as [->|(operation & _ & _ & _ & _ & Hp & Hk)]; [done|]. destruct Hi as [Hn Hks]. split.
  - intros i p Hl. rewrite Hp in Hl. apply lookup_app_Some in Hl as [Hl|[Hlen Hl]]; [by apply Hn|].
    apply list_lookup_singleton_Some in Hl as [Hz <-]. cbn. lia.
  - intros key p Hl. rewrite Hk in Hl. rewrite Hp. destruct (str_eq (rq_Key r) "") eqn:E.
    + destruct (Hks _ _ Hl). split; [done|]. apply elem_of_app. by left.
    + apply str_eq_false in E. destruct (decide (key = rq_Key r)) as [->|Hne].
      * rewrite lookup_insert_eq in Hl. injection Hl as <-. split; [done|]. apply elem_of_app. right. by apply list_elem_of_singleton.
      * rewrite lookup_insert_ne in Hl by done. destruct (Hks _ _ Hl). split; [done|]. apply elem_of_app. by left.
Qed.

(** Any number of requests, one after the other as the mutex makes them. *)
Definition serve_all (rs : list Request) (s : Service) : Service := foldl (λ s r, (ServeHTTP r s).1) s rs.

Definition count (operation : string) (s : Service) : nat := length (filter (λ p, py_Operation p = operation) (sv_payments s)).

Lemma ServeHTTP_grows r s : ∃ l, sv_payments (ServeHTTP r s).1 = sv_payments s ++ l ∧ sv_keys s ⊆ sv_keys (ServeHTTP r s).1.
Proof.
  unfold ServeHTTP. repeat case_match; try (exists []; cbn; by rewrite app_nil_r). pose proof (create_cases r s) as Hc.
  destruct (create r s) as [s' rs]. cbn. destruct Hc as [->|(operation & _ & _ & _ & Hf & Hp & Hk)]; [exists []; by rewrite app_nil_r|].
  eexists. split; [exact Hp|]. rewrite Hk. destruct (str_eq (rq_Key r) "") eqn:E; [done|]. apply str_eq_false in E.
  destruct Hf as [?|Hf]; [done|]. by apply insert_subseteq.
Qed.

Lemma serve_all_keys rs s : sv_keys s ⊆ sv_keys (serve_all rs s).
Proof.
  revert s. induction rs as [|r rs IH]; intros s; [done|]. destruct (ServeHTTP_grows r s) as (l & _ & Hk). etrans; [exact Hk|apply IH].
Qed.

(** A POST under a key: the payment of the key, a new one, or a conflict. *)
Lemma create_key r s operation :
  decode_input (rq_Body r) = Some operation → operation ≠ "" → rq_Key r ≠ "" →
  create r s =
    match sv_keys s !! rq_Key r with
    | Some p => if py_Operation p =s operation then (s, reply 201 (One p)) else (s, reply 409 (Text "idempotency key reused for another operation"))
    | None =>
        let p := {| py_ID := Z.of_nat (length (sv_payments s)) + 1; py_Operation := operation |} in
        ({| sv_payments := sv_payments s ++ [p]; sv_keys := <[rq_Key r := p]> (sv_keys s) |}, reply 201 (One p))
    end.
Proof.
  intros Hd Ho%str_eq_false Hk%str_eq_false. unfold create. rewrite Hd, Ho, Hk. destruct (sv_keys s !! _) as [p|]; [|done].
  by destruct (str_eq (py_Operation p) operation).
Qed.

(** An accepted POST with an idempotency key can be repeated at any later time,
    whatever requests came in between: it gets the payment of the first time, and
    the store does not change. *)
Theorem retry_idempotent r s rs :
  rq_Method r = "POST" → rq_Path r = "/payments" → rq_Key r ≠ "" → rs_Status (ServeHTTP r s).2 = 201 →
  let s' := serve_all rs (ServeHTTP r s).1 in
  ServeHTTP r s' = (s', (ServeHTTP r s).2).
Proof.
  intros Hm Hp Hk Hst. assert (∀ s, ServeHTTP r s = create r s) as Hserve by (intros s0; unfold ServeHTTP; by rewrite Hm, Hp).
  cbv zeta. rewrite !Hserve in *. destruct (decode_input (rq_Body r)) as [operation|] eqn:Ed; [|unfold create in Hst; by rewrite Ed in Hst].
  destruct (decide (operation = "")) as [->|Ho]; [unfold create in Hst; by rewrite Ed in Hst|].
  rewrite (create_key r _ operation Ed Ho Hk). rewrite (create_key r s operation Ed Ho Hk) in *.
  destruct (sv_keys s !! rq_Key r) as [p|] eqn:E.
  - destruct (str_eq (py_Operation p) operation) eqn:Eo; [|done]. cbn [fst snd].
    rewrite (lookup_weaken _ _ _ _ E (serve_all_keys rs s)). by rewrite Eo.
  - cbn [fst snd]. set (p := {| py_ID := _; py_Operation := operation |}). set (s1 := {| sv_payments := _; sv_keys := _ |}).
    assert (sv_keys s1 !! rq_Key r = Some p) as E1 by apply lookup_insert_eq.
    rewrite (lookup_weaken _ _ _ _ E1 (serve_all_keys rs s1)). cbn [py_Operation p]. by rewrite str_eq_refl.
Qed.

(** ** The demo shows what it claims *)

(** The proxy of the demo: the upstream handles the request, its response is
    withheld and the client times out. The direct route answers. *)
Definition lost_response : route := λ r s, ((ServeHTTP r s).1, TimedOut, false).
Definition answers : route := λ r s, ((ServeHTTP r s).1, Responded (ServeHTTP r s).2, false).

Lemma count_snoc operation (l : list Payment) p :
  py_Operation p = operation →
  length (filter (λ q, py_Operation q = operation) (l ++ [p])) = S (length (filter (λ q, py_Operation q = operation) l)).
Proof. intros Hp. rewrite filter_app, length_app, filter_cons, decide_True by done. cbn. lia. Qed.

(** A POST without a key always makes a payment. *)
Lemma create_plain r s operation :
  service_inv s → decode_input (rq_Body r) = Some operation → operation ≠ "" → rq_Key r = "" →
  (create r s).1 = {| sv_payments := sv_payments s ++ [{| py_ID := Z.of_nat (length (sv_payments s)) + 1; py_Operation := operation |}];
                      sv_keys := sv_keys s |}.
Proof.
  intros Hi Hd Ho%str_eq_false Hk. assert (sv_keys s !! "" = None) as E.
  { destruct (sv_keys s !! "") as [p|] eqn:E; [|done]. by destruct (si_keys _ Hi _ _ E). }
  unfold create. by rewrite Hd, Ho, Hk, E.
Qed.

(** Two POSTs of the driver. *)
Lemma two_posts operation idempotent s :
  service_inv s → operation ≠ "" → decode_input (json_operation operation) = Some operation →
  count operation s = 0%nat → sv_keys s !! operation = None →
  let r := post operation idempotent in
  let s' := (create r (create r s).1).1 in
  count operation s' = (if idempotent then 1 else 2)%nat ∧
  (length (sv_payments s') = length (sv_payments s) + if idempotent then 1 else 2)%nat.
Proof.
  intros Hi Ho Hd Hc Hk r. cbv zeta. destruct idempotent.
  - rewrite (create_key r s operation Hd Ho Ho). change (rq_Key r) with operation. rewrite Hk. cbn [fst].
    set (p := {| py_ID := _; py_Operation := operation |}). set (s1 := {| sv_payments := _; sv_keys := _ |}).
    rewrite (create_key r s1 operation Hd Ho Ho). change (rq_Key r) with operation.
    assert (sv_keys s1 !! operation = Some p) as -> by apply lookup_insert_eq. cbn [py_Operation p]. rewrite str_eq_refl. cbn [fst].
    split; [|cbn; by rewrite length_app]. unfold count in *. cbn [sv_payments s1]. rewrite count_snoc by done. by rewrite Hc.
  - assert (service_inv (create r s).1) as Hi1 by (apply (ServeHTTP_inv r s Hi)).
    rewrite (create_plain r _ operation Hi1 Hd Ho eq_refl). rewrite (create_plain r s operation Hi Hd Ho eq_refl). unfold count. cbn [sv_payments].
    split; [|rewrite !length_app; cbn; lia].
    rewrite !count_snoc by done. unfold count in Hc. by rewrite Hc.
Qed.

(** Against a service that has not seen the operation, with every response lost, the
    driver makes two attempts that both time out and finds two payments, or one when
    it sends an idempotency key; and it reports no error. *)
Theorem Run_counts operation idempotent s :
  service_inv s → operation ≠ "" → decode_input (json_operation operation) = Some operation →
  count operation s = 0%nat → sv_keys s !! operation = None →
  ∃ s', Run lost_response answers operation idempotent s =
    (s', {| res_Operation := operation; res_Idempotent := idempotent; res_Attempts := 2; res_Timeouts := 2;
            res_Payments := if idempotent then 1 else 2 |}, None) ∧
  (length (sv_payments s') = length (sv_payments s) + if idempotent then 1 else 2)%nat.
Proof.
  intros Hi Ho Hd Hc Hk. destruct (two_posts operation idempotent s Hi Ho Hd Hc Hk) as [Hn Hl].
  set (s' := (create (post operation idempotent) (create (post operation idempotent) s).1).1) in *.
  exists s'. split; [|done]. unfold Run, attempt, lost_response, answers. cbn [res_Operation res_Idempotent res_Attempts res_Timeouts res_Payments].
  change (ServeHTTP (post operation idempotent)) with (create (post operation idempotent)). fold s'. cbn [ServeHTTP inspect rq_Method rq_Path rq_Operation].
  change (ServeHTTP (inspect operation) s') with (s', reply 200 (Many (filter (λ p, py_Operation p = operation) (sv_payments s')))).
  cbn [fst snd reply]. unfold count in Hn. rewrite Hn. by destruct idempotent.
Qed.
End service.

(** ** The demo with a JSON codec *)

Definition sample_op_encode (operation : string) : bytes := of_string operation.
Definition sample_op_decode (data : bytes) (more : bool) : option string := if more then None else Some (to_string data).

Definition sample_post : Request :=
  {| rq_Method := "POST"; rq_Path := "/payments"; rq_Operation := ""; rq_Key := "k1"; rq_Body := of_string "pay" |}.

Lemma retry_idempotent_witness :
  let s1 := (ServeHTTP sample_op_decode sample_post NewService).1 in
  ServeHTTP sample_op_decode sample_post s1 = (s1, reply 201 (One {| py_ID := 1; py_Operation := "pay" |})).
Proof. apply (retry_idempotent sample_op_decode sample_post NewService []); [done|done|done|vm_compute; reflexivity]. Defined.

Lemma Run_counts_witness :
  ∃ s', Run sample_op_encode (lost_response sample_op_decode) (answers sample_op_decode) "pay" true NewService =
    (s', {| res_Operation := "pay"; res_Idempotent := true; res_Attempts := 2; res_Timeouts := 2; res_Payments := 1 |}, None) ∧
    length (sv_payments s') = 1%nat.
Proof.
  apply (Run_counts sample_op_decode sample_op_encode "pay" true NewService);
    [apply NewService_inv|done|vm_compute; reflexivity|done|apply lookup_empty].
Defined.
