(* ===== verification/Unary.v ===== *)
(** * The unary gRPC demo (examples/grpc/unary/service.go)

    The Echo service behind the gRPC examples, and the method handler Register
    installs: decode the request, call the service, through an interceptor when the
    server has one. Metadata is a map from lower-case names to values. *)

From S2P Require Import Prelude GoLib.
Local Open Scope go_scope.

Definition Method : string := "/faultline.demo.Echo/Call".

Notation MD := (gmap string (list string)).

(** MD.Get of a lower-case name. *)
Definition Get (md : MD) (name : string) : list string := default [] (md !! name).

(** What a call sends: its header, its trailer and its result. *)
Record Reply := { rp_Header : MD; rp_Trailer : MD; rp_Result : res (string * string) bytes }.

(** The metadata of the request that the service sends back. *)
Definition echo_header (md : MD) (names : list string) (header : MD) : MD :=
  foldl (λ header name, match Get md name with [] => header | values => <[name := values]> header end) header names.

(** Echo.Call. *)
Definition Call (md : MD) (request : bytes) : Reply :=
  {| rp_Header := echo_header md ["demo-metadata"; "demo-bin"] {[ "demo-header" := ["received"] ]};
     rp_Trailer := {[ "demo-trailer" := ["finished"] ]};
     rp_Result := match Get md "demo-error" with
                  | v :: _ => if v =s "true" then Err ("FailedPrecondition", "requested demo error") else Ok request
                  | [] => Ok request
                  end |}.

Section Register.
Context {E : Type}.

(** An interceptor is given the request, the full method name and the rest of the
    call. *)
Definition Interceptor : Type := bytes → string → (bytes → Reply) → Reply.

(** The handler of the method descriptor; [Err] is the error of decode. *)
Definition Handler (decode : res E bytes) (interceptor : option Interceptor) (md : MD) : res E Reply :=
  request ← decode;
  match interceptor with
  | None => Ok (Call md request)
  | Some f => Ok (f request Method (Call md))
  end.
End Register.

(** The service gives back the payload, or the demo error when asked for it, with
    the metadata of the demo in the header; an interceptor that calls on changes
    nothing. *)
Theorem Handler_echo {E} md request :
  @Handler E (Ok request) None md = Handler (Ok request) (Some (λ r _ next, next r)) md ∧
  (head (Get md "demo-error") ≠ Some "true" → rp_Result (Call md request) = Ok request) ∧
  (head (Get md "demo-error") = Some "true" → rp_Result (Call md request) = Err ("FailedPrecondition", "requested demo error")) ∧
  ∀ name, Get (rp_Header (Call md request)) name =
    if name =s "demo-header" then ["received"]
    else if (name =s "demo-metadata") || (name =s "demo-bin") then Get md name else [].
Proof.
  split; [done|]. cbn [Call rp_Result rp_Header]. split_and!.
  - destruct (Get md "demo-error") as [|v l]; [done|]. intros Hv. by destruct (str_eq v "true") eqn:E'; [apply str_eq_true in E' as ->|].
  - destruct (Get md "demo-error") as [|v l]; [done|]. intros [= ->]. done.
  - intros name. unfold echo_header. cbn [foldl].
    destruct (str_eq name "demo-header") eqn:E1; [apply str_eq_true in E1 as ->|apply str_eq_false in E1].
    + destruct (Get md "demo-metadata"), (Get md "demo-bin"); unfold Get; by simplify_map_eq.
    + destruct (str_eq name "demo-metadata") eqn:E2; [apply str_eq_true in E2 as ->|apply str_eq_false in E2]; cbn [orb].
      * destruct (Get md "demo-metadata") eqn:Em, (Get md "demo-bin"); unfold Get; by simplify_map_eq.
      * destruct (str_eq name "demo-bin") eqn:E3; [apply str_eq_true in E3 as ->|apply str_eq_false in E3];
          destruct (Get md "demo-metadata"), (Get md "demo-bin") eqn:Eb; unfold Get; simplify_map_eq; try done;
          by rewrite ?lookup_insert_ne, ?lookup_singleton_ne by congruence.
Qed.
