(* ===== verification/Witnesses.v ===== *)
(** * Witnesses

    Concrete inputs at which the hypotheses of the theorems on validation, the
    engine, runtime control, the recorder and TCP connections hold, and what the
    theorems say there. *)

From Stdlib Require Import Ascii.
From S2P Require Import Prelude GoLib GoUtf8 GoRand Config Validate ValidateSpec Engine EngineSpec Control ControlSpec Recorder RecorderSpec GoIO Adapter Samples Tcp TcpSpec.
Local Open Scope go_scope.

(** ** Validation *)

(** An environment without files, with a scheme://host parser. *)
Definition sample_url (s : string) : option URL :=
  let '(scheme, rest, ok) := Cut ":" s in
  if ok && HasPrefix rest "//" then
    Some {| u_Scheme := scheme; u_Opaque := ""; u_User := false; u_Host := drop_str 2 rest; u_Path := "";
            u_RawQuery := ""; u_ForceQuery := false; u_Fragment := "" |}
  else None.

Definition sample_env : Env :=
  {| ParseIP s := s =s "127.0.0.1"; url_Parse := sample_url; Clean s := if s =s "" then "." else s; ReadFile _ := None;
     X509KeyPair _ _ := false; pem_Decode _ := None; ParseCertificate _ := false |}.

Definition sample_range (m : gmap string string) : list (string * string) := map_to_list m.

Definition input_proxy : Proxy :=
  {| p_ID := "p1"; p_Protocol := "http1"; p_UpstreamProtocol := ""; p_Listen := "127.0.0.1:7000";
     p_Upstream := "http://up:7001"; p_TLS := None; p_UpstreamTLS := None;
     p_Rules := [sample_rule (every 2) sample_delay] |}.

Definition validated : Config :=
  match validate sample_env sample_range (sample_config input_proxy) "/etc" with
  | Ok (c, _) => c
  | Err _ => sample_config input_proxy
  end.
Definition validated_digests :=
  match validate sample_env sample_range (sample_config input_proxy) "/etc" with
  | Ok (_, d) => d
  | Err _ => ∅
  end.

Lemma validate_accepts_wf_witness : config_wf validated.
Proof.
  apply (validate_accepts_wf sample_env sample_range (sample_config input_proxy) "/etc" validated validated_digests).
  vm_compute. reflexivity.
Defined.

(** Two header conditions, given in lower case, visited in either order. *)
Definition header_rule : Rule :=
  {| r_ID := "r1"; r_Enabled := true;
     r_Match := {| m_PathPattern := ""; m_Method := ""; m_Service := ""; m_Path := "";
                   m_Headers := Some {[ "x-a" := "1"; "x-b" := "2" ]} |};
     r_Select := every 2; r_Fault := sample_delay |}.
Definition header_rule_normal : Rule :=
  match validateRule sample_range header_rule "rule" with Ok r => r | Err _ => header_rule end.

Lemma validateRule_order_witness :
  validateRule (λ m, reverse (map_to_list m)) header_rule "rule" = Ok header_rule_normal.
Proof.
  apply (validateRule_order sample_range (λ m, reverse (map_to_list m)) header_rule "rule" header_rule_normal).
  - intros m. reflexivity.
  - intros m. apply reverse_Permutation.
  - vm_compute. reflexivity.
Defined.

(** ** The engine *)

Lemma delay_rule_wf sel : selector_ok sel → rule_wf "http1" (sample_rule sel sample_delay).
Proof.
  intros Hs. split_and!; [done|vm_compute; by repeat constructor|].
  change (http_fault sample_delay ∧ ("delay" = "respond" → is_Some (A := string) None)).
  split; [apply hf_delay; [by left|lia]|done].
Qed.

Lemma http_document_ok sel : selector_ok sel → document_ok (http_document sel).
Proof. intros Hs. apply sample_document_ok; [done|by apply delay_rule_wf]. Qed.

Definition sample_call (enabled : bool) : call :=
  {| cl_proxy := "p1"; cl_metadata := no_metadata; cl_enabled := enabled |}.
Definition sample_calls : list call := [sample_call true; sample_call false; sample_call true; sample_call true].

Definition engine_of (d : Document) : Engine := match Engine.New (Some d) with Ok e => e | Err _ => ∅ end.
Definition run_of (d : Document) : Engine * list Decision :=
  default (∅, []) (run (engine_of d) sample_calls).

Definition doc_every : Document := http_document (every 2).
Definition doc_nth : Document := http_document (nth_ 2).
Definition proxy_every : Proxy := sample_proxy "http1" (sample_rule (every 2) sample_delay).
Definition proxy_nth : Proxy := sample_proxy "http1" (sample_rule (nth_ 2) sample_delay).

Lemma decisions_replay_witness :
  owned_decisions "p1" (p_Rules proxy_every) 0 sample_calls (run_of doc_every).2 =
    schedule (every 2) (rule_random 7 "p1" "r1") 0 (owned "p1" (p_Rules proxy_every) 0 sample_calls).
Proof.
  apply (decisions_replay doc_every (engine_of doc_every) sample_calls (run_of doc_every).1 (run_of doc_every).2
           proxy_every 0 (sample_rule (every 2) sample_delay)).
  - apply http_document_ok. by constructor.
  - vm_compute. reflexivity.
  - vm_compute. reflexivity.
  - left.
  - reflexivity.
  - vm_compute. reflexivity.
Defined.

Lemma every_counters_witness :
  engine_Counters (run_of doc_every).1 "p1" "r1" =
    ({| Eligible := Z.of_nat (owned "p1" (p_Rules proxy_every) 0 sample_calls);
        Selected := Z.of_nat (owned "p1" (p_Rules proxy_every) 0 sample_calls) / 2 |}, true).
Proof.
  apply (every_counters doc_every (engine_of doc_every) sample_calls (run_of doc_every).1 (run_of doc_every).2
           proxy_every 0 (sample_rule (every 2) sample_delay) 2).
  - apply http_document_ok. by constructor.
  - vm_compute. reflexivity.
  - vm_compute. reflexivity.
  - left.
  - repeat constructor. by intros ?%not_elem_of_nil.
  - reflexivity.
  - vm_compute. reflexivity.
  - reflexivity.
  - lia.
Defined.

Lemma nth_counters_witness :
  Selected (engine_Counters (run_of doc_nth).1 "p1" "r1").1 =
    if 2 <=? Z.of_nat (owned "p1" (p_Rules proxy_nth) 0 sample_calls) then 1 else 0.
Proof.
  apply (nth_counters doc_nth (engine_of doc_nth) sample_calls (run_of doc_nth).1 (run_of doc_nth).2
           proxy_nth 0 (sample_rule (nth_ 2) sample_delay) 2).
  - apply http_document_ok. by constructor.
  - vm_compute. reflexivity.
  - vm_compute. reflexivity.
  - left.
  - repeat constructor. by intros ?%not_elem_of_nil.
  - reflexivity.
  - vm_compute. reflexivity.
  - reflexivity.
  - lia.
Defined.

Lemma engine_never_panics_witness :
  ∃ e' ds, run (engine_of doc_every) sample_calls = Some (e', ds) ∧ length ds = length sample_calls.
Proof.
  apply (engine_never_panics doc_every (engine_of doc_every) sample_calls).
  - apply http_document_ok. by constructor.
  - vm_compute. reflexivity.
Defined.

(** ** Runtime control *)

(** A store that accepts or refuses, and keeps what it accepted. *)
Definition sample_store (d : Document) (r : Result) (w : list Result * bool) : (list Result * bool) * option string :=
  if w.2 then ((w.1 ++ [r], true), None) else (w, Some "disk full").

Definition managed_service : Service :=
  match NewManaged (Some doc_every) 5 true "run" 1 with
  | Ok s => s
  | Err _ => enabled_service doc_every
  end.

(** The same infrastructure with another rule. *)
Definition doc_changed : Document :=
  {| d_config := d_config doc_nth; d_valid := true; d_fingerprint := of_string "other";
     d_restartFingerprint := d_restartFingerprint doc_every |}.

Definition applied_to (w : list Result * bool) (expected : Z) :=
  ControlSpec.exec sample_store (OpApply (Some doc_changed) (Some expected) 9) (managed_service, w).

Definition changed_state : Service * (list Result * bool) * res string Result :=
  ApplyRevision sample_store managed_service ([], true) (Some doc_changed) 5 9.
Definition changed_result : Result := match changed_state.2 with Ok r => r | Err _ => zero_result end.

(** The store refuses the change: the service stays as it was. *)
Definition refused_state : Service * (list Result * bool) * res string Result :=
  ApplyRevision sample_store managed_service ([], false) (Some doc_changed) 5 9.

Lemma apply_error_atomic_witness : refused_state.1.1 = managed_service.
Proof.
  apply (apply_error_atomic sample_store managed_service ([], false) (Some doc_changed) (Some 5) 9
           refused_state.1.1 refused_state.1.2 "disk full").
  vm_compute. reflexivity.
Defined.

Lemma apply_changed_effect_witness :
  ∃ d e, Some doc_changed = Some d ∧ Engine.New (Some doc_changed) = Ok e ∧
    (∀ x, Some 5 = Some x → x = i_Revision (info managed_service)) ∧
    (sv_managed managed_service = true → sample_store d changed_result ([], true) = (changed_state.1.2, None)) ∧
    rs_Info changed_result = info changed_state.1.1 ∧
    i_Revision (info changed_state.1.1) = u64 (i_Revision (info managed_service) + 1) ∧
    i_Enabled (info changed_state.1.1) = i_Enabled (info managed_service) ∧
    sv_heap changed_state.1.1 !! sn_revision (sv_active changed_state.1.1) =
      Some {| rv_document := d; rv_engine := e |}.
Proof.
  apply (apply_changed_effect sample_store managed_service ([], true) (Some doc_changed) (Some 5) 9
           changed_state.1.1 changed_state.1.2 changed_result); vm_compute; reflexivity.
Defined.

Lemma apply_no_lost_update_witness :
  ApplyRevision sample_store changed_state.1.1 changed_state.1.2 (Some doc_every) 5 10 =
    (changed_state.1.1, changed_state.1.2, Err ErrConflict).
Proof.
  apply (apply_no_lost_update sample_store managed_service ([], true) (Some doc_changed) (Some doc_every) 5 9 10
           changed_state.1.1 changed_state.1.2 changed_result); vm_compute; reflexivity.
Defined.

(** Enable, a change, a decision on the old snapshot. *)
Definition sample_ops : list op :=
  [OpEnable true 7; OpApply (Some doc_changed) (Some 5) 9; OpDecide (Acquire managed_service) "p1" no_metadata].
Definition ops_run := default (managed_service, ([], true), []) (exec_all sample_store sample_ops (managed_service, ([], true))).

Lemma snapshot_pinned_witness :
  ∃ v', sv_heap ops_run.1.1 !! sn_revision (Acquire managed_service) = Some v' ∧ rv_document v' = doc_every.
Proof.
  apply (snapshot_pinned sample_store sample_ops managed_service ([], true) ops_run.1.1 ops_run.1.2 ops_run.2
           (Acquire managed_service) {| rv_document := doc_every; rv_engine := engine_of doc_every |});
    vm_compute; reflexivity.
Defined.

Lemma control_counts_witness :
  u64 (i_ControlSequence (info ops_run.1.1)) =
    u64 (i_ControlSequence (info managed_service) + count (λ or, changed or.2) ops_run.2) ∧
  u64 (i_Revision (info ops_run.1.1)) = u64 (i_Revision (info managed_service) + count changed_apply ops_run.2).
Proof.
  apply (control_counts sample_store sample_ops managed_service ([], true) ops_run.1.1 ops_run.1.2 ops_run.2).
  vm_compute. reflexivity.
Defined.

Lemma restart_fixed_witness : restart_print ops_run.1.1 = restart_print managed_service.
Proof.
  apply (restart_fixed sample_store sample_ops managed_service ([], true) ops_run.1.1 ops_run.1.2 ops_run.2).
  vm_compute. reflexivity.
Defined.

(** ** The recorder *)

Definition typed_event (type outcome : string) : Event :=
  {| ev_Info := zero_info; ev_Type := type; ev_Time := 0; ev_FlowID := "f"; ev_ProxyID := "p1";
     ev_Protocol := "tcp"; ev_StartedAt := 0; ev_FinishedAt := 0; ev_RuleID := "";
     ev_EligibleSequence := 0; ev_Selector := ""; ev_Probability := None; ev_Nth := None;
     ev_Every := None; ev_Selected := false; ev_Reached := false; ev_Applied := false;
     ev_NotReached := false; ev_Phase := ""; ev_Action := ""; ev_Outcome := outcome; ev_ErrorKind := "";
     ev_CommitConfirmed := false; ev_GRPCStatus := ""; ev_UpstreamStatus := 0; ev_Operation := "";
     ev_ClientBytes := 0; ev_UpstreamBytes := 0; ev_Changed := false; ev_Counters := None |}.

(** A queue of one event: the first is taken by the writer, the second queued,
    the third dropped; the first encode fails. *)
Definition recorder_steps : list rlabel :=
  [LRecord (typed_event "flow_started" "") 1; LReceive; LRecord (typed_event "decision" "") 2;
   LRecord (typed_event "flow_finished" "forwarded") 3; LCheck; LEncoded false].
Definition recorder_closing : list rlabel := recorder_steps ++ [LClose].
Definition recorder_closed : list rlabel := recorder_closing ++ [LReceive; LCheck; LEncoded true; LExit].

Definition recorder_at (ls : list rlabel) : Recorder := default (Recorder.New 1) (rexec_all ls (Recorder.New 1)).

Lemma recorder_conservation_witness :
  u64 (rc_Written (rec_counts (recorder_at recorder_steps)) + rc_Dropped (rec_counts (recorder_at recorder_steps)) +
       rc_Pending (rec_counts (recorder_at recorder_steps))) = u64 (Z.of_nat (length (recorded recorder_steps))) ∧
  rc_Pending (rec_counts (recorder_at recorder_steps)) = Z.of_nat (length (backlog (recorder_at recorder_steps))).
Proof.
  apply (recorder_conservation 1 recorder_steps (recorder_at recorder_steps)); [lia|vm_compute; reflexivity].
Defined.

Lemma recorder_order_witness :
  sublist (rec_output (recorder_at recorder_closed) ++ backlog (recorder_at recorder_closed))
    (recorded recorder_closed).
Proof.
  apply (recorder_order 1 recorder_closed (recorder_at recorder_closed)); [lia|vm_compute; reflexivity].
Defined.

Lemma recorder_bounded_witness :
  (length (rec_queue (recorder_at recorder_steps)) ≤ 1)%nat ∧
  (size (Outcomes (recorder_at recorder_steps)) ≤ 32)%nat.
Proof.
  apply (recorder_bounded 1 recorder_steps (recorder_at recorder_steps)); [lia|vm_compute; reflexivity].
Defined.

Lemma recorder_close_clean_witness :
  rec_queue (recorder_at recorder_closed) = [] ∧ rec_writer (recorder_at recorder_closed) = Exited ∧
  u64 (rc_Written (rec_counts (recorder_at recorder_closed)) + rc_Dropped (rec_counts (recorder_at recorder_closed))) =
    u64 (Z.of_nat (length (recorded recorder_closed))).
Proof.
  apply (recorder_close_clean 1 recorder_closed (recorder_at recorder_closed));
    [lia|vm_compute; reflexivity|vm_compute; reflexivity].
Defined.

Lemma recorder_close_terminates_witness :
  ∃ r', rexec_all (drain [true]) (recorder_at recorder_closing) = Some r' ∧ close_result r' = Some None.
Proof.
  apply (recorder_close_terminates 1 recorder_closing (recorder_at recorder_closing) [true]);
    [lia|vm_compute; reflexivity..].
Defined.

(** ** TCP connections *)

(** A hold of the client's bytes after the third one, released after 100 ns. *)
Definition hold_fault : Fault :=
  tcp_fields TCPOnTransfer "hold" None (Some 100) client_to_upstream None (Some 3) None client_to_upstream.

Lemma hold_fault_ok : transfer_fault hold_fault.
Proof. split; [|done]. apply tf_hold; [done|lia|]. by constructor. Qed.

Definition quiet_input : pump_input :=
  {| in_data := []; in_err := false; in_interrupted := false; in_written := 0; in_write_err := false;
     in_cancelled := false |}.
Definition data_input (data : bytes) : pump_input :=
  {| in_data := data; in_err := false; in_interrupted := false; in_written := 0; in_write_err := false;
     in_cancelled := false |}.
Definition write_input (n : nat) : pump_input :=
  {| in_data := []; in_err := false; in_interrupted := false; in_written := n; in_write_err := false;
     in_cancelled := false |}.

(** The client sends five bytes: the chunk is cut at three, writing it holds the
    direction, the hold expires and closes both ends. *)
Definition hold_steps : list tlabel :=
  [LClient quiet_input; LClient (data_input (of_string "abcde")); LClient quiet_input; LClient (write_input 3);
   LClient quiet_input; LClient quiet_input; LClient quiet_input; LClient quiet_input; LHoldExpired; LClient quiet_input].

Definition hold_begin : flow :=
  default {| fl_fault := None; fl_client := new_pump; fl_upstream := new_pump |} (begin_flow (Some hold_fault)).
Definition hold_end : flow := default hold_begin (tcp_run hold_steps hold_begin).

Lemma tcp_faithful_witness :
  (∀ i, is_Some (tcp_step (LClient i) hold_end) ∧ is_Some (tcp_step (LUpstream i) hold_end)) ∧
  pm_sent (fl_client hold_end) `prefix_of` pm_read (fl_client hold_end) ∧
  pm_count (fl_client hold_end) = i64 (Z.of_nat (length (pm_sent (fl_client hold_end)))) ∧
  pm_sent (fl_upstream hold_end) `prefix_of` pm_read (fl_upstream hold_end) ∧
  pm_count (fl_upstream hold_end) = i64 (Z.of_nat (length (pm_sent (fl_upstream hold_end)))) ∧
  ∀ s, fl_fault hold_end = Some s → fs_applied s = if fs_active s then 1%nat else 0%nat.
Proof.
  apply (tcp_faithful (Some hold_fault) hold_steps hold_begin hold_end).
  - exact hold_fault_ok.
  - vm_compute. reflexivity.
  - vm_compute. reflexivity.
Defined.

Lemma tcp_trigger_exact_witness :
  ∃ s, fl_fault hold_end = Some s ∧
    fs_active s = (3 <=? sent_len (pump_of client_to_upstream hold_end)) ∧
    (holds_here client_to_upstream hold_fault = true → sent_len (pump_of client_to_upstream hold_end) ≤ 3).
Proof.
  destruct (tcp_trigger_exact client_to_upstream 3 hold_fault hold_steps hold_begin hold_end) as (s & Hs & Hact & _ & _ & Hhold).
  - exact hold_fault_ok.
  - by split_and!.
  - reflexivity.
  - vm_compute. reflexivity.
  - vm_compute. reflexivity.
  - vm_compute. reflexivity.
  - exists s. split; [exact Hs|]. split; [|exact Hhold]. apply Hact. vm_compute. reflexivity.
Defined.

(** The upstream closes and the controller is stopped. *)
Definition eof_input : pump_input :=
  {| in_data := []; in_err := true; in_interrupted := false; in_written := 0; in_write_err := false;
     in_cancelled := false |}.
Definition hold_closing : list tlabel :=
  hold_steps ++ [LUpstream quiet_input; LUpstream eof_input; LUpstream quiet_input].
Definition hold_forwarded : flow := default hold_begin (tcp_run hold_closing hold_begin).
Definition hold_stopped : flow := default hold_begin (tcp_run [LStop] hold_forwarded).

Definition hold_decision : Decision :=
  {| dc_ProxyID := "p1"; dc_RuleID := "r1"; dc_EligibleSequence := 1; dc_Selector := every 1; dc_Selected := true;
     dc_Fault := hold_fault |}.
Definition hold_served : served :=
  {| sv_wait := None; sv_dialled := true; sv_flow := hold_forwarded; sv_stopped := hold_stopped; sv_end := 9 |}.

Lemma serve_records_witness : tcp_log_ok hold_decision (serve zero_info "f" "p1" 1 hold_decision hold_served).
Proof.
  apply (serve_records zero_info "f" "p1" 1 hold_decision hold_served hold_closing [LStop] hold_begin).
  - intros _. apply hold_fault_ok.
  - intros _ _. split_and!; vm_compute; reflexivity.
Defined.
