(* ===== verification/LoadWitnesses.v ===== *)
(** * A YAML library and files to load

    A small implementation of the [Yaml] class that satisfies its laws, a file
    system with a root configuration and one included fragment, and the
    theorems of [LoadSpec] applied to them. *)

From Stdlib Require Import Ascii.
From S2P Require Import Prelude GoLib GoUtf8 GoRand GoTime Config Validate ValidateSpec Engine EngineSpec Control Adapter Samples Witnesses Decode Load DecodeSpec LoadSpec.
Local Open Scope go_scope.

Fixpoint node_eqb (a b : Node) : bool :=
  let 'MkNode k1 t1 v1 c1 := a in
  let 'MkNode k2 t2 v2 c2 := b in
  bool_decide (k1 = k2) && (t1 =s t2) && (v1 =s v2) &&
  (fix go (l1 l2 : list Node) : bool :=
     match l1, l2 with
     | [], [] => true
     | x :: l1, y :: l2 => node_eqb x y && go l1 l2
     | _, _ => false
     end) c1 c2.

Lemma node_eqb_true a b : node_eqb a b = true → a = b.
Proof.
  revert b. induction a as [k1 t1 v1 c1 IH] using node_induction. intros [k2 t2 v2 c2] E. cbn in E. bool_hyps. subst.
  f_equal. revert c2 H0. induction IH as [|x l1 Hx _ IHl]; intros [|y l2] E; try done. bool_hyps. f_equal; auto.
Qed.

(** ** Scalars and encoding *)

Definition sample_scalar (s : scalar) (tag value : string) : option (denote (scalar_type s)) :=
  match s return option (denote (scalar_type s)) with
  | SString => Some value
  | SBool => if value =s "true" then Some true else if value =s "false" then Some false else None
  | SInt => Atoi value
  | SUint64 => Atoi value
  | SFloat64 => float64_of_int <$> Atoi value
  end.

Definition scalar_node {A} `{EqDecision A} (decode : string → option A) (tag value : string) (v : A) : option Node :=
  if bool_decide (decode value = Some v) then Some (MkNode ScalarNode tag value []) else None.

Definition entry_node {A} (e : string * A) (n : Node) : list Node := [key_node e.1; n].

Definition present (n : Node) : option Node := if n_Tag n =s "!!null" then None else Some n.

Fixpoint sample_encode (t : GoType) : denote t → option Node :=
  match t return denote t → option Node with
  | TString => λ v, Some (MkNode ScalarNode "!!str" v [])
  | TBool => λ v, Some (MkNode ScalarNode "!!bool" (if v then "true" else "false") [])
  | TInt => λ v, scalar_node Atoi "!!int" (Itoa v) v
  | TUint64 => λ v, scalar_node Atoi "!!int" (Itoa v) v
  | TFloat64 => λ v, scalar_node (λ s, float64_of_int <$> Atoi s) "!!int"
                       (Itoa (int_of_float64 v)) v
  | TDuration => λ v, scalar_node ParseDuration "!!str" (Itoa v +:+ "ns") v
  | TPointer t => λ v,
      match v with
      | None => Some (MkNode ScalarNode "!!null" "null" [])
      | Some x => sample_encode t x ≫= present
      end
  | TSlice t => λ v, MkNode SequenceNode "!!seq" "" <$> mapM (λ x, sample_encode t x ≫= present) v
  | TMap t => λ v,
      let entries := map_to_list (default ∅ (v : option (gmap string (denote t)))) in
      ns ← mapM (λ e : string * denote t, sample_encode t e.2 ≫= present) entries;
      Some (MkNode MappingNode "!!map" "" (mjoin (zip_with (λ e n, [key_node e.1; n]) entries ns)))
  | TStruct _ fs => λ v,
      MkNode MappingNode "!!map" "" <$>
      (fix go (fs : list (string * GoType)) : denote (TStruct "" fs) → option (list Node) :=
         match fs return denote (TStruct "" fs) → option (list Node) with
         | [] => λ _, Some []
         | f :: fs' => λ v, n ← sample_encode f.2 v.1; rest ← go fs' v.2; Some (key_node f.1 :: n :: rest)
         end) fs v
  end.

(** ** Texts *)

Definition second_proxy : Proxy :=
  {| p_ID := "p2"; p_Protocol := "tcp"; p_UpstreamProtocol := ""; p_Listen := "127.0.0.1:7002";
     p_Upstream := "tcp://up:7003"; p_TLS := None; p_UpstreamTLS := None; p_Rules := [] |}.

(** The node of a value, without its nulls. *)
Definition text_node (t : GoType) (v : denote t) : Node :=
  default (MkNode AliasNode "" "" []) (sample_encode t v ≫= prune).

Definition config_node : Node := text_node ConfigT (of_Config validated).
Definition root_node : Node :=
  text_node rootConfigT
    (APIVersion, (7, (of_Runtime DefaultRuntime, ([of_Proxy input_proxy], (["*.part"], tt))))).
Definition fragment_node : Node := text_node fragmentT ([of_Proxy second_proxy], tt).

(** A TCP rule, in a text that leaves its matcher out. *)
Definition tcp_fault : Fault :=
  http_fields TCPOnTransfer "close_connection" None None None None "" None None.
Definition tcp_rule (headers : option (gmap string string)) : Rule :=
  {| r_ID := "r1"; r_Enabled := true; r_Match := set_Headers headers any_match; r_Select := every 1; r_Fault := tcp_fault |}.
Definition tcp_config (headers : option (gmap string string)) : Config :=
  {| c_APIVersion := APIVersion; c_Seed := 7; c_Runtime := DefaultRuntime;
     c_Proxies := [{| p_ID := "p1"; p_Protocol := "tcp"; p_UpstreamProtocol := "tcp"; p_Listen := "127.0.0.1:7002";
                      p_Upstream := "tcp://up:7003"; p_TLS := None; p_UpstreamTLS := None; p_Rules := [tcp_rule headers] |}] |}.
Definition bareRuleT : GoType :=
  TStruct "Rule" [("id", TString); ("enabled", TBool); ("select", SelectorT); ("fault", FaultT)].
Definition bareProxyT : GoType :=
  TStruct "Proxy" [("id", TString); ("protocol", TString); ("listen", TString); ("upstream", TString); ("rules", TSlice bareRuleT)].
Definition bareConfigT : GoType :=
  TStruct "Config" [("api_version", TString); ("seed", TUint64); ("proxies", TSlice bareProxyT)].
Definition bare_node : Node :=
  text_node bareConfigT
    (APIVersion, (7, ([("p1", ("tcp", ("127.0.0.1:7002", ("tcp://up:7003",
      ([("r1", (true, (of_Selector (every 1), (of_Fault tcp_fault, tt))))], tt)))))], tt))).
Definition tcp_node : Node := text_node ConfigT (of_Config (tcp_config None)).

Definition sample_texts : list (bytes * Node) :=
  [(of_string "config", config_node); (of_string "root", root_node); (of_string "part", fragment_node);
   (of_string "bare", bare_node); (of_string "tcp", tcp_node)].

Definition sample_first (data : bytes) : option Node :=
  (λ e, MkNode DocumentNode "" "" [e.2]) <$> find (λ e : bytes * Node, bool_decide (e.1 = data)) sample_texts.

#[export] Instance sample_yaml : Yaml :=
  {| yaml_first := sample_first; yaml_more _ := false; scalar_Decode := sample_scalar; node_Encode := sample_encode;
     yaml_Marshal n := fst <$> find (λ e : bytes * Node, node_eqb n e.2) sample_texts |}.

Lemma scalar_node_inv {A} `{EqDecision A} (decode : string → option A) tag value v n :
  scalar_node decode tag value v = Some n → n = MkNode ScalarNode tag value [] ∧ decode value = Some v.
Proof. unfold scalar_node. destruct (bool_decide _) eqn:E; [|done]. intros [= <-]. by bool_hyps. Qed.

Lemma present_inv t v n :
  sample_encode t v ≫= present = Some n → sample_encode t v = Some n ∧ n_Tag n ≠ "!!null".
Proof.
  destruct (sample_encode t v) as [m|]; [|done]. cbn. unfold present. destruct (str_eq (n_Tag m) "!!null") eqn:E; [done|].
  intros [= <-]. by bool_hyps.
Qed.

Lemma sample_encodes t v n : sample_encode t v = Some n → encodes t (make t v) n.
Proof.
  revert v n. induction t as [s| |t IH|t IH|t IH|name fs IH] using type_induction; intros v n Hn.
  - destruct s; cbn in Hn |- *.
    + simplify_eq. by exists v.
    + simplify_eq. exists (if v then "true" else "false"). by destruct v.
    + apply scalar_node_inv in Hn as [-> Hd]. eauto.
    + apply scalar_node_inv in Hn as [-> Hd]. eauto.
    + apply scalar_node_inv in Hn as [-> Hd]. eauto 10.
  - apply scalar_node_inv in Hn as [-> Hd]. cbn. eauto.
  - cbn in Hn |- *. destruct v as [x|]; [|by simplify_eq]. apply present_inv in Hn as [Hn Ht].
    cbn. auto.
  - cbn [sample_encode] in Hn. apply fmap_Some in Hn as (ns & Hm & ->). exists ns. split; [done|].
    apply mapM_Some in Hm. apply Forall2_fmap_l. eapply Forall2_impl; [done|]. intros x m [Hx Ht]%present_inv. cbn. auto.
  - cbn [sample_encode] in Hn. apply bind_Some in Hn as (ns & Hm & [= <-]). set (m := default ∅ v) in *.
    exists (make t <$> m), (prod_map id (make t) <$> map_to_list m), ns. split; [done|].
    split; [by rewrite <- (map_to_list_fmap (M := gmap string) (make t) m)|]. split.
    + apply mapM_Some in Hm. apply Forall2_fmap_l. eapply Forall2_impl; [done|]. intros x k [Hx Ht]%present_inv.
      split; [by apply (IH x.2)|done].
    + f_equal. f_equal. symmetry. apply zip_with_fmap_l.
  - cbn [sample_encode] in Hn. apply fmap_Some in Hn as (content & Hc & ->). exists content. split; [done|].
    revert v content Hc. induction IH as [|f fs Hf _ IHl]; intros v content Hc; [by simplify_eq|].
    apply bind_Some in Hc as (m & Hm & (rest & Hr & [= <-])%bind_Some). exists m, rest.
    split; [done|]. split; [by apply Hf|by apply (IHl v.2)].
Qed.

Lemma sample_laws : yaml_laws.
Proof.
  split; [intros t v n _ _; exact (sample_encodes t v n)|]. intros _ _ _ n data _ _ _ _ Hm. split; [|done]. apply fmap_Some in Hm as (e & [Hin E]%find_some & ->).
  apply node_eqb_true in E as ->. cbn in Hin. destruct_or?; subst; [vm_compute; reflexivity..|done].
Qed.

Lemma sample_nodes_ok : yaml_nodes_ok.
Proof.
  assert (forallb (λ e : bytes * Node, node_ok e.2) sample_texts = true) as Hall by (vm_compute; reflexivity).
  intros data n Hn. change (sample_first data = Some n) in Hn. unfold sample_first in Hn.
  apply fmap_Some in Hn as (e & [Hin _]%find_some & ->).
  pose proof (proj1 (forallb_forall _ _) Hall e Hin) as He. cbv beta in He.
  change (node_ok e.2 && true = true). by rewrite He.
Qed.

(** ** Files *)

Definition sample_files : Files :=
  {| fs_env := {| ParseIP := ParseIP sample_env; url_Parse := url_Parse sample_env; Clean := Clean sample_env;
       ReadFile name := if name =s "/etc/faultline.yaml" then Some (of_string "root")
                        else if name =s "/etc/a.part" then Some (of_string "part")
                        else if name =s "/etc/plain.yaml" then Some (of_string "config")
                        else if name =s "/etc/tcp.yaml" then Some (of_string "bare") else None;
       X509KeyPair := X509KeyPair sample_env; pem_Decode := pem_Decode sample_env;
       ParseCertificate := ParseCertificate sample_env |};
     Abs name := Some ("/etc/" +:+ name);
     Stat name := if name =s "/etc/faultline.yaml" then Some (true, 1) else if name =s "/etc/a.part" then Some (true, 2)
                 else if name =s "/etc/plain.yaml" then Some (true, 3)
                 else if name =s "/etc/tcp.yaml" then Some (true, 4) else None;
     Glob pattern := if pattern =s "/etc//*.part" then Some ["/etc/a.part"] else None |}.

(** JSON text tells a nil map from an empty one. *)
Definition nil_headers (c : Config) : bool :=
  existsb (λ p, existsb (λ r, negb (is_some (m_Headers (r_Match r)))) (p_Rules p)) (c_Proxies c).
Definition sample_marshal (c : Config) (digests : gmap string bytes) : option bytes :=
  Some (of_string (c_APIVersion c +:+ (if nil_headers c then "null" else "{}"))).

Definition sample_loaded : res failure Document := Load sample_files sample_range sample_marshal "faultline.yaml".
Definition loaded_document : Document := match sample_loaded with Ok d => d | Err _ => pg_document end.

(** ** The theorems at these inputs *)

Lemma Load_sound_witness : loaded_ok loaded_document.
Proof.
  apply (Load_sound sample_files sample_range sample_marshal "faultline.yaml"). vm_compute. reflexivity.
Defined.

(** A root file with an include, a rule without its matcher, and no file. *)
Lemma Load_total_witness :
  Forall (λ name, Load sample_files sample_range sample_marshal name ≠ Err Panic)
    ["faultline.yaml"; "tcp.yaml"; "missing.yaml"].
Proof. repeat (constructor; [apply Load_total, sample_nodes_ok|]). constructor. Defined.

Lemma Encode_Parse_witness :
  Parse sample_files sample_range sample_marshal (of_string "config") "faultline.yaml" =
  finish sample_files sample_range sample_marshal (make_config validated)
    (proxySources "/etc/faultline.yaml" 1) "/etc/faultline.yaml".
Proof.
  apply (Encode_Parse sample_files sample_range sample_marshal validated).
  - exact sample_laws.
  - vm_compute. reflexivity.
  - vm_compute. reflexivity.
  - discriminate.
  - reflexivity.
Defined.

Lemma document_strict_witness : strict fragment_node.
Proof.
  destruct (document_strict (of_string "part") fragmentT ([], tt) ([of_Proxy second_proxy], tt) sample_nodes_ok)
    as (node & n & Hn & _ & Hc & Hs).
  - vm_compute. reflexivity.
  - assert (Some node = Some (MkNode DocumentNode "" "" [fragment_node])) as E by (rewrite <- Hn; vm_compute; reflexivity).
    injection E as ->. injection Hc as <-. exact Hs.
Defined.

(** The second proxy of the set, the first of its fragment, names an unknown
    protocol. *)
Definition wrong_proxy : Proxy :=
  {| p_ID := "p2"; p_Protocol := "http9"; p_UpstreamProtocol := ""; p_Listen := "127.0.0.1:7002";
     p_Upstream := "tcp://up:7003"; p_TLS := None; p_UpstreamTLS := None; p_Rules := [] |}.
Definition wrong_config : Config :=
  {| c_APIVersion := APIVersion; c_Seed := 7; c_Runtime := DefaultRuntime; c_Proxies := [input_proxy; wrong_proxy] |}.
Definition wrong_sources : list proxySource :=
  proxySources "/etc/faultline.yaml" 1 ++ proxySources "/etc/a.part" 1.

Lemma finish_error_witness :
  ∃ i src rest, wrong_sources !! i = Some src ∧ "proxies[1].protocol" = proxy_path i +:+ String "." rest ∧
    finish sample_files sample_range sample_marshal wrong_config wrong_sources "/etc/faultline.yaml" =
      Err (Invalid {| e_File := src.1; e_Path := src.2 +:+ String "." rest;
                      e_Message := "expected http1, http2, grpc, postgresql, mysql or tcp" |}).
Proof.
  destruct (finish_error sample_files sample_range sample_marshal wrong_config wrong_sources "/etc/faultline.yaml"
              [input_proxy; wrong_proxy]
              (invalid "proxies[1].protocol" "expected http1, http2, grpc, postgresql, mysql or tcp"))
    as [H|[H _]].
  - reflexivity.
  - vm_compute. reflexivity.
  - vm_compute. reflexivity.
  - exact H.
  - exfalso. cbn in H. rewrite !elem_of_cons in H. destruct H as [H|[H|[H|[H|H]]]]; try discriminate. by apply not_elem_of_nil in H.
Defined.
