(* ===== verification/RemoteWitnesses.v ===== *)
(** * A managed instance at work

    A JSON codec with its laws, a data directory with one account, a server
    bootstrapped on it, and the theorems on the store, the accounts, the remote
    server and the admin handler applied to them. *)

From Stdlib Require Import Ascii.
From S2P Require Import Prelude GoLib GoUtf8 GoRand GoTime GoCrypto Config Validate ValidateSpec Engine EngineSpec Control ControlSpec Recorder Adapter Samples Witnesses Decode Load DecodeSpec LoadSpec LoadWitnesses Store StoreSpec Admin AdminSpec Remote RemoteSpec.
Local Open Scope go_scope.

(** ** A codec *)

(** Positive numbers as bytes, low bit first. *)
Fixpoint pos_bytes (p : BinNums.positive) : bytes :=
  match p with
  | xH => []
  | xO p => byte.of_Z 0 :: pos_bytes p
  | xI p => byte.of_Z 1 :: pos_bytes p
  end.
Fixpoint bytes_pos (b : bytes) : BinNums.positive :=
  match b with
  | [] => xH
  | x :: b => if byte.unsigned x =? 0 then xO (bytes_pos b) else xI (bytes_pos b)
  end.

Lemma bytes_pos_bytes p : bytes_pos (pos_bytes p) = p.
Proof. induction p as [p IH|p IH|]; cbn; by rewrite ?IH. Qed.

#[local] Instance Info_countable : Countable Info.
Proof.
  refine (inj_countable'
    (λ i, (i_RunID i, i_Revision i, i_Enabled i, (i_ControlSequence i, i_AppliedAt i, i_StateChangedAt i)))
    (λ '(a, b, c, (d, e, f)), {| i_RunID := a; i_Revision := b; i_Enabled := c; i_ControlSequence := d;
                                 i_AppliedAt := e; i_StateChangedAt := f |}) _).
  by intros [].
Defined.

#[local] Instance Audit_eq_dec : EqDecision Audit. Proof. solve_decision. Defined.
#[local] Instance Audit_countable : Countable Audit.
Proof.
  refine (inj_countable'
    (λ a, (au_Time a, au_Actor a, au_Operation a, (au_Revision a, au_Outcome a)))
    (λ '(a, b, c, (d, e)), {| au_Time := a; au_Actor := b; au_Operation := c; au_Revision := d; au_Outcome := e |}) _).
  by intros [].
Defined.

#[local] Instance user_countable : Countable user.
Proof.
  refine (inj_countable' (λ u, (us_Role u, us_Salt u, us_Hash u))
    (λ '(a, b, c), {| us_Role := a; us_Salt := b; us_Hash := c |}) _).
  by intros [].
Defined.

#[local] Instance Result_eq_dec : EqDecision Result. Proof. solve_decision. Defined.
#[local] Instance state_eq_dec : EqDecision state.
Proof. solve_decision. Defined.
#[local] Instance state_countable : Countable state.
Proof.
  refine (inj_countable'
    (λ s, (sa_Version s, to_string (sa_Config s), sa_Revision s,
           (rs_Changed (sa_LastApply s), rs_Info (sa_LastApply s), sa_Audit s)))
    (λ '(a, b, c, (d, e, f)), {| sa_Version := a; sa_Config := of_string b; sa_Revision := c;
                                 sa_LastApply := {| rs_Changed := d; rs_Info := e |}; sa_Audit := f |}) _).
  intros [a b c [d e] f]. f_equal. apply of_to_string.
Defined.

#[export] Instance sample_json : Json :=
  {| state_Marshal st := Some (pos_bytes (encode st)); state_Unmarshal b := countable.decode (bytes_pos b);
     users_Marshal m := Some (pos_bytes (encode m)); users_Unmarshal b := countable.decode (bytes_pos b) |}.

#[export] Instance sample_json_laws : JsonLaws.
Proof. split; cbn; intros x data [= <-]; rewrite bytes_pos_bytes; apply decode_encode. Qed.

(** ** The instance *)

Definition no_error : commit :=
  {| io_CreateTemp := None; io_Write := None; io_Sync := None; io_Close := None; io_Rename := None;
     io_OpenDir := None; io_SyncDir := None |}.
Definition lost_sync : commit :=
  {| io_CreateTemp := None; io_Write := None; io_Sync := None; io_Close := None; io_Rename := None;
     io_OpenDir := None; io_SyncDir := Some "input/output error" |}.
Definition private : directory :=
  {| os_MkdirAll := None; os_Lstat := Ok (true, 448); os_OpenLock := None; os_Flock := None; os_Read := None |}.

Definition ann : user := {| us_Role := "editor"; us_Salt := ""; us_Hash := "h" |}.
Definition sample_users : gmap string user := {[ "ann" := ann ]}.
Definition data_file : file :=
  {| f_live := users_Marshal sample_users; f_crash := [users_Marshal sample_users] |}.
Definition empty_disk : Disk :=
  {| dk_state := {| f_live := None; f_crash := [None] |}; dk_users := data_file; dk_locked := false |}.

Definition opened := Open sample_files sample_range sample_marshal private no_error 1 "/data" "plain.yaml" empty_disk.
Definition open_disk : Disk := opened.1.
Definition open_store : Store :=
  match opened.2 with Ok (s, _) => s | Err _ => {| so_dir := ""; so_state := zero_state; so_poisoned := true |} end.
Definition open_document : Document := match opened.2 with Ok (_, doc) => doc | Err _ => pg_document end.

Definition started : res string Server :=
  Remote.New None open_store open_document (Recorder.New 8) open_disk "run" 2.
Definition ann_session : session :=
  {| se_Name := "ann"; se_Role := "editor"; se_Hash := "h"; se_CSRF := "c"; se_Expires := 100 |}.
Definition idle_server : Server :=
  match started with
  | Ok sr => sr
  | Err _ => {| sr_store := open_store; sr_service := enabled_service pg_document; sr_records := Recorder.New 8; sr_sessions := ∅;
                sr_loginWindow := 0; sr_loginCount := 0; sr_errors := None |}
  end.
Definition server0 : Server := with_sessions {[ "t" := ann_session ]} idle_server.

Definition enable_request : Request :=
  {| rq_TLS := true; rq_Method := "POST"; rq_Host := "h"; rq_Path := "/api/enable"; rq_Origin := "https://h";
     rq_CSRFToken := "c"; rq_ContentType := ""; rq_Cookie := Some "t"; rq_Body := [] |}.
Definition world (io : commit) : World :=
  {| wd_now := 10; wd_audit1 := 11; wd_audit2 := 12; wd_service := 13; wd_stamp := 14; wd_token := "t2";
     wd_csrf := "c2"; wd_io1 := io; wd_io2 := io; wd_users := None |}.

Definition sample_draft (_ : bytes) : option (Draft * bool) := None.
Definition sample_credentials (_ : bytes) : option (string * string * bool) := None.

Definition ledger0 : Ledger :=
  {| lg_Revision := sa_Revision (so_state open_store); lg_Fingerprint := d_fingerprint open_document;
     lg_Enabled := false; lg_Audit := sa_Audit (so_state open_store) |}.

Lemma started_represents : represents sample_files sample_range sample_marshal open_store (sr_service idle_server) open_disk ledger0.
Proof.
  destruct (start_represents sample_files sample_range sample_marshal private no_error 1 "/data" "plain.yaml" empty_disk
              open_disk open_store open_document None (Recorder.New 8) "run" 2 idle_server) as [Hr Hs].
  - left. reflexivity.
  - vm_compute. reflexivity.
  - vm_compute. reflexivity.
  - rewrite Hs in Hr. exact Hr.
Qed.

Lemma server0_represents :
  represents sample_files sample_range sample_marshal (sr_store server0) (sr_service server0) open_disk ledger0.
Proof. exact started_represents. Qed.

Definition serve0 (io : commit) : Server * Disk * Remote.Reply :=
  ServeHTTP sample_files sample_range sample_marshal sample_draft sample_credentials [] enable_request (world io)
    server0 open_disk.

(** ** The theorems at these inputs *)

Lemma start_represents_witness :
  represents sample_files sample_range sample_marshal (sr_store idle_server) (sr_service idle_server) open_disk ledger0 ∧
  sr_store idle_server = open_store.
Proof.
  apply (start_represents sample_files sample_range sample_marshal private no_error 1 "/data" "plain.yaml" empty_disk
           open_disk open_store open_document None (Recorder.New 8) "run" 2 idle_server).
  - left. reflexivity.
  - vm_compute. reflexivity.
  - vm_compute. reflexivity.
Defined.

Lemma ServeHTTP_authorised_witness :
  ∃ sess, authorised enable_request (world no_error) server0 open_disk sess ∧ se_Role sess = "editor" ∧
    accountable sess (sr_store (serve0 no_error).1.1) (serve0 no_error).1.2.
Proof.
  apply (ServeHTTP_authorised sample_files sample_range sample_marshal sample_draft sample_credentials []
           enable_request (world no_error) server0 open_disk ledger0 _ _ (serve0 no_error).2).
  - exact server0_represents.
  - vm_compute. reflexivity.
  - intros E. apply (f_equal (λ s, i_Enabled (info s))) in E. vm_compute in E. discriminate.
Defined.

(** A lost directory sync leaves the second commit in doubt. *)
Lemma serve_all_refines_witness :
  let '(sr, d) := serve_all sample_files sample_range sample_marshal sample_draft sample_credentials []
                    [(enable_request, world no_error); (enable_request, world lost_sync)] server0 open_disk in
  ∃ l', rtc lstep ledger0 l' ∧
    (represents sample_files sample_range sample_marshal (sr_store sr) (sr_service sr) d l' ∨
     ∃ st d0 next, represents sample_files sample_range sample_marshal st (sr_service sr) d0 l' ∧
       so_poisoned (sr_store sr) = true ∧ either (so_state st) next d).
Proof.
  destruct (serve_all _ _ _ _ _ _ _ _ _) as [sr d] eqn:E.
  apply (serve_all_refines sample_files sample_range sample_marshal sample_draft sample_credentials []
           [(enable_request, world no_error); (enable_request, world lost_sync)] server0 open_disk ledger0 sr d).
  - exact server0_represents.
  - exact E.
Defined.

Lemma serve_all_bounded_witness :
  bounded (serve_all sample_files sample_range sample_marshal sample_draft sample_credentials []
             [(enable_request, world no_error)] server0 open_disk).1.
Proof.
  apply (serve_all_bounded sample_files sample_range sample_marshal sample_draft sample_credentials []
           [(enable_request, world no_error)] server0 open_disk _
           (serve_all sample_files sample_range sample_marshal sample_draft sample_credentials []
              [(enable_request, world no_error)] server0 open_disk).2).
  - split.
    + vm_compute. lia.
    + vm_compute. lia.
    + vm_compute. split; discriminate.
  - apply surjective_pairing.
Defined.

(** The directory after a crash, with the lock gone. *)
Definition crashed_disk (d : Disk) : Disk := set_dk_locked false (set_dk_state (sync_file (dk_state d)) d).

Lemma crash_recovery_witness :
  let out := Open sample_files sample_range sample_marshal private no_error 20 "/data" "plain.yaml" (crashed_disk open_disk) in
  ∃ st' doc, out.2 = Ok (st', doc) ∧ so_state st' = so_state open_store.
Proof.
  destruct (Open sample_files sample_range sample_marshal private no_error 20 "/data" "plain.yaml" (crashed_disk open_disk))
    as [d'' [[st' doc]|]] eqn:E; [|vm_compute in E; discriminate].
  exists st', doc. split; [reflexivity|].
  eapply (crash_recovery sample_files sample_range sample_marshal open_store (sr_service idle_server) open_disk ledger0
           (crashed_disk open_disk) private no_error 20 "plain.yaml" d'' st' doc).
  - exact started_represents.
  - split; [|split]; vm_compute; [left|reflexivity|reflexivity].
  - exact E.
Defined.

Lemma save_crash_witness :
  let out := save lost_sync (appendAudit (so_state open_store) 5 "ann" "logout" "ok" 1) open_store open_disk in
  durable (so_state open_store) (crashed_disk out.1.2) ∨
  durable (appendAudit (so_state open_store) 5 "ann" "logout" "ok" 1) (crashed_disk out.1.2).
Proof.
  refine (proj2 (save_crash lost_sync (appendAudit (so_state open_store) 5 "ann" "logout" "ok" 1) open_store open_disk
           (set_so_poisoned true open_store) _ (Some (Other "persist managed state: input/output error")) _ _ _ _ _)).
  - vm_compute. reflexivity.
  - exact (rp_durable _ _ _ _ _ _ _ started_represents).
  - vm_compute. reflexivity.
  - split; [|split]; vm_compute; [left|reflexivity|reflexivity].
Defined.

Definition sample_salt : bytes := replicate 16 (byte.of_Z 7).
Definition bob_disk : Disk :=
  (SetUser private no_error (Ok sample_salt) "bob" "viewer" "correct horse battery" false empty_disk).1.

Lemma SetUser_effect_witness :
  ∃ users users', accounts None empty_disk = Ok users ∧ readUsers None bob_disk = Ok users' ∧
    delete "bob" users' = delete "bob" users ∧
    ∃ u, users' !! "bob" = Some u ∧ us_Role u = "viewer" ∧ verifyPassword u "correct horse battery" = true.
Proof.
  apply (SetUser_effect private no_error (Ok sample_salt) "bob" "viewer" "correct horse battery" false empty_disk bob_disk).
  - intros bs [= <-]. reflexivity.
  - reflexivity.
Defined.

(** The socket, with the local service of a document. *)
Definition local_persist (_ : Document) (_ : Result) (w : unit) : unit * option string := (w, None).
Definition local_reload (_ : bytes) : option (string * bool) := Some ("/etc/plain.yaml", true).
Definition disable_request : Admin.Request :=
  {| Admin.rq_Origin := ""; Admin.rq_Path := "/disable"; Admin.rq_Method := "POST"; Admin.rq_Body := [];
     Admin.rq_Done := false |}.
Definition admin_out (readOnly : bool) :=
  handle sample_files sample_range sample_marshal local_persist local_reload readOnly [] disable_request 7 8
    (enabled_service pg_document) tt (Recorder.New 8).

Lemma handle_change_witness :
  ∃ result, (admin_out false).2 = ReplyResult result ∧ rs_Changed result = true.
Proof.
  destruct (admin_out false) as [[[s' w'] records'] rep] eqn:E.
  destruct (handle_change sample_files sample_range sample_marshal local_persist local_reload false [] disable_request 7 8
              (enabled_service pg_document) tt (Recorder.New 8) s' w' records' rep E) as (_ & _ & _ & result & Hr & Hc & _).
  - intros ->. apply (f_equal (λ o, i_Enabled (info o.1.1.1))) in E. vm_compute in E. discriminate.
  - exists result. exact (conj Hr Hc).
Defined.

Lemma handle_readOnly_witness : (admin_out true).1.1.1 = enabled_service pg_document ∧ (admin_out true).1.1.2 = tt.
Proof.
  apply (handle_readOnly sample_files sample_range sample_marshal local_persist local_reload [] disable_request 7 8
           (enabled_service pg_document) tt (Recorder.New 8) _ _ (admin_out true).1.2 (admin_out true).2).
  vm_compute. reflexivity.
Defined.
