(* ===== verification/RestartWitnesses.v ===== *)
(** * A managed instance that restarts

    The sample environment meets the laws of NormalSpec; the theorems on round
    trips and restarts applied to the instance of RemoteWitnesses. *)

From Stdlib Require Import Ascii.
From S2P Require Import Prelude GoLib GoUtf8 GoRand GoTime GoCrypto Config Validate ValidateSpec Engine EngineSpec Control ControlSpec Recorder Adapter Samples Witnesses Decode Load DecodeSpec LoadSpec NetSpec NormalSpec RoundTrip LoadWitnesses Store StoreSpec Admin AdminSpec Remote RemoteSpec RestartSpec RemoteWitnesses.
Local Open Scope go_scope.

Lemma Cut_app sep a b : ContainsByte a sep = false → Cut sep (a +:+ String sep b) = (a, b, true).
Proof.
  induction a as [|c a IH].
  - intros _. change ((if Ascii.eqb sep sep then ("", b, true) else let '(x, y, z) := Cut sep b in (String sep x, y, z)) = ("", b, true)).
    by rewrite Ascii.eqb_refl.
  - rewrite ContainsByte_cons. intros [Hc Ha]%orb_false_iff.
    change ((if Ascii.eqb c sep then ("", a +:+ String sep b, true) else let '(x, y, z) := Cut sep (a +:+ String sep b) in (String c x, y, z)) = (String c a, b, true)).
    by rewrite Hc, IH.
Qed.

Lemma sample_url_origin scheme host : ContainsByte scheme ":" = false → sample_url (scheme +:+ "://" +:+ host) = Some (origin_url scheme host).
Proof.
  intros Hs. unfold sample_url. change ("://" +:+ host) with (String ":" ("//" +:+ host)). rewrite Cut_app by done.
  by rewrite HasPrefix_app.
Qed.

Lemma sample_env_laws : env_laws (fs_env sample_files).
Proof.
  split.
  - intros s Hs. apply str_eq_true in Hs as ->. reflexivity.
  - intros s Hs. apply str_eq_true in Hs as ->. reflexivity.
  - intros scheme host port Hs _ _. unfold upstream_schemes in Hs.
    repeat (apply elem_of_cons in Hs as [->|Hs]; [by apply sample_url_origin|]). by apply not_elem_of_nil in Hs.
  - intros s. cbn. by destruct (str_eq s "") eqn:E; [|rewrite E].
  - intros s Hs. cbn. by destruct s.
  - intros s. cbn. destruct (str_eq s "") eqn:E; [done|]. by apply str_eq_false.
Qed.

Lemma sample_abs name root : Abs sample_files name = Some root → IsAbs root = true.
Proof. by intros [= <-]. Qed.

Lemma sample_enumerates : enumerates sample_range.
Proof. by intros m. Qed.

Definition plain_document : Document :=
  match Load sample_files sample_range sample_marshal "plain.yaml" with Ok d => d | Err _ => pg_document end.

Lemma sample_marshal_law : marshal_law sample_marshal.
Proof. by intros c D _. Qed.

Lemma document_roundtrip_witness :
  Parse sample_files sample_range sample_marshal (of_string "config") "copy.yaml" = Ok plain_document.
Proof.
  destruct (document_roundtrip sample_files sample_range sample_marshal sample_marshal_law sample_env_laws sample_enumerates sample_abs
           "plain.yaml" plain_document (of_string "config") "copy.yaml" "/etc/copy.yaml" sample_laws) as (d' & Hp & _ & _ & Hd).
  - vm_compute. reflexivity.
  - vm_compute. reflexivity.
  - vm_compute. reflexivity.
  - discriminate.
  - reflexivity.
  - rewrite Hp. f_equal. apply Hd, has_tcp_headers_spec. vm_compute. reflexivity.
Defined.

(** A document with a TCP rule that leaves its matcher out, and the document read
    back from its own encoding: the same rules, and not Equal. *)
Definition tcp_document : Document :=
  match Load sample_files sample_range sample_marshal "tcp.yaml" with Ok d => d | Err _ => pg_document end.
Definition reread_document : Document :=
  match Parse sample_files sample_range sample_marshal (of_string "tcp") "copy.yaml" with Ok d => d | Err _ => pg_document end.

Lemma tcp_reread_not_equal :
  Load sample_files sample_range sample_marshal "tcp.yaml" = Ok tcp_document ∧ Encode (d_config tcp_document) = Ok (of_string "tcp") ∧
  Parse sample_files sample_range sample_marshal (of_string "tcp") "copy.yaml" = Ok reread_document ∧
  d_config reread_document = make_config (d_config tcp_document) ∧
  RestartCompatible (Some tcp_document) (Some reread_document) = true ∧ Equal (Some tcp_document) (Some reread_document) = false.
Proof. split_and!; vm_compute; reflexivity. Qed.

Lemma validate_idem_witness : validate (fs_env sample_files) sample_range validated "" = Ok (validated, validated_digests).
Proof.
  apply (validate_idem (fs_env sample_files) sample_env_laws sample_range sample_enumerates (sample_config input_proxy) "/etc").
  - reflexivity.
  - vm_compute. reflexivity.
Defined.

Lemma restart_recovers_witness :
  ∃ d'' st' doc',
    Open sample_files sample_range sample_marshal private no_error 20 "/data" "plain.yaml" (crashed_disk open_disk) =
      (d'', Ok (st', doc')) ∧ so_state st' = so_state open_store ∧
    make_config (d_config doc') = make_config (d_config open_document).
Proof.
  destruct (restart_recovers sample_files sample_range sample_marshal sample_marshal_law sample_env_laws sample_enumerates sample_abs sample_laws
              open_store (sr_service idle_server) open_disk ledger0 open_document (crashed_disk open_disk) private no_error 20 "plain.yaml" "/etc//data/active.yaml")
    as (d'' & st' & doc' & Ho & Hs & _ & _ & _ & _ & Hm & _).
  - exact started_represents.
  - left. split; [vm_compute; reflexivity|]. apply (Load_finished sample_files sample_range sample_marshal "plain.yaml"). vm_compute. reflexivity.
  - reflexivity.
  - vm_compute. reflexivity.
  - vm_compute. discriminate.
  - split; [|split]; vm_compute; [left|reflexivity|reflexivity].
  - split; reflexivity.
  - reflexivity.
  - exists d'', st', doc'. split; [exact Ho|]. split; [exact Hs|exact Hm].
Defined.
