(* ===== verification/HttpWitnesses.v ===== *)
(** * HTTP requests at work

    A listener with one rule, an upstream that answers, and the theorems on the
    handler applied to them. *)

From Stdlib Require Import Ascii.
From S2P Require Import Prelude GoLib GoUtf8 GoRand Config Validate ValidateSpec Engine EngineSpec Control Recorder Grpc GoIO Fault FaultSpec Adapter Samples Http HttpSpec.
Local Open Scope go_scope.

Definition respond_fault : Fault :=
  http_fields BeforeUpstreamRequest "respond" None None (Some 503) (Some "down") "" None None.

Definition respond_document (sel : Selector) : Document :=
  sample_document (sample_proxy "http1" (sample_rule sel respond_fault)).

Lemma respond_rule_wf k : k ≠ 0 → rule_wf "http1" (sample_rule (every k) respond_fault).
Proof.
  intros Hk. split; [by apply sel_every|]. split; [vm_compute; by repeat constructor|].
  split; [|by intros _]. by apply hf_respond.
Qed.

Definition http_service (k : Z) : Service := enabled_service (respond_document (every k)).

Lemma http_service_good k : k ≠ 0 → service_good "p1" "http1" (http_service k).
Proof. intros Hk. apply enabled_service_good, sample_keeps; [done|by apply respond_rule_wf]. Qed.

#[local] Instance http_decisions : DecisionsOk Service Snapshot "p1" (adapter_fault "http1") :=
  service_DecisionsOk store_nothing "p1" "http1".

(** ** One exchange *)

Definition http_handler : handler :=
  {| h_proxyID := "p1"; h_protocol := "http1"; h_RequestTimeout := 1000; h_slots := 2; h_executor := true;
     h_recorder := true |}.

Definition get_request : Request :=
  {| rq_ProtoMajor := 1; rq_ProtoMinor := 1; rq_Method := "GET"; rq_Path := "/a"; rq_IsAbs := false;
     rq_Header := ∅ |}.

Definition upstream_body : chunks := {| ck_data := of_string "hello"; ck_end := EOF; ck_schedule := [2; 1]%nat |}.
Definition upstream_response : Response chunks :=
  {| up_StatusCode := 200; up_Header := ∅; up_Trailer := ∅; up_NoBody := false; up_Body := upstream_body |}.

Definition get_exchange : Exchange chunks :=
  {| x_request := get_request; x_parent := {| cx_done := None |}; x_flow := "f1"; x_started := 1; x_now := 2;
     x_close_err := None; x_write_err := None; x_upload_complete := true; x_upload_done := true;
     x_upload := {| ck_data := []; ck_end := EOF; ck_schedule := [] |}; x_upload_reads := [];
     x_transport _ _ := Ok upstream_response; x_latency := 5; x_copy_reads := replicate 9 4%nat; x_end := 1;
     x_finished := 20; x_shutdown := false |}.

Definition never (_ : error) : bool := false.

Definition decision_of (k : Z) : option (Service * (Decision * option string)) :=
  decide_at (http_service k) (acquire (http_service k)) "p1" (http_metadata get_exchange).
Definition decided_service (k : Z) : Service := match decision_of k with Some (s, _) => s | None => http_service k end.
Definition the_decision (k : Z) : Decision := match decision_of k with Some (_, (dec, _)) => dec | None => zero_decision end.

(** ** The theorems at these inputs *)

Lemma ServeHTTP_flow_witness :
  ∃ d' out decided, ServeHTTP http_handler never never get_exchange 0 (http_service 1) (http_service 1) = Some (d', out) ∧
    service_good "p1" "http1" d' ∧ flow_ok http_handler get_exchange decided out ∧ (decided = false → d' = http_service 1).
Proof.
  apply (ServeHTTP_flow http_handler never never (DecisionsOk0 := http_decisions)) with (x := get_exchange).
  - vm_compute. left.
  - vm_compute. discriminate.
  - exact (http_service_good 1 ltac:(lia)).
  - apply rely_refl.
Defined.

Lemma get_admissible : admissible http_handler get_exchange 0.
Proof. split; [discriminate|vm_compute; reflexivity|vm_compute; lia]. Qed.

Lemma ServeHTTP_transparent_witness :
  ∃ out, ServeHTTP http_handler never never get_exchange 0 (http_service 2) (http_service 2) = Some (decided_service 2, out) ∧
    sv_sent out = [Forwarded 200 (of_string "hello")].
Proof.
  destruct (ServeHTTP_transparent http_handler never never get_exchange 0 (http_service 2) (http_service 2) (http_metadata get_exchange)
              1000 (the_decision 2) (decided_service 2) upstream_response) as (out & HE & Hs & _).
  - vm_compute. reflexivity.
  - vm_compute. lia.
  - apply ad_http. discriminate.
  - vm_compute. discriminate.
  - reflexivity.
  - vm_compute. reflexivity.
  - vm_compute. reflexivity.
  - vm_compute. reflexivity.
  - reflexivity.
  - discriminate.
  - vm_compute. reflexivity.
  - exists out. exact (conj HE Hs).
Defined.

Lemma ServeHTTP_respond_witness :
  ∃ out, ServeHTTP http_handler never never get_exchange 0 (http_service 1) (http_service 1) = Some (decided_service 1, out) ∧
    sv_sent out = [Early 503 (Some 4) "down"].
Proof.
  destruct (ServeHTTP_respond http_handler never never get_exchange 0 (http_service 1) (http_service 1) (the_decision 1)
              (decided_service 1) 503 "down") as (out & HE & Hs & _).
  - exact get_admissible.
  - split; [reflexivity|vm_compute; reflexivity].
  - reflexivity.
  - reflexivity.
  - vm_compute. reflexivity.
  - vm_compute. reflexivity.
  - vm_compute. reflexivity.
  - rewrite !elem_of_cons. intros [H|[H|[H|H]]]; [discriminate..|by apply not_elem_of_nil in H].
  - discriminate.
  - reflexivity.
  - exists out. exact (conj HE Hs).
Defined.

(** ** A response held longer than the request may take *)

Definition hold_fault : Fault := http_fields AfterUpstreamHeaders "hold_response" None (Some 5000) None None "" None None.
Definition hold_service : Service :=
  enabled_service (sample_document (sample_proxy "http1" (sample_rule (every 1) hold_fault))).
Definition held : Service * Decision :=
  match decide_at hold_service (acquire hold_service) "p1" (http_metadata get_exchange) with
  | Some (s, (dec, _)) => (s, dec)
  | None => (hold_service, zero_decision)
  end.

Lemma ServeHTTP_response_lost_witness :
  ∃ out, ServeHTTP http_handler never never get_exchange 0 hold_service hold_service = Some (held.1, out) ∧
    sv_sent out = [] ∧ sv_closed out = true ∧ ho_UpstreamStatus (sv_report out) = 200.
Proof.
  destruct (ServeHTTP_response_lost http_handler never never get_exchange 0 hold_service hold_service (http_metadata get_exchange) 1000
              held.2 held.1 upstream_response) as (out & HE & Hs & Hp & Hc & _ & Hu).
  - vm_compute. reflexivity.
  - vm_compute. lia.
  - apply ad_http. discriminate.
  - vm_compute. discriminate.
  - intros t e [=].
  - reflexivity.
  - vm_compute. reflexivity.
  - vm_compute. reflexivity.
  - apply (wh_hold get_exchange 5000).
  - reflexivity.
  - discriminate.
  - exists out. exact (conj HE (conj Hs (conj (Hc Hp) Hu))).
Defined.

Lemma ServeHTTP_overload_witness :
  ∃ out, ServeHTTP http_handler never never get_exchange 2 (http_service 1) (http_service 1) = Some (http_service 1, out) ∧
    ho_Outcome (sv_report out) = "proxy_overload".
Proof.
  destruct (ServeHTTP_overload http_handler never never get_exchange 2 (http_service 1) (http_service 1)) as (out & HE & _ & Ho).
  - discriminate.
  - vm_compute. reflexivity.
  - vm_compute. lia.
  - exists out. exact (conj HE Ho).
Defined.
