(* ===== verification/SystemWitnesses.v ===== *)
(** * A process at work

    Servers started on concrete configurations, with connections, failures and a
    shutdown, and a whole run of the command line; the theorems on listeners,
    transport security and the command line applied to them. *)

From Stdlib Require Import Ascii.
From S2P Require Import Prelude GoLib GoUtf8 GoRand GoTime GoCrypto Config Validate ValidateSpec Engine EngineSpec Control ControlSpec Recorder Adapter Samples Witnesses Decode Load DecodeSpec LoadSpec LoadWitnesses GoIO TlsConf Store StoreSpec Admin AdminSpec Remote RemoteSpec RemoteWitnesses Listeners ListenersSpec TlsSpec Main MainSpec.
Local Open Scope go_scope.

(** ** The machine *)

Definition sample_tls : Tls := {| tls_env := fs_env sample_files; SystemCertPool := None; pem_Headers _ := false |}.

Lemma sample_urls : url_law sample_tls.
Proof.
  intros scheme host n Hs _ _. generalize (JoinHostPort (ToLower host) (Itoa n)). intros rest.
  assert (Cut ":" (scheme +:+ "://" +:+ rest) = (scheme, "//" +:+ rest, true)) as Hcut.
  { unfold schemes in Hs. rewrite !elem_of_cons in Hs.
    destruct Hs as [->|[->|[->|[->|[->|Hs]]]]]; [done..|by apply not_elem_of_nil in Hs]. }
  change (∃ u, sample_url (scheme +:+ "://" +:+ rest) = Some u ∧ u_Scheme u = scheme ∧ u_Host u = rest).
  unfold sample_url. rewrite Hcut, HasPrefix_app. by eexists.
Qed.

Definition free_address (n : nat) (a : string) : res string string := Ok a.

Lemma Load_starts_witness :
  ∃ s, Start sample_tls free_address TCP (d_config loaded_document) = Some (s, None) ∧ ep_id <$> ls_endpoints s = ["p2"].
Proof.
  destruct (Load_starts sample_files sample_range sample_marshal sample_tls free_address "faultline.yaml" loaded_document)
    as [Hs _].
  - reflexivity.
  - exact sample_urls.
  - vm_compute. reflexivity.
  - destruct (Hs TCP) as (s & err & Hst & Hall). exists s. destruct err as [e|].
    + exfalso. vm_compute in Hst. discriminate.
    + split; [exact Hst|]. vm_compute in Hst. injection Hst as <-. reflexivity.
Defined.

(** ** Listeners *)

Definition tcp_config : Config := sample_config second_proxy.
Definition tcp_server : Server :=
  match Start sample_tls free_address TCP tcp_config with Some (s, _) => s | None => new_server tcp_config [] end.

(** Two connections, then Close up to its wait. *)
Definition busy : list label :=
  [Accepted 0; Accepted 0; CloseFlag; CloseCancel; Accepted 0; FlowEnd true; CloseListener; CloseListener].
Definition busy_server : Server := default tcp_server (lexec_all TCP busy tcp_server).

Lemma busy_reachable : reachable sample_tls free_address TCP tcp_config busy_server.
Proof. exists tcp_server, busy. split; vm_compute; reflexivity. Qed.

Lemma listeners_bounded_witness : ls_active busy_server = 2%nat ∧ (ls_active busy_server ≤ 1024)%nat.
Proof.
  split; [vm_compute; reflexivity|].
  destruct (listeners_bounded sample_tls free_address TCP tcp_config busy_server busy_reachable) as [Hl _].
  etrans; [exact Hl|]. vm_compute. lia.
Defined.

Lemma Close_returns_witness :
  ∃ ls s, lexec_all TCP ls busy_server = Some s ∧ ls_close s = Returned.
Proof.
  destruct (Close_returns sample_tls free_address TCP tcp_config busy_server [FlowEnd true]
              (default busy_server (lexec TCP (FlowEnd true) busy_server)) busy_reachable) as [_ (ls & s & Hs & Hc & _)].
  - vm_compute. reflexivity.
  - vm_compute. reflexivity.
  - exists (FlowEnd true :: ls), s. split; [|exact Hc]. revert Hs. vm_compute. auto.
Defined.

Lemma shutdown_silent_witness : ls_errors busy_server = [].
Proof.
  apply (shutdown_silent sample_tls free_address TCP tcp_config tcp_server busy).
  - vm_compute. reflexivity.
  - vm_compute. reflexivity.
  - intros i err. unfold busy. set_solver.
Defined.

(** ** The command line *)

Definition sample_machine : Machine :=
  {| mc_tls := sample_tls; mc_bind _ := free_address; mc_dir := private; mc_io := no_error; mc_io2 := no_error;
     mc_salt := Ok (replicate 16 (byte.of_Z 0)); mc_stdin_mode := Ok false; mc_stdin := Ok []; mc_users := None;
     mc_runID := "run"; mc_now := 1; mc_admin_mkdir := None; mc_admin_stat := Ok (true, 448); mc_admin_listen := None;
     mc_admin_chmod := None; mc_api_listen := None; mc_stop := None; mc_call _ _ := Err "no instance" |}.

Definition serve_flags : Flags :=
  {| fg_config := "faultline.yaml"; fg_socket := "/tmp/s"; fg_dataDir := ""; fg_apiListen := ""; fg_apiCert := "";
     fg_apiKey := ""; fg_enabled := true; fg_eventBuffer := 16; fg_timeout := 5; fg_NArg := 0 |}.

Definition managed_flags : Flags :=
  {| fg_config := "plain.yaml"; fg_socket := "/tmp/s"; fg_dataDir := "/data"; fg_apiListen := "127.0.0.1:8443"; fg_apiCert := "c";
     fg_apiKey := "k"; fg_enabled := true; fg_eventBuffer := 16; fg_timeout := 5; fg_NArg := 0 |}.

Definition run_with (f : Flags) (m : Machine) : option Outcome :=
  run sample_files sample_range sample_marshal (λ p, Some (of_string p)) (λ _, true) to_string
    (λ _ _, Parsed f) (λ _, Help) (λ _, Help) id m ["serve"] empty_disk.
Definition sample_run : Machine → option Outcome := run_with serve_flags.

(** A machine that has a certificate and a key for the API. *)
Definition api_env : Env :=
  {| ReadFile _ := Some []; ParseIP := ParseIP sample_env; Clean := Clean sample_env; url_Parse := sample_url;
     X509KeyPair _ _ := true; pem_Decode _ := None; ParseCertificate _ := false |}.
Definition api_machine : Machine :=
  {| mc_tls := {| tls_env := api_env; SystemCertPool := None; pem_Headers _ := false |}; mc_bind _ := free_address; mc_dir := private;
     mc_io := no_error; mc_io2 := no_error; mc_salt := Ok []; mc_stdin_mode := Ok false; mc_stdin := Ok []; mc_users := None;
     mc_runID := "run"; mc_now := 1; mc_admin_mkdir := None; mc_admin_stat := Ok (true, 448); mc_admin_listen := None;
     mc_admin_chmod := None; mc_api_listen := None; mc_stop := None; mc_call _ _ := Err "no instance" |}.
Definition served : Outcome := default (output [] empty_disk None) (run_with managed_flags api_machine).

Lemma run_lifecycle_witness :
  oc_err served = None ∧ bool_decide (Recorded "serve" "ready" ∈ oc_trace served) = true ∧
  balanced (oc_trace served) = true ∧ ready_means true [] (oc_trace served) = true.
Proof.
  split; [vm_compute; reflexivity|]. split; [vm_compute; reflexivity|].
  assert (lifecycle (managed_mode (λ _ _, Parsed managed_flags) ["serve"]) empty_disk served) as Hl.
  - apply (run_lifecycle sample_files sample_range sample_marshal (λ p, Some (of_string p)) (λ _, true) to_string
      (λ _ _, Parsed managed_flags) (λ _, Help) (λ _, Help) id api_machine ["serve"] empty_disk served).
    vm_compute. reflexivity.
  - exact (conj (lc_balanced _ _ _ Hl) (lc_ready _ _ _ Hl)).
Defined.

Lemma run_returns_witness : ∃ o, sample_run sample_machine = Some o.
Proof.
  exact (run_returns sample_files sample_range sample_marshal (λ p, Some (of_string p)) (λ _, true) to_string
    (λ _ _, Parsed serve_flags) (λ _, Help) (λ _, Help) id sample_machine eq_refl sample_urls
    ["serve"] empty_disk).
Defined.

Definition idle_service : Service := sr_service idle_server.

Lemma command_carried_out_witness :
  let '(s, _, _, rep) :=
    handle sample_files sample_range sample_marshal (λ _ _ w, (w, None)) (λ b, Some (to_string b, true)) false []
      (received {| cr_Method := "POST"; cr_Path := "/enable"; cr_Body := None |}) 20 21 idle_service tt (Recorder.New 8) in
  i_Enabled (sn_info (Acquire s)) = true.
Proof.
  pose proof (command_carried_out sample_files sample_range sample_marshal (λ p, Some (of_string p)) (λ _ _ w, (w, None))
    (λ b, Some (to_string b, true)) ltac:(intros p data [= <-]; by rewrite to_of_string) "enable" "/etc/x"
    {| cr_Method := "POST"; cr_Path := "/enable"; cr_Body := None |} [] 20 21 idle_service tt (Recorder.New 8)) as Hc.
  destruct (handle _ _ _ _ _ _ _ _ _ _ _ _ _) as [[[s w] r] rep].
  destruct Hc as (_ & x & Hs & _).
  - left.
  - reflexivity.
  - reflexivity.
  - vm_compute. discriminate.
  - change (str_eq "enable" "enable") with true in Hs.
    assert (s = (SetEnabled idle_service true 20).1) as -> by (by rewrite Hs). vm_compute. reflexivity.
Defined.
